(* ===== verification/_CoqProject ===== *)
-Q . S2P
Prelude.v
Dag.v
BallLarus.v
SpanningTree.v
ChordIncrements.v
Push.v
Marking.v
MarkFrame.v
IR.v
ListIR.v
Instrument.v
Execution.v
Emitted.v
Insertion.v
Dot.v
Placement.v
Emission.v
Emit.v
SplitStep.v
Flow.v
Simulation.v
Pipeline.v
Labels.v
Report.v
ProfileCalls.v
WellFormed.v
WholeModule.v
I386.v
PathRuntime.v
Profile.v
Strtoul.v
WaitStatus.v
RegTrace.v
Ptrace.v
Rpc.v
Sysemu.v
Futex.v
Watchpoint.v
Seccomp.v
Vdso.v
Strlen.v
Lcmp.v
Desched.v
RrMon.v
TestPrograms.v
