(* ===== verification/Prelude.v ===== *)
(** * rr-workbench: a verification development

    ** The program

    The repository is the workbench of the record-and-replay debugger rr.  Its
    largest part is an LLVM pass with the runtime it calls:

    - src/PathLogging.cpp instruments every function of a module so that it
      reports, while it runs, the number of every acyclic path it has taken
      (Ball and Larus, "Efficient Path Profiling").  It takes LLVM's numbered
      Ball-Larus DAG of the function; finds a spanning tree and its chords;
      moves the path-number increments to the chords; pushes the
      initialisation of the path register down and the reports up; unlinks the
      phony edges; and inserts additions, PHI nodes and runtime calls,
      splitting critical edges on the way.
    - src/path_logging.c is the runtime: the calls the pass inserts append
      records to a buffer of the thread, which is written to the thread's file
      when it is full, when the thread or the process ends, and is dropped in
      the child of a fork.

    Around it stand small tools on ptrace, seccomp, the vdso, debug registers
    and perf events (src/regtrace.c, src/rpc_syscall.c, src/sysemu.c,
    src/seccomp-bpf.h, src/seccomptrace.c, src/vdso_monkeypatch.c,
    src/watchpoint.c, src/notify_desched.c), a library that monitors processes
    (src/rrmon.c), and command-line helpers (src/status2text.c,
    src/strfutexcmd.c, src/lcmp.c).  They share no state with the pass;
    src/sysemu.c, src/rpc_syscall.c and src/notify_desched.c each have a copy of
    [dump_status].  Two glibc routines are kept in an instrumented version: a
    strlen in assembly that counts, in registers its caller reads, which of its
    blocks ran (src/libc-sysdeps-i386-i586-strlen.S), and an fputs that asks
    for the counts (src/libc-libio-iofputs.c).  A few small programs are what
    the tools are tried on.

    ** How the model is laid out

    The path-logging pass, in the order in which its phases run:

    - [Dag]: the objects.  [BLInstrumentationNode], [BLInstrumentationEdge] and
      [BLInstrumentationDag] are records with one field per data member, base
      class included; a pointer is a key of [nodeStore] or [edgeStore]; one
      function per accessor.
    - [BallLarus]: what LLVM guarantees of the DAG it hands over
      ([BallLarusDag], from the comment at the head of the C++ file), the DAG's
      paths, the routes of the real control-flow graph, and how a route splits
      into DAG paths at its backedges.
    - [SpanningTree], [ChordIncrements], [Push]: calculateSpanningTree and
      makeEdgeSpanning; calculateChordIncrements with its two helpers; the two
      push-down/push-up recursions, as two instances of one [push].
    - [Marking], [MarkFrame]: the phases composed ([markDag]) and the meaning
      of the marks ([edgeExec]: what the code for an edge must do to the path
      register); what the phases leave alone.
    - [IR], [ListIR]: LLVM as the class [LLVM] of the operations the pass calls,
      with their documented behaviour in [LLVMSpec] and [LLVMFlow]; the base
      class's mutators likewise ([BallLarusOps], [BallLarusOpsSpec]).  [ListIR]
      is a concrete instance which satisfies all laws and evaluates examples.
    - [Instrument]: every method of [PathProfiler] that places code, over the
      state [PassState]; failing asserts, null pointers and running past the
      end of a list are values of [result].
    - [Execution], [Emitted]: what inserted instructions do at run time; the
      shape of an instrumented function, and that a function of this shape
      reports what the marks say.
    - [Insertion]: the insertion terminates, covers every edge, and leaves the
      original code in place, for every instance of [LLVM].
    - [Placement], [Emission], [Emit]: what the code placed for one edge is; the
      invariant [Inv] of the traversal (the DAG mirrors the function: [Layout];
      the marks are consistent: [Labelled]; the edges done have their code); and
      that placing an edge's code keeps it.
    - [SplitStep], [Flow], [Simulation]: splitting a critical edge keeps the
      invariant and refines the routes; the traversal as a whole, from a
      [Prepared] DAG, never fails and leaves a function that runs like its marks.
    - [Pipeline]: unlinkPhony, runOnFunction and runOnModule.
    - [Dot]: the text generateDotGraph and operator<< write, with a reader.
    - [Labels], [Report]: the marks of the marking phases are consistent, so what
      LLVM hands over ([Handed], [Mirrors]) leads to [Prepared]; the whole pass
      on a function.
    - [WellFormed], [WholeModule]: the PHI nodes the pass leaves; the whole pass
      on a module.
    - [ProfileCalls]: InsertProfilingInitCall, IncrementCounterInBlock and
      InsertProfilingShutdownCall, which the pass reaches from code under #if 0
      only, over functions whose instructions have operands.

    [Profile] puts the pass and the runtime together: the calls a run of an
    instrumented function makes are events of [PathRuntime] (path_logging.c).

    The runtime and the tools, one file each: [PathRuntime] (path_logging.c),
    [WaitStatus] (status2text.c and the dump_status the ptrace tools share),
    [RegTrace], [Futex] (strfutexcmd.c), [Watchpoint], [Seccomp]
    (seccomp-bpf.h, seccomptrace.c), [Vdso] (vdso_monkeypatch.c), [Strlen]
    (the two glibc routines), [Lcmp], [Desched] (notify_desched.c), [RrMon],
    [TestPrograms] (pwrite64_testcase.c, launch.c, paths.c, bad_syscall.c and
    mod.cc, a module each).  [Ptrace] is the kernel as a tracer sees it, a class
    of operations with a class of documented laws and a machine that has both;
    its clients are [Rpc] (rpc_syscall.c) and [Sysemu], and [Desched] takes its
    registers from it.  [I386] is memory as bytes, with its little-endian words
    (the runtime's records are such words in the file);
    [Vdso] and [Strlen] each have the fragment of the processor their code uses.
    [Strtoul] is the C library's reading of the numbers on the command lines.
    A tool's [main] is its whole program: the result of [fork] or the outcome of
    [fopen] is an argument, and the steps of the child are a list.

    ** What the theorems show

    Pass.  On a function whose DAG LLVM built as documented the pass succeeds,
    and the instrumented function reports, along every complete path of its
    control-flow graph, the numbers of the DAG paths it consists of
    ([Report.instrumented_function_reports_its_paths]).  This is put together
    from two halves, which hold more generally.  The insertion implements every
    consistent marking ([Report.insertion_implements_the_marks]).  The marks
    count every DAG path exactly once and under its number, and every route of
    the function reports the numbers of its paths in order
    ([Marking.marked_routes_report_path_numbers], with
    [ChordIncrements.chord_increments_preserve_cycles] for the increments and
    [Marking.cut_edge_asserts_hold] for the two asserts on cut edges); numbers
    identify paths ([Marking.reports_identify_the_paths]).  The insertion
    returns, instruments everything it can reach unless it warns, and adds
    instructions only ([Insertion]).  runOnFunction and runOnModule do that to
    every function and add up their totals ([Pipeline]), so that every body of
    a module reports its paths ([WholeModule.module_reports_its_paths]).  The
    PHI nodes the pass leaves are what the LLVM verifier asks for
    ([WellFormed.phi_nodes_fit_their_blocks]).  The graph written for a DAG can
    be read back ([Dot.dot_graph_reads_back]).  The spanning-tree
    search never adds an edge to the tree, because of its colour test
    ([SpanningTree.calculateSpanningTree_adds_no_tree_edge]): all edges are
    chords, which is correct but not what the algorithm intends.

    Runtime.  Over every interleaving of threads and events, the writes issued
    and the buffers together hold exactly what was recorded; thread exit saves
    everything and unmaps the buffer; a forked child starts clean; the page
    rounding on 32-bit lengths, with its overflow.  The code looks at no result
    of a write, so a write is modelled as issued; [PathRuntime.kept] is what the
    kernel keeps of a sequence of writes by its answers: everything when every
    write is taken whole ([PathRuntime.kept_whole]), and a write that is refused
    loses its records for good ([PathRuntime.refused_write_loses_records]).

    Pass and runtime.  A run of an instrumented function appends the records of
    its DAG paths to the thread's log ([Profile.runs_are_logged]), and what it
    reports tells which blocks it went through ([Profile.log_identifies_the_run],
    by [Marking.segments_inj]: the DAG paths of a route determine the route).

    Tools.  Round trips of the decoders; ptrace loops follow every status
    sequence the kernel documents; a remote call is served with the child's
    registers restored ([Rpc.rpc_is_served]); no task runs before its
    watchpoint is armed ([Watchpoint.main_arms_before_resuming]); filters built
    from the seccomp macros implement the policy their clauses state, and where
    a macro breaks it; the patched vdso keeps the contract of the one it
    replaces; the assembly of strlen computes what the obvious definition does,
    and its counters reach the tracer that fputs shows them to without reaching
    the caller of fputs ([Strlen.strlen_equals_reference],
    [Strlen.fputs_shows_the_counters]); loops end, except where the code makes
    them run forever ([Lcmp.lcmp_loops_on_read_error],
    [RrMon.dump_process_stats_never_ends], [RrMon.segv_never_ends]).

    ** Conventions

    A C [long] or [int] is a [Z] reduced by [i64] or [i32] after every
    operation that can overflow; unsigned words by [u32].  LLVM's [i32]
    constants are reduced where the constant is made.  Loops over finite vectors
    are folds.  The other loops and recursions take fuel: the two pushes
    [pushFuel], two more than the number of nodes (DAG paths repeat no node);
    calculateChordIncrementsDfs one more than the number of tree edges; the
    insertion twice the number of edges, since every call instruments an edge
    and each edge is split at most once.  That these bounds are enough is proved
    ([Insertion.insertion_terminates], and in the files of the phases).  Loops
    driven by the kernel or by input run along the sequence of answers.

    ** Not modelled

    - LLVM: the IR, SplitCriticalEdge, and BallLarusDag's own code (init,
      calculatePathNumbers) are parameters with documented laws.
      [SplitCriticalEdge] may refuse; the pass then prints a warning, and the
      theorems on complete runs speak of runs without warnings.
    - Calls that end the program early: LLVM adds phony call edges for them only
      on request; the code for them is modelled ([instrumentCallEdge]), but the
      theorems on complete runs assume that there are none ([mr_calls]).
    - A failing mmap: the runtime does not test for it and writes through
      MAP_FAILED; the model's run ends there, and the theorems that a run
      succeeds assume that memory can be mapped.
    - The pass's DEBUG output other than operator<<: it prints fixed messages.  Pass
      registration and command-line options: LLVM glue; whether the graph is
      written is such an option and has no effect on the DAG.
    - ctor.cc: it prints from a static object's constructor and from a
      constructor function, at times the loader chooses.
    - What a compiler makes of C, but for the two glibc routines: there the body
      of _IO_fputs is an asm statement, and [strlen_wrapper] one call.  The
      operations on streams in _IO_fputs_rest are parameters.
    - Text printed for debugging only, but for dump_siginfo_regs; scripts,
      Makefile and configuration. *)

From stdpp Require Import base numbers list gmap.

(** ** Machine integers

    The instrumentation pass computes path-number increments in a C [long]
    (64-bit two's complement on the host) and emits them as LLVM [i32]
    constants.  [i64] and [i32] are the conversions to those types. *)

Declare Scope rrw_scope.
Delimit Scope rrw_scope with rrw.

Local Open Scope Z_scope.

Definition wrapU (w z : Z) : Z := z mod 2 ^ w.

Definition wrapS (w z : Z) : Z := (z + 2 ^ (w - 1)) mod 2 ^ w - 2 ^ (w - 1).

Definition u32 (z : Z) : Z := wrapU 32 z.

Definition i32 (z : Z) : Z := wrapS 32 z.

Definition i64 (z : Z) : Z := wrapS 64 z.

(** Equality modulo [2^64]: the equivalence under which the pass's [long]
    arithmetic is ordinary integer arithmetic. *)
Definition eqm64 (a b : Z) : Prop := a mod 2 ^ 64 = b mod 2 ^ 64.

Infix "=64" := eqm64 (at level 70, no associativity) : rrw_scope.

Local Open Scope rrw_scope.

#[export] Instance eqm64_equivalence : Equivalence eqm64.
Proof. unfold eqm64. split; red; intros; congruence. Qed.

#[export] Instance eqm64_add : Proper (eqm64 ==> eqm64 ==> eqm64) Z.add.
Proof.
  intros a b H c d H'; unfold eqm64 in *.
  rewrite Zplus_mod, H, H', <- Zplus_mod; done.
Qed.

#[export] Instance eqm64_sub : Proper (eqm64 ==> eqm64 ==> eqm64) Z.sub.
Proof.
  intros a b H c d H'; unfold eqm64 in *.
  rewrite Zminus_mod, H, H', <- Zminus_mod; done.
Qed.

#[export] Instance eqm64_mul : Proper (eqm64 ==> eqm64 ==> eqm64) Z.mul.
Proof.
  intros a b H c d H'; unfold eqm64 in *.
  rewrite Zmult_mod, H, H', <- Zmult_mod; done.
Qed.

#[export] Instance eqm64_opp : Proper (eqm64 ==> eqm64) Z.opp.
Proof. intros a b H. rewrite <- !Z.sub_0_l. by rewrite H. Qed.

Lemma eqm64_eq a b : a = b -> a =64 b.
Proof. by intros ->. Qed.

(** Conversion to a [w]-bit signed integer moves by a multiple of [2^w]. *)
Lemma wrapS_shift w z : 0 < w -> exists k, wrapS w z = z + k * 2 ^ w.
Proof.
  intros Hw. unfold wrapS. exists (- ((z + 2 ^ (w - 1)) / 2 ^ w)).
  pose proof (Z.div_mod (z + 2 ^ (w - 1)) (2 ^ w) ltac:(apply Z.pow_nonzero; lia)).
  lia.
Qed.

Lemma wrapS_small w z : 0 < w -> - 2 ^ (w - 1) <= z < 2 ^ (w - 1) -> wrapS w z = z.
Proof.
  intros Hw Hz. unfold wrapS.
  assert (2 ^ w = 2 * 2 ^ (w - 1)) as E.
  { rewrite <- Z.pow_succ_r by lia. f_equal; lia. }
  rewrite Z.mod_small; lia.
Qed.

Lemma wrapS_range w z : 0 < w -> - 2 ^ (w - 1) <= wrapS w z < 2 ^ (w - 1).
Proof.
  intros Hw. unfold wrapS.
  assert (2 ^ w = 2 * 2 ^ (w - 1)) as E.
  { rewrite <- Z.pow_succ_r by lia. f_equal; lia. }
  pose proof (Z.mod_pos_bound (z + 2 ^ (w - 1)) (2 ^ w) ltac:(apply Z.pow_pos_nonneg; lia)).
  lia.
Qed.

Lemma i64_eqm z : i64 z =64 z.
Proof.
  destruct (wrapS_shift 64 z) as [k Hk]; [lia|].
  unfold eqm64, i64. rewrite Hk. apply Z_mod_plus_full.
Qed.

Lemma i64_small z : - 2 ^ 63 <= z < 2 ^ 63 -> i64 z = z.
Proof. intros. apply (wrapS_small 64); [lia|exact H]. Qed.

Lemma i32_small z : - 2 ^ 31 <= z < 2 ^ 31 -> i32 z = z.
Proof. intros. apply (wrapS_small 32); [lia|exact H]. Qed.

(** Truncating to [i32] only depends on the value modulo [2^64]. *)
#[export] Instance i32_eqm64 : Proper (eqm64 ==> eq) i32.
Proof.
  intros a b H. unfold i32, wrapS, eqm64 in *. f_equal.
  assert ((2 ^ 32 | 2 ^ 64)) as D by (exists (2 ^ 32); reflexivity).
  rewrite <- (Z.mod_mod_divide (a + _) (2 ^ 64) (2 ^ 32) D).
  rewrite <- (Z.mod_mod_divide (b + _) (2 ^ 64) (2 ^ 32) D).
  rewrite Zplus_mod, H, <- Zplus_mod. done.
Qed.

#[export] Instance i64_eqm64 : Proper (eqm64 ==> eq) i64.
Proof.
  intros a b H. unfold i64, wrapS, eqm64 in *. f_equal.
  rewrite Zplus_mod, H, <- Zplus_mod. done.
Qed.

(** Numbers of 32 bits keep their identity. *)
Lemma i32_inj a b : 0 <= a < 2 ^ 32 -> 0 <= b < 2 ^ 32 -> i32 a = i32 b -> a = b.
Proof.
  intros Ha Hb H. destruct (wrapS_shift 32 a) as [k Hk]; [lia|]. destruct (wrapS_shift 32 b) as [k' Hk']; [lia|].
  unfold i32 in H. rewrite Hk, Hk' in H. assert (k = k') by lia. lia.
Qed.

(** [i64] can be erased anywhere under [=64]. *)
Ltac simpl64 := repeat rewrite !i64_eqm.
Ltac ring64 := simpl64; apply eqm64_eq; lia.

(** ** A fold that may fail

    A loop over an iterator range whose body may hit undefined behaviour or
    run out of fuel ([None]). *)
Fixpoint foldM {A B} (f : A -> B -> option A) (a : A) (l : list B) : option A :=
  match l with
  | [] => Some a
  | b :: l' => a' ← f a b; foldM f a' l'
  end.

Lemma foldM_app {A B} (f : A -> B -> option A) a l1 l2 :
  foldM f a (l1 ++ l2) = (a' ← foldM f a l1; foldM f a' l2).
Proof.
  revert a. induction l1 as [|b l1 IH]; intros a; simpl; [done|].
  destruct (f a b); simpl; [apply IH|done].
Qed.

(** Invariant rule for [foldM]: [I done a] is kept by every iteration. *)
Lemma foldM_ind {A B} (f : A -> B -> option A) (I : list B -> A -> Prop) l a a' :
  I [] a ->
  (forall pre b post x x', l = pre ++ b :: post -> I pre x -> f x b = Some x' ->
     I (pre ++ [b]) x') ->
  foldM f a l = Some a' -> I l a'.
Proof.
  intros H0 Hstep.
  assert (forall pre post x, l = pre ++ post -> I pre x -> foldM f x post = Some a' -> I l a') as G.
  { intros pre post. revert pre. induction post as [|b post IH]; intros pre x Hl HI Hf.
    - simplify_eq/=. by rewrite app_nil_r.
    - simpl in Hf. destruct (f x b) as [x'|] eqn:E; [|done]. simpl in Hf.
      apply (IH (pre ++ [b]) x'); [by rewrite <- app_assoc| |done].
      by eapply Hstep. }
  intros. by eapply (G []).
Qed.

(** Totality rule for [foldM]. *)
Lemma foldM_is_Some {A B} (f : A -> B -> option A) (I : A -> Prop) l a :
  I a ->
  (forall b x, b ∈ l -> I x -> exists x', f x b = Some x' /\ I x') ->
  exists a', foldM f a l = Some a' /\ I a'.
Proof.
  revert a. induction l as [|b l IH]; intros a Ha Hstep; simpl; [eauto|].
  destruct (Hstep b a) as (x & -> & Hx); [set_solver|done|]. simpl.
  apply IH; [done|]. intros; apply Hstep; set_solver.
Qed.

Lemma app_not_self {A} (l : list A) x : l ++ [x] <> l.
Proof. intros E. apply (f_equal length) in E. rewrite length_app in E. simpl in E. lia. Qed.

Lemma app_longer {A} (l : list A) x m : l <> l ++ x :: m.
Proof. intros E. apply (f_equal length) in E. rewrite length_app in E. simpl in E. lia. Qed.

(** ** Sums over lists *)
Definition Zsum {A} (g : A -> Z) (l : list A) : Z := foldr (fun x acc => g x + acc) 0 l.

Arguments Zsum : simpl never.

Lemma Zsum_nil {A} (g : A -> Z) : Zsum g [] = 0.
Proof. done. Qed.

Lemma Zsum_cons {A} (g : A -> Z) x l : Zsum g (x :: l) = g x + Zsum g l.
Proof. done. Qed.

Lemma Zsum_app {A} (g : A -> Z) l1 l2 : Zsum g (l1 ++ l2) = Zsum g l1 + Zsum g l2.
Proof. induction l1; simpl in *; rewrite ?Zsum_cons, ?Zsum_nil; lia. Qed.

Lemma Zsum_eqm64 {A} (g h : A -> Z) l :
  (forall x, x ∈ l -> g x =64 h x) -> Zsum g l =64 Zsum h l.
Proof.
  induction l as [|x l IH]; intros H; [done|].
  rewrite !Zsum_cons, (H x), IH by set_solver. done.
Qed.

Lemma Zsum_ext {A} (g h : A -> Z) l :
  (forall x, x ∈ l -> g x = h x) -> Zsum g l = Zsum h l.
Proof.
  induction l as [|x l IH]; intros H; [done|].
  rewrite !Zsum_cons, (H x), IH by set_solver. done.
Qed.

Lemma Zsum_zero {A} (g : A -> Z) l : (forall x, x ∈ l -> g x = 0) -> Zsum g l = 0.
Proof.
  induction l as [|x l IH]; intros H; [done|].
  rewrite Zsum_cons, (H x), IH by set_solver. done.
Qed.

Lemma Zsum_sub {A} (g h : A -> Z) l : Zsum (fun x => g x - h x) l = Zsum g l - Zsum h l.
Proof. induction l as [|x l IH]; [done|]. rewrite !Zsum_cons, IH. lia. Qed.

Lemma Zsum_rev {A} (g : A -> Z) l : Zsum g l = Zsum g (rev l).
Proof.
  induction l as [|x l IH]; [done|]. cbn [rev]. rewrite Zsum_cons, Zsum_app, <- IH, Zsum_cons, Zsum_nil. lia.
Qed.

(** Two functions that differ at a single list element have sums that differ
    by that difference. *)
Lemma Zsum_split_one {A} (a : A) (g h : A -> Z) (z : Z) l :
  NoDup l -> a ∈ l -> g a = z + h a ->
  (forall x, x ∈ l -> x <> a -> g x = h x) -> Zsum g l = z + Zsum h l.
Proof.
  intros Hnd Ha Hz Hx. induction Hnd as [|x l Hnin Hnd IH]; [by apply not_elem_of_nil in Ha|].
  rewrite !Zsum_cons. apply elem_of_cons in Ha as [->|Ha].
  - rewrite Hz, (Zsum_ext g h l); [lia|].
    intros y Hy. apply Hx; [by right|]. by intros ->.
  - rewrite IH; [|done|intros y Hy; apply Hx; by right].
    rewrite (Hx x); [lia|by left|]. by intros ->.
Qed.

(** The same for sums of natural numbers. *)
Lemma sum_list_with_ext {A} (f g : A -> nat) l :
  (forall x, x ∈ l -> f x = g x) -> sum_list_with f l = sum_list_with g l.
Proof.
  induction l as [|x l IH]; intros H; [done|]. simpl.
  rewrite (H x), IH; [done| |by left]. intros; apply H; by right.
Qed.

Lemma sum_list_with_one {A} (f g : A -> nat) a l :
  NoDup l -> a ∈ l -> (forall x, x ∈ l -> x <> a -> f x = g x) ->
  (sum_list_with f l + g a = sum_list_with g l + f a)%nat.
Proof.
  intros Hnd Ha Hx. induction Hnd as [|x l Hnin Hnd IH]; [by apply not_elem_of_nil in Ha|]. simpl.
  apply elem_of_cons in Ha as [->|Ha].
  - rewrite (sum_list_with_ext f g l); [lia|].
    intros y Hy. apply Hx; [by right|]. by intros ->.
  - rewrite (Hx x); [|by left|by intros ->].
    specialize (IH Ha ltac:(intros; apply Hx; [by right|done])). lia.
Qed.

Create HintDb rrw.
Create Rewrite HintDb rrw.
#[export] Hint Rewrite @Zsum_nil @Zsum_cons @Zsum_app : rrw.
