(* ===== verification/Dag.v ===== *)
(** * The Ball-Larus DAG and its instrumentation data

    [BLInstrumentationNode], [BLInstrumentationEdge] and the state of
    [BLInstrumentationDag] (src/PathLogging.cpp), with their accessors.

    The base classes [BallLarusNode], [BallLarusEdge] and [BallLarusDag] are
    LLVM's (llvm/Analysis/PathNumbering.h).  Their data members are fields of
    the records below, because the pass reads and writes them; the code that
    builds the DAG and numbers its paths is not modelled: what the pass relies
    on is stated as the predicate [BallLarusDag].

    C++ objects live in two stores, [nodeStore] and [edgeStore]; a pointer is
    a key.  The vectors [_nodes] and [_edges] hold the pointers in creation
    order.  Reading through a pointer that was never created yields a default
    object; [BallLarusDag] says every pointer the pass follows was created. *)

From stdpp Require Import base numbers list gmap.
From S2P Require Import Prelude.

Local Open Scope Z_scope.

(** ** Pointers and enumerations *)

Definition NodeId := nat.
Definition EdgeId := nat.
Definition BlockId := nat.
Definition InstId := nat.
Definition GlobalId := nat.

(** [BallLarusEdge::EdgeType]: the six cases [generateDotGraph] switches on. *)
Inductive EdgeType : Set :=
  | NORMAL
  | BACKEDGE
  | SPLITEDGE
  | BACKEDGE_PHONY
  | SPLITEDGE_PHONY
  | CALLEDGE_PHONY.

(** [BallLarusNode::NodeColor]: the pass only distinguishes [WHITE]. *)
Inductive NodeColor : Set :=
  | WHITE
  | OtherColor (n : nat).

(** The path-number [Value]s the pass holds: an [i32] constant, or a pointer
    to the instruction (an addition or a PHI node) that computes it. *)
Inductive Value : Set :=
  | ConstantInt (c : Z)
  | Instruction (i : InstId).

#[export] Instance EdgeType_eq_dec : EqDecision EdgeType.
Proof. solve_decision. Defined.

#[export] Instance NodeColor_eq_dec : EqDecision NodeColor.
Proof. solve_decision. Defined.

#[export] Instance Value_eq_dec : EqDecision Value.
Proof. solve_decision. Defined.

(** ** Nodes *)

Record BLInstrumentationNode : Set := MkNode {
  getBlock : option BlockId;              (* NULL for the exit node *)
  predEdges : list EdgeId;
  succEdges : list EdgeId;
  getColor : NodeColor;
  _startingPathNumber : option Value;
  _endingPathNumber : option Value;
  _pathPHI : option InstId
}.

(** The constructor of [BLInstrumentationNode]: no path numbers, no PHI. *)
Definition newNode (BB : option BlockId) : BLInstrumentationNode :=
  MkNode BB [] [] (OtherColor 0) None None None.

Definition createNode (BB : option BlockId) : BLInstrumentationNode := newNode BB.

Definition getStartingPathNumber (n : BLInstrumentationNode) : option Value :=
  _startingPathNumber n.

Definition setStartingPathNumber (pathNumber : option Value) (n : BLInstrumentationNode)
  : BLInstrumentationNode :=
  MkNode (getBlock n) (predEdges n) (succEdges n) (getColor n)
         pathNumber (_endingPathNumber n) (_pathPHI n).

Definition getEndingPathNumber (n : BLInstrumentationNode) : option Value :=
  _endingPathNumber n.

Definition setEndingPathNumber (pathNumber : option Value) (n : BLInstrumentationNode)
  : BLInstrumentationNode :=
  MkNode (getBlock n) (predEdges n) (succEdges n) (getColor n)
         (_startingPathNumber n) pathNumber (_pathPHI n).

Definition getPathPHI (n : BLInstrumentationNode) : option InstId := _pathPHI n.

Definition setPathPHI (pathPHI : option InstId) (n : BLInstrumentationNode)
  : BLInstrumentationNode :=
  MkNode (getBlock n) (predEdges n) (succEdges n) (getColor n)
         (_startingPathNumber n) (_endingPathNumber n) pathPHI.

(** Members of the base class. *)
Definition setColor (c : NodeColor) (n : BLInstrumentationNode) : BLInstrumentationNode :=
  MkNode (getBlock n) (predEdges n) (succEdges n) c
         (_startingPathNumber n) (_endingPathNumber n) (_pathPHI n).

Definition setPredEdges (l : list EdgeId) (n : BLInstrumentationNode) : BLInstrumentationNode :=
  MkNode (getBlock n) l (succEdges n) (getColor n)
         (_startingPathNumber n) (_endingPathNumber n) (_pathPHI n).

Definition setSuccEdges (l : list EdgeId) (n : BLInstrumentationNode) : BLInstrumentationNode :=
  MkNode (getBlock n) (predEdges n) l (getColor n)
         (_startingPathNumber n) (_endingPathNumber n) (_pathPHI n).

(** ** Edges *)

Record BLInstrumentationEdge : Set := MkEdge {
  getSource : NodeId;
  getTarget : NodeId;
  getType : EdgeType;
  getWeight : Z;                          (* [unsigned]: the path-number weight *)
  getPhonyRoot : option EdgeId;
  getPhonyExit : option EdgeId;
  _increment : Z;
  _isInSpanningTree : bool;
  _isInitialization : bool;
  _isCounterIncrement : bool;
  _hasInstrumentation : bool
}.

(** The constructor of [BLInstrumentationEdge]. *)
Definition newEdge (source target : NodeId) : BLInstrumentationEdge :=
  MkEdge source target NORMAL 0 None None 0 false false false false.

(** [createEdge] drops the duplicate number its caller passes. *)
Definition createEdge (source target : NodeId) (edgeNumber : Z) : BLInstrumentationEdge :=
  newEdge source target.

Definition setTarget (node : NodeId) (e : BLInstrumentationEdge) : BLInstrumentationEdge :=
  MkEdge (getSource e) node (getType e) (getWeight e) (getPhonyRoot e) (getPhonyExit e)
         (_increment e) (_isInSpanningTree e) (_isInitialization e)
         (_isCounterIncrement e) (_hasInstrumentation e).

Definition isInSpanningTree (e : BLInstrumentationEdge) : bool := _isInSpanningTree e.

Definition setIsInSpanningTree (b : bool) (e : BLInstrumentationEdge) : BLInstrumentationEdge :=
  MkEdge (getSource e) (getTarget e) (getType e) (getWeight e) (getPhonyRoot e) (getPhonyExit e)
         (_increment e) b (_isInitialization e) (_isCounterIncrement e) (_hasInstrumentation e).

Definition isInitialization (e : BLInstrumentationEdge) : bool := _isInitialization e.

Definition setIsInitialization (b : bool) (e : BLInstrumentationEdge) : BLInstrumentationEdge :=
  MkEdge (getSource e) (getTarget e) (getType e) (getWeight e) (getPhonyRoot e) (getPhonyExit e)
         (_increment e) (_isInSpanningTree e) b (_isCounterIncrement e) (_hasInstrumentation e).

Definition isCounterIncrement (e : BLInstrumentationEdge) : bool := _isCounterIncrement e.

Definition setIsCounterIncrement (b : bool) (e : BLInstrumentationEdge) : BLInstrumentationEdge :=
  MkEdge (getSource e) (getTarget e) (getType e) (getWeight e) (getPhonyRoot e) (getPhonyExit e)
         (_increment e) (_isInSpanningTree e) (_isInitialization e) b (_hasInstrumentation e).

Definition getIncrement (e : BLInstrumentationEdge) : Z := _increment e.

(** The argument is a [long]: storing it wraps at 64 bits. *)
Definition setIncrement (increment : Z) (e : BLInstrumentationEdge) : BLInstrumentationEdge :=
  MkEdge (getSource e) (getTarget e) (getType e) (getWeight e) (getPhonyRoot e) (getPhonyExit e)
         (i64 increment) (_isInSpanningTree e) (_isInitialization e)
         (_isCounterIncrement e) (_hasInstrumentation e).

Definition hasInstrumentation (e : BLInstrumentationEdge) : bool := _hasInstrumentation e.

Definition setHasInstrumentation (b : bool) (e : BLInstrumentationEdge) : BLInstrumentationEdge :=
  MkEdge (getSource e) (getTarget e) (getType e) (getWeight e) (getPhonyRoot e) (getPhonyExit e)
         (_increment e) (_isInSpanningTree e) (_isInitialization e) (_isCounterIncrement e) b.

(** Members of the base class. *)
Definition setType (t : EdgeType) (e : BLInstrumentationEdge) : BLInstrumentationEdge :=
  MkEdge (getSource e) (getTarget e) t (getWeight e) (getPhonyRoot e) (getPhonyExit e)
         (_increment e) (_isInSpanningTree e) (_isInitialization e)
         (_isCounterIncrement e) (_hasInstrumentation e).

Definition setPhonyRoot (r : option EdgeId) (e : BLInstrumentationEdge) : BLInstrumentationEdge :=
  MkEdge (getSource e) (getTarget e) (getType e) (getWeight e) r (getPhonyExit e)
         (_increment e) (_isInSpanningTree e) (_isInitialization e)
         (_isCounterIncrement e) (_hasInstrumentation e).

Definition setPhonyExit (x : option EdgeId) (e : BLInstrumentationEdge) : BLInstrumentationEdge :=
  MkEdge (getSource e) (getTarget e) (getType e) (getWeight e) (getPhonyRoot e) x
         (_increment e) (_isInSpanningTree e) (_isInitialization e)
         (_isCounterIncrement e) (_hasInstrumentation e).

#[export] Instance node_inhabited : Inhabited BLInstrumentationNode := populate (newNode None).
#[export] Instance edge_inhabited : Inhabited BLInstrumentationEdge := populate (newEdge 0%nat 0%nat).

(** ** The DAG *)

Record BLInstrumentationDag : Set := MkDag {
  nodeStore : gmap NodeId BLInstrumentationNode;
  edgeStore : gmap EdgeId BLInstrumentationEdge;
  _nodes : list NodeId;
  _edges : list EdgeId;
  getRoot : NodeId;
  getExit : NodeId;
  getNumberOfPaths : Z;                   (* [unsigned] *)
  _treeEdges : list EdgeId;
  _chordEdges : list EdgeId;
  _counterArray : option GlobalId
}.

(** Dereferencing a pointer, and assigning through one. *)
Definition nd (d : BLInstrumentationDag) (n : NodeId) : BLInstrumentationNode :=
  nodeStore d !!! n.

Definition ed (d : BLInstrumentationDag) (e : EdgeId) : BLInstrumentationEdge :=
  edgeStore d !!! e.

Definition updNode (n : NodeId) (f : BLInstrumentationNode -> BLInstrumentationNode)
    (d : BLInstrumentationDag) : BLInstrumentationDag :=
  MkDag (<[n := f (nd d n)]> (nodeStore d)) (edgeStore d) (_nodes d) (_edges d)
        (getRoot d) (getExit d) (getNumberOfPaths d) (_treeEdges d) (_chordEdges d)
        (_counterArray d).

Definition updEdge (e : EdgeId) (f : BLInstrumentationEdge -> BLInstrumentationEdge)
    (d : BLInstrumentationDag) : BLInstrumentationDag :=
  MkDag (nodeStore d) (<[e := f (ed d e)]> (edgeStore d)) (_nodes d) (_edges d)
        (getRoot d) (getExit d) (getNumberOfPaths d) (_treeEdges d) (_chordEdges d)
        (_counterArray d).

Definition setTreeEdges (l : list EdgeId) (d : BLInstrumentationDag) : BLInstrumentationDag :=
  MkDag (nodeStore d) (edgeStore d) (_nodes d) (_edges d) (getRoot d) (getExit d)
        (getNumberOfPaths d) l (_chordEdges d) (_counterArray d).

Definition setChordEdges (l : list EdgeId) (d : BLInstrumentationDag) : BLInstrumentationDag :=
  MkDag (nodeStore d) (edgeStore d) (_nodes d) (_edges d) (getRoot d) (getExit d)
        (getNumberOfPaths d) (_treeEdges d) l (_counterArray d).

Definition getCounterArray (d : BLInstrumentationDag) : option GlobalId := _counterArray d.

Definition setCounterArray (c : option GlobalId) (d : BLInstrumentationDag) : BLInstrumentationDag :=
  MkDag (nodeStore d) (edgeStore d) (_nodes d) (_edges d) (getRoot d) (getExit d)
        (getNumberOfPaths d) (_treeEdges d) (_chordEdges d) c.

Definition getNumberPredEdges (n : BLInstrumentationNode) : nat := length (predEdges n).
Definition getNumberSuccEdges (n : BLInstrumentationNode) : nat := length (succEdges n).

(** [*getExit()->succBegin()]: [None] when the exit has no successor edge
    (dereferencing the end iterator). *)
Definition getExitRootEdge (d : BLInstrumentationDag) : option EdgeId :=
  head (succEdges (nd d (getExit d))).

(** The edges marking nodes with function calls, in creation order. *)
Definition getCallPhonyEdges (d : BLInstrumentationDag) : list EdgeId :=
  filter (fun e => getType (ed d e) = CALLEDGE_PHONY) (_edges d).

(** ** Store lemmas *)

Lemma ed_updEdge_eq e f d : ed (updEdge e f d) e = f (ed d e).
Proof. apply lookup_total_insert_eq. Qed.

Lemma ed_updEdge_ne e e' f d : e <> e' -> ed (updEdge e f d) e' = ed d e'.
Proof. apply lookup_total_insert_ne. Qed.

Lemma ed_updEdge e e' f d :
  ed (updEdge e f d) e' = if decide (e = e') then f (ed d e) else ed d e'.
Proof. case_decide; subst; [apply ed_updEdge_eq|by apply ed_updEdge_ne]. Qed.

Lemma nd_updEdge e f d n : nd (updEdge e f d) n = nd d n.
Proof. done. Qed.

Lemma nd_updNode_eq n f d : nd (updNode n f d) n = f (nd d n).
Proof. apply lookup_total_insert_eq. Qed.

Lemma nd_updNode_ne n n' f d : n <> n' -> nd (updNode n f d) n' = nd d n'.
Proof. apply lookup_total_insert_ne. Qed.

Lemma nd_updNode n n' f d :
  nd (updNode n f d) n' = if decide (n = n') then f (nd d n) else nd d n'.
Proof. case_decide; subst; [apply nd_updNode_eq|by apply nd_updNode_ne]. Qed.

Lemma ed_updNode n f d e : ed (updNode n f d) e = ed d e.
Proof. done. Qed.

#[export] Hint Rewrite ed_updEdge_eq nd_updNode_eq nd_updEdge ed_updNode : rrw.
