(* ===== verification/BallLarus.v ===== *)
(** * What the pass relies on: the Ball-Larus DAG

    [BallLarusDag::init] and [BallLarusDag::calculatePathNumbers] belong to
    LLVM.  The pass relies on the following, which the header of
    src/PathLogging.cpp documents (lines 10-34): the CFG is turned into a DAG
    with an entry and an exit node; for every backedge [v->w] an edge
    [ENTRY->w] and an edge [v->EXIT] are inserted; an edge [EXIT->ENTRY] closes
    the cycles.  [BallLarusDag] states exactly this of the data the pass reads.

    The file also defines the paths of the DAG and the real walks of the
    function, and how a walk splits into DAG paths at its backedges. *)

From stdpp Require Import base numbers list gmap.
From S2P Require Import Prelude Dag.

Local Open Scope Z_scope.
Local Open Scope rrw_scope.

(** ** Parts of the DAG the marking phases never change *)

Record static_eq (e e' : BLInstrumentationEdge) : Prop := {
  se_source : getSource e' = getSource e;
  se_target : getTarget e' = getTarget e;
  se_type : getType e' = getType e;
  se_weight : getWeight e' = getWeight e;
  se_phonyRoot : getPhonyRoot e' = getPhonyRoot e;
  se_phonyExit : getPhonyExit e' = getPhonyExit e
}.

#[export] Instance static_eq_equivalence : Equivalence static_eq.
Proof.
  split; [by split| |].
  - intros x y []. by split.
  - intros x y z [] []. split; congruence.
Qed.

(** Colours and path-number values may change, the graph does not. *)
Record static_node_eq (n n' : BLInstrumentationNode) : Prop := {
  sn_block : getBlock n' = getBlock n;
  sn_pred : predEdges n' = predEdges n;
  sn_succ : succEdges n' = succEdges n
}.

#[export] Instance static_node_eq_equivalence : Equivalence static_node_eq.
Proof.
  split; [by split| |].
  - intros x y []. by split.
  - intros x y z [] []. split; congruence.
Qed.

Record same_shape (d d' : BLInstrumentationDag) : Prop := {
  ss_nd : forall n, static_node_eq (nd d n) (nd d' n);
  ss_nodes : _nodes d' = _nodes d;
  ss_edges : _edges d' = _edges d;
  ss_root : getRoot d' = getRoot d;
  ss_exit : getExit d' = getExit d;
  ss_ed : forall e, static_eq (ed d e) (ed d' e)
}.

#[export] Instance same_shape_equivalence : Equivalence same_shape.
Proof.
  split.
  - by intros d; split.
  - intros x y []. split; try congruence; intros; symmetry; auto.
  - intros x y z [] []. split; try congruence; intros; etransitivity; eauto.
Qed.

Lemma same_shape_updEdge e f d :
  (forall x, static_eq x (f x)) -> same_shape d (updEdge e f d).
Proof.
  intros Hf. split; try done. intros e'. rewrite ed_updEdge.
  case_decide; subst; [apply Hf|done].
Qed.

Lemma same_shape_updNode n f d :
  (forall x, static_node_eq x (f x)) -> same_shape d (updNode n f d).
Proof.
  intros Hf. split; try done. intros n'. rewrite nd_updNode.
  case_decide; subst; [apply Hf|done].
Qed.

Lemma static_setColor c n : static_node_eq n (setColor c n).
Proof. by split. Qed.

Lemma static_setIncrement z e : static_eq e (setIncrement z e).
Proof. by split. Qed.
Lemma static_setIsInitialization b e : static_eq e (setIsInitialization b e).
Proof. by split. Qed.
Lemma static_setIsCounterIncrement b e : static_eq e (setIsCounterIncrement b e).
Proof. by split. Qed.
Lemma static_setIsInSpanningTree b e : static_eq e (setIsInSpanningTree b e).
Proof. by split. Qed.

#[export] Hint Resolve static_setIncrement static_setIsInitialization
  static_setIsCounterIncrement static_setIsInSpanningTree static_setColor
  same_shape_updEdge same_shape_updNode : rrw.

(** Steps that change nothing but increments. *)
Record only_increments (d d' : BLInstrumentationDag) : Prop := {
  oi_shape : same_shape d d';
  oi_tree : _treeEdges d' = _treeEdges d;
  oi_chord : _chordEdges d' = _chordEdges d;
  oi_init e : isInitialization (ed d' e) = isInitialization (ed d e);
  oi_counter e : isCounterIncrement (ed d' e) = isCounterIncrement (ed d e)
}.

#[export] Instance only_increments_equivalence : Equivalence only_increments.
Proof.
  split.
  - by intros d; split.
  - intros x y [H]. split; try congruence. by symmetry.
  - intros x y z [H] [H']. split; try congruence. by etransitivity.
Qed.

Lemma only_increments_setIncrement e z d : only_increments d (updEdge e (setIncrement z) d).
Proof.
  split; try done; [auto with rrw| |]; intros e'; rewrite ed_updEdge; by case_decide; subst.
Qed.

#[export] Hint Resolve only_increments_setIncrement : rrw.

(** ** The DAG predicate *)

(** A cut edge is not part of the DAG: its two phony edges stand for it. *)
Definition cut_type (t : EdgeType) : bool :=
  match t with BACKEDGE | SPLITEDGE => true | _ => false end.

Definition phony_type (t : EdgeType) : bool :=
  match t with BACKEDGE_PHONY | SPLITEDGE_PHONY | CALLEDGE_PHONY => true | _ => false end.

Record BallLarusDag (d : BLInstrumentationDag) (er : EdgeId) (rank : NodeId -> nat) : Prop := {
  bl_exit_succ : succEdges (nd d (getExit d)) = [er];
  bl_root_pred : predEdges (nd d (getRoot d)) = [er];
  bl_er_edge : er ∈ _edges d;
  bl_er_source : getSource (ed d er) = getExit d;
  bl_er_target : getTarget (ed d er) = getRoot d;
  bl_er_type : getType (ed d er) = NORMAL;
  bl_er_weight : getWeight (ed d er) = 0;
  bl_root_exit : getRoot d <> getExit d;
  bl_succ n e : e ∈ succEdges (nd d n) <-> e ∈ _edges d /\ getSource (ed d e) = n;
  bl_pred n e : e ∈ predEdges (nd d n) <-> e ∈ _edges d /\ getTarget (ed d e) = n;
  bl_succ_nodup n : NoDup (succEdges (nd d n));
  bl_pred_nodup n : NoDup (predEdges (nd d n));
  bl_edges_nodup : NoDup (_edges d);
  bl_root_node : getRoot d ∈ _nodes d;
  (* acyclicity: [rank] is a topological numbering of the DAG edges *)
  bl_rank e : e ∈ _edges d -> e <> er -> cut_type (getType (ed d e)) = false ->
    (rank (getTarget (ed d e)) < rank (getSource (ed d e)))%nat;
  bl_rank_bound n : (rank n <= length (_nodes d))%nat;
  (* every cut edge [v->w] has its phony edges [ENTRY->w] and [v->EXIT] *)
  bl_cut e : e ∈ _edges d -> cut_type (getType (ed d e)) = true ->
    exists t b, getPhonyRoot (ed d e) = Some t /\ getPhonyExit (ed d e) = Some b /\
      t ∈ _edges d /\ phony_type (getType (ed d t)) = true /\
      getSource (ed d t) = getRoot d /\ getTarget (ed d t) = getTarget (ed d e) /\
      b ∈ _edges d /\ phony_type (getType (ed d b)) = true /\
      getSource (ed d b) = getSource (ed d e) /\ getTarget (ed d b) = getExit d
}.

(** ** Paths of the DAG *)

(** [dag_path d er x p y]: the edges [p] lead from [x] to [y] inside the DAG. *)
Inductive dag_path (d : BLInstrumentationDag) (er : EdgeId) : NodeId -> list EdgeId -> NodeId -> Prop :=
  | dag_path_nil x : dag_path d er x [] x
  | dag_path_cons x e p y :
      e ∈ _edges d -> e <> er -> cut_type (getType (ed d e)) = false ->
      getSource (ed d e) = x ->
      dag_path d er (getTarget (ed d e)) p y ->
      dag_path d er x (e :: p) y.

(** The number of a path: the sum of the weights LLVM assigned to its edges. *)
Definition path_number (d : BLInstrumentationDag) (p : list EdgeId) : Z :=
  Zsum (fun e => getWeight (ed d e)) p.

#[export] Instance dag_path_shape : Proper (same_shape ==> eq ==> eq ==> eq ==> eq ==> impl) dag_path.
Proof.
  intros d d' HS er ? <- x ? <- p ? <- y ? <- H. induction H; [constructor|].
  destruct (ss_ed _ _ HS e) as [Es Et Ety _ _ _].
  constructor; try congruence. by rewrite (ss_edges _ _ HS).
Qed.

Lemma path_number_shape d d' p : same_shape d d' -> path_number d' p = path_number d p.
Proof. intros HS. apply Zsum_ext. intros e _. apply (se_weight _ _ (ss_ed _ _ HS e)). Qed.

Lemma BallLarusDag_shape d d' er rank :
  same_shape d d' -> BallLarusDag d er rank -> BallLarusDag d' er rank.
Proof.
  intros HS HB.
  assert (forall n, static_node_eq (nd d n) (nd d' n)) as Hn by apply HS.
  assert (forall e, static_eq (ed d e) (ed d' e)) as He by apply HS.
  destruct HS as [_ Hns Hes Hr Hx _].
  destruct HB; split; rewrite ?Hr, ?Hx, ?Hes, ?Hns;
    rewrite ?(sn_succ _ _ (Hn (getExit d))), ?(sn_pred _ _ (Hn (getRoot d)));
    rewrite ?(se_source _ _ (He er)), ?(se_target _ _ (He er)), ?(se_type _ _ (He er)),
      ?(se_weight _ _ (He er)); try done.
  - intros n e. rewrite (sn_succ _ _ (Hn n)), (se_source _ _ (He e)). done.
  - intros n e. rewrite (sn_pred _ _ (Hn n)), (se_target _ _ (He e)). done.
  - intros n. rewrite (sn_succ _ _ (Hn n)). done.
  - intros n. rewrite (sn_pred _ _ (Hn n)). done.
  - intros e. rewrite (se_source _ _ (He e)), (se_target _ _ (He e)), (se_type _ _ (He e)). auto.
  - intros e. rewrite (se_type _ _ (He e)). intros H1 H2.
    destruct (bl_cut0 e H1 H2) as (t & b & E).
    exists t, b.
    by rewrite (se_phonyRoot _ _ (He e)), (se_phonyExit _ _ (He e)), (se_source _ _ (He e)),
      (se_target _ _ (He e)), (se_source _ _ (He t)), (se_target _ _ (He t)),
      (se_type _ _ (He t)), (se_source _ _ (He b)), (se_target _ _ (He b)), (se_type _ _ (He b)).
Qed.

(** ** Consequences *)

Lemma two_members_length {A} (l : list A) x y :
  x ∈ l -> y ∈ l -> x <> y -> (2 <= length l)%nat.
Proof.
  destruct l as [|a [|b l]]; simpl; [set_solver| |lia].
  rewrite !list_elem_of_singleton. congruence.
Qed.

Section Facts.
Context (d : BLInstrumentationDag) (er : EdgeId) (rank : NodeId -> nat).
Context (HB : BallLarusDag d er rank).

(** The target of a cut edge has a second predecessor edge, its source a
    second successor edge: the phony ones. *)
Lemma cut_target_preds e :
  e ∈ _edges d -> cut_type (getType (ed d e)) = true ->
  (2 <= length (predEdges (nd d (getTarget (ed d e)))))%nat.
Proof using HB.
  intros He Hc. destruct (bl_cut _ _ _ HB e He Hc) as (t & b & _ & _ & Ht & Pt & _ & Tt & _).
  apply (two_members_length _ e t); try (apply (bl_pred _ _ _ HB); done).
  intros ->. destruct (getType (ed d t)); done.
Qed.

Lemma cut_source_succs e :
  e ∈ _edges d -> cut_type (getType (ed d e)) = true ->
  (2 <= length (succEdges (nd d (getSource (ed d e)))))%nat.
Proof using HB.
  intros He Hc.
  destruct (bl_cut _ _ _ HB e He Hc) as (t & b & _ & _ & _ & _ & _ & _ & Hb & Pb & Sb & _).
  apply (two_members_length _ e b); try (apply (bl_succ _ _ _ HB); done).
  intros ->. destruct (getType (ed d b)); done.
Qed.

(** Only the closing edge leaves the exit or enters the root. *)
Lemma exit_edge e : e ∈ _edges d -> getSource (ed d e) = getExit d -> e = er.
Proof using HB.
  intros He Hs. assert (e ∈ succEdges (nd d (getExit d))) as H
    by (by apply (bl_succ _ _ _ HB)).
  rewrite (bl_exit_succ _ _ _ HB) in H.
  by apply list_elem_of_singleton in H.
Qed.

Lemma root_edge e : e ∈ _edges d -> getTarget (ed d e) = getRoot d -> e = er.
Proof using HB.
  intros He Hs. assert (e ∈ predEdges (nd d (getRoot d))) as H
    by (by apply (bl_pred _ _ _ HB)).
  rewrite (bl_root_pred _ _ _ HB) in H.
  by apply list_elem_of_singleton in H.
Qed.

Lemma dag_path_app x p y q z :
  dag_path d er x p y -> dag_path d er y q z -> dag_path d er x (p ++ q) z.
Proof. induction 1; [done|]. intros. constructor; auto. Qed.

(** Paths strictly descend in rank, so they never return. *)
Lemma dag_path_rank x p y : dag_path d er x p y -> p <> [] -> (rank y < rank x)%nat.
Proof using HB.
  induction 1 as [x|x e p y He Hne Hc <- Hp IH]; [done|]. intros _.
  pose proof (bl_rank _ _ _ HB e He Hne Hc).
  destruct p as [|e' p]; [inversion Hp; subst; done|]. specialize (IH ltac:(done)). lia.
Qed.
End Facts.

(** ** Deciding the predicate

    [rank] is given by a table; every condition ranges over the stored nodes
    and the created edges, so it can be evaluated. *)

Definition rankOf (tbl : list nat) (n : NodeId) : nat := default 0%nat (tbl !! n).

Definition checkNode (d : BLInstrumentationDag) (n : NodeId) : bool :=
  bool_decide (
    Forall (fun e => e ∈ _edges d /\ getSource (ed d e) = n) (succEdges (nd d n)) /\
    Forall (fun e => e ∈ _edges d /\ getTarget (ed d e) = n) (predEdges (nd d n)) /\
    NoDup (succEdges (nd d n)) /\ NoDup (predEdges (nd d n))).

Definition checkCut (d : BLInstrumentationDag) (e : EdgeId) : bool :=
  match getPhonyRoot (ed d e), getPhonyExit (ed d e) with
  | Some t, Some b =>
      bool_decide (t ∈ _edges d /\ phony_type (getType (ed d t)) = true /\
        getSource (ed d t) = getRoot d /\ getTarget (ed d t) = getTarget (ed d e) /\
        b ∈ _edges d /\ phony_type (getType (ed d b)) = true /\
        getSource (ed d b) = getSource (ed d e) /\ getTarget (ed d b) = getExit d)
  | _, _ => false
  end.

Definition checkEdge (d : BLInstrumentationDag) (er : EdgeId) (tbl : list nat) (e : EdgeId) : bool :=
  bool_decide (e ∈ succEdges (nd d (getSource (ed d e))) /\ e ∈ predEdges (nd d (getTarget (ed d e)))) &&
  (bool_decide (e = er) || cut_type (getType (ed d e)) ||
     bool_decide (rankOf tbl (getTarget (ed d e)) < rankOf tbl (getSource (ed d e)))%nat) &&
  (negb (cut_type (getType (ed d e))) || checkCut d e).

Definition checkDag (d : BLInstrumentationDag) (er : EdgeId) (tbl : list nat) : bool :=
  bool_decide (succEdges (nd d (getExit d)) = [er] /\ predEdges (nd d (getRoot d)) = [er] /\
    er ∈ _edges d /\ getSource (ed d er) = getExit d /\ getTarget (ed d er) = getRoot d /\
    getType (ed d er) = NORMAL /\ getWeight (ed d er) = 0 /\ getRoot d <> getExit d /\
    NoDup (_edges d) /\ getRoot d ∈ _nodes d /\
    Forall (fun r => r <= length (_nodes d))%nat tbl) &&
  forallb (checkNode d) (map_to_list (nodeStore d)).*1 &&
  forallb (checkEdge d er tbl) (_edges d).

Lemma checkNode_all d : forallb (checkNode d) (map_to_list (nodeStore d)).*1 = true ->
  forall n, checkNode d n = true.
Proof.
  intros H n. rewrite forallb_forall in H. destruct (nodeStore d !! n) as [x|] eqn:E.
  - apply H, list_elem_of_In, list_elem_of_fmap. exists (n, x).
    split; [done|]. by apply elem_of_map_to_list.
  - assert (nd d n = newNode None) as En.
    { unfold nd. by rewrite lookup_total_alt, E. }
    unfold checkNode. by rewrite En.
Qed.

Lemma checkDag_sound d er tbl : checkDag d er tbl = true -> BallLarusDag d er (rankOf tbl).
Proof.
  intros H. apply andb_true_iff in H as [H HE]. apply andb_true_iff in H as [H0 HN].
  apply bool_decide_eq_true in H0 as (? & ? & ? & ? & ? & ? & ? & ? & ? & ? & Hb).
  pose proof (checkNode_all d HN) as HN'. clear HN.
  assert (forall n, Forall (fun e => e ∈ _edges d /\ getSource (ed d e) = n) (succEdges (nd d n)) /\
    Forall (fun e => e ∈ _edges d /\ getTarget (ed d e) = n) (predEdges (nd d n)) /\
    NoDup (succEdges (nd d n)) /\ NoDup (predEdges (nd d n))) as Hn.
  { intros n. specialize (HN' n). by apply bool_decide_eq_true in HN'. }
  rewrite forallb_forall in HE.
  assert (forall e, e ∈ _edges d -> checkEdge d er tbl e = true) as He.
  { intros e Hin. by apply HE, list_elem_of_In. }
  clear HE HN'.
  split; try done.
  - intros n e. destruct (Hn n) as (Hs & _). rewrite Forall_forall in Hs. split; [apply Hs|].
    intros [Hin <-]. specialize (He e Hin).
    apply andb_true_iff in He as [[He _]%andb_true_iff _]. by apply bool_decide_eq_true in He as [? _].
  - intros n e. destruct (Hn n) as (_ & Hp & _). rewrite Forall_forall in Hp. split; [apply Hp|].
    intros [Hin <-]. specialize (He e Hin).
    apply andb_true_iff in He as [[He _]%andb_true_iff _]. by apply bool_decide_eq_true in He as [_ ?].
  - intros n. apply Hn.
  - intros n. apply Hn.
  - intros e Hin Hne Hc. specialize (He e Hin).
    apply andb_true_iff in He as [[_ He]%andb_true_iff _]. rewrite Hc in He.
    rewrite bool_decide_false in He by done. simpl in He. by apply bool_decide_eq_true in He.
  - intros n. unfold rankOf. destruct (tbl !! n) as [r|] eqn:E; simpl; [|lia].
    rewrite Forall_forall in Hb. apply Hb. by eapply list_elem_of_lookup_2.
  - intros e Hin Hc. specialize (He e Hin). apply andb_true_iff in He as [_ He].
    rewrite Hc in He. simpl in He. unfold checkCut in He.
    destruct (getPhonyRoot (ed d e)) as [t|]; [|done].
    destruct (getPhonyExit (ed d e)) as [b|]; [|done].
    apply bool_decide_eq_true in He. exists t, b. tauto.
Qed.

(** ** An example

    A loop whose body is a conditional, blocks [A] to [E] numbered from 0:
    [A -> B; B -> C | D; C -> D; D -> B (back) | E; E -> EXIT], with the
    weights of the eight DAG paths.  Node 4 is the exit, node 5 is [E]. *)
Definition exampleLoop : BLInstrumentationDag :=
  let E s t ty w pr px := MkEdge s t ty w pr px 0 false false false false in
  let N b p s := MkNode b p s (OtherColor 0) None None None in
  MkDag
    (list_to_map [
       (0%nat, N (Some 0%nat) [0%nat] [1%nat; 6%nat]);
       (1%nat, N (Some 1%nat) [1%nat; 5%nat; 6%nat] [2%nat; 3%nat]);
       (2%nat, N (Some 2%nat) [2%nat] [4%nat]);
       (3%nat, N (Some 3%nat) [3%nat; 4%nat] [5%nat; 7%nat; 8%nat]);
       (4%nat, N None [7%nat; 9%nat] [0%nat]);
       (5%nat, N (Some 4%nat) [8%nat] [9%nat])])
    (list_to_map [
       (0%nat, E 4%nat 0%nat NORMAL 0 None None);
       (1%nat, E 0%nat 1%nat NORMAL 0 None None);
       (2%nat, E 1%nat 2%nat NORMAL 0 None None);
       (3%nat, E 1%nat 3%nat NORMAL 2 None None);
       (4%nat, E 2%nat 3%nat NORMAL 0 None None);
       (5%nat, E 3%nat 1%nat BACKEDGE 0 (Some 6%nat) (Some 7%nat));
       (6%nat, E 0%nat 1%nat BACKEDGE_PHONY 4 None None);
       (7%nat, E 3%nat 4%nat BACKEDGE_PHONY 0 None None);
       (8%nat, E 3%nat 5%nat NORMAL 1 None None);
       (9%nat, E 5%nat 4%nat NORMAL 0 None None)])
    [0%nat; 4%nat; 1%nat; 2%nat; 3%nat; 5%nat]
    [1%nat; 2%nat; 4%nat; 5%nat; 6%nat; 7%nat; 8%nat; 9%nat; 3%nat; 0%nat]
    0%nat 4%nat 8 [] [] None.

Definition exampleRank : list nat := [5%nat; 4%nat; 3%nat; 2%nat; 0%nat; 1%nat].

Lemma exampleLoop_dag : BallLarusDag exampleLoop 0%nat (rankOf exampleRank).
Proof. apply checkDag_sound. by vm_compute. Qed.
