(* ===== verification/SpanningTree.v ===== *)
(** * Spanning tree and chords

    [BLInstrumentationDag::calculateSpanningTree] and [makeEdgeSpanning]
    (src/PathLogging.cpp).  The depth-first loop is translated as written,
    including its colour test: every node, the root too, is coloured [WHITE]
    before the loop starts, and the loop skips [WHITE] nodes. *)

From stdpp Require Import base numbers list gmap.
From S2P Require Import Prelude Dag BallLarus.

Local Open Scope Z_scope.

(** Makes an edge part of the spanning tree. *)
Definition makeEdgeSpanning (edge : EdgeId) (d : BLInstrumentationDag) : BLInstrumentationDag :=
  let d := updEdge edge (setIsInSpanningTree true) d in
  setTreeEdges (_treeEdges d ++ [edge]) d.

(** The body of the loop over one node's edges. *)
Definition spanEdge (forward : bool) (d : BLInstrumentationDag) (edge : EdgeId) : BLInstrumentationDag :=
  if decide (getType (ed d edge) = SPLITEDGE) then d
  else
    let nextNode := if forward then getTarget (ed d edge) else getSource (ed d edge) in
    if decide (getColor (nd d nextNode) = WHITE) then d
    else makeEdgeSpanning edge (updNode nextNode (setColor WHITE) d).

(** The loop first runs over the successor edges; on reaching their end it
    jumps to the first predecessor edge and dereferences it without looking
    for the end of that list ([None]: no predecessor to dereference). *)
Definition spanNodeEdges (node : NodeId) (d : BLInstrumentationDag) : option BLInstrumentationDag :=
  let d' := foldl (spanEdge true) d (succEdges (nd d node)) in
  match predEdges (nd d node) with
  | [] => None
  | preds => Some (foldl (spanEdge false) d' preds)
  end.

(** The [while] loop: nothing is ever pushed, so it is structural in the stack. *)
Fixpoint spanLoop (dfsStack : list NodeId) (d : BLInstrumentationDag) : option BLInstrumentationDag :=
  match dfsStack with
  | [] => Some d
  | node :: rest =>
      if decide (getColor (nd d node) = WHITE) then spanLoop rest d
      else d' ← spanNodeEdges node (updNode node (setColor WHITE) d); spanLoop rest d'
  end.

(** Colours every node [WHITE], runs the loop from the root, then collects
    the edges outside the tree (split edges excepted) as chords. *)
Definition calculateSpanningTree (d : BLInstrumentationDag) : option BLInstrumentationDag :=
  let d := foldl (fun d node => updNode node (setColor WHITE) d) d (_nodes d) in
  d ← spanLoop [getRoot d] d;
  Some (foldl (fun d edge =>
                 if negb (isInSpanningTree (ed d edge)) && bool_decide (getType (ed d edge) <> SPLITEDGE)
                 then setChordEdges (_chordEdges d ++ [edge]) d else d) d (_edges d)).

(** ** What it computes *)

Lemma color_all_white l d :
  let d' := foldl (fun d node => updNode node (setColor WHITE) d) d l in
  same_shape d d' /\ edgeStore d' = edgeStore d /\ _treeEdges d' = _treeEdges d /\
  _chordEdges d' = _chordEdges d /\
  (forall n, getColor (nd d n) = WHITE -> getColor (nd d' n) = WHITE) /\
  (forall n, n ∈ l -> getColor (nd d' n) = WHITE).
Proof.
  revert d. induction l as [|x l IH]; intros d; simpl.
  { split_and!; done || set_solver. }
  destruct (IH (updNode x (setColor WHITE) d)) as (HS & HE & HT & HC & Hk & Hw).
  split_and!; try done.
  - etransitivity; [|exact HS]. auto with rrw.
  - intros n Hn. apply Hk. rewrite nd_updNode. by case_decide.
  - intros n Hn. destruct (decide (n = x)) as [->|Hne].
    + apply Hk. by rewrite nd_updNode_eq.
    + apply Hw. apply elem_of_cons in Hn as [|]; done.
Qed.

Lemma collect_chords l d :
  let d' := foldl (fun d edge =>
              if negb (isInSpanningTree (ed d edge)) && bool_decide (getType (ed d edge) <> SPLITEDGE)
              then setChordEdges (_chordEdges d ++ [edge]) d else d) d l in
  nodeStore d' = nodeStore d /\ edgeStore d' = edgeStore d /\ _nodes d' = _nodes d /\
  _edges d' = _edges d /\ getRoot d' = getRoot d /\ getExit d' = getExit d /\
  _treeEdges d' = _treeEdges d /\
  _chordEdges d' = _chordEdges d ++
    filter (fun e => isInSpanningTree (ed d e) = false /\ getType (ed d e) <> SPLITEDGE) l.
Proof.
  revert d. induction l as [|x l IH]; intros d; cbn [foldl].
  { cbn. rewrite app_nil_r. done. }
  rewrite filter_cons. destruct (negb _ && _) eqn:E.
  - apply andb_true_iff in E as [E1 E2]. apply negb_true_iff in E1.
    apply bool_decide_eq_true in E2.
    rewrite decide_True by done.
    destruct (IH (setChordEdges (_chordEdges d ++ [x]) d)) as (H1 & H2 & H3 & H4 & H5 & H6 & H7 & H8).
    split_and!; try done. rewrite H8. cbn. by rewrite <- app_assoc.
  - rewrite decide_False; [apply IH|].
    intros [E1 E2]. rewrite E1, bool_decide_true in E by done. done.
Qed.

(** The colour test sends the loop past the root, whatever the graph: no edge
    enters the tree, and every edge that is not a split edge becomes a chord. *)
Lemma calculateSpanningTree_spec d :
  getRoot d ∈ _nodes d ->
  exists d', calculateSpanningTree d = Some d' /\ same_shape d d' /\
    edgeStore d' = edgeStore d /\ _treeEdges d' = _treeEdges d /\
    _chordEdges d' = _chordEdges d ++
      filter (fun e => isInSpanningTree (ed d e) = false /\ getType (ed d e) <> SPLITEDGE) (_edges d).
Proof.
  intros Hroot. unfold calculateSpanningTree.
  destruct (color_all_white (_nodes d) d) as (HS & HE & HT & HC & _ & Hw).
  set (d1 := foldl _ d (_nodes d)) in *.
  cbn [spanLoop]. rewrite decide_True by (rewrite (ss_root _ _ HS); by apply Hw). simpl.
  destruct (collect_chords (_edges d1) d1) as (H1 & H2 & H3 & H4 & H5 & H6 & H7 & H8).
  set (d2 := foldl _ d1 (_edges d1)) in *.
  eexists; split; [done|]. split_and!; try congruence.
  - etransitivity; [exact HS|]. split; try done; intros ?.
    + unfold nd. by rewrite H1.
    + unfold ed. by rewrite H2.
  - rewrite H8, HC, (ss_edges _ _ HS). f_equal.
    apply list_filter_iff. intros e. unfold ed. by rewrite HE.
Qed.

(** C19: whatever the graph, [calculateSpanningTree] computes no spanning
    tree: no edge is added to the tree, and every edge outside it that is not
    a split edge becomes a chord.  Both arms of the loop only look at nodes
    that are not [WHITE], and all nodes were coloured [WHITE] before it. *)
Theorem calculateSpanningTree_adds_no_tree_edge d :
  getRoot d ∈ _nodes d ->
  exists d', calculateSpanningTree d = Some d' /\ _treeEdges d' = _treeEdges d /\
    (forall e, isInSpanningTree (ed d' e) = isInSpanningTree (ed d e)) /\
    forall e, e ∈ _edges d -> isInSpanningTree (ed d e) = false ->
      getType (ed d e) <> SPLITEDGE -> e ∈ _chordEdges d'.
Proof.
  intros Hr. destruct (calculateSpanningTree_spec d Hr) as (d' & E & HS & HE & HT & HC).
  exists d'. split_and!; [done|done|intros e; unfold ed; by rewrite HE|].
  intros e He Hi Ht. rewrite HC. apply elem_of_app. right. by apply list_elem_of_filter.
Qed.

Lemma calculateSpanningTree_adds_no_tree_edge_witness :
  exists d', calculateSpanningTree exampleLoop = Some d' /\ _treeEdges d' = [] /\
    5%nat ∈ _chordEdges d'.
Proof.
  destruct (calculateSpanningTree_adds_no_tree_edge exampleLoop) as (d' & E & HT & _ & HC).
  - apply (bool_decide_unpack _). by vm_compute.
  - exists d'. split; [exact E|]. split; [exact HT|].
    apply HC; [apply (bool_decide_unpack _); by vm_compute|reflexivity|done].
Defined.
