(* ===== verification/ChordIncrements.v ===== *)
(** * Chord increments

    [BLInstrumentationDag::calculateChordIncrements],
    [calculateChordIncrementsDfs] and [calculateChordIncrementsDir]
    (src/PathLogging.cpp), the algorithm of Figure 4 of [Ball94]: the weights
    of the tree edges are moved to the chords so that every cycle keeps its
    total. *)

From stdpp Require Import base numbers list gmap.
From S2P Require Import Prelude Dag BallLarus.

Local Open Scope Z_scope.
Local Open Scope rrw_scope.

(** Relative direction of two edges; [None] is the [NULL] edge. *)
Definition calculateChordIncrementsDir (d : BLInstrumentationDag) (e : option EdgeId) (f : EdgeId) : Z :=
  match e with
  | None => 1
  | Some e =>
      if decide (getSource (ed d e) = getTarget (ed d f)) then 1
      else if decide (getTarget (ed d e) = getSource (ed d f)) then 1
      else -1
  end.

(** The second loop of the search: the chords at [v] absorb [weight]. *)
Definition absorbChord (weight : Z) (v : NodeId) (e : option EdgeId)
    (d : BLInstrumentationDag) (f : EdgeId) : BLInstrumentationDag :=
  if decide (v = getSource (ed d f) \/ v = getTarget (ed d f)) then
    updEdge f (setIncrement (getIncrement (ed d f) + calculateChordIncrementsDir d e f * weight)) d
  else d.

(** Depth-first search over the tree edges; [None]: out of fuel. *)
Fixpoint calculateChordIncrementsDfs (fuel : nat) (weight : Z) (v : NodeId) (e : option EdgeId)
    (d : BLInstrumentationDag) : option BLInstrumentationDag :=
  match fuel with
  | O => None
  | S fuel =>
      d ← foldM (fun d f =>
            d ← (if decide (e <> Some f /\ v = getTarget (ed d f)) then
                   calculateChordIncrementsDfs fuel
                     (i64 (calculateChordIncrementsDir d e f * weight + getWeight (ed d f)))
                     (getSource (ed d f)) (Some f) d
                 else Some d);
            if decide (e <> Some f /\ v = getSource (ed d f)) then
              calculateChordIncrementsDfs fuel
                (i64 (calculateChordIncrementsDir d e f * weight + getWeight (ed d f)))
                (getTarget (ed d f)) (Some f) d
            else Some d) d (_treeEdges d);
      Some (foldl (absorbChord weight v e) d (_chordEdges d))
  end.

(** The final loop: each chord adds its own weight. *)
Definition addChordWeight (d : BLInstrumentationDag) (chord : EdgeId) : BLInstrumentationDag :=
  updEdge chord (setIncrement (getIncrement (ed d chord) + getWeight (ed d chord))) d.

Definition calculateChordIncrements (fuel : nat) (d : BLInstrumentationDag) : option BLInstrumentationDag :=
  d ← calculateChordIncrementsDfs fuel 0 (getRoot d) None d;
  Some (foldl addChordWeight d (_chordEdges d)).

(** ** Trees rooted at the DAG's root

    [depth] certifies that the tree edges form a tree hanging from the root:
    each edge joins two consecutive depths, no node hangs from two edges, and
    every edge hangs (through other tree edges) from the root.  Any spanning
    tree has such a certificate, and so has the empty tree. *)

Section Tree.
Context (d : BLInstrumentationDag) (depth : NodeId -> nat).

Definition upper (f : EdgeId) : NodeId :=
  if decide (depth (getSource (ed d f)) < depth (getTarget (ed d f)))%nat
  then getSource (ed d f) else getTarget (ed d f).

Definition lower (f : EdgeId) : NodeId :=
  if decide (depth (getSource (ed d f)) < depth (getTarget (ed d f)))%nat
  then getTarget (ed d f) else getSource (ed d f).

Record RootedTree : Prop := {
  rt_nodup : NoDup (_treeEdges d);
  rt_root : depth (getRoot d) = 0%nat;
  rt_depth f : f ∈ _treeEdges d -> depth (lower f) = S (depth (upper f));
  rt_unique f g : f ∈ _treeEdges d -> g ∈ _treeEdges d -> lower f = lower g -> f = g;
  rt_top f : f ∈ _treeEdges d ->
    upper f = getRoot d \/ exists g, g ∈ _treeEdges d /\ lower g = upper f;
  rt_bound f : f ∈ _treeEdges d -> (depth (lower f) <= length (_treeEdges d))%nat
}.

(** The tree edge a node hangs from. *)
Definition parent (x : NodeId) : option EdgeId :=
  head (filter (fun f => lower f = x) (_treeEdges d)).

(** The potential of a node: the signed weight of the tree path from the root. *)
Fixpoint phi (fuel : nat) (x : NodeId) : Z :=
  match fuel with
  | O => 0
  | S fuel =>
      match parent x with
      | None => 0
      | Some f =>
          if decide (getTarget (ed d f) = x)
          then phi fuel (getSource (ed d f)) + getWeight (ed d f)
          else phi fuel (getTarget (ed d f)) - getWeight (ed d f)
      end
  end.

Lemma phi_S n x :
  phi (S n) x = match parent x with
                | None => 0
                | Some f =>
                    if decide (getTarget (ed d f) = x)
                    then phi n (getSource (ed d f)) + getWeight (ed d f)
                    else phi n (getTarget (ed d f)) - getWeight (ed d f)
                end.
Proof. done. Qed.

Definition potential (x : NodeId) : Z := phi (S (depth x)) x.

(** [hangs v u]: [u] is [v] or lies in the subtree below it. *)
Fixpoint hangsF (fuel : nat) (v u : NodeId) : bool :=
  bool_decide (u = v) ||
  match fuel with
  | O => false
  | S fuel => match parent u with Some f => hangsF fuel v (upper f) | None => false end
  end.

Definition hangs (v u : NodeId) : bool := hangsF (depth u) v u.

Context (HT : RootedTree).

Lemma upper_lower f :
  (upper f = getSource (ed d f) /\ lower f = getTarget (ed d f)) \/
  (upper f = getTarget (ed d f) /\ lower f = getSource (ed d f)).
Proof. unfold upper, lower. case_decide; auto. Qed.

Lemma parent_Some x f : parent x = Some f -> f ∈ _treeEdges d /\ lower f = x.
Proof.
  unfold parent. intros H. apply head_Some_elem_of in H.
  by apply list_elem_of_filter in H as [? ?].
Qed.

Lemma parent_lower f : f ∈ _treeEdges d -> parent (lower f) = Some f.
Proof using HT.
  intros Hf. destruct (parent (lower f)) as [g|] eqn:E.
  - apply parent_Some in E as [Hg E]. f_equal. by apply (rt_unique HT).
  - unfold parent in E. apply head_None in E.
    assert (f ∈ filter (fun g => lower g = lower f) (_treeEdges d)) as H
      by (by apply list_elem_of_filter).
    rewrite E in H. by apply not_elem_of_nil in H.
Qed.

Lemma root_parent : parent (getRoot d) = None.
Proof using HT.
  destruct (parent (getRoot d)) as [g|] eqn:E; [|done].
  apply parent_Some in E as [Hg E]. pose proof (rt_depth HT g Hg).
  rewrite E, (rt_root HT) in H. lia.
Qed.

(** Each tree edge realises its weight as a difference of potentials. *)
Lemma potential_edge f : f ∈ _treeEdges d ->
  potential (getTarget (ed d f)) = potential (getSource (ed d f)) + getWeight (ed d f).
Proof using HT.
  intros Hf. pose proof (rt_depth HT f Hf) as Hd. pose proof (parent_lower f Hf) as Hp.
  destruct (upper_lower f) as [[Eu El]|[Eu El]]; rewrite El in Hp; rewrite Eu, El in Hd.
  - unfold potential at 1. rewrite Hd, phi_S, Hp, decide_True by done. done.
  - unfold potential at 2. rewrite Hd, phi_S.
    rewrite Hp, decide_False by (intros E; rewrite E in Hd; lia).
    unfold potential. lia.
Qed.

Lemma potential_no_parent x : parent x = None -> potential x = 0.
Proof. intros H. unfold potential. cbn. by rewrite H. Qed.

Lemma potential_root : potential (getRoot d) = 0.
Proof using HT. apply potential_no_parent, root_parent. Qed.

Lemma hangs_lower v f : f ∈ _treeEdges d ->
  hangs v (lower f) = bool_decide (lower f = v) || hangs v (upper f).
Proof using HT.
  intros Hf. unfold hangs. rewrite (rt_depth HT f Hf). cbn [hangsF].
  by rewrite (parent_lower f Hf).
Qed.

Lemma hangs_refl v : hangs v v = true.
Proof. unfold hangs. destruct (depth v); cbn; by rewrite bool_decide_true. Qed.

Lemma hangs_no_parent v u : parent u = None -> hangs v u = bool_decide (u = v).
Proof.
  intros H. unfold hangs. destruct (depth u); cbn; [by rewrite orb_false_r|].
  rewrite H. by rewrite orb_false_r.
Qed.

Lemma hangs_depth v u : hangs v u = true -> (depth v <= depth u)%nat.
Proof using HT.
  remember (depth u) as n eqn:En. revert u En. induction n as [|n IH]; intros u En H.
  - unfold hangs in H. rewrite <- En in H. cbn in H. rewrite orb_false_r in H.
    apply bool_decide_eq_true in H as ->. lia.
  - destruct (parent u) as [f|] eqn:Ep.
    + apply parent_Some in Ep as [Hf <-]. rewrite hangs_lower in H by done.
      rewrite (rt_depth HT f Hf) in En.
      apply orb_true_iff in H as [H|H].
      * apply bool_decide_eq_true in H as <-. rewrite (rt_depth HT f Hf). lia.
      * specialize (IH (upper f) ltac:(lia) H). lia.
    + rewrite hangs_no_parent in H by done.
      apply bool_decide_eq_true in H as ->. lia.
Qed.

(** The subtree of [v] is [v] and, disjointly, the subtrees of the edges
    hanging from it. *)
Lemma hangs_children (z : Z) v u :
  Zsum (fun f => if bool_decide (upper f = v) && hangs (lower f) u then z else 0) (_treeEdges d)
  = if hangs v u && bool_decide (u <> v) then z else 0.
Proof using HT.
  remember (depth u) as n eqn:En. revert u En.
  induction n as [n IH] using lt_wf_ind; intros u En.
  destruct (parent u) as [g|] eqn:Ep.
  - apply parent_Some in Ep as [Hg <-].
    pose proof (rt_depth HT g Hg) as Hdg.
    rewrite (hangs_lower v g Hg).
    rewrite (Zsum_split_one g _ (fun f => if bool_decide (upper f = v) && hangs (lower f) (upper g)
                                then z else 0)
               (if bool_decide (upper g = v) then z else 0)); [|apply (rt_nodup HT)|done| |].
    + rewrite (IH (depth (upper g)) ltac:(lia) (upper g) eq_refl).
      destruct (decide (lower g = v)) as [<-|Hv].
      { rewrite (bool_decide_false (lower g <> lower g)), andb_false_r by naive_solver.
        rewrite (bool_decide_false (upper g = lower g)) by (intros E; rewrite E in Hdg; lia).
        destruct (hangs (lower g) (upper g)) eqn:E; [|done].
        apply hangs_depth in E. lia. }
      rewrite (bool_decide_false (lower g = v)), (bool_decide_true (lower g <> v)) by done.
      rewrite orb_false_l, andb_true_r.
      destruct (decide (upper g = v)) as [<-|Hu].
      * rewrite bool_decide_true by done.
        rewrite (bool_decide_false (upper g <> upper g)), andb_false_r by naive_solver.
        rewrite hangs_refl. lia.
      * rewrite bool_decide_false, (bool_decide_true (upper g <> v)), andb_true_r by done. lia.
    + rewrite (hangs_lower (lower g) g Hg), (bool_decide_true (lower g = lower g)) by done.
      destruct (hangs (lower g) (upper g)) eqn:E; [apply hangs_depth in E; lia|].
      rewrite orb_true_l, andb_true_r, andb_false_r. lia.
    + intros f Hf Hne. rewrite (hangs_lower (lower f) g Hg).
      rewrite (bool_decide_false (lower g = lower f)); [done|].
      intros E. apply Hne. symmetry. by apply (rt_unique HT).
  - rewrite hangs_no_parent by done.
    replace (bool_decide (u = v) && bool_decide (u <> v)) with false
      by (destruct (decide (u = v)); [rewrite (bool_decide_false (u <> v))|
           rewrite (bool_decide_false (u = v))]; rewrite ?andb_false_r; naive_solver).
    apply Zsum_zero. intros f Hf. rewrite hangs_no_parent by done.
    rewrite (bool_decide_false (u = lower f)), andb_false_r; [done|].
    intros ->. rewrite parent_lower in Ep; done.
Qed.
End Tree.

(** ** The search *)

Lemma dir_shape d d' e f : same_shape d d' ->
  calculateChordIncrementsDir d' e f = calculateChordIncrementsDir d e f.
Proof.
  intros HS. destruct e as [e|]; [|done]. unfold calculateChordIncrementsDir.
  destruct (ss_ed _ _ HS e) as [-> -> _ _ _ _]. by destruct (ss_ed _ _ HS f) as [-> -> _ _ _ _].
Qed.

Lemma upper_shape d d' depth f : same_shape d d' -> upper d' depth f = upper d depth f.
Proof. intros HS. unfold upper. by destruct (ss_ed _ _ HS f) as [-> -> _ _ _ _]. Qed.

Lemma lower_shape d d' depth f : same_shape d d' -> lower d' depth f = lower d depth f.
Proof. intros HS. unfold lower. by destruct (ss_ed _ _ HS f) as [-> -> _ _ _ _]. Qed.

(** What one visit adds to the chord [f]. *)
Definition chordShare (d : BLInstrumentationDag) (w : Z) (v : NodeId) (e : option EdgeId) (f : EdgeId) : Z :=
  if decide (v = getSource (ed d f) \/ v = getTarget (ed d f))
  then calculateChordIncrementsDir d e f * w else 0.

Lemma chordShare_shape d d' w v e f : same_shape d d' -> chordShare d' w v e f = chordShare d w v e f.
Proof.
  intros HS. unfold chordShare. rewrite (dir_shape d d') by done.
  by destruct (ss_ed _ _ HS f) as [-> -> _ _ _ _].
Qed.

Lemma absorb_loop w v e l d : NoDup l ->
  let d' := foldl (absorbChord w v e) d l in
  only_increments d d' /\
  forall f, getIncrement (ed d' f) =64
    getIncrement (ed d f) + if decide (f ∈ l) then chordShare d w v e f else 0.
Proof.
  intros Hnd. revert d. induction Hnd as [|x l Hx Hnd IH]; intros d; cbn [foldl].
  { split; [done|]. intros f. rewrite decide_False by (by apply not_elem_of_nil). ring64. }
  assert (only_increments d (absorbChord w v e d x)) as HO.
  { unfold absorbChord. case_decide; [apply only_increments_setIncrement|done]. }
  destruct (IH (absorbChord w v e d x)) as [HO' Hi]. split; [by etransitivity|].
  intros f. rewrite Hi, (chordShare_shape d) by apply HO.
  unfold absorbChord. destruct (decide (f = x)) as [->|Hne].
  - rewrite (decide_False (P := x ∈ l)), (decide_True (P := x ∈ x :: l)) by (done || by left).
    unfold chordShare. case_decide; [|ring64].
    rewrite ed_updEdge_eq. cbn. ring64.
  - assert (forall z, getIncrement (ed (if decide (v = getSource (ed d x) \/ v = getTarget (ed d x))
               then updEdge x (setIncrement z) d else d) f) = getIncrement (ed d f)) as ->.
    { intros z. case_decide; [|done]. by rewrite ed_updEdge_ne. }
    destruct (decide (f ∈ l)).
    + by rewrite (decide_True (P := f ∈ x :: l)) by (by right).
    + rewrite (decide_False (P := f ∈ x :: l)); [done|]. rewrite elem_of_cons. naive_solver.
Qed.

(** The body of the loop over the tree edges, with the recursive call
    abstracted. *)
Definition treeStep (rec : Z -> NodeId -> option EdgeId -> BLInstrumentationDag -> option BLInstrumentationDag)
    (w : Z) (v : NodeId) (e : option EdgeId) (d : BLInstrumentationDag) (f : EdgeId)
    : option BLInstrumentationDag :=
  d ← (if decide (e <> Some f /\ v = getTarget (ed d f)) then
         rec (i64 (calculateChordIncrementsDir d e f * w + getWeight (ed d f)))
             (getSource (ed d f)) (Some f) d
       else Some d);
  if decide (e <> Some f /\ v = getSource (ed d f)) then
    rec (i64 (calculateChordIncrementsDir d e f * w + getWeight (ed d f)))
        (getTarget (ed d f)) (Some f) d
  else Some d.

Lemma dfs_unfold fuel w v e d :
  calculateChordIncrementsDfs (S fuel) w v e d =
  (d' ← foldM (treeStep (calculateChordIncrementsDfs fuel) w v e) d (_treeEdges d);
   Some (foldl (absorbChord w v e) d' (_chordEdges d'))).
Proof. done. Qed.

(** Steps that change nothing but the increments of chords. *)
Definition chords_only (d d' : BLInstrumentationDag) : Prop :=
  only_increments d d' /\ forall f, f ∉ _chordEdges d -> ed d' f = ed d f.

#[export] Instance chords_only_preorder : PreOrder chords_only.
Proof.
  split; [done|]. intros x y z [HO HF] [HO' HF']. split; [by etransitivity|].
  intros f Hf. rewrite HF', HF; [done|done|]. by rewrite (oi_chord _ _ HO).
Qed.

Lemma chords_only_setIncrement d f z :
  f ∈ _chordEdges d -> chords_only d (updEdge f (setIncrement z) d).
Proof.
  intros Hf. split; [auto with rrw|]. intros g Hg. rewrite ed_updEdge_ne; [done|]. congruence.
Qed.

Lemma absorb_only w v e l d :
  (forall f, f ∈ l -> f ∈ _chordEdges d) -> chords_only d (foldl (absorbChord w v e) d l).
Proof.
  revert d. induction l as [|x l IH]; intros d Hl; [done|]. cbn [foldl].
  assert (chords_only d (absorbChord w v e d x)) as HS.
  { unfold absorbChord. case_decide; [|done]. apply chords_only_setIncrement, Hl. by left. }
  etransitivity; [exact HS|]. apply IH. intros f Hf.
  rewrite (oi_chord _ _ (proj1 HS)). apply Hl. by right.
Qed.

(** The search changes nothing but the increments of chords. *)
Lemma dfs_chords_only fuel w v e d d' :
  calculateChordIncrementsDfs fuel w v e d = Some d' -> chords_only d d'.
Proof.
  revert w v e d d'. induction fuel as [|fuel IH]; intros w v e d d'; [done|].
  rewrite dfs_unfold. destruct (foldM _ _ _) as [d1|] eqn:E; [|done]. simpl.
  intros [= <-]. etransitivity; [|by apply absorb_only].
  revert E. apply (foldM_ind _ (fun _ x => chords_only d x)); [done|].
  intros pre f post x x' _ Hx Hs. etransitivity; [exact Hx|]. unfold treeStep in Hs.
  case_decide as H1; simpl in Hs.
  - destruct (calculateChordIncrementsDfs fuel _ _ _ x) as [x1|] eqn:E1; [|done]. simpl in Hs.
    apply IH in E1. etransitivity; [exact E1|].
    case_decide; [by apply IH in Hs|by simplify_eq].
  - case_decide; [by apply IH in Hs|by simplify_eq].
Qed.

Section Dfs.
Context (d0 : BLInstrumentationDag) (depth : NodeId -> nat) (HT : RootedTree d0 depth).
Context (HC : NoDup (_chordEdges d0)).

Abbreviation Phi := (potential d0 depth).
Abbreviation upper := (upper d0 depth).
Abbreviation lower := (lower d0 depth).
Abbreviation hangs := (hangs d0 depth).

(** How the search reaches a node: at the root with weight 0, or through the
    tree edge it hangs from, with its potential signed by the direction. *)
Definition entry (e : option EdgeId) (v : NodeId) (w : Z) : Prop :=
  match e with
  | None => v = getRoot d0 /\ w =64 0
  | Some g => g ∈ _treeEdges d0 /\ lower g = v /\
      w =64 (if decide (getTarget (ed d0 g) = v) then Phi v else - Phi v)
  end.

(** Net change of the chord [f] over the search of the subtree of [v]. *)
Definition subtreeShare (v : NodeId) (f : EdgeId) : Z :=
  (if hangs v (getSource (ed d0 f)) then Phi (getSource (ed d0 f)) else 0) -
  (if hangs v (getTarget (ed d0 f)) then Phi (getTarget (ed d0 f)) else 0).

Ltac share_cases Hw :=
  repeat case_decide; repeat case_bool_decide;
  try (exfalso; intuition congruence); rewrite ?Hw; apply eqm64_eq; lia.

(** At a visited node a chord absorbs the node's potential, with the sign of
    the end it has there. *)
Lemma entry_share e v w f : entry e v w -> getSource (ed d0 f) <> getTarget (ed d0 f) ->
  chordShare d0 w v e f =64
    (if bool_decide (getSource (ed d0 f) = v) then Phi v else 0) -
    (if bool_decide (getTarget (ed d0 f) = v) then Phi v else 0).
Proof using HT.
  intros He Hf. unfold chordShare, calculateChordIncrementsDir.
  destruct e as [g|].
  - destruct He as (Hg & Hl & Hw).
    assert (getSource (ed d0 g) <> getTarget (ed d0 g)) as Hng.
    { pose proof (rt_depth _ _ HT g Hg) as Hd.
      destruct (upper_lower d0 depth g) as [[E1 E2]|[E1 E2]]; rewrite E1, E2 in Hd;
        intros E; rewrite E in Hd; lia. }
    destruct (upper_lower d0 depth g) as [[_ E]|[_ E]]; rewrite Hl in E; subst v.
    + rewrite decide_True in Hw by done.
      share_cases Hw.
    + rewrite decide_False in Hw by congruence.
      share_cases Hw.
  - destruct He as [-> Hw]. rewrite (potential_root _ _ HT).
    share_cases Hw.
Qed.


Lemma tree_edge_proper f : f ∈ _treeEdges d0 -> getSource (ed d0 f) <> getTarget (ed d0 f).
Proof using HT.
  intros Hf. pose proof (rt_depth _ _ HT f Hf) as Hd.
  destruct (upper_lower d0 depth f) as [[E1 E2]|[E1 E2]]; rewrite E1, E2 in Hd;
    intros E; rewrite E in Hd; lia.
Qed.

(** The edge the search came through is the one its node hangs from. *)
Lemma entry_lower e v w f : entry e v w -> f ∈ _treeEdges d0 -> lower f = v -> e = Some f.
Proof using HT.
  intros He Hf Hl. destruct e as [g|].
  - destruct He as (Hg & Hl' & _). f_equal. apply (rt_unique _ _ HT); congruence.
  - destruct He as [-> _]. pose proof (rt_depth _ _ HT f Hf) as Hd.
    rewrite Hl, (rt_root _ _ HT) in Hd. lia.
Qed.

Lemma entry_not_upper v w f : entry (Some f) v w -> upper f <> v.
Proof using HT.
  intros (Hf & Hl & _) Hu. pose proof (rt_depth _ _ HT f Hf) as Hd.
  rewrite Hl, Hu in Hd. lia.
Qed.

(** The step recurses exactly into the edges that hang from [v]. *)
Lemma treeStep_spec fuel w v e d f :
  only_increments d0 d -> entry e v w -> f ∈ _treeEdges d0 ->
  treeStep (calculateChordIncrementsDfs fuel) w v e d f =
    if decide (upper f = v)
    then calculateChordIncrementsDfs fuel
           (i64 (calculateChordIncrementsDir d0 e f * w + getWeight (ed d0 f)))
           (lower f) (Some f) d
    else Some d.
Proof using HT.
  intros HO He Hf. pose proof (oi_shape _ _ HO) as HS. unfold treeStep.
  pose proof (tree_edge_proper f Hf) as Hp.
  rewrite (dir_shape d0 d) by done.
  destruct (ss_ed _ _ HS f) as [Es Et _ Ew _ _]. rewrite Es, Et, Ew.
  destruct (decide (upper f = v)) as [Hu|Hu].
  - assert (e <> Some f) as Hne by (intros ->; exact (entry_not_upper _ _ _ He Hu)).
    destruct (upper_lower d0 depth f) as [[E1 ->]|[E1 ->]]; rewrite E1 in Hu; subst v.
    + rewrite decide_False by (intros [_ ?]; congruence). simpl.
      rewrite (dir_shape d0 d), Es, Et, Ew by done. by rewrite decide_True.
    + rewrite decide_True by done.
      destruct (calculateChordIncrementsDfs _ _ _ _ d) as [d1|] eqn:E; [|done]. simpl.
      apply dfs_chords_only in E as [E _].
      destruct (ss_ed _ _ (oi_shape _ _ E) f) as [Es' _ _ _ _ _]. rewrite Es', Es.
      rewrite decide_False; [done|]. intros [_ ?]; congruence.
  - assert (~ (e <> Some f /\ (v = getTarget (ed d0 f) \/ v = getSource (ed d0 f)))) as Hn.
    { intros [Hne Hv]. apply Hne. eapply entry_lower; [done|done|].
      destruct (upper_lower d0 depth f) as [[E1 E2]|[E1 E2]]; intuition congruence. }
    rewrite decide_False by tauto. simpl. rewrite Es. rewrite decide_False by tauto. done.
Qed.

Lemma entry_child e v w f : entry e v w -> f ∈ _treeEdges d0 -> upper f = v ->
  entry (Some f) (lower f) (i64 (calculateChordIncrementsDir d0 e f * w + getWeight (ed d0 f))).
Proof using HT.
  intros He Hf Hu. pose proof (tree_edge_proper f Hf) as Hp.
  pose proof (potential_edge _ _ HT f Hf) as HP.
  pose proof (entry_share e v w f He Hp) as Hs. unfold chordShare in Hs.
  split_and!; [done|done|]. rewrite i64_eqm.
  destruct (upper_lower d0 depth f) as [[E1 ->]|[E1 ->]]; rewrite E1 in Hu; subst v.
  - rewrite decide_True in Hs by auto. rewrite Hs, decide_True by done.
    rewrite bool_decide_true, bool_decide_false by congruence. apply eqm64_eq. lia.
  - rewrite decide_True in Hs by auto. rewrite Hs, decide_False by congruence.
    rewrite bool_decide_false, bool_decide_true by congruence. apply eqm64_eq. lia.
Qed.

(** The loop over (part of) the tree edges adds the shares of the subtrees
    that hang from [v]. *)
Lemma treeLoop_correct fuel w v e l d :
  (forall f d, f ∈ l -> upper f = v -> only_increments d0 d ->
     exists d', calculateChordIncrementsDfs fuel
         (i64 (calculateChordIncrementsDir d0 e f * w + getWeight (ed d0 f))) (lower f) (Some f) d
       = Some d' /\
       forall c, c ∈ _chordEdges d0 -> getSource (ed d0 c) <> getTarget (ed d0 c) ->
         getIncrement (ed d' c) =64 getIncrement (ed d c) + subtreeShare (lower f) c) ->
  (forall f, f ∈ l -> f ∈ _treeEdges d0) -> only_increments d0 d -> entry e v w ->
  exists d', foldM (treeStep (calculateChordIncrementsDfs fuel) w v e) d l = Some d' /\
    only_increments d0 d' /\
    forall c, c ∈ _chordEdges d0 -> getSource (ed d0 c) <> getTarget (ed d0 c) ->
      getIncrement (ed d' c) =64 getIncrement (ed d c) +
        Zsum (fun f => if bool_decide (upper f = v) then subtreeShare (lower f) c else 0) l.
Proof using HT.
  revert d. induction l as [|f l IH]; intros d Hrec Hl HO He.
  { exists d. split_and!; try done. intros. rewrite Zsum_nil. ring64. }
  cbn [foldM]. rewrite treeStep_spec by (try apply Hl; done || by left).
  assert (exists d1, (if decide (upper f = v)
            then calculateChordIncrementsDfs fuel
              (i64 (calculateChordIncrementsDir d0 e f * w + getWeight (ed d0 f))) (lower f) (Some f) d
            else Some d) = Some d1 /\ only_increments d0 d1 /\
          forall c, c ∈ _chordEdges d0 -> getSource (ed d0 c) <> getTarget (ed d0 c) ->
            getIncrement (ed d1 c) =64 getIncrement (ed d c) +
              if bool_decide (upper f = v) then subtreeShare (lower f) c else 0)
    as (d1 & -> & HO1 & Hi1).
  { case_decide as Hu.
    - destruct (Hrec f d) as (d1 & E & Hi); [by left|done|done|].
      exists d1. split_and!; [done| |].
      + etransitivity; [exact HO|]. by apply dfs_chords_only in E as [E _].
      + intros c Hc Hp. rewrite bool_decide_true by done. by apply Hi.
    - exists d. split_and!; try done. intros. rewrite bool_decide_false by done. ring64. }
  simpl. destruct (IH d1) as (d2 & E2 & HO2 & Hi2); try done.
  { intros; apply Hrec; by try right. }
  { intros; apply Hl; by right. }
  exists d2. split_and!; try done. intros c Hc Hp.
  rewrite Hi2, Hi1, Zsum_cons by done. ring64.
Qed.

(** Summing over the children and adding the visit itself gives the whole
    subtree. *)
Lemma subtreeShare_split v c : getSource (ed d0 c) <> getTarget (ed d0 c) ->
  subtreeShare v c =
    Zsum (fun f => if bool_decide (upper f = v) then subtreeShare (lower f) c else 0) (_treeEdges d0) +
    ((if bool_decide (getSource (ed d0 c) = v) then Phi v else 0) -
     (if bool_decide (getTarget (ed d0 c) = v) then Phi v else 0)).
Proof using HT.
  intros Hp.
  rewrite (Zsum_ext _ (fun f =>
    (if bool_decide (upper f = v) && hangs (lower f) (getSource (ed d0 c))
     then Phi (getSource (ed d0 c)) else 0) -
    (if bool_decide (upper f = v) && hangs (lower f) (getTarget (ed d0 c))
     then Phi (getTarget (ed d0 c)) else 0)) (_treeEdges d0)).
  2:{ intros f _. unfold subtreeShare. by case_bool_decide. }
  rewrite Zsum_sub, !(hangs_children _ _ HT). unfold subtreeShare.
  repeat case_bool_decide; subst; rewrite ?hangs_refl, ?andb_true_r, ?andb_false_r;
    try congruence; lia.
Qed.

Lemma dfs_correct fuel w v e d :
  only_increments d0 d -> entry e v w ->
  (length (_treeEdges d0) < fuel + depth v)%nat -> (depth v <= length (_treeEdges d0))%nat ->
  exists d', calculateChordIncrementsDfs fuel w v e d = Some d' /\
    forall c, c ∈ _chordEdges d0 -> getSource (ed d0 c) <> getTarget (ed d0 c) ->
      getIncrement (ed d' c) =64 getIncrement (ed d c) + subtreeShare v c.
Proof using HT HC.
  revert w v e d. induction fuel as [|fuel IH]; intros w v e d HO He Hfuel Hv; [lia|].
  rewrite dfs_unfold, (oi_tree _ _ HO).
  destruct (treeLoop_correct fuel w v e (_treeEdges d0) d) as (d1 & -> & HO1 & Hi1); try done.
  { intros f d' Hf Hu HO'. apply IH; [done|by eapply entry_child| |by apply (rt_bound _ _ HT)].
    rewrite (rt_depth _ _ HT f Hf), Hu. lia. }
  simpl. rewrite (oi_chord _ _ HO1). eexists; split; [done|]. intros c Hc Hp.
  destruct (absorb_loop w v e (_chordEdges d0) d1 HC) as [_ Ha].
  rewrite Ha, decide_True, Hi1 by done.
  rewrite (chordShare_shape d0 d1) by apply HO1.
  rewrite entry_share by done. rewrite (subtreeShare_split v c Hp). ring64.
Qed.
End Dfs.

(** ** The whole computation *)

Lemma hangs_root d depth x : RootedTree d depth ->
  parent d depth x <> None -> hangs d depth (getRoot d) x = true.
Proof.
  intros HT. remember (depth x) as n eqn:En. revert x En.
  induction n as [n IH] using lt_wf_ind; intros x En Hp.
  destruct (parent d depth x) as [f|] eqn:Ep; [|done]. apply parent_Some in Ep as [Hf <-].
  rewrite (hangs_lower d depth HT) by done. pose proof (rt_depth _ _ HT f Hf) as Hd.
  destruct (rt_top _ _ HT f Hf) as [->|(g & Hg & Hu)].
  - by rewrite hangs_refl, orb_true_r.
  - rewrite (IH (depth (upper d depth f))); [by rewrite orb_true_r|lia|done|].
    rewrite <- Hu. by rewrite (parent_lower d depth HT g Hg).
Qed.

(** Over the search from the root a chord gains the difference of the
    potentials of its ends. *)
Lemma subtreeShare_root d depth c : RootedTree d depth ->
  subtreeShare d depth (getRoot d) c =
    potential d depth (getSource (ed d c)) - potential d depth (getTarget (ed d c)).
Proof.
  intros HT. unfold subtreeShare.
  assert (forall x, (if hangs d depth (getRoot d) x then potential d depth x else 0)
                    = potential d depth x) as E.
  { intros x. destruct (parent d depth x) as [f|] eqn:Ep.
    - rewrite hangs_root; [done|done|]. by rewrite Ep.
    - rewrite (potential_no_parent _ _ _ Ep). by destruct (hangs _ _ _ _). }
  by rewrite !E.
Qed.

Lemma addChordWeight_loop l d : NoDup l -> (forall f, f ∈ l -> f ∈ _chordEdges d) ->
  chords_only d (foldl addChordWeight d l) /\
  forall f, getIncrement (ed (foldl addChordWeight d l) f) =64
    getIncrement (ed d f) + if decide (f ∈ l) then getWeight (ed d f) else 0.
Proof.
  intros Hnd. revert d. induction Hnd as [|x l Hx Hnd IH]; intros d Hl; cbn [foldl].
  { split; [done|]. intros f. rewrite decide_False by (by apply not_elem_of_nil). ring64. }
  assert (chords_only d (addChordWeight d x)) as HS by (apply chords_only_setIncrement, Hl; by left).
  destruct (IH (addChordWeight d x)) as [HS' Hi].
  { intros f Hf. rewrite (oi_chord _ _ (proj1 HS)). apply Hl. by right. }
  split; [by etransitivity|]. intros f. rewrite Hi.
  rewrite (se_weight _ _ (ss_ed _ _ (oi_shape _ _ (proj1 HS)) f)).
  unfold addChordWeight. destruct (decide (f = x)) as [->|Hne].
  - rewrite (decide_False (P := x ∈ l)), (decide_True (P := x ∈ x :: l)) by (done || by left).
    rewrite ed_updEdge_eq. cbn. ring64.
  - rewrite ed_updEdge_ne by done. destruct (decide (f ∈ l)).
    + by rewrite (decide_True (P := f ∈ x :: l)) by (by right).
    + rewrite (decide_False (P := f ∈ x :: l)); [done|]. rewrite elem_of_cons. naive_solver.
Qed.

(** Enough fuel: one more than the number of tree edges. *)
Lemma calculateChordIncrements_spec d depth fuel :
  RootedTree d depth -> NoDup (_chordEdges d) -> (length (_treeEdges d) < fuel)%nat ->
  exists d', calculateChordIncrements fuel d = Some d' /\ chords_only d d' /\
    forall c, c ∈ _chordEdges d -> getSource (ed d c) <> getTarget (ed d c) ->
      getIncrement (ed d' c) =64 getIncrement (ed d c) + getWeight (ed d c) +
        (potential d depth (getSource (ed d c)) - potential d depth (getTarget (ed d c))).
Proof.
  intros HT HC Hfuel. unfold calculateChordIncrements.
  destruct (dfs_correct d depth HT HC fuel 0 (getRoot d) None d) as (d1 & E & Hi); try done.
  { rewrite (rt_root _ _ HT). lia. }
  { rewrite (rt_root _ _ HT). lia. }
  rewrite E. simpl. apply dfs_chords_only in E as HS1.
  assert (_chordEdges d1 = _chordEdges d) as Hc1 by apply HS1.
  destruct (addChordWeight_loop (_chordEdges d1) d1) as [HS2 Hi2]; [by rewrite Hc1|done|].
  eexists; split; [done|]. split; [by etransitivity|]. intros c Hc Hp.
  rewrite Hi2, Hc1, decide_True, Hi, subtreeShare_root by done.
  rewrite (se_weight _ _ (ss_ed _ _ (oi_shape _ _ (proj1 HS1)) c)). ring64.
Qed.

(** ** Cycles keep their total *)

(** A walk along edges of any kind. *)
Inductive walk (d : BLInstrumentationDag) : NodeId -> list EdgeId -> NodeId -> Prop :=
  | walk_nil x : walk d x [] x
  | walk_cons x e p y :
      getSource (ed d e) = x -> walk d (getTarget (ed d e)) p y -> walk d x (e :: p) y.

(** Differences of potentials telescope along a walk. *)
Lemma walk_telescope d (g : NodeId -> Z) x p y : walk d x p y ->
  Zsum (fun e => g (getSource (ed d e)) - g (getTarget (ed d e))) p = g x - g y.
Proof. induction 1 as [|x e p y <- Hp IH]; [rewrite Zsum_nil; lia|]. rewrite Zsum_cons, IH. lia. Qed.

(** C4: for every tree hanging from the root, after [calculateChordIncrements]
    the tree edges carry no increment and every cycle made of tree edges and
    chords (self loops excepted) carries in its increments exactly the total
    of its weights, modulo the width of [long]; one unit of fuel more than the
    number of tree edges is enough. *)
Theorem chord_increments_preserve_cycles d depth x cyc :
  RootedTree d depth -> NoDup (_chordEdges d) ->
  (forall e, e ∈ _treeEdges d -> e ∉ _chordEdges d) ->
  (forall e, e ∈ _treeEdges d \/ e ∈ _chordEdges d -> getIncrement (ed d e) = 0) ->
  (forall e, e ∈ cyc -> e ∈ _treeEdges d \/
     (e ∈ _chordEdges d /\ getSource (ed d e) <> getTarget (ed d e))) ->
  walk d x cyc x ->
  exists d', calculateChordIncrements (S (length (_treeEdges d))) d = Some d' /\
    (forall e, e ∈ _treeEdges d -> getIncrement (ed d' e) = 0) /\
    Zsum (fun e => getIncrement (ed d' e)) cyc =64 path_number d cyc.
Proof.
  intros HT HC Hdisj H0 Hcyc Hw.
  destruct (calculateChordIncrements_spec d depth (S (length (_treeEdges d))))
    as (d' & E & [HO HF] & Hi); [done|done|lia|].
  exists d'. split; [done|].
  assert (forall e, e ∈ _treeEdges d -> getIncrement (ed d' e) = 0) as Htree.
  { intros e He. rewrite HF by auto. auto. }
  split; [done|].
  rewrite (Zsum_eqm64 _ (fun e => getWeight (ed d e) -
     (potential d depth (getTarget (ed d e)) - potential d depth (getSource (ed d e))))).
  - rewrite Zsum_sub. pose proof (walk_telescope d (fun n => - potential d depth n) x cyc x Hw) as Ht.
    rewrite (Zsum_ext _ (fun e => potential d depth (getTarget (ed d e)) -
       potential d depth (getSource (ed d e))) cyc) in Ht by (intros; lia).
    rewrite Ht. unfold path_number. apply eqm64_eq. lia.
  - intros e He. destruct (Hcyc e He) as [Ht|[Hc Hp]].
    + rewrite Htree by done. rewrite (potential_edge d depth HT e Ht). apply eqm64_eq. lia.
    + rewrite Hi, H0 by auto. apply eqm64_eq. lia.
Qed.

(** A triangle [0 -> 1 -> 2 -> 0] with a parallel chord [0 -> 2]; the tree is
    [{0 -> 1, 1 -> 2}]. *)
Definition exampleTree : BLInstrumentationDag :=
  let E s t w := MkEdge s t NORMAL w None None 0 false false false false in
  let N p s := MkNode (Some 0%nat) p s WHITE None None None in
  MkDag (list_to_map [(0%nat, N [3%nat] [1%nat; 4%nat]); (1%nat, N [1%nat] [2%nat]);
                      (2%nat, N [2%nat; 4%nat] [3%nat])])
        (list_to_map [(1%nat, E 0%nat 1%nat 5); (2%nat, E 1%nat 2%nat 7);
                      (3%nat, E 2%nat 0%nat 0); (4%nat, E 0%nat 2%nat 1)])
        [0%nat; 1%nat; 2%nat] [1%nat; 2%nat; 3%nat; 4%nat] 0%nat 2%nat 2 [1%nat; 2%nat]
        [3%nat; 4%nat] None.

Lemma exampleTree_rooted : RootedTree exampleTree (fun n => n).
Proof.
  split.
  - apply (bool_decide_unpack _). by vm_compute.
  - done.
  - intros f Hf. cbn in Hf. apply elem_of_cons in Hf as [->|Hf]; [done|].
    apply list_elem_of_singleton in Hf as ->. done.
  - intros f g Hf Hg. cbn in Hf, Hg.
    apply elem_of_cons in Hf as [->|Hf%list_elem_of_singleton];
    apply elem_of_cons in Hg as [->|Hg%list_elem_of_singleton]; subst; vm_compute; congruence.
  - intros f Hf. cbn in Hf. apply elem_of_cons in Hf as [->|Hf]; [by left|].
    apply list_elem_of_singleton in Hf as ->. right. exists 1%nat. split; [by left|done].
  - intros f Hf. cbn in Hf. apply elem_of_cons in Hf as [->|Hf]; [vm_compute; lia|].
    apply list_elem_of_singleton in Hf as ->. vm_compute; lia.
Qed.

Lemma chord_increments_preserve_cycles_witness :
  exists d', calculateChordIncrements 3 exampleTree = Some d' /\
    (forall e, e ∈ [1%nat; 2%nat] -> getIncrement (ed d' e) = 0) /\
    Zsum (fun e => getIncrement (ed d' e)) [1%nat; 2%nat; 3%nat]
      =64 path_number exampleTree [1%nat; 2%nat; 3%nat].
Proof.
  apply (chord_increments_preserve_cycles exampleTree (fun n => n) 0%nat [1%nat; 2%nat; 3%nat]).
  - apply exampleTree_rooted.
  - apply (bool_decide_unpack _). by vm_compute.
  - apply (Forall_forall (fun e => e ∉ _chordEdges exampleTree)).
    apply (bool_decide_unpack _). by vm_compute.
  - intros e He. change (e ∈ [1%nat; 2%nat] \/ e ∈ [3%nat; 4%nat]) in He.
    rewrite <- elem_of_app in He. revert e He.
    apply (Forall_forall (fun e => getIncrement (ed exampleTree e) = 0)).
    apply (bool_decide_unpack _). by vm_compute.
  - apply (Forall_forall (fun e => e ∈ _treeEdges exampleTree \/
      (e ∈ _chordEdges exampleTree /\ getSource (ed exampleTree e) <> getTarget (ed exampleTree e)))).
    apply (bool_decide_unpack _). by vm_compute.
  - repeat (constructor; [reflexivity|]). constructor.
Defined.
