(* ===== verification/Push.v ===== *)
(** * Pushing initialisations down and counters up

    [pushInitialization], [pushInitializationFromEdge], [pushCounters] and
    [pushCountersFromEdge] (src/PathLogging.cpp).  The two recursions are
    mirror images; [push] is their common shape, about which the section
    proves, once, what a push does to the edges along any path. *)

From stdpp Require Import base numbers list gmap.
From S2P Require Import Prelude Dag BallLarus.

Local Open Scope Z_scope.
Local Open Scope rrw_scope.

(** ** The code *)

(** Pushes initialization and calls itself recursively; [None]: out of fuel. *)
Fixpoint pushInitializationFromEdge (fuel : nat) (edge : EdgeId) (d : BLInstrumentationDag)
    : option BLInstrumentationDag :=
  match fuel with
  | O => None
  | S fuel =>
      let target := getTarget (ed d edge) in
      if decide (1 < getNumberPredEdges (nd d target))%nat then Some d
      else if decide (target = getExit d) then Some d
      else
        d ← foldM (fun d intoEdge =>
              if decide (getType (ed d intoEdge) = SPLITEDGE) then Some d
              else
                let d := updEdge intoEdge
                  (setIncrement (getIncrement (ed d intoEdge) + getIncrement (ed d edge))) d in
                let d := updEdge intoEdge (setIsInitialization true) d in
                pushInitializationFromEdge fuel intoEdge d) d (succEdges (nd d target));
        let d := updEdge edge (setIncrement 0) d in
        Some (updEdge edge (setIsInitialization false) d)
  end.

Definition pushInitialization (fuel : nat) (d : BLInstrumentationDag) : option BLInstrumentationDag :=
  exitRootEdge ← getExitRootEdge d;
  pushInitializationFromEdge fuel exitRootEdge
    (updEdge exitRootEdge (setIsInitialization true) d).

(** Pushes path counter increments up recursively. *)
Fixpoint pushCountersFromEdge (fuel : nat) (edge : EdgeId) (d : BLInstrumentationDag)
    : option BLInstrumentationDag :=
  match fuel with
  | O => None
  | S fuel =>
      let source := getSource (ed d edge) in
      if decide (1 < getNumberSuccEdges (nd d source))%nat then Some d
      else if decide (source = getRoot d) then Some d
      else if isInitialization (ed d edge) then Some d
      else
        d ← foldM (fun d fromEdge =>
              if decide (getType (ed d fromEdge) = SPLITEDGE) then Some d
              else
                let d := updEdge fromEdge
                  (setIncrement (getIncrement (ed d fromEdge) + getIncrement (ed d edge))) d in
                let d := updEdge fromEdge (setIsCounterIncrement true) d in
                pushCountersFromEdge fuel fromEdge d) d (predEdges (nd d source));
        let d := updEdge edge (setIncrement 0) d in
        Some (updEdge edge (setIsCounterIncrement false) d)
  end.

Definition pushCounters (fuel : nat) (d : BLInstrumentationDag) : option BLInstrumentationDag :=
  exitRootEdge ← getExitRootEdge d;
  pushCountersFromEdge fuel exitRootEdge
    (updEdge exitRootEdge (setIsCounterIncrement true) d).

(** ** The common shape *)

(** Which end a push goes to, which flag it carries, where it stops. *)
Record direction : Type := MkDirection {
  near : BLInstrumentationEdge -> NodeId;
  far : BLInstrumentationEdge -> NodeId;
  nexts : BLInstrumentationNode -> list EdgeId;
  stops : BLInstrumentationDag -> EdgeId -> bool;
  flag : BLInstrumentationEdge -> bool;
  setFlag : bool -> BLInstrumentationEdge -> BLInstrumentationEdge;
  other : BLInstrumentationEdge -> bool
}.

Definition pushStep (dir : direction) (rec : EdgeId -> BLInstrumentationDag -> option BLInstrumentationDag)
    (edge : EdgeId) (d : BLInstrumentationDag) (next : EdgeId) : option BLInstrumentationDag :=
  if decide (getType (ed d next) = SPLITEDGE) then Some d
  else
    let d := updEdge next (setIncrement (getIncrement (ed d next) + getIncrement (ed d edge))) d in
    let d := updEdge next (setFlag dir true) d in
    rec next d.

Fixpoint push (dir : direction) (fuel : nat) (edge : EdgeId) (d : BLInstrumentationDag)
    : option BLInstrumentationDag :=
  match fuel with
  | O => None
  | S fuel =>
      if stops dir d edge then Some d
      else
        d ← foldM (pushStep dir (push dir fuel) edge) d (nexts dir (nd d (far dir (ed d edge))));
        let d := updEdge edge (setIncrement 0) d in
        Some (updEdge edge (setFlag dir false) d)
  end.

Definition stopsInit (d : BLInstrumentationDag) (edge : EdgeId) : bool :=
  bool_decide (1 < getNumberPredEdges (nd d (getTarget (ed d edge))))%nat ||
  bool_decide (getTarget (ed d edge) = getExit d).

Definition stopsCounter (d : BLInstrumentationDag) (edge : EdgeId) : bool :=
  bool_decide (1 < getNumberSuccEdges (nd d (getSource (ed d edge))))%nat ||
  bool_decide (getSource (ed d edge) = getRoot d) || isInitialization (ed d edge).

Definition down : direction :=
  MkDirection getSource getTarget succEdges stopsInit isInitialization setIsInitialization
    isCounterIncrement.

Definition up : direction :=
  MkDirection getTarget getSource predEdges stopsCounter isCounterIncrement setIsCounterIncrement
    isInitialization.

Lemma foldM_ext {A B} (f g : A -> B -> option A) a l :
  (forall x b, f x b = g x b) -> foldM f a l = foldM g a l.
Proof.
  intros H. revert a. induction l as [|b l IH]; intros a; simpl; [done|].
  rewrite H. destruct (g a b); simpl; [apply IH|done].
Qed.

(** The two recursions of the code are the two directions of [push]. *)
Lemma pushInitialization_push fuel edge d :
  pushInitializationFromEdge fuel edge d = push down fuel edge d.
Proof.
  revert edge d. induction fuel as [|fuel IH]; intros edge d; [done|]. simpl. unfold stopsInit.
  repeat case_decide; repeat case_bool_decide; try done. simpl.
  rewrite (foldM_ext _ (pushStep down (push down fuel) edge)); [done|].
  intros x b. unfold pushStep. case_decide; [done|]. apply IH.
Qed.

Lemma pushCounters_push fuel edge d :
  pushCountersFromEdge fuel edge d = push up fuel edge d.
Proof.
  revert edge d. induction fuel as [|fuel IH]; intros edge d; [done|]. simpl. unfold stopsCounter.
  repeat case_decide; repeat case_bool_decide; try done. simpl.
  destruct (isInitialization (ed d edge)); [done|].
  rewrite (foldM_ext _ (pushStep up (push up fuel) edge)); [done|].
  intros x b. unfold pushStep. case_decide; [done|]. apply IH.
Qed.

(** ** Theory of a push *)

Class DirectionLaws (dir : direction) : Prop := {
  dl_static b e : static_eq e (setFlag dir b e);
  dl_flag b e : flag dir (setFlag dir b e) = b;
  dl_flag_inc z e : flag dir (setIncrement z e) = flag dir e;
  dl_inc b e : getIncrement (setFlag dir b e) = getIncrement e;
  dl_other b e : other dir (setFlag dir b e) = other dir e;
  dl_other_inc z e : other dir (setIncrement z e) = other dir e;
  dl_far e e' : static_eq e e' -> far dir e' = far dir e;
  dl_near e e' : static_eq e e' -> near dir e' = near dir e;
  dl_nexts n n' : static_node_eq n n' -> nexts dir n' = nexts dir n;
  dl_stops d d' : same_shape d d' -> (forall e, other dir (ed d' e) = other dir (ed d e)) ->
    forall e, stops dir d' e = stops dir d e
}.

#[export] Instance down_laws : DirectionLaws down.
Proof.
  split; try done.
  - by intros e e' [].
  - by intros e e' [].
  - by intros n n' [].
  - intros d d' HS _ e. simpl. unfold stopsInit, getNumberPredEdges.
    rewrite (se_target _ _ (ss_ed _ _ HS e)), (sn_pred _ _ (ss_nd _ _ HS _)), (ss_exit _ _ HS). done.
Qed.

#[export] Instance up_laws : DirectionLaws up.
Proof.
  split; try done.
  - by intros e e' [].
  - by intros e e' [].
  - by intros n n' [].
  - intros d d' HS Ho e. simpl in *. unfold stopsCounter, getNumberSuccEdges.
    rewrite (se_source _ _ (ss_ed _ _ HS e)), (sn_succ _ _ (ss_nd _ _ HS _)), (ss_root _ _ HS), Ho.
    done.
Qed.

(** Everything but increments and the pushed flag is the same. *)
Record frozen (dir : direction) (d d' : BLInstrumentationDag) : Prop := {
  fz_shape : same_shape d d';
  fz_other e : other dir (ed d' e) = other dir (ed d e)
}.

#[export] Instance frozen_equivalence dir : Equivalence (frozen dir).
Proof.
  split.
  - by intros d; split.
  - intros x y [HS Ho]. split; [by symmetry|congruence].
  - intros x y z [HS Ho] [HS' Ho']. split; [by etransitivity|congruence].
Qed.

Section Theory.
Context (dir : direction) `{Laws : !DirectionLaws dir}.

Lemma frozen_setIncrement e z d : frozen dir d (updEdge e (setIncrement z) d).
Proof using Laws.
  split; [auto with rrw|]. intros e'. rewrite ed_updEdge. case_decide; subst; [apply dl_other_inc|done].
Qed.

Lemma frozen_setFlag e b d : frozen dir d (updEdge e (setFlag dir b) d).
Proof using Laws.
  split; [apply same_shape_updEdge, dl_static|].
  intros e'. rewrite ed_updEdge. case_decide; subst; [apply dl_other|done].
Qed.

Lemma frozen_assign e z b d :
  frozen dir d (updEdge e (setFlag dir b) (updEdge e (setIncrement z) d)).
Proof using Laws.
  transitivity (updEdge e (setIncrement z) d); [apply frozen_setIncrement|apply frozen_setFlag].
Qed.

(** The graph a push runs on. *)
Context (d0 : BLInstrumentationDag) (m : EdgeId -> nat).

Definition passes (g : EdgeId) : Prop := stops dir d0 g = false.

(** [f] receives what [g] pushes. *)
Definition child (g f : EdgeId) : Prop :=
  f ∈ nexts dir (nd d0 (far dir (ed d0 g))) /\ getType (ed d0 f) <> SPLITEDGE.

Record PushOk : Prop := {
  po_near n f : f ∈ nexts dir (nd d0 n) -> f ∈ _edges d0 /\ near dir (ed d0 f) = n;
  po_nodup n : NoDup (nexts dir (nd d0 n));
  po_unique g g' : g ∈ _edges d0 -> g' ∈ _edges d0 -> passes g ->
    far dir (ed d0 g) = far dir (ed d0 g') -> g = g';
  po_measure g f : g ∈ _edges d0 -> passes g -> child g f -> (m f < m g)%nat
}.
Context (HP : PushOk).

(** The edges the recursion started at [e] visits, and with which increment
    [z] it visits them ([z0] at [e] itself). *)
Inductive visit (e : EdgeId) (z0 : Z) : EdgeId -> Z -> Prop :=
  | visit_here : visit e z0 e z0
  | visit_next g f z : visit e z0 g z -> passes g -> child g f ->
      visit e z0 f (i64 (getIncrement (ed d0 f) + z)).

Definition visited (e f : EdgeId) : Prop := exists z0 z, visit e z0 f z.

Lemma child_edge g f : child g f -> f ∈ _edges d0.
Proof using HP. intros [Hf _]. by apply (po_near HP) in Hf as [? _]. Qed.

Lemma visited_edge e f : e ∈ _edges d0 -> visited e f -> f ∈ _edges d0.
Proof using HP. intros He (z0 & z & H). destruct H; [done|]. by eapply child_edge. Qed.

Lemma visited_here e : visited e e.
Proof. exists 0, 0. constructor. Qed.

Lemma visited_next e g f : visited e g -> passes g -> child g f -> visited e f.
Proof. intros (z0 & z & H) Hp Hc. exists z0. eexists. by econstructor. Qed.

Lemma visited_ind e (P : EdgeId -> Prop) :
  P e -> (forall g f, visited e g -> P g -> passes g -> child g f -> P f) ->
  forall f, visited e f -> P f.
Proof.
  intros Hh Hn f (z0 & z & H). induction H as [|g f z H IH Hp Hc]; [done|].
  eapply Hn; [|exact IH|done|done]. by exists z0, z.
Qed.

Lemma visited_measure e f : e ∈ _edges d0 -> visited e f -> f = e \/ (m f < m e)%nat.
Proof using HP.
  intros He Hv. revert f Hv.
  apply (visited_ind e (fun f => f = e \/ (m f < m e)%nat)); [by left|]. intros g f' Hg IH Hp Hc. right.
  pose proof (po_measure HP g f' (visited_edge e g He Hg) Hp Hc). destruct IH; subst; lia.
Qed.

(** An edge has at most one edge that pushes into it. *)
Lemma pusher_unique g g' f : g ∈ _edges d0 -> g' ∈ _edges d0 ->
  passes g -> child g f -> child g' f -> g = g'.
Proof using HP.
  intros Hg Hg' Hp [Hf _] [Hf' _]. apply (po_unique HP); try done.
  apply (po_near HP) in Hf as [_ <-]. by apply (po_near HP) in Hf' as [_ <-].
Qed.

(** The recursions started at two children of the same edge do not meet. *)
Lemma visited_disjoint e c c' f : e ∈ _edges d0 -> passes e -> child e c -> child e c' ->
  visited c f -> visited c' f -> c = c'.
Proof using HP.
  intros He Hp Hc Hc'.
  assert (forall c, child e c -> ~ visited c e) as Hno.
  { intros x Hx Hv. pose proof (po_measure HP e x He Hp Hx).
    destruct (visited_measure x e (child_edge _ _ Hx) Hv); subst; lia. }
  assert (forall x y, child e x -> child e y -> visited x y -> x = y) as Htop.
  { intros x y Hx Hy Hv. inversion Hv as (z0 & z & V). inversion V as [|g ? z' Vg Pg Cg]; [done|]. subst.
    exfalso. apply (Hno x Hx). replace e with g; [by exists z0, z'|].
    eapply pusher_unique; [|done|done|done|done].
    eapply (visited_edge x); [by eapply child_edge|by exists z0, z']. }
  intros Hv. revert f Hv.
  apply (visited_ind c (fun f => visited c' f -> c = c')).
  - intros Hv. symmetry. by apply Htop.
  - intros g f Hg IH Pg Cg (z0 & z & V). inversion V as [|g' ? z' Vg' Pg' Cg']; subst.
    + apply Htop; [done|done|]. by eapply visited_next.
    + apply IH. replace g with g'; [by exists z0, z'|].
      eapply pusher_unique; [| |done|done|done].
      * eapply (visited_edge c'); [by eapply child_edge|by exists z0, z'].
      * eapply (visited_edge c); [by eapply child_edge|done].
Qed.

(** A visit below [e] goes through one of the edges [e] pushes into. *)
Lemma visit_split e z0 f z : visit e z0 f z ->
  (f = e /\ z = z0) \/
  (passes e /\ exists c, child e c /\ visit c (i64 (getIncrement (ed d0 c) + z0)) f z).
Proof.
  induction 1 as [|g f z Hg IH Hp Hc]; [by left|right].
  destruct IH as [[-> ->]|(Hpe & c & Hce & Hv)].
  - split; [done|]. exists f. split; [done|constructor].
  - split; [done|]. exists c. split; [done|]. by econstructor.
Qed.

Lemma visited_from_child e c f : passes e -> child e c -> visited c f -> visited e f.
Proof.
  intros Hp Hc Hv. revert f Hv. apply visited_ind.
  - eapply visited_next; [apply visited_here|done|done].
  - intros g f _ Hg Pg Cg. by eapply visited_next.
Qed.

(** What a push leaves behind at a visited edge. *)
Definition outcome (d : BLInstrumentationDag) (f : EdgeId) (z : Z) (b : bool) : Prop :=
  if stops dir d0 f
  then getIncrement (ed d f) = z /\ flag dir (ed d f) = b
  else getIncrement (ed d f) = 0 /\ flag dir (ed d f) = false.

Lemma outcome_ed d d' f z b : ed d' f = ed d f -> outcome d f z b -> outcome d' f z b.
Proof. unfold outcome. by intros ->. Qed.

Record pushed (e : EdgeId) (d d' : BLInstrumentationDag) : Prop := {
  pd_frozen : frozen dir d0 d';
  pd_frame f : ~ visited e f -> ed d' f = ed d f;
  pd_outcome f z : visit e (getIncrement (ed d e)) f z ->
    outcome d' f z (if decide (f = e) then flag dir (ed d e) else true)
}.

(** Invariant of the loop over the receiving edges: [pre] is done. *)
Record loopInv (e : EdgeId) (d : BLInstrumentationDag) (pre : list EdgeId)
    (x : BLInstrumentationDag) : Prop := {
  li_frozen : frozen dir d0 x;
  li_frame f : (forall c, c ∈ pre -> child e c -> ~ visited c f) -> ed x f = ed d f;
  li_outcome c f z : c ∈ pre -> child e c ->
    visit c (i64 (getIncrement (ed d0 c) + getIncrement (ed d e))) f z -> outcome x f z true
}.

Context (e : EdgeId) (d : BLInstrumentationDag).
Context (He : e ∈ _edges d0) (Hpass : passes e) (Hd : frozen dir d0 d).

Lemma child_not_above c : child e c -> ~ visited c e.
Proof using HP He Hpass.
  intros Hc Hv. pose proof (po_measure HP e c He Hpass Hc).
  destruct (visited_measure c e (child_edge _ _ Hc) Hv); subst; lia.
Qed.

(** Before its turn a receiving edge and everything below it is untouched. *)
Lemma loop_untouched pre x c f : loopInv e d pre x -> c ∉ pre -> child e c -> visited c f ->
  ed x f = ed d f.
Proof using HP He Hpass.
  intros HI Hc Hch Hv. apply (li_frame _ _ _ _ HI). intros c' Hc' Hch' Hv'.
  apply Hc. by rewrite (visited_disjoint e c c' f).
Qed.

Context (Hbelow : forall f, visited e f -> f <> e -> getIncrement (ed d f) = getIncrement (ed d0 f)).

Lemma loop_step rec pre x x' c :
  (forall x x', frozen dir d0 x ->
     (forall f, visited c f -> f <> c -> getIncrement (ed x f) = getIncrement (ed d0 f)) ->
     rec c x = Some x' -> pushed c x x') ->
  c ∉ pre -> c ∈ nexts dir (nd d0 (far dir (ed d0 e))) ->
  loopInv e d pre x -> pushStep dir rec e x c = Some x' -> loopInv e d (pre ++ [c]) x'.
Proof using HP He Hpass Hd Hbelow Laws.
  intros Hrec Hpre Hnext HI Hs. unfold pushStep in Hs.
  rewrite (se_type _ _ (ss_ed _ _ (fz_shape _ _ _ (li_frozen _ _ _ _ HI)) c)) in Hs.
  case_decide as Hty.
  { simplify_eq. split; [apply HI| |].
    - intros f Hf. apply HI. intros c' Hc'. apply Hf. set_solver.
    - intros c' f z Hc' Hch. apply HI; [|done]. apply elem_of_app in Hc' as [?|?]; [done|].
      exfalso. destruct Hch. set_solver. }
  assert (child e c) as Hch by done.
  assert (forall f, visited c f -> ed x f = ed d f) as Hun by (intros; by eapply loop_untouched).
  assert (forall f, visited c f -> f <> e) as Hne by (intros f Hf ->; by eapply child_not_above).
  assert (ed x e = ed d e) as Hxe.
  { apply HI. intros c' _ Hch'. by apply child_not_above. }
  set (x2 := updEdge c (setFlag dir true)
               (updEdge c (setIncrement (getIncrement (ed x c) + getIncrement (ed x e))) x)) in Hs.
  assert (frozen dir x x2) as Hx2 by (by apply frozen_assign).
  assert (forall f, f <> c -> ed x2 f = ed x f) as Hx2ne.
  { intros f Hf. unfold x2. by rewrite !ed_updEdge_ne. }
  assert (getIncrement (ed x2 c) = i64 (getIncrement (ed d0 c) + getIncrement (ed d e))) as Hinc.
  { unfold x2. rewrite !ed_updEdge_eq, dl_inc, Hxe, Hun by apply visited_here. cbn.
    rewrite Hbelow; [done| |by apply Hne, visited_here].
    eapply visited_from_child; [done|done|apply visited_here]. }
  destruct (Hrec x2 x') as [Hfz Hfr Hout]; [| |done|].
  { etransitivity; [apply HI|exact Hx2]. }
  { intros f Hf Hfc. rewrite Hx2ne, Hun by done. apply Hbelow; [|by apply Hne].
    by eapply visited_from_child. }
  split; [done| |].
  - intros f Hf. assert (~ visited c f) as Hnv by (apply Hf; [set_solver|done]).
    rewrite Hfr, Hx2ne by (done || intros ->; by apply Hnv, visited_here).
    apply HI. intros c' Hc'. apply Hf. set_solver.
  - intros c' f z Hc' Hch' Hv. apply elem_of_app in Hc' as [Hc'|Hc'].
    + assert (~ visited c f) as Hnv.
      { intros Hvc. apply Hpre. replace c with c'; [done|].
        eapply (visited_disjoint e c' c f); try done. by eexists _, _. }
      eapply (outcome_ed x); [|by eapply li_outcome].
      rewrite Hfr by done. apply Hx2ne. intros ->. apply Hnv, visited_here.
    + apply list_elem_of_singleton in Hc' as ->. rewrite <- Hinc in Hv.
      apply Hout in Hv. unfold x2 in Hv.
      rewrite ed_updEdge_eq, dl_flag in Hv. by destruct (decide (f = c)).
Qed.
End Theory.

Section Correct.
Context (dir : direction) `{Laws : !DirectionLaws dir}.
Context (d0 : BLInstrumentationDag) (m : EdgeId -> nat) (HP : PushOk dir d0 m).

Abbreviation visit := (visit dir d0).
Abbreviation visited := (visited dir d0).
Abbreviation passes := (passes dir d0).
Abbreviation child := (child dir d0).

Lemma stops_frozen d e : frozen dir d0 d -> stops dir d e = stops dir d0 e.
Proof using Laws. intros [HS Ho]. by apply dl_stops. Qed.

Lemma nexts_frozen d e : frozen dir d0 d ->
  nexts dir (nd d (far dir (ed d e))) = nexts dir (nd d0 (far dir (ed d0 e))).
Proof using Laws.
  intros [HS _]. rewrite (dl_far _ _ (ss_ed _ _ HS e)). apply dl_nexts, HS.
Qed.

(** A push that returns has pushed. *)
Lemma push_correct fuel e d d' :
  e ∈ _edges d0 -> frozen dir d0 d ->
  (forall f, visited e f -> f <> e -> getIncrement (ed d f) = getIncrement (ed d0 f)) ->
  push dir fuel e d = Some d' -> pushed dir d0 e d d'.
Proof using HP Laws.
  revert e d d'. induction fuel as [|fuel IH]; intros e d d' He Hd Hbelow; [done|].
  cbn [push]. rewrite stops_frozen by done. destruct (stops dir d0 e) eqn:Hst.
  { intros [= <-]. split; [done|done|]. intros f z Hv.
    apply visit_split in Hv as [[-> ->]|[Hp _]]; [|congruence].
    unfold outcome. by rewrite Hst, decide_True. }
  rewrite nexts_frozen by done. destruct (foldM _ _ _) as [x|] eqn:E; [|done]. simpl. intros [= <-].
  assert (loopInv dir d0 e d (nexts dir (nd d0 (far dir (ed d0 e)))) x) as HI.
  { revert E. apply (foldM_ind _ (loopInv dir d0 e d)).
    - split; [done|done|]. intros c f z Hc. by apply not_elem_of_nil in Hc.
    - intros pre c post y y' Hl HIy. eapply loop_step; try done.
      + intros w w' Hw Hwb. apply IH; [|done|done].
        apply (po_near _ _ _ HP (far dir (ed d0 e))). rewrite Hl. set_solver.
      + pose proof (po_nodup _ _ _ HP (far dir (ed d0 e))) as Hnd. rewrite Hl in Hnd.
        apply NoDup_app in Hnd as (_ & Hnd & _). intros Hc. apply (Hnd c Hc). by left.
      + rewrite Hl. set_solver. }
  split.
  - etransitivity; [exact (li_frozen _ _ _ _ _ _ HI)|].
    by apply frozen_assign.
  - intros f Hf. rewrite !ed_updEdge_ne by (intros ->; by apply Hf, visited_here).
    apply HI. intros c _ Hc Hv. apply Hf. by eapply visited_from_child.
  - intros f z Hv. apply visit_split in Hv as [[-> ->]|(_ & c & Hc & Hv)].
    + unfold outcome. rewrite Hst, !ed_updEdge_eq, dl_flag, dl_inc. done.
    + assert (e <> f) as Hne.
      { intros <-. eapply child_not_above; try done. by eexists _, _. }
      rewrite decide_False by done.
      eapply (outcome_ed _ _ x); [by rewrite !ed_updEdge_ne|].
      eapply li_outcome; [done|apply Hc|done|done].
Qed.

(** A push returns when its fuel exceeds the measure of its edge. *)
Lemma push_total fuel e d :
  e ∈ _edges d0 -> frozen dir d0 d -> (m e < fuel)%nat ->
  exists d', push dir fuel e d = Some d' /\ frozen dir d0 d'.
Proof using HP Laws.
  revert e d. induction fuel as [|fuel IH]; intros e d He Hd Hm; [lia|].
  cbn [push]. rewrite stops_frozen by done. destruct (stops dir d0 e) eqn:Hst; [by eauto|].
  rewrite nexts_frozen by done.
  destruct (foldM_is_Some (pushStep dir (push dir fuel) e) (frozen dir d0)
    (nexts dir (nd d0 (far dir (ed d0 e)))) d) as (x & -> & Hx); [done| |].
  - intros c y Hc Hy. unfold pushStep.
    rewrite (se_type _ _ (ss_ed _ _ (fz_shape _ _ _ Hy) c)). case_decide as Hty; [by eauto|].
    apply IH.
    + by apply (po_near _ _ _ HP) in Hc as [? _].
    + etransitivity; [exact Hy|]. by apply frozen_assign.
    + pose proof (po_measure _ _ _ HP e c He Hst ltac:(done)). lia.
  - simpl. eexists; split; [done|]. etransitivity; [exact Hx|]. by apply frozen_assign.
Qed.

(** A chain: each edge receives what the previous one pushes. *)
Inductive chain : EdgeId -> list EdgeId -> Prop :=
  | chain_nil e : chain e []
  | chain_cons e f l : f ∈ _edges d0 -> child e f -> chain f l -> chain e (f :: l).

(** Along a chain nothing changes after an edge the push has not reached. *)
Lemma chain_unvisited e0 e l : e0 ∈ _edges d0 -> e ∈ _edges d0 -> chain e l ->
  (~ visited e0 e \/ ~ passes e) -> (forall f, f ∈ l -> f <> e0) ->
  forall f, f ∈ l -> ~ visited e0 f.
Proof using HP.
  intros He0 He Hch. revert He. induction Hch as [|e f l Hf Hc Hch IH]; intros He Hno Hne g Hg.
  { by apply not_elem_of_nil in Hg. }
  assert (~ visited e0 f) as Hnf.
  { intros (z0 & z & V). inversion V as [|h ? z' Vh Ph Ch]; subst.
    - apply (Hne f); [by left|done].
    - assert (h = e) as ->.
      { eapply (pusher_unique dir d0 m HP h e f); try done.
        eapply (visited_edge dir d0 m HP e0); [done|by exists z0, z']. }
      destruct Hno as [Hno|Hno]; [|done]. apply Hno. by exists z0, z'. }
  apply elem_of_cons in Hg as [->|Hg]; [done|].
  apply IH; [done|by left| |done]. intros; apply Hne; by right.
Qed.

(** A chain split at its first stop: the edges before it have lost their
    increment and flag, it has collected all of them and those of [l0], the
    rest is untouched. *)
Definition collected (d d' : BLInstrumentationDag) (l0 l : list EdgeId) : Prop :=
  exists l1 f l2, l = l1 ++ f :: l2 /\
    (forall g, g ∈ l1 -> getIncrement (ed d' g) = 0 /\ flag dir (ed d' g) = false /\ passes g) /\
    ~ passes f /\ flag dir (ed d' f) = true /\
    getIncrement (ed d' f) =64 Zsum (fun g => getIncrement (ed d g)) (l0 ++ l1 ++ [f]) /\
    (forall g, g ∈ l2 -> ed d' g = ed d g).

(** The push from [e0] has reached [e] with [z], the sum over [l0] and [e]. *)
Lemma push_chain_from e0 d d' last : e0 ∈ _edges d0 ->
  (forall f, getIncrement (ed d f) = getIncrement (ed d0 f)) ->
  pushed dir d0 e0 d d' -> flag dir (ed d e0) = true -> ~ passes last ->
  forall l e z l0, e ∈ _edges d0 -> chain e l -> (forall f, f ∈ l -> f <> e0) ->
    visit e0 (getIncrement (ed d e0)) e z -> list.last (e :: l) = Some last ->
    z =64 Zsum (fun g => getIncrement (ed d g)) (l0 ++ [e]) -> collected d d' l0 (e :: l).
Proof using HP Laws.
  intros He0 Hinc [_ Hfr Hout] Hflag Hstop l. induction l as [|f l IH]; intros e z l0 He Hch Hne Hv Hlast Hz;
    pose proof (Hout _ _ Hv) as Ho; unfold outcome in Ho.
  - simpl in Hlast. simplify_eq. exists [], last, []. destruct (stops dir d0 last) eqn:Hs; [|done].
    destruct Ho as [-> Hfl]. split_and!; try done; try (intros g Hg; by apply not_elem_of_nil in Hg).
    rewrite Hfl. by case_decide.
  - inversion Hch as [|? ? ? Hf Hc Hch']; subst. destruct (stops dir d0 e) eqn:Hs.
    + exists [], e, (f :: l). destruct Ho as [-> Hfl].
      assert (~ passes e) as Hnp by (unfold Push.passes; congruence).
      split_and!; try done.
      * intros g Hg. by apply not_elem_of_nil in Hg.
      * rewrite Hfl. by case_decide.
      * intros g Hg. apply Hfr. eapply (chain_unvisited e0 e (f :: l)); try done. by right.
    + destruct Ho as [Hi0 Hf0].
      destruct (IH f (i64 (getIncrement (ed d0 f) + z)) (l0 ++ [e])) as (l1 & h & l2 & Hl & H1 & H2 & H3 & H4 & H5);
        try done.
      * intros; apply Hne; by right.
      * by econstructor.
      * rewrite i64_eqm, Hz, <- Hinc. autorewrite with rrw. ring64.
      * exists (e :: l1), h, l2. rewrite Hl. split_and!; try done.
        -- intros g Hg. apply elem_of_cons in Hg as [->|Hg]; [done|by apply H1].
        -- rewrite H4. rewrite <- app_assoc. done.
Qed.

(** What a push does along a chain that ends at an edge where it stops. *)
Lemma push_chain fuel e0 d d' l last :
  e0 ∈ _edges d0 -> frozen dir d0 d -> (forall f, getIncrement (ed d f) = getIncrement (ed d0 f)) ->
  push dir fuel e0 d = Some d' ->
  flag dir (ed d e0) = true ->
  chain e0 l -> (forall f, f ∈ l -> f <> e0) ->
  list.last (e0 :: l) = Some last -> ~ passes last ->
  collected d d' [] (e0 :: l).
Proof using HP Laws.
  intros He0 Hd Hinc Hpush Hflag Hch Hne Hlast Hstop.
  apply (push_chain_from e0 d d' last He0 Hinc) with (getIncrement (ed d e0)); try done.
  - by apply (push_correct fuel).
  - constructor.
  - simpl. rewrite Zsum_cons, Zsum_nil. ring64.
Qed.
End Correct.
