(* ===== verification/Marking.v ===== *)
(** * The marked DAG counts every path once, under its number

    The phases of [PathProfiler::runOnFunction] (src/PathLogging.cpp) that
    mark the DAG, composed as the code composes them, and what the marks mean:
    [edgeExec] is the effect on the path-number register of the code that
    [insertInstrumentationStartingAt] places for one edge.  The theorems say
    that whatever route the instrumented function takes, it reports, one after
    the other, the numbers of the DAG paths its route is made of. *)

From stdpp Require Import base numbers list gmap.
From S2P Require Import Prelude Dag BallLarus SpanningTree ChordIncrements Push.

Local Open Scope Z_scope.
Local Open Scope rrw_scope.

(** ** The marking phases *)

(** Enough fuel for both pushes: two more than the number of nodes. *)
Definition pushFuel (d : BLInstrumentationDag) : nat := S (S (length (_nodes d))).

(** [runOnFunction] after the path numbers are known and before phony edges
    are unlinked. *)
Definition markDag (d : BLInstrumentationDag) : option BLInstrumentationDag :=
  d ← calculateSpanningTree d;
  d ← calculateChordIncrements (S (length (_treeEdges d))) d;
  d ← pushInitialization (pushFuel d) d;
  pushCounters (pushFuel d) d.

(** ** Meaning of the marks

    The path number travels as an optional [Value] ([None]: [NULL]).  A use of
    [NULL] as an operand, or a failing [assert], is [None]. *)

(** The code placed for an edge that is neither a back edge nor a split edge:
    the register after it, and the path numbers reported. *)
Definition markExec (e : BLInstrumentationEdge) (r : option Z) : option (option Z * list Z) :=
  r ← (if isInitialization e then Some (Some (i32 (getIncrement e)))
       else if decide (getIncrement e = 0) then Some r
       else v ← r; Some (Some (i32 (v + i32 (getIncrement e)))));
  if isCounterIncrement e then v ← r; Some (None, [v]) else Some (r, []).

(** The code placed for a back edge or a split edge: the bottom phony edge
    ends the current path, the top phony edge starts the next. *)
Definition cutExec (d : BLInstrumentationDag) (e : BLInstrumentationEdge) (r : option Z)
    : option (option Z * list Z) :=
  top ← getPhonyRoot e;
  bottom ← getPhonyExit e;
  if negb (isInitialization (ed d top)) then None
  else if negb (isCounterIncrement (ed d bottom)) then None
  else
    let v := default 0 r in
    let v := if decide (getIncrement (ed d bottom) = 0) then v
             else i32 (v + i32 (getIncrement (ed d bottom))) in
    let w := i32 (getIncrement (ed d top)) in
    if isCounterIncrement (ed d top) then Some (None, [v; w]) else Some (Some w, [v]).

Definition edgeExec (d : BLInstrumentationDag) (e : EdgeId) (r : option Z) : option (option Z * list Z) :=
  if cut_type (getType (ed d e)) then cutExec d (ed d e) r else markExec (ed d e) r.

(** Running along a list of edges. *)
Fixpoint runExec (step : EdgeId -> option Z -> option (option Z * list Z)) (l : list EdgeId)
    (r : option Z) : option (option Z * list Z) :=
  match l with
  | [] => Some (r, [])
  | e :: l =>
      '(r1, out1) ← step e r;
      '(r2, out2) ← runExec step l r1;
      Some (r2, out1 ++ out2)
  end.

Definition pathExec (d : BLInstrumentationDag) : list EdgeId -> option Z -> option (option Z * list Z) :=
  runExec (fun e => markExec (ed d e)).

Definition walkExec (d : BLInstrumentationDag) : list EdgeId -> option Z -> option (option Z * list Z) :=
  runExec (edgeExec d).

(** ** Routes of the function *)

(** A route takes the edges of the CFG, never the phony ones. *)
Inductive route (d : BLInstrumentationDag) (er : EdgeId) : NodeId -> list EdgeId -> NodeId -> Prop :=
  | route_nil x : route d er x [] x
  | route_cons x e p y :
      e ∈ _edges d -> e <> er -> phony_type (getType (ed d e)) = false ->
      getSource (ed d e) = x -> route d er (getTarget (ed d e)) p y ->
      route d er x (e :: p) y.

(** A route is cut at its back and split edges into DAG paths; [acc] is the
    path under way. *)
Fixpoint segments (d : BLInstrumentationDag) (acc l : list EdgeId) : list (list EdgeId) :=
  match l with
  | [] => [acc]
  | e :: l =>
      if cut_type (getType (ed d e)) then
        match getPhonyExit (ed d e), getPhonyRoot (ed d e) with
        | Some b, Some t => (acc ++ [b]) :: segments d [t] l
        | _, _ => []
        end
      else segments d (acc ++ [e]) l
  end.

(** What [dag.init()] and [dag.calculatePathNumbers()] hand over: no marks yet. *)
Record Unmarked (d : BLInstrumentationDag) : Prop := {
  um_tree : _treeEdges d = [];
  um_chord : _chordEdges d = [];
  um_span e : isInSpanningTree (ed d e) = false;
  um_inc e : getIncrement (ed d e) = 0;
  um_init e : isInitialization (ed d e) = false;
  um_counter e : isCounterIncrement (ed d e) = false
}.

Definition unmarkedEdge (e : BLInstrumentationEdge) : bool :=
  bool_decide (isInSpanningTree e = false /\ getIncrement e = 0 /\
    isInitialization e = false /\ isCounterIncrement e = false).

Definition checkUnmarked (d : BLInstrumentationDag) : bool :=
  bool_decide (_treeEdges d = [] /\ _chordEdges d = []) &&
  forallb unmarkedEdge (map_to_list (edgeStore d)).*2.

(** ** Running *)

Lemma runExec_app step l1 l2 r :
  runExec step (l1 ++ l2) r =
    ('(r1, out1) ← runExec step l1 r; '(r2, out2) ← runExec step l2 r1; Some (r2, out1 ++ out2)).
Proof.
  revert r. induction l1 as [|e l1 IH]; intros r; simpl.
  - by destruct (runExec step l2 r) as [[]|].
  - destruct (step e r) as [[r1 out1]|]; [|done]. simpl. rewrite IH.
    destruct (runExec step l1 r1) as [[r2 out2]|]; [|done]. simpl.
    destruct (runExec step l2 r2) as [[r3 out3]|]; [|done]. simpl. by rewrite app_assoc.
Qed.

Lemma i32_add a b : i32 (i32 a + i32 b) = i32 (a + b).
Proof.
  destruct (wrapS_shift 32 a) as [k Hk]; [lia|]. destruct (wrapS_shift 32 b) as [k' Hk']; [lia|].
  unfold i32 at 2 3. rewrite Hk, Hk'. unfold i32, wrapS. f_equal.
  replace (a + k * 2 ^ 32 + (b + k' * 2 ^ 32) + 2 ^ (32 - 1))
    with (a + b + 2 ^ (32 - 1) + (k + k') * 2 ^ 32) by lia.
  apply Z_mod_plus_full.
Qed.

Lemma pathExec_cons d e l r :
  pathExec d (e :: l) r =
    ('(r1, out1) ← markExec (ed d e) r; '(r2, out2) ← pathExec d l r1; Some (r2, out1 ++ out2)).
Proof. done. Qed.

Lemma pathExec_app d l1 l2 r :
  pathExec d (l1 ++ l2) r =
    ('(r1, out1) ← pathExec d l1 r; '(r2, out2) ← pathExec d l2 r1; Some (r2, out1 ++ out2)).
Proof. apply runExec_app. Qed.

Lemma walkExec_cons d e l r :
  walkExec d (e :: l) r =
    ('(r1, out1) ← edgeExec d e r; '(r2, out2) ← walkExec d l r1; Some (r2, out1 ++ out2)).
Proof. done. Qed.

Arguments edgeExec : simpl never.
Arguments walkExec : simpl never.
Arguments markExec : simpl never.
Arguments pathExec : simpl never.

(** Edges without any mark do nothing. *)
Lemma pathExec_blank d l r :
  (forall g, g ∈ l -> getIncrement (ed d g) = 0 /\ isInitialization (ed d g) = false /\
     isCounterIncrement (ed d g) = false) ->
  pathExec d l r = Some (r, []).
Proof.
  induction l as [|e l IH]; intros H; [done|].
  rewrite pathExec_cons. unfold markExec.
  destruct (H e) as (-> & -> & ->); [by left|]. simpl.
  rewrite IH; [done|]. intros; apply H; by right.
Qed.

(** Edges that neither initialise nor count add their increments. *)
Lemma pathExec_add d l z :
  (forall g, g ∈ l -> isInitialization (ed d g) = false /\ isCounterIncrement (ed d g) = false) ->
  pathExec d l (Some (i32 z)) = Some (Some (i32 (z + Zsum (fun g => getIncrement (ed d g)) l)), []).
Proof.
  revert z. induction l as [|e l IH]; intros z H.
  { unfold pathExec. simpl. do 4 f_equal. rewrite Zsum_nil. lia. }
  rewrite pathExec_cons. unfold markExec.
  destruct (H e) as (-> & ->); [by left|]. rewrite Zsum_cons. case_decide as Hi; simpl.
  - rewrite IH by (intros; apply H; by right). simpl. rewrite Hi. do 4 f_equal; lia.
  - rewrite i32_add, IH by (intros; apply H; by right). simpl. do 4 f_equal; lia.
Qed.

(** ** Both pushes run on a Ball-Larus DAG *)

Section Phases.
Context (d : BLInstrumentationDag) (er : EdgeId) (rank : NodeId -> nat).
Context (HB : BallLarusDag d er rank).

Definition downMeasure (f : EdgeId) : nat :=
  if stopsInit d f then 0%nat else S (rank (getTarget (ed d f))).

Definition upMeasure (f : EdgeId) : nat :=
  if stopsCounter d f then 0%nat else S (length (_nodes d) - rank (getSource (ed d f))).

Lemma passes_down g : passes down d g ->
  (length (predEdges (nd d (getTarget (ed d g)))) <= 1)%nat /\ getTarget (ed d g) <> getExit d.
Proof using.
  unfold passes. simpl. unfold stopsInit, getNumberPredEdges. intros H.
  apply orb_false_iff in H as [H1 H2].
  apply bool_decide_eq_false in H1, H2. split; [lia|done].
Qed.

Lemma passes_up g : passes up d g ->
  (length (succEdges (nd d (getSource (ed d g)))) <= 1)%nat /\ getSource (ed d g) <> getRoot d /\
  isInitialization (ed d g) = false.
Proof using.
  unfold passes. simpl. unfold stopsCounter, getNumberSuccEdges. intros H.
  apply orb_false_iff in H as [H H3]. apply orb_false_iff in H as [H1 H2].
  apply bool_decide_eq_false in H1, H2. split; [lia|done].
Qed.

Lemma passes_down_dag g : g ∈ _edges d -> passes down d g -> cut_type (getType (ed d g)) = false.
Proof using HB.
  intros Hg Hp. apply passes_down in Hp as [Hl _].
  destruct (cut_type _) eqn:E; [|done]. pose proof (cut_target_preds _ _ _ HB g Hg E). lia.
Qed.

Lemma passes_up_dag g : g ∈ _edges d -> passes up d g -> cut_type (getType (ed d g)) = false.
Proof using HB.
  intros Hg Hp. apply passes_up in Hp as [Hl _].
  destruct (cut_type _) eqn:E; [|done]. pose proof (cut_source_succs _ _ _ HB g Hg E). lia.
Qed.

Lemma length_le_1_unique {A} (l : list A) x y :
  (length l <= 1)%nat -> x ∈ l -> y ∈ l -> x = y.
Proof using.
  destruct l as [|a [|b l]]; simpl; intros Hl Hx Hy; [by apply not_elem_of_nil in Hx| |lia].
  apply list_elem_of_singleton in Hx, Hy. congruence.
Qed.

Lemma PushOk_down : PushOk down d downMeasure.
Proof using HB.
  split; simpl.
  - intros n f. by rewrite (bl_succ _ _ _ HB).
  - apply (bl_succ_nodup _ _ _ HB).
  - intros g g' Hg Hg' Hp E. apply passes_down in Hp as [Hl _].
    eapply length_le_1_unique; [exact Hl| |]; by apply (bl_pred _ _ _ HB).
  - intros g f Hg Hp [Hf Hty]. simpl in Hf. apply (bl_succ _ _ _ HB) in Hf as [Hf Hs].
    unfold downMeasure. pose proof Hp as Hp'. unfold passes in Hp'. simpl in Hp'. rewrite Hp'.
    destruct (stopsInit d f) eqn:Est; [lia|].
    apply passes_down in Hp as [_ Hx].
    assert (f <> er) by (intros ->; rewrite (bl_er_source _ _ _ HB) in Hs; congruence).
    pose proof (bl_rank _ _ _ HB f Hf H (passes_down_dag f Hf Est)) as Hr. rewrite Hs in Hr. lia.
Qed.

Lemma PushOk_up : PushOk up d upMeasure.
Proof using HB.
  split; simpl.
  - intros n f. by rewrite (bl_pred _ _ _ HB).
  - apply (bl_pred_nodup _ _ _ HB).
  - intros g g' Hg Hg' Hp E. apply passes_up in Hp as [Hl _].
    eapply length_le_1_unique; [exact Hl| |]; by apply (bl_succ _ _ _ HB).
  - intros g f Hg Hp [Hf Hty]. simpl in Hf. apply (bl_pred _ _ _ HB) in Hf as [Hf Hs].
    unfold upMeasure. pose proof Hp as Hp'. unfold passes in Hp'. simpl in Hp'. rewrite Hp'.
    destruct (stopsCounter d f) eqn:Est; [lia|].
    apply passes_up in Hp as (_ & Hx & _).
    assert (f <> er) by (intros ->; rewrite (bl_er_target _ _ _ HB) in Hs; congruence).
    pose proof (bl_rank _ _ _ HB f Hf H (passes_up_dag f Hf Est)) as Hr. rewrite Hs in Hr.
    pose proof (bl_rank_bound _ _ _ HB (getSource (ed d f))). lia.
Qed.

Lemma downMeasure_bound f : (downMeasure f < pushFuel d)%nat.
Proof using HB.
  unfold downMeasure, pushFuel. pose proof (bl_rank_bound _ _ _ HB (getTarget (ed d f))).
  destruct (stopsInit d f); lia.
Qed.

Lemma upMeasure_bound f : (upMeasure f < pushFuel d)%nat.
Proof using HB. unfold upMeasure, pushFuel. destruct (stopsCounter d f); lia. Qed.

Lemma getExitRootEdge_er : getExitRootEdge d = Some er.
Proof using HB. unfold getExitRootEdge. by rewrite (bl_exit_succ _ _ _ HB). Qed.

(** The closing edge passes its initialisation on, and then its counter. *)
Lemma er_passes_down : passes down d er.
Proof using HB.
  unfold passes. simpl. unfold stopsInit, getNumberPredEdges.
  rewrite (bl_er_target _ _ _ HB), (bl_root_pred _ _ _ HB).
  rewrite !bool_decide_false; [done|apply HB|simpl; lia].
Qed.

Lemma er_passes_up : isInitialization (ed d er) = false -> passes up d er.
Proof using HB.
  intros Hi. unfold passes. simpl. unfold stopsCounter, getNumberSuccEdges.
  rewrite (bl_er_source _ _ _ HB), (bl_exit_succ _ _ _ HB), Hi.
  rewrite !bool_decide_false; [done|intros E; by apply (bl_root_exit _ _ _ HB)|simpl; lia].
Qed.

Lemma not_cut_not_split t : cut_type t = false -> t <> SPLITEDGE.
Proof using. by destruct t. Qed.

(** A path is a chain for the downward push, its reverse for the upward one. *)
Lemma dag_path_chain_down e p y : e ∈ _edges d ->
  dag_path d er (getTarget (ed d e)) p y -> chain down d e p.
Proof using HB.
  revert e. induction p as [|f p IH]; intros e He Hp; [constructor|].
  inversion Hp as [|? ? ? ? Hf Hne Hc Hs Hp']; subst.
  constructor; [done| |by apply IH].
  split; [by apply (bl_succ _ _ _ HB)|by apply not_cut_not_split].
Qed.

Lemma dag_path_snoc x p f y : dag_path d er x (p ++ [f]) y ->
  f ∈ _edges d /\ f <> er /\ cut_type (getType (ed d f)) = false /\ getTarget (ed d f) = y /\
  dag_path d er x p (getSource (ed d f)).
Proof using.
  revert x. induction p as [|e p IH]; intros x Hp; simpl in Hp.
  - inversion Hp as [|? ? ? ? Hf Hne Hc Hs Hp']; subst. inversion Hp'; subst.
    split_and!; try done. constructor.
  - inversion Hp as [|? ? ? ? Hf Hne Hc Hs Hp']; subst.
    apply IH in Hp' as (? & ? & ? & ? & ?). split_and!; try done. by constructor.
Qed.

Lemma dag_path_chain_up e p x : e ∈ _edges d ->
  dag_path d er x p (getSource (ed d e)) -> chain up d e (rev p).
Proof using HB.
  revert e. induction p as [|f p IH] using rev_ind; intros e He Hp; [constructor|].
  apply dag_path_snoc in Hp as (Hf & Hne & Hc & Ht & Hp). rewrite rev_unit.
  constructor; [done| |by apply IH].
  split; [by apply (bl_pred _ _ _ HB)|by apply not_cut_not_split].
Qed.

Lemma dag_path_no_er x p y : dag_path d er x p y -> forall f, f ∈ p -> f <> er.
Proof using.
  induction 1; intros f Hf; [by apply not_elem_of_nil in Hf|].
  apply elem_of_cons in Hf as [->|Hf]; auto.
Qed.

Lemma dag_path_edges x p y : dag_path d er x p y ->
  forall f, f ∈ p -> f ∈ _edges d /\ cut_type (getType (ed d f)) = false.
Proof using.
  induction 1; intros g Hg; [by apply not_elem_of_nil in Hg|].
  apply elem_of_cons in Hg as [->|Hg]; auto.
Qed.
End Phases.

(** ** Phase by phase *)

Abbreviation incs d := (fun g => getIncrement (ed d g)).
Abbreviation weights d := (fun g => getWeight (ed d g)).

(** After the chord increments: with the empty tree the code computes, every
    edge of the DAG carries its own weight. *)
Record Weighted (d0 d : BLInstrumentationDag) : Prop := {
  wt_shape : same_shape d0 d;
  wt_inc e : e ∈ _edges d0 -> cut_type (getType (ed d0 e)) = false ->
    getIncrement (ed d e) =64 getWeight (ed d0 e);
  wt_init e : isInitialization (ed d e) = false;
  wt_counter e : isCounterIncrement (ed d e) = false
}.

Lemma dag_edge_proper d er rank e : BallLarusDag d er rank -> e ∈ _edges d ->
  cut_type (getType (ed d e)) = false -> getSource (ed d e) <> getTarget (ed d e).
Proof.
  intros HB He Hc E. destruct (decide (e = er)) as [->|Hne].
  - rewrite (bl_er_source _ _ _ HB), (bl_er_target _ _ _ HB) in E. by apply (bl_root_exit _ _ _ HB).
  - pose proof (bl_rank _ _ _ HB e He Hne Hc) as Hr. rewrite E in Hr. lia.
Qed.

Lemma empty_tree_rooted d : _treeEdges d = [] -> RootedTree d (fun _ => 0%nat).
Proof.
  intros E. split; rewrite ?E; try done; try (intros f; by intros ?%not_elem_of_nil).
  - constructor.
  - intros f g. by intros ?%not_elem_of_nil.
Qed.

Lemma empty_tree_potential d depth x : _treeEdges d = [] -> potential d depth x = 0.
Proof. intros E. apply potential_no_parent. unfold parent. by rewrite E. Qed.

Lemma weigh_phase d er rank : BallLarusDag d er rank -> Unmarked d ->
  exists d1 d2, calculateSpanningTree d = Some d1 /\
    calculateChordIncrements (S (length (_treeEdges d1))) d1 = Some d2 /\ Weighted d d2.
Proof.
  intros HB HU.
  destruct (calculateSpanningTree_spec d (bl_root_node _ _ _ HB)) as (d1 & E1 & HS & HE & HT & HC).
  rewrite (um_tree _ HU) in HT. rewrite (um_chord _ HU), app_nil_l in HC.
  assert (forall e, ed d1 e = ed d e) as Hed by (intros; unfold ed; by rewrite HE).
  destruct (calculateChordIncrements_spec d1 (fun _ => 0%nat) (S (length (_treeEdges d1))))
    as (d2 & E2 & [HO HF] & Hi); [by apply empty_tree_rooted| |lia|].
  { rewrite HC. apply NoDup_filter, HB. }
  exists d1, d2. split_and!; try done. split.
  - etransitivity; [exact HS|apply HO].
  - intros e He Hc. rewrite Hi.
    + rewrite !Hed, (um_inc _ HU), !empty_tree_potential by done. ring64.
    + rewrite HC. apply list_elem_of_filter. split_and!; [apply HU|by apply not_cut_not_split|done].
    + rewrite Hed. by eapply dag_edge_proper.
  - intros e. rewrite (oi_init _ _ HO), Hed. apply HU.
  - intros e. rewrite (oi_counter _ _ HO), Hed. apply HU.
Qed.

(** After [pushInitialization]: on every path the register is left alone up to
    one edge that initialises it with the weight so far; the rest adds. *)
Record Initialized (d0 : BLInstrumentationDag) (er : EdgeId) (d : BLInstrumentationDag) : Prop := {
  in_shape : same_shape d0 d;
  in_counter e : isCounterIncrement (ed d e) = false;
  in_er : isInitialization (ed d er) = false /\ getIncrement (ed d er) = 0;
  in_top t : t ∈ _edges d0 -> cut_type (getType (ed d0 t)) = false ->
    getSource (ed d0 t) = getRoot d0 ->
    (2 <= length (predEdges (nd d0 (getTarget (ed d0 t)))))%nat ->
    isInitialization (ed d t) = true;
  in_path p : dag_path d0 er (getRoot d0) p (getExit d0) ->
    exists l1 f l2, p = l1 ++ f :: l2 /\
      (forall g, g ∈ l1 -> getIncrement (ed d g) = 0 /\ isInitialization (ed d g) = false) /\
      isInitialization (ed d f) = true /\
      getIncrement (ed d f) =64 Zsum (weights d0) (l1 ++ [f]) /\
      (forall g, g ∈ l2 -> isInitialization (ed d g) = false /\
         getIncrement (ed d g) =64 getWeight (ed d0 g))
}.

Lemma dag_path_last d er x p y : dag_path d er x p y -> x <> y ->
  exists q f, p = q ++ [f] /\ getTarget (ed d f) = y.
Proof.
  intros Hp Hne. destruct p as [|f q _] using rev_ind; [by inversion Hp|].
  exists q, f. split; [done|]. by apply dag_path_snoc in Hp as (_ & _ & _ & ? & _).
Qed.

Lemma stopsInit_exit d e : getTarget (ed d e) = getExit d -> ~ passes down d e.
Proof. intros E Hp. by apply passes_down in Hp as [_ ?]. Qed.

Lemma stopsInit_preds d e : (2 <= length (predEdges (nd d (getTarget (ed d e)))))%nat ->
  stops down d e = true.
Proof.
  intros Hl. simpl. unfold stopsInit, getNumberPredEdges. by rewrite bool_decide_true by lia.
Qed.

(** What [visited] gives: the outcome holds for some increment. *)
Lemma pushed_visited dir d0 e d d' f : pushed dir d0 e d d' -> visited dir d0 e f ->
  exists z, outcome dir d0 d' f z (if decide (f = e) then flag dir (ed d e) else true).
Proof.
  intros HP (z0 & z & V).
  assert (exists z', visit dir d0 e (getIncrement (ed d e)) f z') as (z' & V').
  { induction V as [|g f z V [z' V'] Hp Hc]; [eexists; constructor|]. eexists. by econstructor. }
  exists z'. by apply (pd_outcome _ _ _ _ _ HP).
Qed.

Lemma pushed_flag dir d0 e d d' f : pushed dir d0 e d d' -> visited dir d0 e f -> f <> e ->
  stops dir d0 f = true -> flag dir (ed d' f) = true.
Proof.
  intros HP HV Hne Hs. destruct (pushed_visited _ _ _ _ _ _ HP HV) as [z Ho]. unfold outcome in Ho.
  rewrite Hs, decide_False in Ho by done. apply Ho.
Qed.

(** The two pushes of the code, as pushes from the closing edge. *)
Lemma pushInitialization_pushed fuel d er rank d' : BallLarusDag d er rank ->
  pushInitialization fuel d = Some d' -> pushed down d er (updEdge er (setIsInitialization true) d) d'.
Proof.
  intros HB. unfold pushInitialization. rewrite (getExitRootEdge_er d er rank HB).
  cbn -[pushInitializationFromEdge]. rewrite pushInitialization_push. intros H.
  eapply (push_correct down d _ (PushOk_down d er rank HB)); [apply HB| | |exact H].
  - apply (frozen_setFlag down).
  - intros f _ _. rewrite ed_updEdge. by case_decide; subst.
Qed.

Lemma pushCounters_pushed fuel d er rank d' : BallLarusDag d er rank ->
  pushCounters fuel d = Some d' -> pushed up d er (updEdge er (setIsCounterIncrement true) d) d'.
Proof.
  intros HB. unfold pushCounters. rewrite (getExitRootEdge_er d er rank HB).
  cbn -[pushCountersFromEdge]. rewrite pushCounters_push. intros H.
  eapply (push_correct up d _ (PushOk_up d er rank HB)); [apply HB| | |exact H].
  - apply (frozen_setFlag up).
  - intros f _ _. rewrite ed_updEdge. by case_decide; subst.
Qed.

(** The first push along a path: marks and increments move down to one edge. *)
Lemma initialize_path fuel d er rank d' p : BallLarusDag d er rank ->
  pushInitialization fuel d = Some d' -> dag_path d er (getRoot d) p (getExit d) ->
  exists l1 f l2, p = l1 ++ f :: l2 /\
    (forall g, g ∈ l1 -> getIncrement (ed d' g) = 0 /\ isInitialization (ed d' g) = false) /\
    isInitialization (ed d' f) = true /\
    getIncrement (ed d' f) =64 getIncrement (ed d er) + Zsum (incs d) (l1 ++ [f]) /\
    (forall g, g ∈ l2 -> ed d' g = ed d g).
Proof.
  intros HB E Hp. pose proof (dag_path_no_er _ _ _ _ _ Hp) as Hner. rewrite <- (bl_er_target _ _ _ HB) in Hp.
  set (d1 := updEdge er (setIsInitialization true) d).
  assert (forall f, getIncrement (ed d1 f) = getIncrement (ed d f)) as Hinc.
  { intros f. unfold d1. rewrite ed_updEdge. by case_decide; subst. }
  destruct (dag_path_last _ _ _ _ _ Hp) as (q & f & -> & Hf); [rewrite (bl_er_target _ _ _ HB); apply HB|].
  unfold pushInitialization in E. rewrite (getExitRootEdge_er d er rank HB) in E.
  cbn -[pushInitializationFromEdge] in E. rewrite pushInitialization_push in E.
  destruct (push_chain down d _ (PushOk_down d er rank HB) fuel er d1 d' (q ++ [f]) f)
    as (l1 & h & l2 & Hl & H1 & Hstop & Hflag & Hsum & H2); try done.
  { apply HB. }
  { apply (frozen_setFlag down). }
  { simpl. unfold d1. by rewrite ed_updEdge_eq. }
  { eapply dag_path_chain_down; [done|apply HB|done]. }
  { by rewrite app_comm_cons, last_snoc. }
  { by apply stopsInit_exit. }
  destruct l1 as [|e0 l1]; simpl in Hl; injection Hl as <- Hl; [exfalso; by apply Hstop, er_passes_down with rank|].
  rewrite Hl in *. exists l1, h, l2. split_and!; [done| |done| |].
  - intros g Hg. destruct (H1 g) as (? & ? & _); [by right|done].
  - rewrite Hsum. cbn [app]. rewrite Zsum_cons, Hinc, (Zsum_ext _ (incs d)) by (intros; apply Hinc). done.
  - intros g Hg. rewrite H2 by done. apply ed_updEdge_ne. symmetry. apply Hner. set_solver.
Qed.

(** The pass runs both pushes on enough fuel. *)
Lemma pushInitialization_total d er rank : BallLarusDag d er rank ->
  exists d', pushInitialization (pushFuel d) d = Some d' /\ frozen down d d'.
Proof.
  intros HB. destruct (push_total down d _ (PushOk_down d er rank HB) (pushFuel d) er
    (updEdge er (setIsInitialization true) d)) as (d' & Hpush & Hfz);
    [apply HB|apply (frozen_setFlag down)|by eapply downMeasure_bound|].
  exists d'. split; [|done]. unfold pushInitialization. rewrite (getExitRootEdge_er d er rank HB).
  cbn -[pushInitializationFromEdge]. by rewrite pushInitialization_push.
Qed.

Lemma pushCounters_total d er rank : BallLarusDag d er rank ->
  exists d', pushCounters (pushFuel d) d = Some d' /\ frozen up d d'.
Proof.
  intros HB. destruct (push_total up d _ (PushOk_up d er rank HB) (pushFuel d) er
    (updEdge er (setIsCounterIncrement true) d)) as (d' & Hpush & Hfz);
    [apply HB|apply (frozen_setFlag up)|by eapply upMeasure_bound|].
  exists d'. split; [|done]. unfold pushCounters. rewrite (getExitRootEdge_er d er rank HB).
  cbn -[pushCountersFromEdge]. by rewrite pushCounters_push.
Qed.

Lemma pushed_start dir d0 e d d' : pushed dir d0 e d d' -> passes dir d0 e ->
  getIncrement (ed d' e) = 0 /\ flag dir (ed d' e) = false.
Proof.
  intros H Hp. pose proof (pd_outcome _ _ _ _ _ H e _ (visit_here dir d0 e _)) as Ho.
  unfold outcome in Ho. by rewrite Hp in Ho.
Qed.

Lemma initialize_phase d0 er rank d : BallLarusDag d0 er rank -> Weighted d0 d ->
  exists d', pushInitialization (pushFuel d) d = Some d' /\ Initialized d0 er d'.
Proof.
  intros HB0 HW. pose proof (wt_shape _ _ HW) as HSd. pose proof (BallLarusDag_shape _ _ _ _ HSd HB0) as HB.
  destruct (pushInitialization_total d er rank HB) as (d' & E & Hfz). exists d'. split; [exact E|].
  pose proof (pushInitialization_pushed _ d er rank d' HB E) as HP.
  pose proof (er_passes_down d er rank HB) as Her.
  split.
  - etransitivity; [exact HSd|apply Hfz].
  - intros e. change (other down (ed d' e) = false). rewrite (fz_other _ _ _ Hfz). apply HW.
  - destruct (pushed_start _ _ _ _ _ HP Her). done.
  - intros t Ht Hc Hs Hl. rewrite <- (ss_edges _ _ HSd) in Ht. destruct (ss_ed _ _ HSd t) as [Es Et Ety _ _ _].
    rewrite <- Ety in Hc. rewrite <- Es, <- (ss_root _ _ HSd) in Hs.
    rewrite <- Et, <- (sn_pred _ _ (ss_nd _ _ HSd _)) in Hl.
    apply (pushed_flag down d er _ _ _ HP); [| |by apply stopsInit_preds].
    + eapply visited_next; [apply visited_here|done|]. split; [|by apply not_cut_not_split].
      apply (bl_succ _ _ _ HB). simpl. by rewrite (bl_er_target _ _ _ HB).
    + intros ->. apply (bl_root_exit _ _ _ HB). rewrite <- Hs. apply HB.
  - intros p Hp0. assert (dag_path d er (getRoot d) p (getExit d)) as Hp.
    { rewrite (ss_root _ _ HSd), (ss_exit _ _ HSd). by eapply dag_path_shape. }
    assert (forall g, g ∈ p -> getIncrement (ed d g) =64 getWeight (ed d0 g)) as Hw.
    { intros g Hg. destruct (dag_path_edges _ _ _ _ _ Hp0 g Hg). by apply HW. }
    destruct (initialize_path _ d er rank d' p HB E Hp) as (l1 & f & l2 & -> & H1 & Hf & Hsum & H2).
    exists l1, f, l2. split_and!; [done|done|done| |].
    + rewrite Hsum, (wt_inc _ _ HW), (bl_er_weight _ _ _ HB0), Z.add_0_l;
        [|apply HB0|by rewrite (bl_er_type _ _ _ HB0)].
      apply Zsum_eqm64. intros g Hg. apply Hw. set_solver.
    + intros g Hg. rewrite H2 by done. split; [apply HW|apply Hw; set_solver].
Qed.

(** After [pushCounters]: on every path exactly one edge reports the register,
    at or after the edge that initialises it; nothing follows it. *)
Record Counted (d0 : BLInstrumentationDag) (er : EdgeId) (d : BLInstrumentationDag) : Prop := {
  ct_shape : same_shape d0 d;
  ct_top t : t ∈ _edges d0 -> cut_type (getType (ed d0 t)) = false ->
    getSource (ed d0 t) = getRoot d0 ->
    (2 <= length (predEdges (nd d0 (getTarget (ed d0 t)))))%nat ->
    isInitialization (ed d t) = true;
  ct_bottom b : b ∈ _edges d0 -> cut_type (getType (ed d0 b)) = false ->
    getTarget (ed d0 b) = getExit d0 ->
    (2 <= length (succEdges (nd d0 (getSource (ed d0 b)))))%nat ->
    isCounterIncrement (ed d b) = true;
  ct_path p : dag_path d0 er (getRoot d0) p (getExit d0) ->
    exists A h B l1 f l2, p = A ++ h :: B /\
      (forall g, g ∈ A -> isCounterIncrement (ed d g) = false) /\
      isCounterIncrement (ed d h) = true /\
      (forall g, g ∈ B -> getIncrement (ed d g) = 0 /\ isInitialization (ed d g) = false /\
         isCounterIncrement (ed d g) = false) /\
      A ++ [h] = l1 ++ f :: l2 /\
      (forall g, g ∈ l1 -> getIncrement (ed d g) = 0 /\ isInitialization (ed d g) = false) /\
      isInitialization (ed d f) = true /\
      (forall g, g ∈ l2 -> isInitialization (ed d g) = false) /\
      Zsum (incs d) (f :: l2) =64 path_number d0 p
}.

Lemma split_around {A} (l1 l2 B : list A) (f h : A) (P : list A) :
  l1 ++ f :: l2 = P ++ h :: B -> f ∉ B ->
  exists l2', P ++ [h] = l1 ++ f :: l2' /\ l2 = l2' ++ B /\ (forall g, g ∈ l1 -> g ∈ P).
Proof.
  revert l1. induction P as [|x P IH]; intros l1 E Hf; destruct l1 as [|y l1]; simpl in *; simplify_eq.
  - exists []. split_and!; try done.
  - exfalso. apply Hf. set_solver.
  - exists (P ++ [h]). split_and!; [done|by rewrite <- app_assoc|set_solver].
  - destruct (IH l1 ltac:(done) Hf) as (l2' & -> & -> & Hin).
    exists l2'. split_and!; try done. intros g Hg.
    apply elem_of_cons in Hg as [->|Hg]; [by left|right; auto].
Qed.

Lemma stopsCounter_root d e : getSource (ed d e) = getRoot d -> ~ passes up d e.
Proof. intros E Hp. by apply passes_up in Hp as (_ & ? & _). Qed.

Lemma stopsCounter_succs d e : (2 <= length (succEdges (nd d (getSource (ed d e)))))%nat ->
  stops up d e = true.
Proof.
  intros Hl. simpl. unfold stopsCounter, getNumberSuccEdges. by rewrite bool_decide_true by lia.
Qed.

(** The sums of the two pushes meet: whatever the counter edge collected and
    whatever comes before it add up to the weight of the path. *)
Lemma counted_path d0 er rank d d' p :
  BallLarusDag d0 er rank -> Initialized d0 er d ->
  dag_path d0 er (getRoot d0) p (getExit d0) ->
  (forall e, isInitialization (ed d' e) = isInitialization (ed d e)) ->
  (exists A h B, p = A ++ h :: B /\
     (forall g, g ∈ B -> getIncrement (ed d' g) = 0 /\ isCounterIncrement (ed d' g) = false /\
        isInitialization (ed d g) = false) /\
     isCounterIncrement (ed d' h) = true /\
     getIncrement (ed d' h) =64 Zsum (incs d) (h :: B) /\
     (forall g, g ∈ A -> ed d' g = ed d g)) ->
  exists A h B l1 f l2, p = A ++ h :: B /\
      (forall g, g ∈ A -> isCounterIncrement (ed d' g) = false) /\
      isCounterIncrement (ed d' h) = true /\
      (forall g, g ∈ B -> getIncrement (ed d' g) = 0 /\ isInitialization (ed d' g) = false /\
         isCounterIncrement (ed d' g) = false) /\
      A ++ [h] = l1 ++ f :: l2 /\
      (forall g, g ∈ l1 -> getIncrement (ed d' g) = 0 /\ isInitialization (ed d' g) = false) /\
      isInitialization (ed d' f) = true /\
      (forall g, g ∈ l2 -> isInitialization (ed d' g) = false) /\
      Zsum (incs d') (f :: l2) =64 path_number d0 p.
Proof.
  intros HB HI Hp Hinit (A & h & B & Hpe & HBm & Hh & Hsum & HA).
  destruct (in_path _ _ _ HI p Hp) as (l1 & f & l2 & Hpi & H1 & Hf & Hfs & H2).
  destruct (split_around l1 l2 B f h A) as (l2' & E & -> & Hin); [congruence| |].
  { intros HfB. destruct (HBm f HfB) as (_ & _ & ?). congruence. }
  exists A, h, B, l1, f, l2'. split_and!; try done.
  - intros g Hg. rewrite HA by done. apply HI.
  - intros g Hg. rewrite Hinit. destruct (HBm g Hg) as (? & ? & ?). done.
  - intros g Hg. rewrite Hinit, HA by auto. auto.
  - by rewrite Hinit.
  - intros g Hg. rewrite Hinit. apply H2. set_solver.
  - transitivity (Zsum (incs d') (A ++ [h])).
    { rewrite E, Zsum_app, (Zsum_zero (incs d') l1); [by rewrite Z.add_0_l|].
      intros g Hg. rewrite HA by auto. by apply H1. }
    rewrite Zsum_app, Zsum_cons, Zsum_nil, Z.add_0_r, Hsum.
    rewrite (Zsum_ext (incs d') (incs d) A) by (intros g Hg; by rewrite HA).
    rewrite <- Zsum_app, <- Hpe, Hpi, Zsum_app, Zsum_cons, Hfs.
    rewrite (Zsum_zero (incs d) l1), Z.add_0_l by (intros; by apply H1).
    rewrite (Zsum_eqm64 (incs d) (weights d0) (l2' ++ B)) by (intros; by apply H2).
    unfold path_number. autorewrite with rrw. ring64.
Qed.

(** The second push along a path: the counter moves up to one edge, which
    collects the increments below it. *)
Lemma count_path fuel d er rank d' p : BallLarusDag d er rank -> isInitialization (ed d er) = false ->
  pushCounters fuel d = Some d' -> dag_path d er (getRoot d) p (getExit d) ->
  exists A h B, p = A ++ h :: B /\
    (forall g, g ∈ B -> getIncrement (ed d' g) = 0 /\ isCounterIncrement (ed d' g) = false /\
       isInitialization (ed d g) = false) /\
    isCounterIncrement (ed d' h) = true /\
    getIncrement (ed d' h) =64 getIncrement (ed d er) + Zsum (incs d) (h :: B) /\
    (forall g, g ∈ A -> ed d' g = ed d g).
Proof.
  intros HB Hi E Hp. pose proof (dag_path_no_er _ _ _ _ _ Hp) as Hner. rewrite <- (bl_er_source _ _ _ HB) in Hp.
  set (d1 := updEdge er (setIsCounterIncrement true) d).
  assert (forall f, getIncrement (ed d1 f) = getIncrement (ed d f)) as Hinc.
  { intros f. unfold d1. rewrite ed_updEdge. by case_decide; subst. }
  assert (forall (l : list EdgeId) g, g ∈ rev l <-> g ∈ l) as Hrev.
  { intros l g. by rewrite !list_elem_of_In, <- in_rev. }
  unfold pushCounters in E. rewrite (getExitRootEdge_er d er rank HB) in E.
  cbn -[pushCountersFromEdge] in E. rewrite pushCounters_push in E.
  destruct p as [|e1 p].
  { inversion Hp. exfalso. apply (bl_root_exit _ _ _ HB). rewrite <- (bl_er_source _ _ _ HB). done. }
  destruct (push_chain up d _ (PushOk_up d er rank HB) fuel er d1 d' (rev (e1 :: p)) e1)
    as (k1 & h & k2 & Hl & H1 & Hstop & Hflag & Hsum & H2); try done.
  { apply HB. }
  { apply (frozen_setFlag up). }
  { simpl. unfold d1. by rewrite ed_updEdge_eq. }
  { eapply dag_path_chain_up; [done|apply HB|done]. }
  { intros f Hf. by apply Hner, Hrev. }
  { cbn [rev]. by rewrite app_comm_cons, last_snoc. }
  { apply stopsCounter_root. by inversion Hp. }
  destruct k1 as [|e0 k1]; cbn [app] in Hl; injection Hl as <- Hl; [exfalso; by apply Hstop, er_passes_up with rank|].
  assert (e1 :: p = rev k2 ++ h :: rev k1) as Hpe.
  { rewrite <- (rev_involutive (e1 :: p)). change (rev (e1 :: p)) with (rev p ++ [e1]).
    rewrite Hl, rev_app_distr. cbn [rev]. by rewrite <- app_assoc. }
  exists (rev k2), h, (rev k1). split_and!; [done| |done| |].
  - intros g Hg. destruct (H1 g) as (? & ? & Hps); [right; by apply Hrev|].
    split_and!; [done|done|]. by apply passes_up in Hps as (_ & _ & ?).
  - rewrite Hsum. cbn [app]. rewrite Zsum_cons, Hinc, (Zsum_ext _ (incs d) (k1 ++ [h])) by (intros; apply Hinc).
    by rewrite (Zsum_rev (incs d) (k1 ++ [h])), rev_unit.
  - intros g Hg. rewrite H2 by (by apply Hrev). apply ed_updEdge_ne. symmetry. apply Hner.
    rewrite Hpe. apply elem_of_app. by left.
Qed.

Lemma count_phase d0 er rank d : BallLarusDag d0 er rank -> Initialized d0 er d ->
  exists d', pushCounters (pushFuel d) d = Some d' /\ Counted d0 er d'.
Proof.
  intros HB0 HI. pose proof (in_shape _ _ _ HI) as HSd. pose proof (BallLarusDag_shape _ _ _ _ HSd HB0) as HB.
  destruct (pushCounters_total d er rank HB) as (d' & E & Hfz). exists d'. split; [exact E|].
  pose proof (pushCounters_pushed _ d er rank d' HB E) as HP.
  destruct (in_er _ _ _ HI) as [Heri Her0]. pose proof (er_passes_up d er rank HB Heri) as Her.
  assert (forall e, isInitialization (ed d' e) = isInitialization (ed d e)) as Hinit by apply (fz_other _ _ _ Hfz).
  split.
  - etransitivity; [exact HSd|apply Hfz].
  - intros t Ht Hc Hs Hl. rewrite Hinit. by apply HI.
  - intros b Hb Hc Ht Hl. rewrite <- (ss_edges _ _ HSd) in Hb. destruct (ss_ed _ _ HSd b) as [Es Et Ety _ _ _].
    rewrite <- Ety in Hc. rewrite <- Et, <- (ss_exit _ _ HSd) in Ht.
    rewrite <- Es, <- (sn_succ _ _ (ss_nd _ _ HSd _)) in Hl.
    apply (pushed_flag up d er _ _ _ HP); [| |by apply stopsCounter_succs].
    + eapply visited_next; [apply visited_here|done|]. split; [|by apply not_cut_not_split].
      apply (bl_pred _ _ _ HB). simpl. by rewrite (bl_er_source _ _ _ HB).
    + intros ->. apply (bl_root_exit _ _ _ HB). rewrite <- Ht. symmetry. apply HB.
  - intros p Hp0. eapply counted_path; try done.
    assert (dag_path d er (getRoot d) p (getExit d)) as Hp.
    { rewrite (ss_root _ _ HSd), (ss_exit _ _ HSd). by eapply dag_path_shape. }
    destruct (count_path _ d er rank d' p HB Heri E Hp) as (A & h & B & Hpe & H1 & Hh & Hsum & H2).
    exists A, h, B. split_and!; try done. by rewrite Hsum, Her0, Z.add_0_l.
Qed.

(** ** What a marked DAG reports *)

Lemma markExec_init e r : isInitialization e = true ->
  markExec e r = if isCounterIncrement e then Some (None, [i32 (getIncrement e)])
                 else Some (Some (i32 (getIncrement e)), []).
Proof. intros H. unfold markExec. rewrite H. simpl. by destruct (isCounterIncrement e). Qed.

Lemma markExec_count e z : isInitialization e = false -> isCounterIncrement e = true ->
  markExec e (Some (i32 z)) = Some (None, [i32 (z + getIncrement e)]).
Proof.
  intros Hi Hc. unfold markExec. rewrite Hi, Hc. case_decide as H0; simpl.
  - rewrite H0. by rewrite Z.add_0_r.
  - by rewrite i32_add.
Qed.

(** The register on reaching the counting edge [h] of a path. *)
Lemma counted_prefix d A h l1 f l2 :
  A ++ [h] = l1 ++ f :: l2 ->
  (forall g, g ∈ A -> isCounterIncrement (ed d g) = false) ->
  (forall g, g ∈ l1 -> getIncrement (ed d g) = 0 /\ isInitialization (ed d g) = false) ->
  isInitialization (ed d f) = true ->
  (forall g, g ∈ l2 -> isInitialization (ed d g) = false) ->
  (f = h /\ l2 = [] /\ pathExec d A None = Some (None, [])) \/
  (isInitialization (ed d h) = false /\ exists z, pathExec d A None = Some (Some (i32 z), []) /\
     Zsum (incs d) (f :: l2) = z + getIncrement (ed d h)).
Proof.
  intros E HA H1 Hf H2. destruct l2 as [|x m _] using rev_ind.
  - left. apply app_inj_tail in E as [-> <-]. split_and!; [done|done|].
    apply pathExec_blank. intros g Hg. destruct (H1 g Hg). auto.
  - right. rewrite app_comm_cons, app_assoc in E. apply app_inj_tail in E as [-> <-].
    split; [apply H2; set_solver|]. exists (getIncrement (ed d f) + Zsum (incs d) m). split.
    + rewrite pathExec_app, pathExec_blank by (intros g Hg; destruct (H1 g Hg); split_and!; [done|done|apply HA; set_solver]).
      simpl. rewrite pathExec_cons, markExec_init, (HA f) by (done || set_solver). simpl.
      rewrite pathExec_add by (intros; split; [apply H2|apply HA]; set_solver). done.
    + rewrite Zsum_cons, Zsum_app, Zsum_cons, Zsum_nil. lia.
Qed.

Section Reports.
Context (d0 : BLInstrumentationDag) (er : EdgeId) (rank : NodeId -> nat) (d : BLInstrumentationDag).
Context (HB : BallLarusDag d0 er rank) (HC : Counted d0 er d).

(** Along a path of the DAG the marks report its number, once. *)
Lemma pathExec_number p : dag_path d0 er (getRoot d0) p (getExit d0) ->
  pathExec d p None = Some (None, [i32 (path_number d0 p)]).
Proof using HC.
  intros Hp. destruct (ct_path _ _ _ HC p Hp)
    as (A & h & B & l1 & f & l2 & -> & HA & Hh & HBl & E & H1 & Hf & H2 & Hsum).
  assert (pathExec d (A ++ h :: B) None =
    ('(r1, out1) ← pathExec d A None; '(r2, out2) ← markExec (ed d h) r1; Some (r2, out1 ++ out2))) as ->.
  { rewrite pathExec_app. destruct (pathExec d A None) as [[r1 out1]|]; [|done]. simpl.
    rewrite pathExec_cons. destruct (markExec (ed d h) r1) as [[r2 out2]|]; [|done]. simpl.
    rewrite (pathExec_blank d B) by done. simpl. by rewrite app_nil_r. }
  rewrite <- Hsum.
  destruct (counted_prefix d A h l1 f l2) as [(-> & -> & ->)|(Hi & z & -> & ->)]; try done; simpl.
  - rewrite markExec_init, Hh by done. simpl. by rewrite Zsum_cons, Zsum_nil, Z.add_0_r.
  - by rewrite markExec_count.
Qed.

(** The value the code of a cut edge reports for the path it ends. *)
Lemma bottom_value q b : dag_path d0 er (getRoot d0) (q ++ [b]) (getExit d0) ->
  isCounterIncrement (ed d b) = true ->
  exists r, pathExec d q None = Some (r, []) /\
    (if decide (getIncrement (ed d b) = 0) then default 0 r
     else i32 (default 0 r + i32 (getIncrement (ed d b)))) = i32 (path_number d0 (q ++ [b])).
Proof using HB HC.
  intros Hp Hb. destruct (ct_path _ _ _ HC _ Hp)
    as (A & h & B & l1 & f & l2 & Eq & HA & Hh & HBl & E & H1 & Hf & H2 & Hsum).
  destruct B as [|y B _] using rev_ind.
  2:{ exfalso. rewrite app_comm_cons, app_assoc in Eq. apply app_inj_tail in Eq as [_ ->].
      destruct (HBl y) as (_ & _ & ?); [set_solver|congruence]. }
  apply app_inj_tail in Eq as [-> ->].
  assert (i32 (path_number d0 (A ++ [h])) = i32 (Zsum (incs d) (f :: l2))) as -> by (by rewrite Hsum).
  destruct (counted_prefix d A h l1 f l2) as [(-> & -> & ->)|(Hi & z & -> & ->)]; try done.
  - exists None. split; [done|]. rewrite Zsum_cons, Zsum_nil, Z.add_0_r. simpl.
    case_decide as H0; [by rewrite H0|]. change 0 with (i32 0). by rewrite i32_add.
  - exists (Some (i32 z)). split; [done|]. simpl.
    case_decide as H0; [by rewrite H0, Z.add_0_r|by rewrite i32_add].
Qed.

Lemma segments_paths acc x l : route d0 er x l (getExit d0) -> dag_path d0 er (getRoot d0) acc x ->
  Forall (fun s => dag_path d0 er (getRoot d0) s (getExit d0)) (segments d0 acc l).
Proof using HB.
  intros Hr. remember (getExit d0) as y eqn:Ey. revert acc.
  induction Hr as [x|x e l y He Hne Hph Hs Hr IH]; intros acc Hacc; subst; simpl.
  { by repeat constructor. }
  destruct (cut_type _) eqn:Hc.
  - destruct (bl_cut _ _ _ HB e He Hc) as (t & b & -> & -> & Ht & Pt & St & Tt & Hb & Pb & Sb & Tb).
    constructor.
    + eapply dag_path_app; [done|]. rewrite <- Sb, <- Tb.
      constructor; [done| | |done|constructor].
      * intros ->. rewrite (bl_er_type _ _ _ HB) in Pb. done.
      * by destruct (getType (ed d0 b)).
    + apply IH; [done|]. rewrite <- Tt.
      constructor; [done| | |done|constructor].
      * intros ->. rewrite (bl_er_type _ _ _ HB) in Pt. done.
      * by destruct (getType (ed d0 t)).
  - apply IH; [done|]. eapply dag_path_app; [done|].
    constructor; [done|done|done|done|constructor].
Qed.

(** The first segment extends the path under way. *)
Lemma segments_head acc l : Forall (fun e => e ∈ _edges d0) l ->
  exists q rest, segments d0 acc l = (acc ++ q) :: rest.
Proof using HB.
  intros Hl. revert acc. induction Hl as [|e l He Hl IH]; intros acc; simpl.
  { exists [], []. by rewrite app_nil_r. }
  destruct (cut_type _) eqn:Hc.
  - destruct (bl_cut _ _ _ HB e He Hc) as (t & b & -> & -> & _). by eexists _, _.
  - destruct (IH (acc ++ [e])) as (q & rest & ->). exists (e :: q), rest. by rewrite <- app_assoc.
Qed.

Lemma route_edges x l y : route d0 er x l y -> Forall (fun e => e ∈ _edges d0) l.
Proof using. by induction 1; constructor. Qed.

(** The code of a cut edge: its asserts hold, it reports the value at the
    bottom edge and restarts the register like its top edge. *)
Lemma cut_edge e r : e ∈ _edges d0 -> cut_type (getType (ed d0 e)) = true ->
  exists t b r1 out1, getPhonyRoot (ed d0 e) = Some t /\ getPhonyExit (ed d0 e) = Some b /\
    isInitialization (ed d t) = true /\ isCounterIncrement (ed d b) = true /\
    markExec (ed d t) None = Some (r1, out1) /\
    edgeExec d e r = Some (r1,
      (if decide (getIncrement (ed d b) = 0) then default 0 r
       else i32 (default 0 r + i32 (getIncrement (ed d b)))) :: out1).
Proof using HB HC.
  intros He Hc.
  destruct (bl_cut _ _ _ HB e He Hc) as (t & b & Er & Ex & Ht & Pt & St & Tt & Hb & Pb & Sb & Tb).
  pose proof (ct_top _ _ _ HC t Ht ltac:(by destruct (getType (ed d0 t))) St) as Htop.
  rewrite Tt in Htop. specialize (Htop (cut_target_preds _ _ _ HB e He Hc)).
  pose proof (ct_bottom _ _ _ HC b Hb ltac:(by destruct (getType (ed d0 b))) Tb) as Hbot.
  rewrite Sb in Hbot. specialize (Hbot (cut_source_succs _ _ _ HB e He Hc)).
  pose proof (markExec_init (ed d t) None Htop) as Hm.
  exists t, b. unfold edgeExec, cutExec.
  destruct (ss_ed _ _ (ct_shape _ _ _ HC) e) as [_ _ -> _ -> ->]. rewrite Hc, Er, Ex. simpl.
  rewrite Htop, Hbot. simpl.
  destruct (isCounterIncrement (ed d t)); by eexists _, _.
Qed.

(** Along any route to the exit the code reports the numbers of its segments. *)
Lemma walkExec_segments acc x l r em :
  route d0 er x l (getExit d0) -> dag_path d0 er (getRoot d0) acc x ->
  pathExec d acc None = Some (r, em) ->
  exists out, walkExec d l r = Some (None, out) /\
    em ++ out = map (fun s => i32 (path_number d0 s)) (segments d0 acc l).
Proof using HB HC.
  intros Hr. remember (getExit d0) as y eqn:Ey. revert acc r em.
  induction Hr as [x|x e l y He Hne Hph Hs Hr IH]; intros acc r em Hacc Hex; subst.
  { rewrite pathExec_number in Hex by done. simplify_eq. exists []. done. }
  assert (route d0 er (getSource (ed d0 e)) (e :: l) (getExit d0)) as Hroute by (by constructor).
  pose proof (segments_paths acc _ (e :: l) Hroute Hacc) as Hseg.
  destruct (cut_type (getType (ed d0 e))) eqn:Hc.
  - destruct (cut_edge e r He Hc) as (t & b & r1 & out1 & Er & Ex & Htop & Hbot & Hm & Hcut).
    simpl in Hseg |- *. rewrite Hc, Er, Ex in Hseg |- *.
    apply Forall_cons in Hseg as [Hs1 Hseg].
    destruct (bottom_value acc b Hs1 Hbot) as (r' & Hex' & Hv). rewrite Hex in Hex'. simplify_eq.
    destruct (bl_cut _ _ _ HB e He Hc) as (t' & b' & Er' & _ & Ht & Pt & St & Tt & _).
    rewrite Er in Er'. simplify_eq.
    destruct (IH eq_refl [t'] r1 out1) as (out & Hw & Hout).
    { rewrite <- Tt. constructor; [done| | |done|constructor].
      - intros ->. rewrite (bl_er_type _ _ _ HB) in Pt. done.
      - by destruct (getType (ed d0 t')). }
    { rewrite pathExec_cons, Hm. simpl. by rewrite app_nil_r. }
    eexists. rewrite walkExec_cons, Hcut. simpl. rewrite Hw. simpl. split; [done|].
    rewrite Hv, <- Hout. done.
  - simpl in Hseg |- *. rewrite Hc in Hseg |- *.
    assert (dag_path d0 er (getRoot d0) (acc ++ [e]) (getTarget (ed d0 e))) as Hacc'.
    { eapply dag_path_app; [done|]. by repeat constructor. }
    destruct (segments_head (acc ++ [e]) l (route_edges _ _ _ Hr)) as (q & rest & Esg).
    rewrite Esg in Hseg. apply Forall_cons in Hseg as [Hs1 _].
    pose proof (pathExec_number _ Hs1) as Hn.
    rewrite <- app_assoc, pathExec_app, Hex in Hn. simpl in Hn. rewrite pathExec_cons in Hn.
    destruct (markExec (ed d e) r) as [[r1 out1]|] eqn:Hm; [|done].
    destruct (IH eq_refl (acc ++ [e]) r1 (em ++ out1)) as (out & Hw & Hout); [done| |].
    { rewrite pathExec_app, Hex. simpl. rewrite pathExec_cons, Hm. simpl. by rewrite app_nil_r. }
    exists (out1 ++ out). rewrite walkExec_cons. unfold edgeExec.
    rewrite (se_type _ _ (ss_ed _ _ (ct_shape _ _ _ HC) e)), Hc, Hm. simpl. rewrite Hw. simpl. split; [done|].
    by rewrite app_assoc.
Qed.
End Reports.

(** ** The marking phases as a whole *)

Lemma markDag_counted d er rank : BallLarusDag d er rank -> Unmarked d ->
  exists d', markDag d = Some d' /\ Counted d er d'.
Proof.
  intros HB HU. destruct (weigh_phase d er rank HB HU) as (d1 & d2 & E1 & E2 & HW).
  destruct (initialize_phase d er rank d2 HB HW) as (d3 & E3 & HI).
  destruct (count_phase d er rank d3 HB HI) as (d4 & E4 & HC).
  exists d4. split; [|done]. unfold markDag. rewrite E1. simpl mbind. rewrite E2. simpl mbind.
  rewrite E3. exact E4.
Qed.

Lemma checkUnmarked_sound d : checkUnmarked d = true -> Unmarked d.
Proof.
  intros H. apply andb_true_iff in H as [H0 H]. apply bool_decide_eq_true in H0 as [Ht Hc].
  assert (forall e, unmarkedEdge (ed d e) = true) as HE.
  { intros e. unfold ed. rewrite lookup_total_alt.
    destruct (edgeStore d !! e) as [x|] eqn:E; [|done].
    rewrite forallb_forall in H. apply H, list_elem_of_In, list_elem_of_fmap.
    exists (e, x). split; [done|]. by apply elem_of_map_to_list. }
  split; try done; intros e; specialize (HE e); apply bool_decide_eq_true in HE; tauto.
Qed.

Lemma exampleLoop_unmarked : Unmarked exampleLoop.
Proof. apply checkUnmarked_sound. by vm_compute. Qed.

(** What is reported along a route. *)
Lemma route_reports d er rank d' l : BallLarusDag d er rank -> Counted d er d' ->
  route d er (getRoot d) l (getExit d) ->
  walkExec d' l None = Some (None, map (fun s => i32 (path_number d s)) (segments d [] l)) /\
  Forall (fun s => dag_path d er (getRoot d) s (getExit d)) (segments d [] l).
Proof.
  intros HB HC Hl. split; [|eapply segments_paths; [done|done|constructor]].
  destruct (walkExec_segments d er rank d' HB HC [] (getRoot d) l None []) as (out & -> & <-);
    try done; constructor.
Qed.

(** C3: on every Ball-Larus DAG the marking phases terminate, and along every
    route of the function from its entry to its exit, loops included, the code
    the marks stand for never uses an unset path number, never fails an assert,
    and reports exactly the [i32] numbers of the DAG paths the route consists
    of, in order. *)
Theorem marked_routes_report_path_numbers d er rank :
  BallLarusDag d er rank -> Unmarked d ->
  exists d', markDag d = Some d' /\
    forall l, route d er (getRoot d) l (getExit d) ->
      walkExec d' l None =
        Some (None, map (fun s => i32 (path_number d s)) (segments d [] l)) /\
      Forall (fun s => dag_path d er (getRoot d) s (getExit d)) (segments d [] l).
Proof.
  intros HB HU. destruct (markDag_counted d er rank HB HU) as (d' & E & HC).
  exists d'. split; [done|]. intros l Hl. by eapply route_reports.
Qed.

Lemma marked_routes_report_path_numbers_witness :
  exists d', markDag exampleLoop = Some d' /\
    walkExec d' [1; 2; 4; 5; 3; 8; 9]%nat None = Some (None, [0; 7]).
Proof.
  destruct (marked_routes_report_path_numbers exampleLoop 0%nat (rankOf exampleRank)
              exampleLoop_dag exampleLoop_unmarked) as (d' & E & H).
  exists d'. split; [exact E|].
  destruct (H [1; 2; 4; 5; 3; 8; 9]%nat) as [Hw _]; [|exact Hw].
  repeat (apply route_cons; [apply (bool_decide_unpack _); by vm_compute|done|done|done|]).
  apply route_nil.
Defined.

(** C7: along every path of the DAG, whatever its phony edges, exactly one
    edge reports the register, and it reports the path's number. *)
Theorem marked_paths_report_once d er rank p :
  BallLarusDag d er rank -> Unmarked d -> dag_path d er (getRoot d) p (getExit d) ->
  exists d', markDag d = Some d' /\
    pathExec d' p None = Some (None, [i32 (path_number d p)]) /\
    exists A h B, p = A ++ h :: B /\ isCounterIncrement (ed d' h) = true /\
      forall g, g ∈ A ++ B -> isCounterIncrement (ed d' g) = false.
Proof.
  intros HB HU Hp. destruct (markDag_counted d er rank HB HU) as (d' & E & HC).
  exists d'. split_and!; [done|by eapply pathExec_number|].
  destruct (ct_path _ _ _ HC p Hp) as (A & h & B & l1 & f & l2 & -> & HA & Hh & HBl & _).
  exists A, h, B. split_and!; [done|done|]. intros g [Hg|Hg]%elem_of_app; [auto|].
  by destruct (HBl g Hg) as (_ & _ & ?).
Qed.

Lemma marked_paths_report_once_witness :
  exists d', markDag exampleLoop = Some d' /\
    pathExec d' [6; 3; 7]%nat None = Some (None, [6]).
Proof.
  destruct (marked_paths_report_once exampleLoop 0%nat (rankOf exampleRank) [6; 3; 7]%nat
              exampleLoop_dag exampleLoop_unmarked) as (d' & E & H & _).
  - repeat (apply dag_path_cons; [apply (bool_decide_unpack _); by vm_compute|done|done|done|]).
    apply dag_path_nil.
  - exists d'. split; [exact E|exact H].
Defined.

(** C8: the two [assert]s guarding the code of back and split edges hold: the
    top phony edge is marked as an initialisation and the bottom phony edge as
    a counter increment. *)
Theorem cut_edge_asserts_hold d er rank e :
  BallLarusDag d er rank -> Unmarked d ->
  e ∈ _edges d -> cut_type (getType (ed d e)) = true ->
  exists d' top bottom, markDag d = Some d' /\
    getPhonyRoot (ed d' e) = Some top /\ getPhonyExit (ed d' e) = Some bottom /\
    isInitialization (ed d' top) = true /\ isCounterIncrement (ed d' bottom) = true.
Proof.
  intros HB HU He Hc. destruct (markDag_counted d er rank HB HU) as (d' & E & HC).
  destruct (cut_edge d er rank d' HB HC e None He Hc) as (t & b & r1 & out1 & Er & Ex & Ht & Hb & _).
  exists d', t, b. destruct (ss_ed _ _ (ct_shape _ _ _ HC) e) as [_ _ _ _ -> ->]. done.
Qed.

Lemma cut_edge_asserts_hold_witness :
  exists d' top bottom, markDag exampleLoop = Some d' /\
    getPhonyRoot (ed d' 5%nat) = Some top /\ getPhonyExit (ed d' 5%nat) = Some bottom /\
    isInitialization (ed d' top) = true /\ isCounterIncrement (ed d' bottom) = true.
Proof.
  apply (cut_edge_asserts_hold exampleLoop 0%nat (rankOf exampleRank) 5%nat
           exampleLoop_dag exampleLoop_unmarked).
  - apply (bool_decide_unpack _). by vm_compute.
  - reflexivity.
Defined.

(** What LLVM's [calculatePathNumbers] documents: every path of the DAG has a
    number below the number of paths, and no two share it. *)
Record Numbered (d : BLInstrumentationDag) (er : EdgeId) : Prop := {
  nb_range p : dag_path d er (getRoot d) p (getExit d) -> 0 <= path_number d p < getNumberOfPaths d;
  nb_unique p q : dag_path d er (getRoot d) p (getExit d) -> dag_path d er (getRoot d) q (getExit d) ->
    path_number d p = path_number d q -> p = q
}.

(** All paths between two nodes of at most [fuel] edges. *)
Fixpoint pathsTo (d : BLInstrumentationDag) (er : EdgeId) (fuel : nat) (x y : NodeId) : list (list EdgeId) :=
  (if decide (x = y) then [[]] else []) ++
  match fuel with
  | O => []
  | S fuel =>
      e ← filter (fun e => e <> er /\ cut_type (getType (ed d e)) = false) (succEdges (nd d x));
      cons e <$> pathsTo d er fuel (getTarget (ed d e)) y
  end.

Lemma pathsTo_complete d er rank fuel x p y : BallLarusDag d er rank ->
  dag_path d er x p y -> (length p <= fuel)%nat -> p ∈ pathsTo d er fuel x y.
Proof.
  intros HB Hp. revert fuel. induction Hp as [x|x e p y He Hne Hc <- Hp IH]; intros fuel Hf.
  - destruct fuel; simpl; rewrite decide_True by done; set_solver.
  - destruct fuel as [|fuel]; simpl in Hf; [lia|]. cbn [pathsTo]. apply elem_of_app. right.
    apply list_elem_of_bind. exists e. split.
    + apply list_elem_of_fmap. exists p. split; [done|]. apply IH. lia.
    + apply list_elem_of_filter. split; [done|]. by apply (bl_succ _ _ _ HB).
Qed.

Lemma dag_path_length d er rank x p y : BallLarusDag d er rank ->
  dag_path d er x p y -> (length p <= rank x)%nat.
Proof.
  intros HB. induction 1 as [|x e p y He Hne Hc <- Hp IH]; simpl; [lia|].
  pose proof (bl_rank _ _ _ HB e He Hne Hc). lia.
Qed.

Definition checkNumbered (d : BLInstrumentationDag) (er : EdgeId) : bool :=
  let ps := pathsTo d er (length (_nodes d)) (getRoot d) (getExit d) in
  bool_decide (Forall (fun p => 0 <= path_number d p < getNumberOfPaths d) ps /\
               Forall (fun p => Forall (fun q => path_number d p = path_number d q -> p = q) ps) ps).

Lemma checkNumbered_sound d er rank : BallLarusDag d er rank -> checkNumbered d er = true -> Numbered d er.
Proof.
  intros HB H. apply bool_decide_eq_true in H as [H1 H2]. rewrite Forall_forall in H1.
  rewrite Forall_forall in H2.
  assert (forall p, dag_path d er (getRoot d) p (getExit d) ->
    p ∈ pathsTo d er (length (_nodes d)) (getRoot d) (getExit d)) as Hin.
  { intros p Hp. eapply pathsTo_complete; [done|done|].
    etransitivity; [by eapply dag_path_length|apply (bl_rank_bound _ _ _ HB)]. }
  split; [auto|]. intros p q Hp Hq. specialize (H2 p (Hin p Hp)). rewrite Forall_forall in H2. auto.
Qed.

(** LLVM gives every cut edge a top phony edge of its own. *)
Definition OwnTops (d : BLInstrumentationDag) : Prop :=
  forall e e' t, e ∈ _edges d -> e' ∈ _edges d -> cut_type (getType (ed d e)) = true ->
    cut_type (getType (ed d e')) = true -> getPhonyRoot (ed d e) = Some t -> getPhonyRoot (ed d e') = Some t -> e = e'.

(** The first segment of a route that goes on, and its first new edge. *)
Lemma first_segment d er rank acc x e l y : BallLarusDag d er rank -> route d er x (e :: l) y ->
  exists k q rest, segments d acc (e :: l) = (acc ++ k :: q) :: rest /\
    if cut_type (getType (ed d e))
    then phony_type (getType (ed d k)) = true /\
         exists t u m, getPhonyRoot (ed d e) = Some t /\ rest = segments d [t] l /\ rest = (t :: u) :: m
    else k = e.
Proof.
  intros HB Hr. pose proof (route_edges d er x (e :: l) y Hr) as HF. apply Forall_cons in HF as [He HF]. simpl.
  destruct (cut_type (getType (ed d e))) eqn:Hc.
  - destruct (bl_cut _ _ _ HB e He Hc) as (t & b & -> & -> & _ & _ & _ & _ & _ & Pb & _).
    destruct (segments_head d er rank HB [t] l HF) as (u & m & E). exists b, [], (segments d [t] l).
    split_and!; [done|done|]. exists t, u, m. done.
  - destruct (segments_head d er rank HB (acc ++ [e]) l HF) as (q & rest & ->). exists e, q, rest.
    by rewrite <- app_assoc.
Qed.

(** The segments of a route determine it. *)
Lemma segments_inj d er rank acc x l1 l2 y :
  BallLarusDag d er rank -> OwnTops d -> route d er x l1 y -> route d er x l2 y ->
  segments d acc l1 = segments d acc l2 -> l1 = l2.
Proof.
  intros HB HO H1. revert acc l2. induction H1 as [x|x e l1 y He Hne Hp Hs H1 IH]; intros acc l2 H2 E.
  { destruct l2 as [|e2 l2]; [done|exfalso].
    destruct (first_segment d er rank acc x e2 l2 x HB H2) as (k & q & rest & E2 & _).
    rewrite E2 in E. injection E as E _. by apply app_longer in E. }
  destruct (first_segment d er rank acc x e l1 y HB) as (k1 & q1 & rest1 & E1 & K1); [by constructor|].
  destruct l2 as [|e2 l2].
  { exfalso. rewrite E1 in E. injection E as E _. symmetry in E. by apply app_longer in E. }
  destruct (first_segment d er rank acc x e2 l2 y HB H2) as (k2 & q2 & rest2 & E2 & K2).
  inversion H2 as [|? ? ? ? He2 Hne2 Hp2 Hs2 H2']; subst.
  pose proof E as E'. rewrite E1, E2 in E'. injection E' as E' Er. apply app_inv_head in E'. injection E' as -> _.
  destruct (cut_type (getType (ed d e))) eqn:Hc, (cut_type (getType (ed d e2))) eqn:Hc2.
  - destruct K1 as (_ & t1 & u1 & m1 & Et1 & R1 & R1'), K2 as (_ & t2 & u2 & m2 & Et2 & R2 & R2').
    assert (t1 = t2) as -> by congruence. assert (e = e2) as <- by (by eapply HO). f_equal.
    apply (IH [t2]); [done|congruence].
  - destruct K1 as [Pk _]. congruence.
  - destruct K2 as [Pk _]. congruence.
  - assert (e = e2) as <- by congruence. f_equal. apply (IH (acc ++ [e])); [done|].
    simpl in E. by rewrite Hc in E.
Qed.

(** Paths whose numbers fit in 32 bits are known by them. *)
Lemma numbers_identify d er ss1 ss2 : Numbered d er -> getNumberOfPaths d <= 2 ^ 32 ->
  Forall (fun s => dag_path d er (getRoot d) s (getExit d)) ss1 ->
  Forall (fun s => dag_path d er (getRoot d) s (getExit d)) ss2 ->
  map (fun s => i32 (path_number d s)) ss1 = map (fun s => i32 (path_number d s)) ss2 -> ss1 = ss2.
Proof.
  intros HN Hb F1. revert ss2. induction F1 as [|s1 ss1 Hs1 F1 IH]; intros [|s2 ss2] F2 E; try done.
  apply Forall_cons in F2 as [Hs2 F2]. simpl in E. injection E as Ei E. f_equal; [|by apply IH].
  apply (nb_unique _ _ HN); [done|done|].
  pose proof (nb_range _ _ HN s1 Hs1). pose proof (nb_range _ _ HN s2 Hs2).
  eapply i32_inj; [| |exact Ei]; lia.
Qed.

(** C20: the log of a function identifies what it executed: when the DAG is
    numbered as Ball and Larus prescribe and there are at most 2^32 paths, two
    routes that report the same numbers consist of the same DAG paths. *)
Theorem reports_identify_the_paths d er rank l1 l2 d' :
  BallLarusDag d er rank -> Unmarked d -> Numbered d er -> getNumberOfPaths d <= 2 ^ 32 ->
  markDag d = Some d' -> route d er (getRoot d) l1 (getExit d) -> route d er (getRoot d) l2 (getExit d) ->
  walkExec d' l1 None = walkExec d' l2 None -> segments d [] l1 = segments d [] l2.
Proof.
  intros HB HU HN Hb Em H1 H2 E.
  destruct (markDag_counted d er rank HB HU) as (d'' & Em' & HC). rewrite Em in Em'. injection Em' as <-.
  destruct (route_reports d er rank d' l1 HB HC H1) as [E1 F1], (route_reports d er rank d' l2 HB HC H2) as [E2 F2].
  rewrite E1, E2 in E. injection E as E. by eapply numbers_identify.
Qed.

(** Twice round the example or once, through its branch or past it: the reports
    differ. *)
Lemma reports_identify_the_paths_witness :
  exists d', markDag exampleLoop = Some d' /\
    walkExec d' [1; 2; 4; 8; 9]%nat None <> walkExec d' [1; 3; 8; 9]%nat None /\
    walkExec d' [1; 2; 4; 5; 3; 8; 9]%nat None <> walkExec d' [1; 3; 8; 9]%nat None.
Proof.
  destruct (markDag exampleLoop) as [d'|] eqn:E; [|vm_compute in E; discriminate E].
  exists d'. split; [reflexivity|].
  assert (Numbered exampleLoop 0%nat) as HN
    by (apply (checkNumbered_sound exampleLoop 0%nat (rankOf exampleRank) exampleLoop_dag); by vm_compute).
  assert (forall l, route exampleLoop 0%nat (getRoot exampleLoop) l (getExit exampleLoop) ->
    segments exampleLoop [] l <> segments exampleLoop [] [1; 3; 8; 9]%nat ->
    walkExec d' l None <> walkExec d' [1; 3; 8; 9]%nat None) as H.
  { intros l Hr Hne Hw. apply Hne.
    apply (reports_identify_the_paths exampleLoop 0%nat (rankOf exampleRank) _ _ d' exampleLoop_dag
      exampleLoop_unmarked HN ltac:(by vm_compute) E Hr); [|exact Hw].
    repeat (apply route_cons; [apply (bool_decide_unpack _); by vm_compute|done|done|done|]). apply route_nil. }
  split; apply H;
    [repeat (apply route_cons; [apply (bool_decide_unpack _); by vm_compute|done|done|done|]); apply route_nil
    |vm_compute; discriminate
    |repeat (apply route_cons; [apply (bool_decide_unpack _); by vm_compute|done|done|done|]); apply route_nil
    |vm_compute; discriminate].
Defined.
