(* ===== verification/MarkFrame.v ===== *)
(** * What the marking phases leave alone

    The marking phases of [PathProfiler::runOnFunction] (src/PathLogging.cpp)
    write increments, flags, colours and the two edge vectors of the DAG.
    [unaffected] lists the rest of the state the insertion starts from. *)

From stdpp Require Import base numbers list gmap.
From S2P Require Import Prelude Dag BallLarus SpanningTree ChordIncrements Push Marking.

Local Open Scope Z_scope.

Record unaffected (d d' : BLInstrumentationDag) : Prop := {
  ua_paths : getNumberOfPaths d' = getNumberOfPaths d;
  ua_array : getCounterArray d' = getCounterArray d;
  ua_done e : hasInstrumentation (ed d' e) = hasInstrumentation (ed d e);
  ua_numbers n : getPathPHI (nd d' n) = getPathPHI (nd d n) /\
    getStartingPathNumber (nd d' n) = getStartingPathNumber (nd d n) /\
    getEndingPathNumber (nd d' n) = getEndingPathNumber (nd d n);
  ua_stored n : is_Some (nodeStore d !! n) -> is_Some (nodeStore d' !! n)
}.

Lemma unaffected_refl d : unaffected d d.
Proof. by split. Qed.

Lemma unaffected_trans d1 d2 d3 : unaffected d1 d2 -> unaffected d2 d3 -> unaffected d1 d3.
Proof.
  intros [P1 A1 D1 N1 S1] [P2 A2 D2 N2 S2]. split; try congruence; auto.
  intros n. destruct (N1 n) as (E1 & E2 & E3), (N2 n) as (F1 & F2 & F3). split_and!; congruence.
Qed.

#[export] Instance unaffected_preorder : PreOrder unaffected.
Proof. split; [exact unaffected_refl|exact unaffected_trans]. Qed.

Lemma unaffected_edge e f d :
  (forall x, hasInstrumentation (f x) = hasInstrumentation x) -> unaffected d (updEdge e f d).
Proof.
  intros Hf. split; try done. intros x. rewrite ed_updEdge. case_decide; subst; [apply Hf|done].
Qed.

Lemma unaffected_color n c d : unaffected d (updNode n (setColor c) d).
Proof.
  split; try done.
  - intros m. rewrite nd_updNode. by case_decide; subst.
  - intros m Hm. simpl. rewrite lookup_insert_is_Some'. by right.
Qed.

#[export] Hint Resolve unaffected_refl unaffected_edge unaffected_color : rrw.

(** Loops. *)
Lemma unaffected_foldl {A} (f : BLInstrumentationDag -> A -> BLInstrumentationDag) l d :
  (forall d a, unaffected d (f d a)) -> unaffected d (foldl f d l).
Proof.
  intros Hf. revert d. induction l as [|a l IH]; intros d; simpl; [done|].
  etransitivity; [apply Hf|apply IH].
Qed.

Lemma unaffected_foldM {A} (f : BLInstrumentationDag -> A -> option BLInstrumentationDag) l d d' :
  (forall d a d', f d a = Some d' -> unaffected d d') -> foldM f d l = Some d' -> unaffected d d'.
Proof.
  intros Hf H. apply (foldM_ind f (fun _ x => unaffected d x) l d); [done| |done].
  intros pre a post x x' _ Hx E. etransitivity; [exact Hx|by eapply Hf].
Qed.

(** ** The phases *)

Lemma spanEdge_unaffected b d e : unaffected d (spanEdge b d e).
Proof.
  unfold spanEdge. case_decide; [done|]. case_decide; [done|].
  etransitivity; [apply unaffected_color|]. unfold makeEdgeSpanning. cbn zeta.
  etransitivity; [by apply (unaffected_edge e (setIsInSpanningTree true))|by split].
Qed.

Lemma spanLoop_unaffected l d d' : spanLoop l d = Some d' -> unaffected d d'.
Proof.
  revert d. induction l as [|n l IH]; intros d H; simpl in H; [by injection H as <-|].
  case_decide; [by apply IH|]. unfold spanNodeEdges in H.
  destruct (predEdges _); [done|]. cbn [mbind option_bind] in H. apply IH in H.
  etransitivity; [apply unaffected_color|]. etransitivity; [|exact H].
  etransitivity; [|apply (unaffected_foldl (spanEdge false)), spanEdge_unaffected].
  apply unaffected_foldl, spanEdge_unaffected.
Qed.

Lemma calculateSpanningTree_unaffected d d' : calculateSpanningTree d = Some d' -> unaffected d d'.
Proof.
  unfold calculateSpanningTree. intros H. destruct (spanLoop _ _) as [d1|] eqn:E; [|done].
  injection H as <-. etransitivity; [|etransitivity; [exact (spanLoop_unaffected _ _ _ E)|]].
  - apply unaffected_foldl. auto with rrw.
  - apply unaffected_foldl. intros d2 e. by destruct (_ && _).
Qed.

Lemma absorbChord_unaffected w v e d f : unaffected d (absorbChord w v e d f).
Proof. unfold absorbChord. case_decide; auto with rrw. Qed.

Lemma calculateChordIncrementsDfs_unaffected fuel w v e d d' :
  calculateChordIncrementsDfs fuel w v e d = Some d' -> unaffected d d'.
Proof.
  revert w v e d d'. induction fuel as [|fuel IH]; intros w v e d d' H; [done|].
  rewrite dfs_unfold in H. destruct (foldM _ d _) as [d1|] eqn:E; [|done]. injection H as <-.
  etransitivity; [|apply unaffected_foldl; intros; apply absorbChord_unaffected].
  eapply unaffected_foldM; [|exact E]. intros d2 f d3 H. unfold treeStep in H.
  case_decide; simpl in H.
  - destruct (calculateChordIncrementsDfs fuel _ _ _ d2) as [d4|] eqn:E4; [|done]. simpl in H.
    etransitivity; [by eapply IH|]. case_decide; [by eapply IH|by injection H as <-].
  - case_decide; [by eapply IH|by injection H as <-].
Qed.

Lemma calculateChordIncrements_unaffected fuel d d' :
  calculateChordIncrements fuel d = Some d' -> unaffected d d'.
Proof.
  unfold calculateChordIncrements. intros H.
  destruct (calculateChordIncrementsDfs _ _ _ _ _) as [d1|] eqn:E; [|done]. injection H as <-.
  etransitivity; [by eapply calculateChordIncrementsDfs_unaffected|].
  apply unaffected_foldl. intros. unfold addChordWeight. auto with rrw.
Qed.

Lemma pushInitializationFromEdge_unaffected fuel e d d' :
  pushInitializationFromEdge fuel e d = Some d' -> unaffected d d'.
Proof.
  revert e d d'. induction fuel as [|fuel IH]; intros e d d' H; [done|]. cbn [pushInitializationFromEdge] in H. cbn zeta in H.
  case_decide; [by injection H as <-|]. case_decide; [by injection H as <-|].
  destruct (foldM _ d _) as [d1|] eqn:E; [|done]. injection H as <-.
  etransitivity; [|by apply unaffected_edge]. etransitivity; [|by apply unaffected_edge].
  eapply unaffected_foldM; [|exact E]. intros d2 f d3 H. cbv beta zeta in H. case_decide; [by injection H as <-|].
  etransitivity; [|by eapply IH]. etransitivity; [|by apply unaffected_edge]. by apply unaffected_edge.
Qed.

Lemma pushCountersFromEdge_unaffected fuel e d d' :
  pushCountersFromEdge fuel e d = Some d' -> unaffected d d'.
Proof.
  revert e d d'. induction fuel as [|fuel IH]; intros e d d' H; [done|]. cbn [pushCountersFromEdge] in H. cbn zeta in H.
  case_decide; [by injection H as <-|]. case_decide; [by injection H as <-|].
  destruct (isInitialization _); [by injection H as <-|].
  destruct (foldM _ d _) as [d1|] eqn:E; [|done]. injection H as <-.
  etransitivity; [|by apply unaffected_edge]. etransitivity; [|by apply unaffected_edge].
  eapply unaffected_foldM; [|exact E]. intros d2 f d3 H. cbv beta zeta in H. case_decide; [by injection H as <-|].
  etransitivity; [|by eapply IH]. etransitivity; [|by apply unaffected_edge]. by apply unaffected_edge.
Qed.

Lemma markDag_unaffected d d' : markDag d = Some d' -> unaffected d d'.
Proof.
  unfold markDag. intros H. destruct (calculateSpanningTree d) as [d1|] eqn:E1; [|done].
  cbn [mbind option_bind] in H. destruct (calculateChordIncrements _ d1) as [d2|] eqn:E2; [|done].
  cbn [mbind option_bind] in H. destruct (pushInitialization _ d2) as [d3|] eqn:E3; [|done].
  cbn [mbind option_bind] in H. unfold pushInitialization in E3. unfold pushCounters in H.
  destruct (getExitRootEdge d2); [|done]. destruct (getExitRootEdge d3); [|done].
  etransitivity; [by eapply calculateSpanningTree_unaffected|].
  etransitivity; [by eapply calculateChordIncrements_unaffected|].
  etransitivity; [|etransitivity; [|by eapply pushCountersFromEdge_unaffected]; by apply unaffected_edge].
  etransitivity; [|by eapply pushInitializationFromEdge_unaffected]. by apply unaffected_edge.
Qed.

(** ** Edges that stay without marks

    The closing edge hands its marks on, an initialisation rests where paths
    join, and the cut edges never take part: the code of a cut edge is made
    from its phony edges alone. *)

(** A back edge closes a cycle: its target reaches its source. *)
Definition BackEdgesClose (d : BLInstrumentationDag) (er : EdgeId) : Prop :=
  forall e, e ∈ _edges d -> getType (ed d e) = BACKEDGE ->
    exists p, route d er (getTarget (ed d e)) p (getSource (ed d e)).

#[export] Instance route_shape : Proper (same_shape ==> eq ==> eq ==> eq ==> eq ==> impl) route.
Proof.
  intros d d' HS er ? <- x ? <- p ? <- y ? <- H. induction H; [constructor|].
  destruct (ss_ed _ _ HS e) as [Es Et Ety _ _ _].
  constructor; try congruence. by rewrite (ss_edges _ _ HS).
Qed.

Lemma BackEdgesClose_shape d d' er : same_shape d d' -> BackEdgesClose d er -> BackEdgesClose d' er.
Proof.
  intros HS H e. rewrite (ss_edges _ _ HS). destruct (ss_ed _ _ HS e) as [-> -> -> _ _ _].
  intros He Ht. destruct (H e He Ht) as [p Hp]. exists p. by eapply route_shape.
Qed.

Lemma route_snoc_inv d er x y p : route d er x p y ->
  p = [] /\ x = y \/ exists q k, p = q ++ [k] /\ k ∈ _edges d /\ k <> er /\ getTarget (ed d k) = y /\
    route d er x q (getSource (ed d k)).
Proof.
  induction 1 as [x|x e p y He Hne Hph <- Hp IH]; [by left|right].
  destruct IH as [[-> <-]|(q & k & -> & Hk & Hkn & Ht & Hq)].
  - exists [], e. split_and!; try done. constructor.
  - exists (e :: q), k. split_and!; try done. by constructor.
Qed.

Section Unvisited.
Context (d : BLInstrumentationDag) (er : EdgeId) (rank : NodeId -> nat).
Context (HB : BallLarusDag d er rank) (HC : BackEdgesClose d er).

(** A push that gets past a node has met no join on the way to it. *)
Lemma visited_above f : visited down d er f -> f = er \/
  forall x p, route d er x p (getSource (ed d f)) -> (length (predEdges (nd d x)) <= 1)%nat.
Proof using HB.
  revert f. apply visited_ind; [by left|]. intros g f Hg IH Pg [Hf _]. right.
  assert (g ∈ _edges d) as Hge by (by eapply (visited_edge down d _ (PushOk_down d er rank HB)); [apply HB|]).
  simpl in Hf. apply (bl_succ _ _ _ HB) in Hf as [_ Hs]. apply passes_down in Pg as [Pg _].
  intros x p. rewrite Hs. intros [[_ ->]|(q & k & _ & Hk & Hkn & Ht & Hq)]%route_snoc_inv; [done|].
  assert (k = g) as ->.
  { eapply length_le_1_unique; [exact Pg| |]; by apply (bl_pred _ _ _ HB). }
  destruct IH as [->|IH]; [done|]. by eapply IH.
Qed.

Lemma visited_below f : visited up d er f -> f = er \/
  forall p x, route d er (getTarget (ed d f)) p x -> (length (succEdges (nd d x)) <= 1)%nat.
Proof using HB.
  revert f. apply visited_ind; [by left|]. intros g f Hg IH Pg [Hf _]. right.
  assert (g ∈ _edges d) as Hge by (by eapply (visited_edge up d _ (PushOk_up d er rank HB)); [apply HB|]).
  simpl in Hf. apply (bl_pred _ _ _ HB) in Hf as [_ Ht]. apply passes_up in Pg as [Pg _].
  intros p x. rewrite Ht. intros H. inversion H as [|? k q ? Hk Hkn Hph Hs Hq]; subst; [done|].
  assert (k = g) as ->.
  { eapply length_le_1_unique; [exact Pg| |]; by apply (bl_succ _ _ _ HB). }
  destruct IH as [->|IH]; [done|]. by eapply IH.
Qed.

Lemma cut_cases e : cut_type (getType (ed d e)) = true ->
  getType (ed d e) = BACKEDGE \/ getType (ed d e) = SPLITEDGE.
Proof using. destruct (getType (ed d e)); simpl; auto; done. Qed.

Lemma cut_unvisited dir e : dir = down \/ dir = up -> e ∈ _edges d ->
  cut_type (getType (ed d e)) = true -> ~ visited dir d er e.
Proof using HB HC.
  intros Hdir He Hc HV.
  assert (e <> er) as Hne by (intros ->; by rewrite (bl_er_type _ _ _ HB) in Hc).
  destruct (cut_cases e Hc) as [Ht|Ht].
  - destruct (HC e He Ht) as [p Hp]. destruct Hdir as [-> | ->].
    + destruct (visited_above e HV) as [|H]; [done|]. apply H in Hp.
      pose proof (cut_target_preds _ _ _ HB e He Hc). lia.
    + destruct (visited_below e HV) as [|H]; [done|]. apply H in Hp.
      pose proof (cut_source_succs _ _ _ HB e He Hc). lia.
  - destruct HV as (z0 & z & HV). inversion HV as [|g f z' Hg Pg [_ Cg]]; subst; done.
Qed.

End Unvisited.

(** With the empty tree an edge without weight gets no increment. *)
Lemma absorb_nothing v l d e : getIncrement (ed d e) = 0 ->
  getIncrement (ed (foldl (absorbChord 0 v None) d l) e) = 0.
Proof.
  revert d. induction l as [|f l IH]; intros d H; simpl; [done|]. apply IH.
  unfold absorbChord. case_decide; [|done]. rewrite ed_updEdge. case_decide; [|done]. subst. simpl. by rewrite H.
Qed.

Lemma add_nothing l d e : getWeight (ed d e) = 0 -> getIncrement (ed d e) = 0 ->
  getIncrement (ed (foldl addChordWeight d l) e) = 0.
Proof.
  revert d. induction l as [|f l IH]; intros d Hw H; simpl; [done|].
  apply IH; unfold addChordWeight; rewrite ed_updEdge; case_decide; subst; simpl; try done. by rewrite H, Hw.
Qed.

Lemma absorb_weight w v l d e : getWeight (ed (foldl (absorbChord w v None) d l) e) = getWeight (ed d e).
Proof.
  revert d. induction l as [|f l IH]; intros d; simpl; [done|]. rewrite IH. unfold absorbChord.
  case_decide; [|done]. rewrite ed_updEdge. by case_decide; subst.
Qed.

Lemma weigh_nothing d e d' : _treeEdges d = [] -> getWeight (ed d e) = 0 -> getIncrement (ed d e) = 0 ->
  calculateChordIncrements (S (length (_treeEdges d))) d = Some d' -> getIncrement (ed d' e) = 0.
Proof.
  intros HT Hw Hi. rewrite HT. unfold calculateChordIncrements. cbn [length calculateChordIncrementsDfs].
  rewrite HT. cbn [foldM mbind option_bind]. intros [= <-].
  apply add_nothing; [by rewrite absorb_weight|by apply absorb_nothing].
Qed.

Record Cleared (d0 : BLInstrumentationDag) (er : EdgeId) (d : BLInstrumentationDag) : Prop := {
  cl_er : isInitialization (ed d er) = false /\ isCounterIncrement (ed d er) = false /\
    getIncrement (ed d er) = 0;
  cl_init e : isInitialization (ed d e) = true -> stopsInit d0 e = true;
  cl_cut e : e ∈ _edges d0 -> cut_type (getType (ed d0 e)) = true -> getWeight (ed d0 e) = 0 ->
    isInitialization (ed d e) = false /\ isCounterIncrement (ed d e) = false /\ getIncrement (ed d e) = 0
}.

Lemma markDag_cleared d0 er rank d : BallLarusDag d0 er rank -> Unmarked d0 -> BackEdgesClose d0 er ->
  markDag d0 = Some d -> Cleared d0 er d.
Proof.
  intros HB0 HU HC0 Hm. destruct (weigh_phase d0 er rank HB0 HU) as (d1 & d2 & E1 & E2 & HW).
  unfold markDag in Hm. rewrite E1 in Hm. cbn [mbind option_bind] in Hm. rewrite E2 in Hm. cbn [mbind option_bind] in Hm.
  destruct (initialize_phase d0 er rank d2 HB0 HW) as (d3 & E3 & HI). rewrite E3 in Hm. cbn [mbind option_bind] in Hm.
  pose proof (wt_shape _ _ HW) as S2. pose proof (in_shape _ _ _ HI) as S3.
  pose proof (BallLarusDag_shape _ _ _ _ S2 HB0) as HB2. pose proof (BallLarusDag_shape _ _ _ _ S3 HB0) as HB3.
  pose proof (pushInitialization_pushed _ _ er rank _ HB2 E3) as P3.
  pose proof (pushCounters_pushed _ _ er rank _ HB3 Hm) as P4.
  destruct (in_er _ _ _ HI) as [Heri _].
  assert (forall e, isInitialization (ed d e) = isInitialization (ed d3 e)) as Hi.
  { apply (fz_other _ _ _ (pd_frozen _ _ _ _ _ P4)). }
  split.
  - destruct (pushed_start _ _ _ _ _ P4) as [Hz Hf]; [by apply er_passes_up with rank|]. rewrite Hi. by split_and!.
  - intros e. rewrite Hi. intros He.
    assert (stopsInit d0 e = stopsInit d2 e) as ->.
    { symmetry. apply (dl_stops (dir := down) _ _ S2). intros x. simpl. by rewrite (wt_counter _ _ HW), (um_counter _ HU). }
    destruct (stopsInit d2 e) eqn:Es; [done|exfalso].
    assert (~ visited down d2 er e) as Hv.
    { intros HV. destruct (pushed_visited _ _ _ _ _ _ P3 HV) as [z Ho]. unfold outcome in Ho.
      simpl in Ho. rewrite Es in Ho. destruct Ho. congruence. }
    rewrite (pd_frame _ _ _ _ _ P3 e Hv), ed_updEdge_ne in He by (intros ->; apply Hv, visited_here).
    by rewrite (wt_init _ _ HW) in He.
  - intros e He Hc Hw. assert (e <> er) as Hne by (intros ->; by rewrite (bl_er_type _ _ _ HB0) in Hc).
    assert (forall d', same_shape d0 d' -> e ∈ _edges d' /\ cut_type (getType (ed d' e)) = true) as HS.
    { intros d' HS. by rewrite (ss_edges _ _ HS), (se_type _ _ (ss_ed _ _ HS e)). }
    destruct (HS d2 S2) as [He2 Hc2], (HS d3 S3) as [He3 Hc3].
    rewrite (pd_frame _ _ _ _ _ P4 e), (ed_updEdge_ne er e), (pd_frame _ _ _ _ _ P3 e), (ed_updEdge_ne er e);
      [|done| |done|]; [|eapply (cut_unvisited d2 er rank HB2); eauto using BackEdgesClose_shape
                        |eapply (cut_unvisited d3 er rank HB3); eauto using BackEdgesClose_shape].
    rewrite (wt_init _ _ HW), (wt_counter _ _ HW). split_and!; [done|done|].
    destruct (calculateSpanningTree_spec d0 (bl_root_node _ _ _ HB0)) as (d1' & E1' & _ & HE & HT & _).
    rewrite E1 in E1'. injection E1' as <-. rewrite (um_tree _ HU) in HT.
    eapply weigh_nothing; [exact HT| | |exact E2]; unfold ed; rewrite HE; [done|apply HU].
Qed.
