(* ===== verification/IR.v ===== *)
(** * The LLVM interface of the pass

    What src/PathLogging.cpp calls of LLVM while it inserts code: instruction
    lists, insertion points, terminators, PHI nodes, [SplitCriticalEdge]
    (llvm/IR, llvm/Transforms/Utils/BasicBlockUtils.h), and the base class
    [BallLarusDag]'s own mutators (llvm/Analysis/PathNumbering.h).  None of
    that code belongs to the repository: its operations are members of two
    classes, [LLVM] and [BallLarusOps], and what LLVM documents of them is
    stated by [LLVMSpec], [LLVMFlow] and [BallLarusOpsSpec].  The file [ListIR]
    gives a concrete instance of each, used to evaluate examples. *)

From stdpp Require Import base numbers list gmap.
From S2P Require Import Prelude Dag.

Local Open Scope Z_scope.

(** ** Results of the insertion code *)

(** Where the C++ code would stop: a failing [assert], a [NULL] operand or
    block, an iterator run past its end, or the recursion fuel of the model. *)
Inductive failure : Set :=
  | AssertFailed
  | NullPointer
  | PastTheEnd
  | OutOfFuel.

Inductive result (A : Type) : Type :=
  | Ok (a : A)
  | Err (f : failure).

Arguments Ok {A} a.
Arguments Err {A} f.

#[export] Instance result_ret : MRet result := @Ok.
#[export] Instance result_bind : MBind result := fun A B f r =>
  match r with Ok a => f a | Err e => Err e end.

(** [assert(b)]. *)
Definition assert (b : bool) : result unit := if b then Ok tt else Err AssertFailed.

(** Using a pointer that may be [NULL]. *)
Definition deref {A} (p : option A) : result A :=
  match p with Some a => Ok a | None => Err NullPointer end.

(** A loop over an iterator range whose body may fail. *)
Fixpoint foldR {A B} (f : A -> B -> result A) (a : A) (l : list B) : result A :=
  match l with
  | [] => Ok a
  | b :: l' => a' ← f a b; foldR f a' l'
  end.

(** ** Instructions *)

(** The instructions the pass creates (additions, PHI nodes, calls to the
    runtime) and the original ones, of which it only recognises PHI nodes
    (through [getFirstInsertionPt]) and calls. *)
Inductive Inst : Set :=
  | AddInst (lhs rhs : Value)
  | PathCall (increment : bool) (pathNumber : Value)
  | PHINode (incoming : list (Value * BlockId))
  | OriginalPHI
  | OriginalCall
  | OriginalOther.

#[export] Instance Inst_eq_dec : EqDecision Inst.
Proof. solve_decision. Defined.

(** [getOpcode() == Instruction::Call]: true of the runtime calls as well. *)
Definition isCall (i : Inst) : bool :=
  match i with PathCall _ _ | OriginalCall => true | _ => false end.

Definition isPHI (i : Inst) : bool :=
  match i with PHINode _ | OriginalPHI => true | _ => false end.

(** ** The function being instrumented *)

Class LLVM : Type := {
  Fn : Type;
  insts : Fn -> BlockId -> list InstId;                    (* begin() .. end() *)
  inst : Fn -> InstId -> Inst;
  getParent : Fn -> InstId -> BlockId;
  getFirstInsertionPt : Fn -> BlockId -> option InstId;
  getTerminator : Fn -> BlockId -> option InstId;
  successors : Fn -> BlockId -> list BlockId;              (* of the terminator *)
  isIndirectBr : Fn -> BlockId -> bool;
  predecessors : Fn -> BlockId -> list BlockId;            (* pred_begin() .. pred_end() *)
  Create : Inst -> InstId -> Fn -> InstId * Fn;            (* insert before *)
  addIncoming : Value -> BlockId -> InstId -> Fn -> Fn;
  removeIncomingValue : BlockId -> InstId -> Fn -> Fn;
  SplitCriticalEdge : BlockId -> nat -> Fn -> option Fn    (* [None]: not split *)
}.

(** What LLVM documents of these operations, for functions in a [valid]
    state.  Landing pads are left out: the pass gives up on edges into them
    when [SplitCriticalEdge] does. *)
Class LLVMSpec (L : LLVM) : Type := {
  valid : Fn -> Prop;
  (* instruction creation *)
  create_valid i before b s : valid s -> before ∈ insts s b -> valid (Create i before s).2;
  create_inst i before s : valid s -> inst (Create i before s).2 (Create i before s).1 = i;
  create_other i before s j : valid s -> j <> (Create i before s).1 ->
    inst (Create i before s).2 j = inst s j;
  create_fresh i before s b : valid s -> (Create i before s).1 ∉ insts s b;
  create_here i before s b l1 l2 : valid s -> insts s b = l1 ++ before :: l2 ->
    insts (Create i before s).2 b = l1 ++ (Create i before s).1 :: before :: l2;
  create_elsewhere i before s b : valid s -> before ∉ insts s b ->
    insts (Create i before s).2 b = insts s b;
  create_terminator i before s b : getTerminator (Create i before s).2 b = getTerminator s b;
  create_cfg i before s b : successors (Create i before s).2 b = successors s b;
  (* positions *)
  insts_nodup s b : valid s -> NoDup (insts s b);
  insts_parent s b i : valid s -> i ∈ insts s b -> getParent s i = b;
  first_insertion s b p : valid s -> getFirstInsertionPt s b = Some p ->
    exists l1 l2, insts s b = l1 ++ p :: l2 /\ isPHI (inst s p) = false /\
      Forall (fun i => isPHI (inst s i) = true) l1;
  terminator_last s b t : valid s -> getTerminator s b = Some t ->
    isPHI (inst s t) = false /\ exists l, insts s b = l ++ [t];
  (* PHI nodes *)
  incoming_valid v b i s : valid s -> valid (addIncoming v b i s);
  incoming_phi v b i s l : inst s i = PHINode l ->
    inst (addIncoming v b i s) i = PHINode (l ++ [(v, b)]);
  incoming_other v b i s j : j <> i -> inst (addIncoming v b i s) j = inst s j;
  incoming_insts v b i s c : insts (addIncoming v b i s) c = insts s c;
  incoming_terminator v b i s c : getTerminator (addIncoming v b i s) c = getTerminator s c;
  incoming_kind v b i s : isPHI (inst (addIncoming v b i s) i) = isPHI (inst s i);
  remove_valid b i s : valid s -> valid (removeIncomingValue b i s);
  remove_phi b i s l1 v l2 : inst s i = PHINode (l1 ++ (v, b) :: l2) -> b ∉ l1.*2 ->
    inst (removeIncomingValue b i s) i = PHINode (l1 ++ l2);
  remove_other b i s j : j <> i -> inst (removeIncomingValue b i s) j = inst s j;
  remove_kind b i s : isPHI (inst (removeIncomingValue b i s) i) = isPHI (inst s i);
  remove_insts b i s c : insts (removeIncomingValue b i s) c = insts s c;
  remove_terminator b i s c : getTerminator (removeIncomingValue b i s) c = getTerminator s c;
  (* splitting puts a block with nothing but a branch on the edge; PHI nodes
     may be updated, other instructions are not *)
  split_valid b n s s' : valid s -> SplitCriticalEdge b n s = Some s' -> valid s';
  split_edge b n s s' : valid s -> SplitCriticalEdge b n s = Some s' ->
    exists old new t, successors s b !! n = Some old /\
      successors s' b = <[n := new]> (successors s b) /\ successors s' new = [old] /\
      insts s new = [] /\ insts s' new = [t] /\ getTerminator s' new = Some t /\
      (forall c, t ∉ insts s c) /\ inst s' t = OriginalOther /\
      (forall c, c <> new -> insts s' c = insts s c) /\
      (forall c i, i ∈ insts s c -> isPHI (inst s i) = false -> inst s' i = inst s i) /\
      (forall c i, i ∈ insts s c -> isPHI (inst s' i) = isPHI (inst s i))
}.

(** Renames the first entry for a predecessor. *)
Fixpoint renameBlock (b new : BlockId) (l : list (Value * BlockId)) : list (Value * BlockId) :=
  match l with
  | [] => []
  | (v, c) :: l => if decide (c = b) then (v, new) :: l else (v, c) :: renameBlock b new l
  end.

(** Every block has a terminator.  The control-flow graph: predecessors are
    the successor lists read backwards; only a split changes it, and it renames the entry of its block
    in the PHI nodes of the old target. *)
Class LLVMFlow (L : LLVM) `{LS : !LLVMSpec L} : Prop := {
  terminator_some s b : valid s -> insts s b <> [] -> is_Some (getTerminator s b);
  first_insertion_some s b i : valid s -> i ∈ insts s b -> isPHI (inst s i) = false ->
    is_Some (getFirstInsertionPt s b);
  incoming_cfg v b i s c : successors (addIncoming v b i s) c = successors s c;
  remove_cfg b i s c : successors (removeIncomingValue b i s) c = successors s c;
  pred_count s b c : valid s ->
    count_occ Nat.eq_dec (predecessors s b) c = count_occ Nat.eq_dec (successors s c) b;
  split_cfg b n s s' new : valid s -> SplitCriticalEdge b n s = Some s' ->
    successors s' b !! n = Some new ->
    b <> new /\ successors s new = [] /\ (forall c, new ∉ successors s c) /\
    forall c, c <> b -> c <> new -> successors s' c = successors s c;
  split_phi b n s s' new old c i l : valid s -> SplitCriticalEdge b n s = Some s' ->
    successors s' b !! n = Some new -> successors s b !! n = Some old ->
    i ∈ insts s c -> inst s i = PHINode l ->
    inst s' i = PHINode (if decide (c = old) then renameBlock b new l else l);
  split_original b n s s' c i : valid s -> SplitCriticalEdge b n s = Some s' ->
    i ∈ insts s c -> inst s i = OriginalPHI -> inst s' i = OriginalPHI
}.

(** ** The base class's mutators *)

Class BallLarusOps : Type := {
  addNode : option BlockId -> BLInstrumentationDag -> NodeId * BLInstrumentationDag;
  addEdge : NodeId -> NodeId -> Z -> BLInstrumentationDag -> EdgeId * BLInstrumentationDag;
  insertEdge : EdgeId -> list EdgeId -> list EdgeId;     (* addPredEdge, addSuccEdge *)
  removeEdge : EdgeId -> list EdgeId -> list EdgeId      (* removePredEdge, removeSuccEdge *)
}.

(** [addNode] and [addEdge] call the overridden [createNode] and
    [createEdge] and record the new object. *)
Class BallLarusOpsSpec (O : BallLarusOps) : Prop := {
  addNode_fresh bb d : nodeStore d !! (addNode bb d).1 = None /\ (addNode bb d).1 ∉ _nodes d;
  addNode_eq bb d : (addNode bb d).2 =
    MkDag (<[(addNode bb d).1 := createNode bb]> (nodeStore d)) (edgeStore d)
          (_nodes d ++ [(addNode bb d).1]) (_edges d) (getRoot d) (getExit d)
          (getNumberOfPaths d) (_treeEdges d) (_chordEdges d) (_counterArray d);
  addEdge_fresh s t k d : edgeStore d !! (addEdge s t k d).1 = None /\ (addEdge s t k d).1 ∉ _edges d;
  addEdge_eq s t k d : (addEdge s t k d).2 =
    let e := (addEdge s t k d).1 in
    updNode t (fun n => setPredEdges (insertEdge e (predEdges n)) n)
      (updNode s (fun n => setSuccEdges (insertEdge e (succEdges n)) n)
        (MkDag (nodeStore d) (<[e := createEdge s t k]> (edgeStore d))
               (_nodes d) (_edges d ++ [e]) (getRoot d) (getExit d)
               (getNumberOfPaths d) (_treeEdges d) (_chordEdges d) (_counterArray d)));
  insertEdge_perm e l : insertEdge e l ≡ₚ e :: l;
  removeEdge_perm e l : e ∈ l -> l ≡ₚ e :: removeEdge e l;
  removeEdge_absent e l : e ∉ l -> removeEdge e l = l
}.
