(* ===== verification/ListIR.v ===== *)
(** * A concrete instance of the LLVM interface

    Functions as finite maps of blocks and instructions.  It shows that the
    documented behaviour collected in [LLVMSpec] and [BallLarusOpsSpec] can
    hold, and it lets the insertion code be evaluated on examples. *)

From stdpp Require Import base numbers list gmap sets fin_sets.
From S2P Require Import Prelude Dag IR.

Record ListFn : Set := MkFn {
  blocks : gmap BlockId (list InstId);
  instrs : gmap InstId Inst;
  succs : gmap BlockId (list BlockId)
}.

Definition blockInsts (s : ListFn) (b : BlockId) : list InstId := default [] (blocks s !! b).

Definition instOf (s : ListFn) (i : InstId) : Inst := default OriginalOther (instrs s !! i).

Definition succsOf (s : ListFn) (b : BlockId) : list BlockId := default [] (succs s !! b).

Fixpoint insertBefore (new before : InstId) (l : list InstId) : list InstId :=
  match l with
  | [] => []
  | i :: l => if decide (i = before) then new :: i :: l else i :: insertBefore new before l
  end.

Definition createInst (i : Inst) (before : InstId) (s : ListFn) : InstId * ListFn :=
  let new := fresh (dom (instrs s)) in
  (new, MkFn (insertBefore new before <$> blocks s) (<[new := i]> (instrs s)) (succs s)).

Definition alterPHI (f : list (Value * BlockId) -> list (Value * BlockId)) (i : Inst) : Inst :=
  match i with PHINode l => PHINode (f l) | _ => i end.

Fixpoint removeBlock (b : BlockId) (l : list (Value * BlockId)) : list (Value * BlockId) :=
  match l with
  | [] => []
  | (v, c) :: l => if decide (c = b) then l else (v, c) :: removeBlock b l
  end.

Definition setPHI (f : list (Value * BlockId) -> list (Value * BlockId)) (i : InstId) (s : ListFn)
    : ListFn :=
  MkFn (blocks s) (alter (alterPHI f) i (instrs s)) (succs s).

(** All blocks with an edge to [b], one entry per edge. *)
Definition predsOf (s : ListFn) (b : BlockId) : list BlockId :=
  p ← map_to_list (succs s); replicate (length (filter (fun c => c = b) p.2)) p.1.

Definition splitEdge (b : BlockId) (n : nat) (s : ListFn) : option ListFn :=
  old ← succsOf s b !! n;
  if decide (length (succsOf s b) <= 1 \/ length (predsOf s old) <= 1) then None
  else
    let new := fresh (dom (blocks s) ∪ dom (succs s) ∪
                      list_to_set (concat (map_to_list (succs s)).*2)) in
    let t := fresh (dom (instrs s)) in
    Some (MkFn (<[new := [t]]> (blocks s))
               (<[t := OriginalOther]>
                  (map_imap (fun i x =>
                     Some (if decide (i ∈ blockInsts s old) then alterPHI (renameBlock b new) x else x))
                     (instrs s)))
               (<[new := [old]]> (<[b := <[n := new]> (succsOf s b)]> (succs s)))).

Definition parentOf (s : ListFn) (i : InstId) : BlockId :=
  default 0 (fst <$> head (filter (fun p : BlockId * list InstId => i ∈ p.2) (map_to_list (blocks s)))).

#[export] Instance ListLLVM : LLVM := {|
  Fn := ListFn;
  insts := blockInsts;
  inst := instOf;
  getParent := parentOf;
  getFirstInsertionPt s b := head (filter (fun i => isPHI (instOf s i) = false) (blockInsts s b));
  getTerminator s b := last (blockInsts s b);
  successors := succsOf;
  isIndirectBr s b := false;
  predecessors := predsOf;
  Create := createInst;
  addIncoming v b i s := setPHI (fun l => l ++ [(v, b)]) i s;
  removeIncomingValue b i s := setPHI (removeBlock b) i s;
  SplitCriticalEdge := splitEdge
|}.

Record ListValid (s : ListFn) : Prop := {
  lv_dom b i : i ∈ blockInsts s b -> i ∈ dom (instrs s);
  lv_nodup b : NoDup (blockInsts s b);
  lv_parent b c i : i ∈ blockInsts s b -> i ∈ blockInsts s c -> b = c;
  lv_last b t : last (blockInsts s b) = Some t -> isPHI (instOf s t) = false
}.

(** ** List lemmas *)

Lemma insertBefore_here new before l1 l2 : before ∉ l1 ->
  insertBefore new before (l1 ++ before :: l2) = l1 ++ new :: before :: l2.
Proof.
  induction l1 as [|x l1 IH]; intros H; simpl; [by rewrite decide_True|].
  rewrite decide_False by set_solver. rewrite IH by set_solver. done.
Qed.

Lemma insertBefore_absent new before l : before ∉ l -> insertBefore new before l = l.
Proof.
  induction l as [|x l IH]; intros H; simpl; [done|].
  rewrite decide_False by set_solver. rewrite IH by set_solver. done.
Qed.

Lemma insertBefore_elem new before l i :
  i ∈ insertBefore new before l -> i ∈ l \/ (i = new /\ before ∈ l).
Proof.
  destruct (decide (before ∈ l)) as [(l1 & l2 & -> & Hn)%list_elem_of_split_l|Hn].
  - rewrite insertBefore_here by done. set_solver.
  - rewrite insertBefore_absent by done. by left.
Qed.

Lemma insertBefore_nodup new before l : new ∉ l -> NoDup l -> NoDup (insertBefore new before l).
Proof.
  intros Hn Hd. destruct (decide (before ∈ l)) as [(l1 & l2 & -> & Hb)%list_elem_of_split_l|Hb].
  - rewrite insertBefore_here by done. apply NoDup_app in Hd as (H1 & H2 & H3).
    apply NoDup_app. split_and!; [done| |].
    + intros x Hx. specialize (H2 x Hx). set_solver.
    + apply NoDup_cons. split; [set_solver|done].
  - by rewrite insertBefore_absent.
Qed.

Lemma insertBefore_last new before l : last (insertBefore new before l) = last l.
Proof.
  induction l as [|x l IH]; [done|]. cbn [insertBefore]. case_decide; [done|].
  destruct l as [|y l]; [done|]. cbn [insertBefore] in *. case_decide; [done|].
  change (last (x :: y :: insertBefore new before l)) with (last (y :: insertBefore new before l)).
  by rewrite IH.
Qed.

Lemma createInst_insts i before s b :
  blockInsts (createInst i before s).2 b = insertBefore (createInst i before s).1 before (blockInsts s b).
Proof. unfold blockInsts. simpl. rewrite lookup_fmap. by destruct (blocks s !! b). Qed.

Lemma createInst_fresh i before s : (createInst i before s).1 ∉ dom (instrs s).
Proof. apply is_fresh. Qed.

Lemma instOf_create i before s j : j <> (createInst i before s).1 ->
  instOf (createInst i before s).2 j = instOf s j.
Proof. intros H. unfold instOf. simpl. by rewrite lookup_insert_ne by done. Qed.

Lemma instOf_setPHI_ne f i j s : j <> i -> instOf (setPHI f i s) j = instOf s j.
Proof. intros H. unfold instOf. simpl. by rewrite lookup_alter_ne by done. Qed.

Lemma instOf_setPHI f i s : instOf (setPHI f i s) i = alterPHI f (instOf s i).
Proof. unfold instOf. simpl. rewrite lookup_alter_eq. by destruct (instrs s !! i). Qed.

Lemma isPHI_alter f i : isPHI (alterPHI f i) = isPHI i.
Proof. by destruct i. Qed.

Lemma isPHI_setPHI f i j s : isPHI (instOf (setPHI f i s) j) = isPHI (instOf s j).
Proof.
  destruct (decide (j = i)) as [->|Hne]; [|by rewrite instOf_setPHI_ne].
  by rewrite instOf_setPHI, isPHI_alter.
Qed.

(** ** The instance satisfies the documented behaviour *)

Lemma createInst_valid i before b s :
  ListValid s -> before ∈ blockInsts s b -> ListValid (createInst i before s).2.
Proof.
  intros HV Hb. pose proof (createInst_fresh i before s) as Hf.
  assert (forall c, (createInst i before s).1 ∉ blockInsts s c) as Hn.
  { intros c Hc. by apply Hf, (lv_dom _ HV c). }
  split.
  - intros c j. rewrite createInst_insts. intros Hj. simpl. rewrite dom_insert_L.
    apply insertBefore_elem in Hj as [Hj|[-> _]]; [|set_solver].
    apply (lv_dom _ HV) in Hj. set_solver.
  - intros c. rewrite createInst_insts. by apply insertBefore_nodup, (lv_nodup _ HV).
  - intros c c' j. rewrite !createInst_insts. intros H1 H2.
    apply insertBefore_elem in H1 as [H1|[-> H1]]; apply insertBefore_elem in H2 as [H2|[? H2]];
      subst; try by eapply (lv_parent _ HV). all: by exfalso; eapply Hn.
  - intros c t. rewrite createInst_insts, insertBefore_last. intros Hl.
    rewrite instOf_create; [by apply (lv_last _ HV c)|].
    intros ->. apply (Hn c). by apply last_Some_elem_of.
Qed.

Lemma setPHI_valid f i s : ListValid s -> ListValid (setPHI f i s).
Proof.
  intros HV. split.
  - intros b j Hj. simpl. rewrite dom_alter_L. by apply (lv_dom _ HV b).
  - apply (lv_nodup _ HV).
  - apply (lv_parent _ HV).
  - intros b t Hl. rewrite isPHI_setPHI. by apply (lv_last _ HV b).
Qed.

Lemma parentOf_spec s b i : ListValid s -> i ∈ blockInsts s b -> parentOf s i = b.
Proof.
  intros HV Hi. unfold parentOf.
  assert (exists l, blocks s !! b = Some l /\ i ∈ l) as (l & Hl & Hil).
  { unfold blockInsts in Hi. destruct (blocks s !! b) as [l|]; [by exists l|by apply not_elem_of_nil in Hi]. }
  assert ((b, l) ∈ filter (fun p : BlockId * list InstId => i ∈ p.2) (map_to_list (blocks s))) as Hin.
  { apply list_elem_of_filter. split; [done|]. by apply elem_of_map_to_list. }
  destruct (filter _ _) as [|[c lc] rest] eqn:E; [by apply not_elem_of_nil in Hin|]. simpl.
  assert ((c, lc) ∈ filter (fun p : BlockId * list InstId => i ∈ p.2) (map_to_list (blocks s))) as Hc
    by (rewrite E; by left).
  apply list_elem_of_filter in Hc as [Hc Hlc]. apply elem_of_map_to_list in Hlc.
  apply (lv_parent _ HV c b i); unfold blockInsts; by rewrite ?Hlc, ?Hl.
Qed.

(** Splitting, with its new block and branch named. *)
Lemma splitEdge_spec b n s s' : splitEdge b n s = Some s' ->
  exists old new t, succsOf s b !! n = Some old /\ new ∉ dom (blocks s) /\ new ∉ dom (succs s) /\
    (forall c, new ∉ succsOf s c) /\ t ∉ dom (instrs s) /\
    blocks s' = <[new := [t]]> (blocks s) /\
    succs s' = <[new := [old]]> (<[b := <[n := new]> (succsOf s b)]> (succs s)) /\
    dom (instrs s') = dom (instrs s) ∪ {[t]} /\ instOf s' t = OriginalOther /\
    forall i, i <> t -> instOf s' i =
      if decide (i ∈ blockInsts s old) then alterPHI (renameBlock b new) (instOf s i) else instOf s i.
Proof.
  unfold splitEdge. destruct (succsOf s b !! n) as [old|] eqn:Eo; [|done]. simpl.
  case_decide; [done|]. intros [= <-].
  pose proof (is_fresh (dom (blocks s) ∪ dom (succs s) ∪
                        list_to_set (concat (map_to_list (succs s)).*2))) as Hb.
  pose proof (is_fresh (dom (instrs s))) as Ht.
  set (new := fresh (_ ∪ list_to_set _)) in *. set (t := fresh (dom (instrs s))) in *.
  apply not_elem_of_union in Hb as [[Hb1 Hb2]%not_elem_of_union Hb].
  exists old, new, t. split_and!; try done.
  - intros c Hc. apply Hb, elem_of_list_to_set. unfold succsOf in Hc.
    destruct (succs s !! c) as [l|] eqn:E; [|by apply not_elem_of_nil in Hc].
    apply list_elem_of_In, in_concat. exists l. split; [|by apply list_elem_of_In].
    apply list_elem_of_In, list_elem_of_fmap. exists (c, l). split; [done|by apply elem_of_map_to_list].
  - simpl. rewrite dom_insert_L. rewrite (dom_imap_L _ _ (dom (instrs s))); [set_solver|].
    intros i. rewrite elem_of_dom. unfold is_Some. naive_solver.
  - unfold instOf. simpl. by rewrite lookup_insert_eq.
  - intros i Hi. unfold instOf. simpl. rewrite lookup_insert_ne, map_lookup_imap by done.
    destruct (instrs s !! i); simpl; [done|]. by case_decide.
Qed.

Lemma splitEdge_insts s s' (new : BlockId) (t : InstId) c :
  blocks s' = <[new := [t]]> (blocks s) ->
  blockInsts s' c = if decide (c = new) then [t] else blockInsts s c.
Proof.
  intros E. unfold blockInsts. rewrite E. case_decide; subst.
  - by rewrite lookup_insert_eq.
  - by rewrite lookup_insert_ne.
Qed.

Lemma splitEdge_isPHI s s' (b new : BlockId) (l : list InstId) i :
  instOf s' i = (if decide (i ∈ l) then alterPHI (renameBlock b new) (instOf s i) else instOf s i) ->
  isPHI (instOf s' i) = isPHI (instOf s i).
Proof. intros ->. case_decide; [apply isPHI_alter|done]. Qed.

Lemma splitEdge_valid b n s s' : ListValid s -> splitEdge b n s = Some s' -> ListValid s'.
Proof.
  intros HV Hs. destruct (splitEdge_spec b n s s' Hs)
    as (old & new & t & Ho & Hnb & Hns & _ & Ht & Eb & _ & Ed & Et & Ei).
  assert (forall c, t ∉ blockInsts s c) as Hn by (intros c Hc; by apply Ht, (lv_dom _ HV c)).
  split.
  - intros c i. rewrite (splitEdge_insts _ _ _ _ c Eb), Ed. case_decide; [set_solver|].
    intros Hi. apply (lv_dom _ HV) in Hi. set_solver.
  - intros c. rewrite (splitEdge_insts _ _ _ _ c Eb). case_decide; [apply NoDup_singleton|apply (lv_nodup _ HV)].
  - intros c c' i. rewrite (splitEdge_insts _ _ _ _ c Eb), (splitEdge_insts _ _ _ _ c' Eb).
    repeat case_decide; subst; try done; rewrite ?list_elem_of_singleton.
    + intros ->. intros Hc. by apply Hn in Hc.
    + intros Hc ->. by apply Hn in Hc.
    + apply (lv_parent _ HV).
  - intros c i. rewrite (splitEdge_insts _ _ _ _ c Eb). case_decide.
    + intros [= <-]. by rewrite Et.
    + intros Hl. assert (i ∈ blockInsts s c) as Hi by (by apply last_Some_elem_of).
      rewrite (splitEdge_isPHI s s' b new (blockInsts s old) i); [by apply (lv_last _ HV c)|].
      apply Ei. by intros ->; apply (Hn c).
Qed.

Lemma splitEdge_edge b n s s' : ListValid s -> splitEdge b n s = Some s' ->
  exists old new t, succsOf s b !! n = Some old /\
    succsOf s' b = <[n := new]> (succsOf s b) /\ succsOf s' new = [old] /\
    blockInsts s new = [] /\ blockInsts s' new = [t] /\ last (blockInsts s' new) = Some t /\
    (forall c, t ∉ blockInsts s c) /\ instOf s' t = OriginalOther /\
    (forall c, c <> new -> blockInsts s' c = blockInsts s c) /\
    (forall c i, i ∈ blockInsts s c -> isPHI (instOf s i) = false -> instOf s' i = instOf s i) /\
    (forall c i, i ∈ blockInsts s c -> isPHI (instOf s' i) = isPHI (instOf s i)).
Proof.
  intros HV Hs. destruct (splitEdge_spec b n s s' Hs)
    as (old & new & t & Ho & Hnb & Hns & _ & Ht & Eb & Es & Ed & Et & Ei).
  assert (forall c, t ∉ blockInsts s c) as Hn by (intros c Hc; by apply Ht, (lv_dom _ HV c)).
  assert (forall c i, i ∈ blockInsts s c -> i <> t) as Hne by (intros c i Hi ->; by apply (Hn c)).
  assert (blockInsts s' new = [t]) as Enew by (rewrite (splitEdge_insts _ _ _ _ new Eb); by case_decide).
  assert (b ∈ dom (succs s)) as Hb.
  { apply elem_of_dom. unfold succsOf in Ho. destruct (succs s !! b); [by eexists|done]. }
  exists old, new, t. split_and!; try done.
  - unfold succsOf at 1. rewrite Es, lookup_insert_ne by set_solver. by rewrite lookup_insert_eq.
  - unfold succsOf. by rewrite Es, lookup_insert_eq.
  - unfold blockInsts. by rewrite (not_elem_of_dom_1 _ _ Hnb).
  - by rewrite Enew.
  - intros c Hc. rewrite (splitEdge_insts _ _ _ _ c Eb). by case_decide.
  - intros c i Hi HP. rewrite Ei by eauto. case_decide; [|done]. by destruct (instOf s i).
  - intros c i Hi. eapply splitEdge_isPHI, Ei. by eapply Hne.
Qed.

Lemma head_filter_split {A} (P : A -> Prop) `{!forall x, Decision (P x)} l p :
  head (filter P l) = Some p -> exists l1 l2, l = l1 ++ p :: l2 /\ P p /\ Forall (fun x => ~ P x) l1.
Proof.
  induction l as [|x l IH]; [done|]. rewrite filter_cons. case_decide as Hx.
  - intros [= <-]. by exists [], l.
  - intros Hh. destruct (IH Hh) as (l1 & l2 & -> & Hp & Hl). exists (x :: l1), l2. by repeat constructor.
Qed.

Lemma removeBlock_here b l1 v l2 : b ∉ l1.*2 -> removeBlock b (l1 ++ (v, b) :: l2) = l1 ++ l2.
Proof.
  induction l1 as [|[w c] l1 IH]; intros H; simpl in *; [by rewrite decide_True|].
  rewrite decide_False by set_solver. rewrite IH by set_solver. done.
Qed.

#[export] Instance ListLLVM_spec : LLVMSpec ListLLVM.
Proof.
  refine {| valid := ListValid : @Fn ListLLVM -> Prop |};
    cbv beta iota delta [Fn insts inst getParent getFirstInsertionPt getTerminator successors
      Create addIncoming removeIncomingValue SplitCriticalEdge ListLLVM].
  - apply createInst_valid.
  - intros i before s HV. unfold instOf, createInst. simpl. by rewrite lookup_insert_eq.
  - intros i before s j HV. apply instOf_create.
  - intros i before s b HV Hb. by eapply createInst_fresh, (lv_dom _ HV).
  - intros i before s b l1 l2 HV E. rewrite createInst_insts, E. apply insertBefore_here.
    pose proof (lv_nodup _ HV b) as Hd. rewrite E in Hd. apply NoDup_app in Hd as (_ & H & _).
    intros Hin. by apply (H before Hin), list_elem_of_here.
  - intros i before s b HV Hb. rewrite createInst_insts. by apply insertBefore_absent.
  - intros i before s b. rewrite createInst_insts. apply insertBefore_last.
  - done.
  - intros s b HV. apply (lv_nodup _ HV).
  - intros s b i HV. by apply parentOf_spec.
  - intros s b p HV (l1 & l2 & E & Hp & Hl)%head_filter_split. exists l1, l2. split_and!; [done|done|].
    eapply Forall_impl; [exact Hl|]. intros i Hi. by apply not_false_iff_true.
  - intros s b t HV Hl. split; [by apply (lv_last _ HV b)|]. apply last_Some in Hl as [l ->]. by exists l.
  - intros v b i s. apply setPHI_valid.
  - intros v b i s l E. by rewrite instOf_setPHI, E.
  - intros v b i s j. apply instOf_setPHI_ne.
  - done.
  - done.
  - intros v b i s. apply isPHI_setPHI.
  - intros b i s. apply setPHI_valid.
  - intros b i s l1 v l2 E Hn. rewrite instOf_setPHI, E. simpl. by rewrite removeBlock_here.
  - intros b i s j. apply instOf_setPHI_ne.
  - intros b i s. apply isPHI_setPHI.
  - done.
  - done.
  - apply splitEdge_valid.
  - apply splitEdge_edge.
Defined.

(** ** Its control-flow graph *)

Lemma count_occ_replicate (b c : BlockId) n :
  count_occ Nat.eq_dec (replicate n b) c = if decide (b = c) then n else 0%nat.
Proof.
  induction n as [|n IH]; simpl; [by case_decide|]. rewrite IH.
  by destruct (Nat.eq_dec b c), (decide (b = c)).
Qed.

Lemma count_occ_filter (b : BlockId) (l : list BlockId) :
  length (filter (fun c => c = b) l) = count_occ Nat.eq_dec l b.
Proof.
  induction l as [|c l IH]; [done|]. simpl. rewrite filter_cons.
  destruct (decide (c = b)), (Nat.eq_dec c b); simpl; congruence.
Qed.

Lemma count_occ_none (l : list BlockId) b : b ∉ l -> count_occ Nat.eq_dec l b = 0%nat.
Proof. intros H. apply count_occ_not_In. by rewrite <- list_elem_of_In. Qed.

Lemma preds_count (L : list (BlockId * list BlockId)) b c : NoDup L.*1 ->
  count_occ Nat.eq_dec (p ← L; replicate (length (filter (fun c => c = b) p.2)) p.1) c =
  match list_find (fun p => p.1 = c) L with
  | Some (_, (_, l)) => count_occ Nat.eq_dec l b
  | None => 0%nat
  end.
Proof.
  induction L as [|[d l] L IH]; intros Hd; [done|].
  apply NoDup_cons in Hd as [Hn Hd]. rewrite bind_cons, count_occ_app. setoid_rewrite (IH Hd).
  simpl. rewrite count_occ_replicate, count_occ_filter. case_decide as E.
  - simpl in E. subst d. rewrite decide_True by done.
    destruct (list_find (fun p : nat * list BlockId => p.1 = c) L) as [[k [x lx]]|] eqn:F; [|lia].
    apply list_find_Some in F as (Hk & Hx & _). simpl in Hx. subst. exfalso. apply Hn.
    apply list_elem_of_fmap. exists (c, lx). split; [done|by apply list_elem_of_lookup_2 with k].
  - rewrite decide_False by done. destruct (list_find (fun p : nat * list BlockId => p.1 = c) L) as [[k [x lx]]|]; simpl; lia.
Qed.

Lemma predsOf_count s b c :
  count_occ Nat.eq_dec (predsOf s b) c = count_occ Nat.eq_dec (succsOf s c) b.
Proof.
  unfold predsOf, succsOf. etransitivity; [apply preds_count, NoDup_fst_map_to_list|].
  destruct (list_find (fun p : nat * list BlockId => p.1 = c) _) as [[k [x l]]|] eqn:F.
  - apply list_find_Some in F as (Hk & Hx & _). simpl in Hx. subst.
    apply list_elem_of_lookup_2, elem_of_map_to_list in Hk.
    exact (f_equal (fun o => count_occ Nat.eq_dec (default [] o) b) (eq_sym Hk)).
  - change (0%nat = count_occ Nat.eq_dec (default [] (succs s !! c)) b).
    destruct (succs s !! c) as [l|] eqn:E; [|done]. simpl. exfalso.
    apply elem_of_map_to_list in E. apply list_find_None in F.
    rewrite Forall_forall in F. by apply (F _ E).
Qed.

(** The new block of a split is the new target of the edge. *)
Lemma splitEdge_new b n s s' new : splitEdge b n s = Some s' -> succsOf s' b !! n = Some new ->
  exists old t, succsOf s b !! n = Some old /\ b <> new /\ succsOf s new = [] /\
    (forall c, new ∉ succsOf s c) /\ t ∉ dom (instrs s) /\
    succs s' = <[new := [old]]> (<[b := <[n := new]> (succsOf s b)]> (succs s)) /\
    forall i, i <> t -> instOf s' i =
      if decide (i ∈ blockInsts s old) then alterPHI (renameBlock b new) (instOf s i) else instOf s i.
Proof.
  intros Hs Hn. destruct (splitEdge_spec b n s s' Hs)
    as (old & new' & t & Ho & Hnb & Hns & Hc & Ht & Eb & Es & Ed & Et & Ei).
  assert (b ∈ dom (succs s)) as Hb.
  { apply elem_of_dom. unfold succsOf in Ho. destruct (succs s !! b); [by eexists|done]. }
  assert (b <> new') as Hne by set_solver.
  assert (new = new') as <-.
  { unfold succsOf at 1 in Hn. rewrite Es, lookup_insert_ne, lookup_insert_eq in Hn by done.
    simpl in Hn. rewrite list_lookup_insert_eq in Hn by (by apply lookup_lt_Some in Ho). congruence. }
  exists old, t. split_and!; try done. unfold succsOf. by rewrite (not_elem_of_dom_1 _ _ Hns).
Qed.

#[export] Instance ListLLVM_flow : LLVMFlow ListLLVM.
Proof.
  split; cbv beta iota delta [Fn insts inst predecessors successors addIncoming removeIncomingValue
      SplitCriticalEdge getTerminator getFirstInsertionPt ListLLVM].
  - intros s b _ H. destruct (last _) eqn:E; [done|]. by apply last_None in E.
  - intros s b i _ Hi HP. destruct (head _) as [x|] eqn:E; [done|]. apply head_None in E.
    assert (i ∈ filter (fun i => isPHI (instOf s i) = false) (blockInsts s b)) as H
      by (by apply list_elem_of_filter).
    rewrite E in H. by apply not_elem_of_nil in H.
  - done.
  - done.
  - intros s b c _. apply predsOf_count.
  - intros b n s s' new _ Hs Hn.
    destruct (splitEdge_new b n s s' new Hs Hn) as (old & t & Ho & Hne & Hsn & Hc & _ & Es & _).
    split_and!; [done|done|done|]. intros c Hcb Hcn. unfold succsOf. rewrite Es.
    by rewrite !lookup_insert_ne by done.
  - intros b n s s' new old c i l HV Hs Hn Ho Hi El.
    destruct (splitEdge_new b n s s' new Hs Hn) as (old' & t & Ho' & Hne & _ & Hc & Ht & _ & Ei).
    simplify_eq. rewrite Ei by (intros ->; by apply Ht, (lv_dom _ HV c)). rewrite El.
    case_decide as H1; case_decide as H2; try done.
    + exfalso. by apply H2, (lv_parent _ HV _ _ i).
    + by subst.
  - intros b n s s' c i HV Hs Hi Eo. destruct (splitEdge_spec b n s s' Hs)
      as (old & new & t & Ho & _ & _ & _ & Ht & _ & _ & _ & _ & Ei).
    rewrite Ei by (intros ->; by apply Ht, (lv_dom _ HV c)). rewrite Eo. by case_decide.
Qed.

(** ** The DAG's base class *)

Definition eraseEdge (e : EdgeId) (l : list EdgeId) : list EdgeId :=
  match list_find (fun x => x = e) l with
  | Some (k, _) => delete k l
  | None => l
  end.

Definition dagAddNode (bb : option BlockId) (d : BLInstrumentationDag) : NodeId * BLInstrumentationDag :=
  let n := fresh (dom (nodeStore d) ∪ list_to_set (_nodes d)) in
  (n, MkDag (<[n := createNode bb]> (nodeStore d)) (edgeStore d) (_nodes d ++ [n]) (_edges d)
            (getRoot d) (getExit d) (getNumberOfPaths d) (_treeEdges d) (_chordEdges d) (_counterArray d)).

Definition dagAddEdge (s t : NodeId) (k : Z) (d : BLInstrumentationDag) : EdgeId * BLInstrumentationDag :=
  let e := fresh (dom (edgeStore d) ∪ list_to_set (_edges d)) in
  (e, updNode t (fun n => setPredEdges (predEdges n ++ [e]) n)
        (updNode s (fun n => setSuccEdges (succEdges n ++ [e]) n)
          (MkDag (nodeStore d) (<[e := createEdge s t k]> (edgeStore d)) (_nodes d) (_edges d ++ [e])
                 (getRoot d) (getExit d) (getNumberOfPaths d) (_treeEdges d) (_chordEdges d)
                 (_counterArray d)))).

#[export] Instance ListBallLarus : BallLarusOps := {|
  addNode := dagAddNode;
  addEdge := dagAddEdge;
  insertEdge e l := l ++ [e];
  removeEdge := eraseEdge
|}.

#[export] Instance ListBallLarus_spec : BallLarusOpsSpec ListBallLarus.
Proof.
  split; simpl.
  - intros bb d. pose proof (is_fresh (dom (nodeStore d) ∪ list_to_set (_nodes d))) as H.
    apply not_elem_of_union in H as [H1 H2]. split; [by apply not_elem_of_dom|].
    by rewrite elem_of_list_to_set in H2.
  - done.
  - intros s t k d. pose proof (is_fresh (dom (edgeStore d) ∪ list_to_set (_edges d))) as H.
    apply not_elem_of_union in H as [H1 H2]. split; [by apply not_elem_of_dom|].
    by rewrite elem_of_list_to_set in H2.
  - done.
  - intros e l. by rewrite Permutation_app_comm.
  - intros e l He. unfold eraseEdge. destruct (list_find_elem_of (fun x => x = e) l e) as [[k x] E]; [done|done|].
    rewrite E. apply list_find_Some in E as (Hk & -> & _). by apply delete_Permutation.
  - intros e l He. unfold eraseEdge. destruct (list_find _ l) as [[k x]|] eqn:E; [|done].
    apply list_find_Some in E as (Hk & -> & _). exfalso. by apply He, list_elem_of_lookup_2 with k.
Qed.
