(* ===== verification/Instrument.v ===== *)
(** * Inserting the instrumentation

    The part of [PathProfiler] (src/PathLogging.cpp) that turns the marks of
    the DAG into code: path-number additions, PHI nodes and calls to the
    runtime, with critical edges split on the way.  Every method is translated
    whole, over the state [PassState]: the DAG, the function and the warnings
    printed.  Debug output ([DEBUG(...)]) is not modelled.  LLVM and the DAG's
    base class are the parameters [L] and [B]. *)

From stdpp Require Import base numbers list gmap.
From S2P Require Import Prelude Dag BallLarus IR.

Local Open Scope Z_scope.

(** Messages on the error stream. *)
Inductive Warning : Set :=
  | CantInstrument            (* WARNING: can't instrument <function> *)
  | CouldNotSplit.            (* Instrumenting could not split a critical edge. *)

Definition HASH_THRESHHOLD : Z := 0.

(** [ConstantInt::get] of the 32-bit integer type truncates; the [bitsize]
    argument is not used. *)
Definition createIncrementConstant (incr bitsize : Z) : Value := ConstantInt (i32 incr).

Definition createEdgeIncrementConstant (e : BLInstrumentationEdge) : Value :=
  createIncrementConstant (getIncrement e) 32.

(** The position of the first element equal to [target], or the length. *)
Fixpoint indexOf (target : BlockId) (l : list BlockId) : nat :=
  match l with
  | [] => 0%nat
  | b :: l => if decide (b = target) then 0%nat else S (indexOf target l)
  end.

(** The iterator after [i], or the end when [i] is not in the list. *)
Fixpoint iteratorAfter (i : InstId) (l : list InstId) : option InstId :=
  match l with
  | [] => None
  | j :: l => if decide (j = i) then head l else iteratorAfter i l
  end.

(** Using an iterator as the instruction it points to. *)
Definition iter (p : option InstId) : result InstId :=
  match p with Some i => Ok i | None => Err PastTheEnd end.

Section Pass.
Context `{L : LLVM} `{B : BallLarusOps}.

Record PassState : Type := MkPass {
  dag : BLInstrumentationDag;
  fn : Fn;
  warnings : list Warning
}.

Definition setDag (d : BLInstrumentationDag) (st : PassState) : PassState :=
  MkPass d (fn st) (warnings st).

Definition setFn (s : Fn) (st : PassState) : PassState := MkPass (dag st) s (warnings st).

Definition warn (w : Warning) (st : PassState) : PassState :=
  MkPass (dag st) (fn st) (warnings st ++ [w]).

Definition onNode (n : NodeId) (f : BLInstrumentationNode -> BLInstrumentationNode) (st : PassState)
    : PassState :=
  setDag (updNode n f (dag st)) st.

(** Creating an instruction at an iterator. *)
Definition createAt (i : Inst) (insertPoint : option InstId) (st : PassState)
    : result (InstId * PassState) :=
  before ← iter insertPoint;
  Ok ((Create i before (fn st)).1, setFn (Create i before (fn st)).2 st).

(** [BinaryOperator::Create(Instruction::Add, lhs, rhs, ...)]: a [NULL]
    operand is an error. *)
Definition createAdd (lhs : option Value) (rhs : Value) (insertPoint : option InstId) (st : PassState)
    : result (InstId * PassState) :=
  l ← deref lhs; createAt (AddInst l rhs) insertPoint st.

(** ** [BLInstrumentationEdge] and [BLInstrumentationDag] *)

Definition getSuccessorNumber (edge : EdgeId) (st : PassState) : nat :=
  match getBlock (nd (dag st) (getSource (ed (dag st) edge))),
        getBlock (nd (dag st) (getTarget (ed (dag st) edge))) with
  | Some source, Some target => indexOf target (successors (fn st) source)
  | _, _ => 0%nat
  end.

(** Removes the edge from the successor list of its source and the
    predecessor list of its target. *)
Definition unlinkEdge (edge : EdgeId) (d : BLInstrumentationDag) : BLInstrumentationDag :=
  let d := updNode (getSource (ed d edge))
             (fun n => setSuccEdges (removeEdge edge (succEdges n)) n) d in
  updNode (getTarget (ed d edge)) (fun n => setPredEdges (removeEdge edge (predEdges n)) n) d.

(** The body of the loop over all edges. *)
Definition unlinkIfPhony (d : BLInstrumentationDag) (edge : EdgeId) : BLInstrumentationDag :=
  if decide (getType (ed d edge) = BACKEDGE_PHONY \/ getType (ed d edge) = SPLITEDGE_PHONY \/
             getType (ed d edge) = CALLEDGE_PHONY)
  then unlinkEdge edge d else d.

Definition unlinkPhony (d : BLInstrumentationDag) : BLInstrumentationDag :=
  foldl unlinkIfPhony d (_edges d).

(** Updates the state when an edge has been split. *)
Definition splitUpdate (formerEdge : EdgeId) (newBlock : BlockId) (d : BLInstrumentationDag)
    : BLInstrumentationDag :=
  let oldTarget := getTarget (ed d formerEdge) in
  let newNode := (addNode (Some newBlock) d).1 in
  let d := (addNode (Some newBlock) d).2 in
  let d := updEdge formerEdge (setTarget newNode) d in
  let d := updNode newNode (fun n => setPredEdges (insertEdge formerEdge (predEdges n)) n) d in
  let d := updNode oldTarget (fun n => setPredEdges (removeEdge formerEdge (predEdges n)) n) d in
  let newEdge := (addEdge newNode oldTarget 0 d).1 in
  let d := (addEdge newNode oldTarget 0 d).2 in
  if decide (getType (ed d formerEdge) = BACKEDGE \/ getType (ed d formerEdge) = SPLITEDGE)
  then
    let d := updEdge newEdge (setType (getType (ed d formerEdge))) d in
    let d := updEdge newEdge (setPhonyRoot (getPhonyRoot (ed d formerEdge))) d in
    let d := updEdge newEdge (setPhonyExit (getPhonyExit (ed d formerEdge))) d in
    let d := updEdge formerEdge (setType NORMAL) d in
    let d := updEdge formerEdge (setPhonyRoot None) d in
    updEdge formerEdge (setPhonyExit None) d
  else d.

(** ** [PathProfiler] *)

(** Finds the insertion point after [pathNumber] in [block]. *)
Definition getInsertionPoint (block : BlockId) (pathNumber : option Value) (st : PassState)
    : option InstId :=
  match pathNumber with
  | None | Some (ConstantInt _) => getFirstInsertionPt (fn st) block
  | Some (Instruction i) =>
      if decide (getParent (fn st) i <> block) then getFirstInsertionPt (fn st) block
      else iteratorAfter i (insts (fn st) block)
  end.

(** A PHI node is created in the node, its values initialised to -1. *)
Definition preparePHI (node : NodeId) (st : PassState) : result PassState :=
  block ← deref (getBlock (nd (dag st) node));
  let preds := predecessors (fn st) block in
  '(phi, st) ← createAt (PHINode []) (getFirstInsertionPt (fn st) block) st;
  let st := onNode node (setPathPHI (Some phi)) st in
  let st := onNode node (setStartingPathNumber (Some (Instruction phi))) st in
  let st := onNode node (setEndingPathNumber (Some (Instruction phi))) st in
  Ok (foldl (fun st pred => setFn (addIncoming (createIncrementConstant (-1) 32) pred phi (fn st)) st)
            st preds).

(** Inserts source's path number into the appropriate slot of target's PHI. *)
Definition pushValueIntoPHI (target source : NodeId) (st : PassState) : result PassState :=
  match getPathPHI (nd (dag st) target) with
  | None => Err AssertFailed
  | Some phi =>
      block ← deref (getBlock (nd (dag st) source));
      let st := setFn (removeIncomingValue block phi (fn st)) st in
      v ← deref (getEndingPathNumber (nd (dag st) source));
      Ok (setFn (addIncoming v block phi (fn st)) st)
  end.

Definition pushValueIntoNode (source target : NodeId) (st : PassState) : result PassState :=
  match getBlock (nd (dag st) target) with
  | None => Ok st
  | Some _ =>
      if decide (getNumberPredEdges (nd (dag st) target) <= 1)%nat then
        _ ← assert (bool_decide (getStartingPathNumber (nd (dag st) target) = None));
        let pn := getEndingPathNumber (nd (dag st) source) in
        let st := onNode target (setStartingPathNumber pn) st in
        let pn := getEndingPathNumber (nd (dag st) source) in
        Ok (onNode target (setEndingPathNumber pn) st)
      else
        st ← (if decide (getPathPHI (nd (dag st) target) = None) then preparePHI target st else Ok st);
        pushValueIntoPHI target source st
  end.

(** The path number of a node is updated by an addition. *)
Definition insertNumberIncrement (node : NodeId) (addition : Value) (atBeginning : bool)
    (st : PassState) : result PassState :=
  block ← deref (getBlock (nd (dag st) node));
  _ ← assert (bool_decide (getStartingPathNumber (nd (dag st) node) <> None));
  _ ← assert (bool_decide (getEndingPathNumber (nd (dag st) node) <> None));
  let insertPoint := if atBeginning then getFirstInsertionPt (fn st) block
                     else getTerminator (fn st) block in
  '(newpn, st) ← createAdd (getStartingPathNumber (nd (dag st) node)) addition insertPoint st;
  let st := onNode node (setEndingPathNumber (Some (Instruction newpn))) st in
  Ok (if atBeginning then onNode node (setStartingPathNumber (Some (Instruction newpn))) st else st).

(** A call to the runtime; counters in an array are not supported: the code
    asserts that it is never asked for one. *)
Definition insertCounterIncrement (incValue : option Value) (insertPoint : option InstId)
    (increment : bool) (st : PassState) : result PassState :=
  if decide (getNumberOfPaths (dag st) <= HASH_THRESHHOLD) then Err AssertFailed
  else
    v ← deref incValue;
    '(_, st) ← createAt (PathCall increment v) insertPoint st;
    Ok st.

(** Splits a critical edge; [false] when its terminator cannot be split. *)
Definition splitCritical (edge : EdgeId) (st : PassState) : bool * PassState :=
  let succNum := getSuccessorNumber edge st in
  let sourceNode := getSource (ed (dag st) edge) in
  let targetNode := getTarget (ed (dag st) edge) in
  match getBlock (nd (dag st) sourceNode), getBlock (nd (dag st) targetNode) with
  | Some sourceBlock, Some _ =>
      if decide (getNumberSuccEdges (nd (dag st) sourceNode) <= 1)%nat then (true, st)
      else if decide (getNumberPredEdges (nd (dag st) targetNode) = 1)%nat then (true, st)
      else if isIndirectBr (fn st) sourceBlock then (false, st)
      else
        match SplitCriticalEdge sourceBlock succNum (fn st) with
        | None => (true, st)
        | Some s =>
            let st := setFn s st in
            match successors s sourceBlock !! succNum with
            | Some newBlock => (true, setDag (splitUpdate edge newBlock (dag st)) st)
            | None => (true, st)
            end
        end
  | _, _ => (true, st)
  end.

(** A split edge that has yet to be initialised starts from zero. *)
Definition startFromZero (instrumentNode : NodeId) (st : PassState) : PassState :=
  match getEndingPathNumber (nd (dag st) instrumentNode) with
  | Some _ => st
  | None =>
      let st := onNode instrumentNode (setStartingPathNumber (Some (createIncrementConstant 0 32))) st in
      onNode instrumentNode (setEndingPathNumber (Some (createIncrementConstant 0 32))) st
  end.

(** The next path starts with the increment of the top phony edge. *)
Definition restartWith (top : EdgeId) (instrumentNode : NodeId) (atBeginning : bool) (st : PassState)
    : PassState :=
  let pn := createEdgeIncrementConstant (ed (dag st) top) in
  let st := if atBeginning then onNode instrumentNode (setStartingPathNumber (Some pn)) st else st in
  onNode instrumentNode (setEndingPathNumber (Some pn)) st.

(** The code of a back edge or a split edge, placed in [instrumentNode]. *)
Definition instrumentCutEdge (edge : EdgeId) (instrumentNode : NodeId) (atBeginning : bool)
    (st : PassState) : result PassState :=
  top ← deref (getPhonyRoot (ed (dag st) edge));
  bottom ← deref (getPhonyExit (ed (dag st) edge));
  _ ← assert (isInitialization (ed (dag st) top));
  _ ← assert (isCounterIncrement (ed (dag st) bottom));
  let st := startFromZero instrumentNode st in
  block ← deref (getBlock (nd (dag st) instrumentNode));
  let insertPoint := if atBeginning then getFirstInsertionPt (fn st) block
                     else getTerminator (fn st) block in
  st ← (if decide (getIncrement (ed (dag st) bottom) = 0) then Ok st
        else
          '(newpn, st) ← createAdd (getStartingPathNumber (nd (dag st) instrumentNode))
                           (createEdgeIncrementConstant (ed (dag st) bottom)) insertPoint st;
          Ok (onNode instrumentNode (setEndingPathNumber (Some (Instruction newpn))) st));
  st ← insertCounterIncrement (getEndingPathNumber (nd (dag st) instrumentNode)) insertPoint true st;
  let st := restartWith top instrumentNode atBeginning st in
  if isCounterIncrement (ed (dag st) top) then
    st ← insertCounterIncrement (getEndingPathNumber (nd (dag st) instrumentNode))
           (getTerminator (fn st) block) true st;
    Ok (onNode instrumentNode (setEndingPathNumber None) st)
  else Ok st.

(** The code of any other edge. *)
Definition instrumentNormalEdge (edge : EdgeId) (instrumentNode : NodeId) (atBeginning : bool)
    (st : PassState) : result PassState :=
  block ← deref (getBlock (nd (dag st) instrumentNode));
  let insertPoint := if atBeginning then getFirstInsertionPt (fn st) block
                     else getTerminator (fn st) block in
  let e := ed (dag st) edge in
  st ← (if isInitialization e then
          Ok (onNode instrumentNode (setEndingPathNumber (Some (createEdgeIncrementConstant e))) st)
        else if decide (getIncrement e = 0) then Ok st
        else
          '(newpn, st) ← createAdd (getStartingPathNumber (nd (dag st) instrumentNode))
                           (createEdgeIncrementConstant e) insertPoint st;
          let st := onNode instrumentNode (setEndingPathNumber (Some (Instruction newpn))) st in
          Ok (if atBeginning
              then onNode instrumentNode (setStartingPathNumber (Some (Instruction newpn))) st
              else st));
  if isCounterIncrement e then
    st ← insertCounterIncrement (getEndingPathNumber (nd (dag st) instrumentNode)) insertPoint true st;
    Ok (onNode instrumentNode (setEndingPathNumber None) st)
  else Ok st.

(** The code of one edge in the node chosen for it, and its value passed on:
    [nextSourceNode] is [None] when the code went into the target. *)
Definition instrumentEdge (edge : EdgeId) (instrumentNode : NodeId) (nextSourceNode : option NodeId)
    (atBeginning : bool) (st : PassState) : result PassState :=
  st ← (if cut_type (getType (ed (dag st) edge))
        then instrumentCutEdge edge instrumentNode atBeginning st
        else instrumentNormalEdge edge instrumentNode atBeginning st);
  match nextSourceNode, getEndingPathNumber (nd (dag st) instrumentNode) with
  | Some next, Some _ => pushValueIntoNode instrumentNode next st
  | _, _ => Ok st
  end.

(** The edge's code is placed at the end of a source with one successor, or
    at the beginning of a target with one predecessor.  [false]: no such
    place, the rest of the traversal is given up. *)
Definition placeEdge (edge : EdgeId) (st : PassState) : result (bool * PassState) :=
  let sourceNode := getSource (ed (dag st) edge) in
  let targetNode := getTarget (ed (dag st) edge) in
  if bool_decide (getBlock (nd (dag st) sourceNode) <> None) &&
     bool_decide (getNumberSuccEdges (nd (dag st) sourceNode) <= 1)%nat
  then st ← instrumentEdge edge sourceNode (Some targetNode) false st; Ok (true, st)
  else if decide (getNumberPredEdges (nd (dag st) targetNode) = 1)%nat then
    st ← pushValueIntoNode sourceNode targetNode st;
    st ← instrumentEdge edge targetNode None true st; Ok (true, st)
  else Ok (false, warn CouldNotSplit st).

(** Inserts instrumentation for the given edge, then for the successors of
    its target that have none yet. *)
Fixpoint insertInstrumentationStartingAt (fuel : nat) (edge : EdgeId) (st : PassState)
    : result PassState :=
  match fuel with
  | O => Err OutOfFuel
  | S fuel =>
      let st := setDag (updEdge edge (setHasInstrumentation true) (dag st)) st in
      let '(ok, st) := splitCritical edge st in
      if negb ok then Ok (warn CantInstrument st)
      else
        let targetNode := getTarget (ed (dag st) edge) in
        '(placed, st) ← placeEdge edge st;
        if placed : bool then
          foldR (fun st next =>
                   if hasInstrumentation (ed (dag st) next) then Ok st
                   else insertInstrumentationStartingAt fuel next st)
                st (succEdges (nd (dag st) targetNode))
        else Ok st
  end.

(** The first call at or after an insertion point. *)
Fixpoint firstCall (s : Fn) (l : list InstId) : option InstId :=
  match l with
  | [] => None
  | i :: l => if isCall (inst s i) then Some i else firstCall s l
  end.

(** The instructions of a block from an iterator on. *)
Fixpoint fromIterator (i : InstId) (l : list InstId) : list InstId :=
  match l with
  | [] => []
  | j :: l' => if decide (j = i) then l else fromIterator i l'
  end.

(** A node with a function call counts its path before the call and takes
    the count back at its end. *)
Definition instrumentCallEdge (st : PassState) (edge : EdgeId) : result PassState :=
  let node := getSource (ed (dag st) edge) in
  block ← deref (getBlock (nd (dag st) node));
  start ← iter (getFirstInsertionPt (fn st) block);
  let insertPoint := firstCall (fn st) (fromIterator start (insts (fn st) block)) in
  _ ← iter insertPoint;
  let inc := getIncrement (ed (dag st) edge) in
  '(newpn, st) ←
    match getStartingPathNumber (nd (dag st) node) with
    | Some pn =>
        if decide (inc = 0) then Ok (pn, st)
        else
          '(i, st) ← createAdd (Some pn) (createIncrementConstant inc 32) insertPoint st;
          Ok (Instruction i, st)
    | None => Ok (createIncrementConstant inc 32, st)
    end;
  st ← insertCounterIncrement (Some newpn) insertPoint true st;
  insertCounterIncrement (Some newpn) (getTerminator (fn st) block) false st.

(** The traversal starts at the edge from the exit to the root. *)
Definition insertInstrumentation (fuel : nat) (st : PassState) : result PassState :=
  exitRootEdge ← deref (getExitRootEdge (dag st));
  st ← insertInstrumentationStartingAt fuel exitRootEdge st;
  foldR instrumentCallEdge st (getCallPhonyEdges (dag st)).

End Pass.
