(* ===== verification/Execution.v ===== *)
(** * Running instrumented code

    What the inserted instructions do when the function runs: additions wrap
    at 32 bits, a PHI node takes the value of the block control came from, a
    call of [llvm_increment_path_count] reports its argument and a call of
    [llvm_decrement_path_count] does nothing (src/path_logging.c).  Original
    instructions do not touch path numbers. *)

From stdpp Require Import base numbers list gmap.
From S2P Require Import Prelude Dag IR.

Local Open Scope Z_scope.

Definition Env := gmap InstId Z.

Definition evalValue (env : Env) (v : Value) : option Z :=
  match v with
  | ConstantInt c => Some c
  | Instruction i => env !! i
  end.

(** The entry of a PHI node for a predecessor block. *)
Fixpoint incomingFor (from : BlockId) (l : list (Value * BlockId)) : option Value :=
  match l with
  | [] => None
  | (v, b) :: l => if decide (b = from) then Some v else incomingFor from l
  end.

Section Execution.
Context `{L : LLVM}.

(** One instruction: the values computed and the path numbers reported.
    [from] is the block control came from ([None] at the entry). *)
Definition execInst (s : Fn) (from : option BlockId) (st : Env * list Z) (i : InstId)
    : option (Env * list Z) :=
  let '(env, out) := st in
  match inst s i with
  | AddInst l r =>
      a ← evalValue env l; b ← evalValue env r;
      Some (<[i := i32 (a + b)]> env, out)
  | PHINode l =>
      p ← from; v ← incomingFor p l; z ← evalValue env v;
      Some (<[i := z]> env, out)
  | PathCall true v => z ← evalValue env v; Some (env, out ++ [z])
  | PathCall false v => _ ← evalValue env v; Some (env, out)
  | OriginalPHI | OriginalCall | OriginalOther => Some (env, out)
  end.

Definition execBlock (s : Fn) (from : option BlockId) (b : BlockId) (st : Env * list Z)
    : option (Env * list Z) :=
  foldM (execInst s from) st (insts s b).

(** Blocks in the order control visits them. *)
Fixpoint execBlocks (s : Fn) (from : option BlockId) (l : list BlockId) (st : Env * list Z)
    : option (Env * list Z) :=
  match l with
  | [] => Some st
  | b :: l => st ← execBlock s from b st; execBlocks s (Some b) l st
  end.

End Execution.
