(* ===== verification/Emitted.v ===== *)
(** * Running what has been emitted

    The shape of the instrumented function that
    [insertInstrumentationStartingAt] (src/PathLogging.cpp) leaves, block by
    block, and what it does when it runs.  [edgeCode] describes the code of
    one edge; [Emitted] says where it is: at the end of the source's block, or
    at the beginning of the target's.  The simulation says that running the
    blocks of a route reports what the marks say ([walkExec]). *)

From stdpp Require Import base numbers list gmap.
From S2P Require Import Prelude Dag BallLarus Marking IR Instrument Execution.

Local Open Scope Z_scope.

Definition isOriginal (i : Inst) : bool :=
  match i with OriginalPHI | OriginalCall | OriginalOther => true | _ => false end.

(** The path-number value [V] stands for the register [r]. *)
Definition holds (env : Env) (V : option Value) (r : option Z) : Prop :=
  match V, r with
  | None, None => True
  | Some v, Some z => evalValue env v = Some z
  | _, _ => False
  end.

Section Emitted.
Context `{L : LLVM} `{B : BallLarusOps}.

(** The instructions of a block that the pass created. *)
Definition code (s : Fn) (b : BlockId) : list InstId :=
  filter (fun i => isOriginal (inst s i) = false) (insts s b).

(** ** The code of an edge *)

(** An addition, if there is anything to add. *)
Definition addsCode (s : Fn) (inc : Z) (S : option Value) (l : list InstId) (V : option Value) : Prop :=
  (inc = 0 /\ l = [] /\ V = S) \/
  (inc <> 0 /\ exists v i, S = Some v /\ l = [i] /\ inst s i = AddInst v (ConstantInt (i32 inc)) /\
     V = Some (Instruction i)).

Definition callsCode (s : Fn) (V : option Value) (c : InstId) : Prop :=
  exists v, V = Some v /\ inst s c = PathCall true v.

(** From the value [S] to the value [V], by the instructions [l]. *)
Definition normalCode (s : Fn) (e : BLInstrumentationEdge) (S : option Value) (l : list InstId)
    (V : option Value) : Prop :=
  exists l0 V0,
    (if isInitialization e then l0 = [] /\ V0 = Some (ConstantInt (i32 (getIncrement e)))
     else addsCode s (getIncrement e) S l0 V0) /\
    (if isCounterIncrement e then exists c, callsCode s V0 c /\ l = l0 ++ [c] /\ V = None
     else l = l0 /\ V = V0).

Definition cutCode (s : Fn) (top bottom : BLInstrumentationEdge) (S : option Value) (l : list InstId)
    (V : option Value) : Prop :=
  let restart := Some (ConstantInt (i32 (getIncrement top))) in
  exists l0 V1 c,
    addsCode s (getIncrement bottom) (Some (default (ConstantInt 0) S)) l0 V1 /\ callsCode s V1 c /\
    (if isCounterIncrement top
     then exists c2, callsCode s restart c2 /\ l = l0 ++ [c; c2] /\ V = None
     else l = l0 ++ [c] /\ V = restart).

Definition edgeCode (s : Fn) (d : BLInstrumentationDag) (e : EdgeId) (S : option Value)
    (l : list InstId) (V : option Value) : Prop :=
  if cut_type (getType (ed d e)) then
    exists top bottom, getPhonyRoot (ed d e) = Some top /\ getPhonyExit (ed d e) = Some bottom /\
      isInitialization (ed d top) = true /\ isCounterIncrement (ed d bottom) = true /\
      cutCode s (ed d top) (ed d bottom) S l V
  else normalCode s (ed d e) S l V.

(** ** Running it *)

Abbreviation run s from st l := (foldM (execInst s from) st l).

Lemma addsCode_run s from inc S l V env out r : addsCode s inc S l V -> holds env S r ->
  exists env' r', run s from (env, out) l = Some (env', out) /\ holds env' V r' /\
    (if decide (inc = 0) then Some r else v ← r; Some (Some (i32 (v + i32 inc)))) = Some r'.
Proof.
  intros [(-> & -> & ->)|(Hi & v & i & -> & -> & HI & ->)] HS.
  - exists env, r. done.
  - destruct r as [z|]; [|done]. cbn in HS. exists (<[i := i32 (z + i32 inc)]> env), (Some (i32 (z + i32 inc))).
    cbn [foldM]. unfold execInst. rewrite HI, HS. cbn. rewrite decide_False by done.
    split_and!; [done|apply lookup_insert_eq|done].
Qed.

Lemma callsCode_run s from V c env out r : callsCode s V c -> holds env V r ->
  exists z, r = Some z /\ run s from (env, out) [c] = Some (env, out ++ [z]).
Proof.
  intros (v & -> & HI) HV. destruct r as [z|]; [|done]. cbn in HV. exists z. split; [done|].
  cbn [foldM]. unfold execInst. rewrite HI, HV. done.
Qed.

Lemma normalCode_run s from e S l V env out r : normalCode s e S l V -> holds env S r ->
  exists env' r' o, run s from (env, out) l = Some (env', out ++ o) /\ holds env' V r' /\
    markExec e r = Some (r', o).
Proof.
  intros (l0 & V0 & H0 & H1) HS.
  assert (exists env' r0, run s from (env, out) l0 = Some (env', out) /\ holds env' V0 r0 /\
    (if isInitialization e then Some (Some (i32 (getIncrement e)))
     else if decide (getIncrement e = 0) then Some r
     else v ← r; Some (Some (i32 (v + i32 (getIncrement e))))) = Some r0) as (env' & r0 & E & HV0 & Er).
  { destruct (isInitialization e).
    - destruct H0 as [-> ->]. by exists env, (Some (i32 (getIncrement e))).
    - by eapply addsCode_run. }
  unfold markExec. rewrite Er. cbn [mbind option_bind].
  destruct (isCounterIncrement e).
  - destruct H1 as (c & Hc & -> & ->).
    destruct (callsCode_run s from V0 c env' out r0 Hc HV0) as (z & -> & Ec).
    exists env', None, [z]. rewrite foldM_app, E. done.
  - destruct H1 as [-> ->]. exists env', r0, []. rewrite app_nil_r. done.
Qed.

Lemma cutCode_run s from d e top bottom S l V env out r : cutCode s (ed d top) (ed d bottom) S l V ->
  getPhonyRoot e = Some top -> getPhonyExit e = Some bottom ->
  isInitialization (ed d top) = true -> isCounterIncrement (ed d bottom) = true -> holds env S r ->
  exists env' r' o, run s from (env, out) l = Some (env', out ++ o) /\ holds env' V r' /\
    cutExec d e r = Some (r', o).
Proof.
  intros (l0 & V1 & c & H0 & Hc & H1) Et Eb Ht Hb HS.
  assert (holds env (Some (default (ConstantInt 0) S)) (Some (default 0 r))) as HS'
    by (destruct S, r; done).
  destruct (addsCode_run s from _ _ _ _ env out _ H0 HS') as (env' & r1 & E & HV1 & Er).
  destruct (callsCode_run s from V1 c env' out r1 Hc HV1) as (z & -> & Ec).
  unfold cutExec. rewrite Et, Eb. cbn [mbind option_bind]. rewrite Ht, Hb. cbn [negb].
  assert ((if decide (getIncrement (ed d bottom) = 0) then default 0 r
           else i32 (default 0 r + i32 (getIncrement (ed d bottom)))) = z) as ->.
  { case_decide; cbn in Er; congruence. }
  destruct (isCounterIncrement (ed d top)).
  - destruct H1 as (c2 & Hc2 & -> & ->).
    destruct (callsCode_run s from _ c2 env' (out ++ [z]) (Some (i32 (getIncrement (ed d top)))) Hc2)
      as (w & [= <-] & Ec2); [done|].
    exists env', None, [z; i32 (getIncrement (ed d top))].
    change [c; c2] with ([c] ++ [c2]). rewrite foldM_app, E. cbn [mbind option_bind].
    rewrite foldM_app, Ec. cbn [mbind option_bind]. rewrite Ec2, <- app_assoc. done.
  - destruct H1 as [-> ->]. exists env', (Some (i32 (getIncrement (ed d top)))), [z].
    rewrite foldM_app, E. done.
Qed.

(** The code of an edge does what its marks say. *)
Lemma edgeCode_run s from d e S l V env out r : edgeCode s d e S l V -> holds env S r ->
  exists env' r' o, run s from (env, out) l = Some (env', out ++ o) /\ holds env' V r' /\
    edgeExec d e r = Some (r', o).
Proof.
  unfold edgeCode, edgeExec. destruct (cut_type _).
  - intros (top & bottom & Et & Eb & Ht & Hb & HC) HS. by eapply cutCode_run.
  - apply normalCode_run.
Qed.

(** Original instructions do nothing to path numbers. *)
Lemma run_code s from st b : execBlock s from b st = run s from st (code s b).
Proof.
  unfold execBlock, code. generalize (insts s b) as l. intros l. revert st.
  induction l as [|i l IH]; intros st; [done|]. rewrite filter_cons. cbn [foldM].
  case_decide as Hi.
  - cbn [foldM]. destruct (execInst s from st i); cbn; [apply IH|done].
  - assert (execInst s from st i = Some st) as ->; [|apply IH].
    unfold execInst. destruct st as [env out]. by destruct (inst s i).
Qed.

(** ** Where it is *)

(** What is known of a node: the value after the first part of its code (the
    part that belongs to the edges into it), the value at its end, and the two
    parts of its code. *)
Record NodeGhost : Type := MkGhost {
  n_mid : option Value;
  n_out : option Value;
  n_pre : list InstId;
  n_post : list InstId
}.

Definition blankGhost : NodeGhost := MkGhost None None [] [].

Definition Ghost : Type := NodeId -> NodeGhost.

Definition g_mid (g : Ghost) (n : NodeId) : option Value := n_mid (g n).
Definition g_out (g : Ghost) (n : NodeId) : option Value := n_out (g n).
Definition g_pre (g : Ghost) (n : NodeId) : list InstId := n_pre (g n).
Definition g_post (g : Ghost) (n : NodeId) : list InstId := n_post (g n).

(** The source has one successor: the code goes to its end. *)
Definition atSource (d : BLInstrumentationDag) (e : EdgeId) : bool :=
  bool_decide (getBlock (nd d (getSource (ed d e))) <> None) &&
  bool_decide (getNumberSuccEdges (nd d (getSource (ed d e))) <= 1)%nat.

(** How a value reaches the target's code. *)
Definition Enters (s : Fn) (d : BLInstrumentationDag) (g : Ghost) (u v : NodeId) : Prop :=
  if decide (getNumberPredEdges (nd d v) <= 1)%nat then g_pre g v = [] /\ g_mid g v = g_out g u
  else
    match g_out g u with
    | None => g_pre g v = [] /\ g_mid g v = None
    | Some V => exists p l b, g_pre g v = [p] /\ g_mid g v = Some (Instruction p) /\
        inst s p = PHINode l /\ getBlock (nd d u) = Some b /\ incomingFor b l = Some V
    end.

Definition EdgeEmitted (s : Fn) (d : BLInstrumentationDag) (g : Ghost) (e : EdgeId) : Prop :=
  let u := getSource (ed d e) in
  let v := getTarget (ed d e) in
  if atSource d e then
    edgeCode s d e (g_mid g u) (g_post g u) (g_out g u) /\
    (getBlock (nd d v) <> None -> Enters s d g u v)
  else
    getBlock (nd d v) <> None /\ edgeCode s d e (g_mid g u) (g_pre g v) (g_mid g v) /\
    (getBlock (nd d u) <> None -> g_post g u = []).

Record Emitted (st : PassState) (g : Ghost) (emitted : EdgeId -> Prop) : Prop := {
  em_code n b : getBlock (nd (dag st) n) = Some b -> code (fn st) b = g_pre g n ++ g_post g n;
  em_edge e : emitted e -> EdgeEmitted (fn st) (dag st) g e
}.

(** ** Routes of the instrumented function *)

(** Along edges in successor lists, not through the exit. *)
Inductive linked_route (d : BLInstrumentationDag) : NodeId -> list EdgeId -> NodeId -> Prop :=
  | lr_nil x : linked_route d x [] x
  | lr_cons x e p y : e ∈ succEdges (nd d x) -> getSource (ed d e) = x -> x <> getExit d ->
      linked_route d (getTarget (ed d e)) p y -> linked_route d x (e :: p) y.

(** The blocks entered along a list of edges. *)
Definition blocksOf (d : BLInstrumentationDag) (l : list EdgeId) : list BlockId :=
  omap (fun e => getBlock (nd d (getTarget (ed d e)))) l.

Section Simulation.
Context (st : PassState) (g : Ghost) (emitted : EdgeId -> Prop) (HE : Emitted st g emitted).
Abbreviation d := (dag st).
Abbreviation s := (fn st).

(** Entering a block from its predecessor: after the first part of its code
    the register's value is in place. *)
Lemma enter_block e b env out r : emitted e ->
  getBlock (nd d (getTarget (ed d e))) = Some b ->
  let u := getSource (ed d e) in let v := getTarget (ed d e) in
  holds env (if atSource d e then g_out g u else g_mid g u) r ->
  exists env' r' o, run s (getBlock (nd d u)) (env, out) (g_pre g v) = Some (env', out ++ o) /\
    holds env' (g_mid g v) r' /\
    (if atSource d e then r' = r /\ o = [] else edgeExec d e r = Some (r', o)).
Proof.
  intros He Hb u v HS. pose proof (em_edge _ _ _ HE e He) as H. unfold EdgeEmitted in H.
  fold u v in H. fold v in Hb. destruct (atSource d e) eqn:EA.
  - destruct H as [_ H]. specialize (H ltac:(congruence)). unfold Enters in H. case_decide.
    + destruct H as [-> ->]. exists env, r, []. rewrite app_nil_r. done.
    + destruct (g_out g u) as [V|].
      * destruct H as (p & l & c & -> & -> & HI & -> & Hl). destruct r as [z|]; [|done]. cbn in HS.
        exists (<[p := z]> env), (Some z), []. rewrite app_nil_r. split; [|split; [apply lookup_insert_eq|done]].
        cbn [foldM]. unfold execInst. rewrite HI. cbn [mbind option_bind]. rewrite Hl. cbn [mbind option_bind].
        by rewrite HS.
      * destruct H as [-> ->]. exists env, r, []. rewrite app_nil_r. done.
  - destruct H as (_ & HC & _). by eapply edgeCode_run.
Qed.

(** From the end of the first part of a node's code on, the blocks of a route
    to the exit report what the marks of its edges say. *)
Lemma run_route x l : linked_route d x l (getExit d) -> Forall emitted l ->
  (forall e, e ∈ l -> getTarget (ed d e) <> getExit d -> is_Some (getBlock (nd d (getTarget (ed d e))))) ->
  getBlock (nd d (getExit d)) = None -> is_Some (getBlock (nd d x)) ->
  forall from env out r, holds env (g_mid g x) r ->
  exists st1 env' o, run s from (env, out) (g_post g x) = Some st1 /\
    execBlocks s (getBlock (nd d x)) (blocksOf d l) st1 = Some (env', out ++ o) /\
    exists r', walkExec d l r = Some (r', o).
Proof.
  intros Hr. remember (getExit d) as y eqn:Ey. revert Ey.
  induction Hr as [x|x e l y Hs Hsrc Hx Hr IH]; intros -> Hem Hblk Hex Hbx from env out r HS.
  { rewrite Hex in Hbx. by destruct Hbx. }
  apply Forall_cons in Hem as [He Hem]. pose proof (em_edge _ _ _ HE e He) as HEe.
  unfold EdgeEmitted in HEe. rewrite Hsrc in HEe. destruct Hbx as [bx Hbx].
  rewrite walkExec_cons. cbn [blocksOf omap list_omap].
  assert (forall k, k ∈ l -> getTarget (ed d k) <> getExit d -> is_Some (getBlock (nd d (getTarget (ed d k)))))
    as Hblk' by (intros k Hk; apply Hblk; by right).
  (* what [post x] does, and the register after it *)
  assert (exists env1 r1 o1, run s from (env, out) (g_post g x) = Some (env1, out ++ o1) /\
    holds env1 (if atSource d e then g_out g x else g_mid g x) r1 /\
    (if atSource d e then edgeExec d e r = Some (r1, o1) else r1 = r /\ o1 = []))
    as (env1 & r1 & o1 & E1 & H1 & X1).
  { destruct (atSource d e).
    - destruct HEe as [HC _]. by eapply edgeCode_run.
    - destruct HEe as (_ & _ & ->); [|congruence]. exists env, r, []. by rewrite app_nil_r. }
  destruct (getBlock (nd d (getTarget (ed d e)))) as [bv|] eqn:Ebv.
  - (* into a block *)
    pose proof (enter_block e bv env1 (out ++ o1) r1 He Ebv) as HB. cbv zeta in HB. rewrite Hsrc in HB.
    destruct (HB H1) as (env2 & r2 & o2 & E2 & H2 & X2).
    destruct (IH eq_refl Hem Hblk' Hex (mk_is_Some _ _ eq_refl) (getBlock (nd d x)) env2 (out ++ o1 ++ o2) r2 H2)
      as (st3 & env3 & o3 & E3 & E4 & r3 & W).
    exists (env1, out ++ o1), env3, (o1 ++ o2 ++ o3). split; [done|]. split.
    + cbn [execBlocks]. rewrite run_code, (em_code _ _ _ HE _ _ Ebv), foldM_app, E2.
      cbn [mbind option_bind]. rewrite <- app_assoc, E3. cbn [mbind option_bind].
      unfold blocksOf in E4. rewrite E4, <- !app_assoc. done.
    + exists r3. destruct (atSource d e).
      * destruct X2 as [-> ->]. rewrite X1. cbn [mbind option_bind]. rewrite W. done.
      * destruct X1 as [-> ->]. rewrite X2. cbn [mbind option_bind]. rewrite W. done.
  - (* to the exit *)
    assert (getTarget (ed d e) = getExit d) as Ht.
    { destruct (decide (getTarget (ed d e) = getExit d)) as [|Hn]; [done|].
      destruct (Hblk e ltac:(by left) Hn) as [? ?]. congruence. }
    assert (l = []) as -> by (inversion Hr; congruence).
    assert (atSource d e = true) as EA.
    { destruct (atSource d e); [done|]. destruct HEe as (HE1 & _). congruence. }
    rewrite EA in *. exists (env1, out ++ o1), env1, o1. split; [done|]. cbn [list_omap execBlocks].
    split; [done|]. rewrite X1. cbn [mbind option_bind]. exists r1. unfold walkExec. cbn. by rewrite app_nil_r.
Qed.

End Simulation.
End Emitted.
