(* ===== verification/Insertion.v ===== *)
(** * What the insertion does to the DAG and to the function

    Facts about src/PathLogging.cpp's insertion code that hold for every DAG
    and every function: the traversal terminates, it leaves no edge it can
    reach without instrumentation unless it prints a warning, and it only
    adds to the function: original instructions stay where they are, in their
    order. *)

From stdpp Require Import base numbers list gmap.
From S2P Require Import Prelude Dag BallLarus Marking IR ListIR Instrument.

Local Open Scope Z_scope.

(** ** Reasoning about [result] *)

Lemma bind_Ok {A C} (r : result A) (f : A -> result C) c :
  (a ← r; f a) = Ok c -> exists a, r = Ok a /\ f a = Ok c.
Proof. destruct r as [a|e]; [|done]. intros H. by exists a. Qed.

(** Takes a successful run apart, one step at a time. *)
Ltac run_step H :=
  lazymatch type of H with
  | mbind _ ?r = Ok _ =>
      let a := fresh "x" in let E := fresh "Er" in
      apply bind_Ok in H as (a & E & H); cbv beta in H
  | (let '(_, _) := ?p in _) = Ok _ => let E := fresh "Ep" in destruct p eqn:E
  | (match ?p with Some _ => _ | None => _ end) = Ok _ => let E := fresh "Eo" in destruct p eqn:E
  | (if ?b then _ else _) = Ok _ => let E := fresh "Eb" in destruct b eqn:E
  | Ok _ = Ok _ => injection H as H; try subst
  | Err _ = Ok _ => discriminate H
  end.

Ltac run_ok H := repeat (run_step H; cbn zeta in H).

Section Facts.
Context `{LS : !LLVMSpec L} `{B : BallLarusOps}.

(** ** A function only grows *)

(** Every block of [s] keeps its instructions, in their order; what they are
    does not change, except for the operands of PHI nodes. *)
Record extends (s s' : Fn) : Prop := {
  ext_valid : valid s';
  ext_insts b : sublist (insts s b) (insts s' b);
  ext_inst b i : i ∈ insts s b -> isPHI (inst s i) = false -> inst s' i = inst s i;
  ext_phi b i : i ∈ insts s b -> isPHI (inst s' i) = isPHI (inst s i)
}.

Lemma extends_refl s : valid s -> extends s s.
Proof. by split. Qed.

Lemma extends_trans s1 s2 s3 : extends s1 s2 -> extends s2 s3 -> extends s1 s3.
Proof.
  intros [V1 S1 I1 P1] [V2 S2 I2 P2].
  assert (forall b i, i ∈ insts s1 b -> i ∈ insts s2 b) as Hin
    by (intros b i Hi; by eapply elem_of_sublist).
  split; [done| | |].
  - intros b. etransitivity; [apply S1|apply S2].
  - intros b i Hi HP. rewrite <- (I1 b i) by done. apply (I2 b); [auto|]. by rewrite (P1 b).
  - intros b i Hi. rewrite <- (P1 b i) by done. apply (P2 b). auto.
Qed.

Lemma extends_elem s s' b i : extends s s' -> i ∈ insts s b -> i ∈ insts s' b.
Proof. intros HE Hi. eapply elem_of_sublist; [done|apply HE]. Qed.

Lemma create_extends i before b s :
  valid s -> before ∈ insts s b -> extends s (Create i before s).2.
Proof.
  intros HV Hb.
  assert (forall c j, j ∈ insts s c -> j <> (Create i before s).1) as Hne.
  { intros c j Hj ->. by eapply create_fresh. }
  split.
  - by eapply create_valid.
  - intros c. destruct (decide (before ∈ insts s c)) as [(l1 & l2 & E)%list_elem_of_split|Hn].
    + rewrite (create_here i before s c l1 l2 HV E), E.
      apply sublist_app; [done|]. by constructor.
    + by rewrite create_elsewhere.
  - intros c j Hj _. apply create_other; eauto.
  - intros c j Hj. rewrite create_other; eauto.
Qed.

(** PHI nodes are recognised by their instruction, so operand changes keep
    every other instruction and every position. *)
Lemma phi_change_extends s s' i :
  valid s' -> (forall c, insts s' c = insts s c) -> (forall j, j <> i -> inst s' j = inst s j) ->
  isPHI (inst s i) = true -> isPHI (inst s' i) = true -> extends s s'.
Proof.
  intros HV HI Hne Hi Hi'. split; [done| | |].
  - intros c. by rewrite HI.
  - intros c j Hj HP. apply Hne. intros ->. congruence.
  - intros c j Hj. destruct (decide (j = i)) as [->|Hj']; [congruence|by rewrite Hne].
Qed.

Lemma split_extends b n s s' : valid s -> SplitCriticalEdge b n s = Some s' -> extends s s'.
Proof.
  intros HV Hs. destruct (split_edge b n s s' HV Hs)
    as (old & new & t & _ & _ & _ & En & _ & _ & _ & _ & Hi & Hk & HP).
  split; [by eapply split_valid| |eauto|eauto].
  intros c. destruct (decide (c = new)) as [->|Hc]; [rewrite En; apply sublist_nil_l|by rewrite Hi].
Qed.

(** ** Steps that place code

    Between two splits the DAG keeps its graph and its edges; only path
    numbers and PHI nodes of nodes are set. *)

(** The PHI nodes recorded in the DAG are PHI nodes of the function. *)
Definition PhiOk (st : PassState) : Prop := forall n phi,
  getPathPHI (nd (dag st) n) = Some phi ->
  isPHI (inst (fn st) phi) = true /\ exists b, phi ∈ insts (fn st) b.

Definition Good (st : PassState) : Prop := valid (fn st) /\ PhiOk st.

Record placed (st st' : PassState) : Prop := {
  pl_fn : extends (fn st) (fn st');
  pl_phi : PhiOk st';
  pl_shape : forall n, static_node_eq (nd (dag st) n) (nd (dag st') n);
  pl_stored n : is_Some (nodeStore (dag st) !! n) -> is_Some (nodeStore (dag st') !! n);
  pl_edgeStore : edgeStore (dag st') = edgeStore (dag st);
  pl_edges : _edges (dag st') = _edges (dag st);
  pl_nodes : _nodes (dag st') = _nodes (dag st);
  pl_root : getRoot (dag st') = getRoot (dag st);
  pl_exit : getExit (dag st') = getExit (dag st);
  pl_paths : getNumberOfPaths (dag st') = getNumberOfPaths (dag st);
  pl_array : getCounterArray (dag st') = getCounterArray (dag st);
  pl_warnings : warnings st' = warnings st
}.

Lemma placed_refl st : Good st -> placed st st.
Proof. intros [HV HP]. by split. Qed.

Lemma placed_trans st1 st2 st3 : placed st1 st2 -> placed st2 st3 -> placed st1 st3.
Proof.
  intros [E1 P1 S1] [E2 P2 S2]. split; try congruence.
  - by eapply extends_trans.
  - done.
  - intros n. etransitivity; [apply S1|apply S2].
  - auto.
Qed.

Lemma placed_good st st' : placed st st' -> Good st'.
Proof. intros [[HV _] HP]. by split. Qed.

Lemma placed_onNode n f st : Good st ->
  (forall x, static_node_eq x (f x) /\ getPathPHI (f x) = getPathPHI x) -> placed st (onNode n f st).
Proof.
  intros [HV HP] Hf. split; try done.
  - intros m phi. simpl. rewrite nd_updNode. case_decide as Hm; [|apply HP].
    rewrite (proj2 (Hf _)). apply HP.
  - intros m. simpl. rewrite nd_updNode. case_decide; subst; [apply Hf|done].
  - intros m Hm. simpl. rewrite lookup_insert_is_Some'. by right.
Qed.

Lemma placed_setFn s st : PhiOk st -> extends (fn st) s -> placed st (setFn s st).
Proof.
  intros HP HE. split; try done. intros n phi Hphi. simpl in *.
  destruct (HP n phi Hphi) as (Hi & b & Hb). split.
  - by rewrite (ext_phi _ _ HE b).
  - exists b. by eapply extends_elem.
Qed.

(** The steps of a run are appended to what it did before. *)
Lemma then_starting n v st0 st : placed st0 st -> placed st0 (onNode n (setStartingPathNumber v) st).
Proof. intros HP. eapply placed_trans; [exact HP|]. by apply placed_onNode; [eapply placed_good|]. Qed.

Lemma then_ending n v st0 st : placed st0 st -> placed st0 (onNode n (setEndingPathNumber v) st).
Proof. intros HP. eapply placed_trans; [exact HP|]. by apply placed_onNode; [eapply placed_good|]. Qed.

(** A place to insert: an iterator into a block. *)
Definition inBlock (p : option InstId) (b : BlockId) (st : PassState) : Prop :=
  forall k, p = Some k -> k ∈ insts (fn st) b.

Lemma inBlock_first b st : valid (fn st) -> inBlock (getFirstInsertionPt (fn st) b) b st.
Proof. intros HV k Hk. destruct (first_insertion _ _ _ HV Hk) as (l1 & l2 & -> & _). set_solver. Qed.

Lemma inBlock_terminator b st : valid (fn st) -> inBlock (getTerminator (fn st) b) b st.
Proof. intros HV k Hk. destruct (terminator_last _ _ _ HV Hk) as (_ & l & ->). set_solver. Qed.

Lemma inBlock_choice (c : bool) b st : valid (fn st) ->
  inBlock (if c then getFirstInsertionPt (fn st) b else getTerminator (fn st) b) b st.
Proof. destruct c; [apply inBlock_first|apply inBlock_terminator]. Qed.

Lemma inBlock_placed p b st st' : placed st st' -> inBlock p b st -> inBlock p b st'.
Proof. intros HP Hp k Hk. eapply extends_elem; [apply HP|by apply Hp]. Qed.

Lemma createAt_placed i p b st k st' :
  Good st -> inBlock p b st -> createAt i p st = Ok (k, st') -> placed st st'.
Proof.
  intros HG Hp H. unfold createAt in H. destruct p as [before|]; [|done]. simpl in H.
  injection H as <- <-. apply placed_setFn; [apply HG|].
  eapply create_extends; [apply HG|by apply Hp].
Qed.

Lemma then_createAdd l r p b st0 st k st' :
  placed st0 st -> inBlock p b st -> createAdd l r p st = Ok (k, st') -> placed st0 st'.
Proof.
  intros HP Hp H. eapply placed_trans; [exact HP|]. unfold createAdd in H. run_ok H.
  eapply createAt_placed; [by eapply placed_good|done|done].
Qed.

Lemma then_counter v p b inc st0 st st' :
  placed st0 st -> inBlock p b st -> insertCounterIncrement v p inc st = Ok st' -> placed st0 st'.
Proof.
  intros HP Hp H. eapply placed_trans; [exact HP|]. unfold insertCounterIncrement in H. run_ok H.
  eapply createAt_placed; [by eapply placed_good|done|done].
Qed.

(** Adding or replacing an operand of a recorded PHI node. *)
Lemma addIncoming_extends v b i s : valid s -> isPHI (inst s i) = true -> extends s (addIncoming v b i s).
Proof.
  intros HV Hi. apply (phi_change_extends _ _ i); [by apply incoming_valid|intros; apply incoming_insts| |done|].
  - intros. by apply incoming_other.
  - by rewrite incoming_kind.
Qed.

Lemma removeIncoming_extends b i s : valid s -> isPHI (inst s i) = true -> extends s (removeIncomingValue b i s).
Proof.
  intros HV Hi. apply (phi_change_extends _ _ i); [by apply remove_valid|intros; apply remove_insts| |done|].
  - intros. by apply remove_other.
  - by rewrite remove_kind.
Qed.

Lemma addIncoming_loop v phi preds b st :
  Good st -> isPHI (inst (fn st) phi) = true -> phi ∈ insts (fn st) b ->
  placed st (foldl (fun st pred => setFn (addIncoming v pred phi (fn st)) st) st preds).
Proof.
  revert st. induction preds as [|p preds IH]; intros st HG Hi Hb; simpl; [by apply placed_refl|].
  assert (extends (fn st) (addIncoming v p phi (fn st))) as HE by (apply addIncoming_extends; [apply HG|done]).
  eapply placed_trans; [apply placed_setFn; [apply HG|done]|]. apply IH.
  - eapply placed_good, placed_setFn; [apply HG|done].
  - simpl. by rewrite incoming_kind.
  - by eapply extends_elem.
Qed.

(** Recording a PHI node of the function in a DAG node. *)
Lemma placed_setPathPHI n phi b st : Good st -> isPHI (inst (fn st) phi) = true ->
  phi ∈ insts (fn st) b -> placed st (onNode n (setPathPHI (Some phi)) st).
Proof.
  intros [HV HP] Hi Hb. split; try done.
  - intros m phi'. simpl. rewrite nd_updNode. case_decide; [|apply HP].
    intros [= <-]. split; [done|by exists b].
  - intros m. simpl. rewrite nd_updNode. by case_decide; subst.
  - intros m Hm. simpl. rewrite lookup_insert_is_Some'. by right.
Qed.

Lemma createAt_inst i p b st k st' : Good st -> inBlock p b st -> createAt i p st = Ok (k, st') ->
  inst (fn st') k = i /\ k ∈ insts (fn st') b.
Proof.
  intros [HV HP] Hp H. unfold createAt in H. destruct p as [before|]; [|done]. simpl in H.
  injection H as <- <-. simpl. split; [by apply create_inst|].
  destruct (list_elem_of_split (insts (fn st) b) before) as (l1 & l2 & E); [by apply Hp|].
  rewrite (create_here _ _ _ _ _ _ HV E). set_solver.
Qed.

Lemma preparePHI_placed n st st' : Good st -> preparePHI n st = Ok st' -> placed st st'.
Proof.
  intros HG H. unfold preparePHI in H. run_step H. rename x into b. cbn zeta in H.
  run_step H. destruct x as [phi st1]. injection H as <-.
  assert (inBlock (getFirstInsertionPt (fn st) b) b st) as Hp by (apply inBlock_first, HG).
  pose proof (createAt_placed _ _ _ _ _ _ HG Hp Er0) as P1.
  destruct (createAt_inst _ _ _ _ _ _ HG Hp Er0) as [Hi Hb].
  pose proof (placed_good _ _ P1) as G1.
  assert (isPHI (inst (fn st1) phi) = true) as HPhi by (by rewrite Hi).
  assert (placed st (onNode n (setEndingPathNumber (Some (Instruction phi)))
    (onNode n (setStartingPathNumber (Some (Instruction phi))) (onNode n (setPathPHI (Some phi)) st1)))) as P2.
  { apply then_ending, then_starting. eapply placed_trans; [exact P1|]. by eapply placed_setPathPHI. }
  eapply placed_trans; [exact P2|].
  apply (addIncoming_loop _ _ _ b); [by eapply placed_good|done|done].
Qed.

Lemma pushValueIntoPHI_placed t u st st' : Good st -> pushValueIntoPHI t u st = Ok st' -> placed st st'.
Proof.
  intros [HV HP] H. unfold pushValueIntoPHI in H. run_ok H.
  destruct (HP t _ Eo) as (Hi & c & Hc).
  eapply (placed_trans _ (setFn (removeIncomingValue x i (fn st)) st)).
  - apply placed_setFn; [done|]. by apply removeIncoming_extends.
  - apply placed_setFn.
    + eapply pl_phi, placed_setFn; [done|]. by apply removeIncoming_extends.
    + apply addIncoming_extends; [by apply remove_valid|]. simpl. by rewrite remove_kind.
Qed.

Lemma then_push u t st0 st st' :
  placed st0 st -> pushValueIntoNode u t st = Ok st' -> placed st0 st'.
Proof.
  intros HP H. unfold pushValueIntoNode in H. pose proof (placed_good _ _ HP) as HG.
  destruct (getBlock _); [|by injection H as <-]. case_decide.
  - run_ok H. by apply then_ending, then_starting.
  - run_step H. eapply placed_trans; [exact HP|]. case_decide.
    + pose proof (preparePHI_placed _ _ _ HG Er) as P1.
      eapply placed_trans; [exact P1|]. eapply pushValueIntoPHI_placed; [by eapply placed_good|done].
    + injection Er as <-. by eapply pushValueIntoPHI_placed.
Qed.

Lemma inBlock_here (c : bool) b st0 st : placed st0 st ->
  inBlock (if c then getFirstInsertionPt (fn st) b else getTerminator (fn st) b) b st.
Proof. intros HP. apply inBlock_choice, (placed_good _ _ HP). Qed.

Lemma then_startFromZero n st0 st : placed st0 st -> placed st0 (startFromZero n st).
Proof.
  intros HP. unfold startFromZero. destruct (getEndingPathNumber _); [done|].
  by apply then_ending, then_starting.
Qed.

Lemma then_restartWith e n c st0 st : placed st0 st -> placed st0 (restartWith e n c st).
Proof. intros HP. apply then_ending. destruct c; [by apply then_starting|done]. Qed.

Lemma instrumentNormalEdge_placed e n c st st' :
  Good st -> instrumentNormalEdge e n c st = Ok st' -> placed st st'.
Proof.
  intros HG H. unfold instrumentNormalEdge in H. run_step H. rename x into b. cbn zeta in H.
  pose proof (placed_refl _ HG) as P0. pose proof (inBlock_here c b _ _ P0) as Hp.
  run_step H. rename x into st1.
  assert (placed st st1) as P1.
  { destruct (isInitialization _); [injection Er0 as <-; by apply then_ending|].
    case_decide; [by injection Er0 as <-|]. run_step Er0. destruct x as [k st2]. injection Er0 as <-.
    pose proof (then_createAdd _ _ _ _ _ _ _ _ P0 Hp Er1) as P2.
    destruct c; [apply then_starting|]; by apply then_ending. }
  destruct (isCounterIncrement _); [|by injection H as <-]. run_ok H.
  apply then_ending. eapply then_counter; [exact P1| |done]. by eapply inBlock_placed.
Qed.

Lemma instrumentCutEdge_placed e n c st st' :
  Good st -> instrumentCutEdge e n c st = Ok st' -> placed st st'.
Proof.
  intros HG H. unfold instrumentCutEdge in H. do 4 run_step H. cbn zeta in H.
  pose proof (then_startFromZero n _ _ (placed_refl _ HG)) as P1.
  set (st1 := startFromZero n st) in *. clearbody st1. run_step H. rename x3 into b. cbn zeta in H.
  pose proof (inBlock_here c b _ _ P1) as Hp. run_step H. rename x3 into st2.
  assert (placed st1 st2) as P2.
  { pose proof (placed_refl _ (placed_good _ _ P1)). case_decide; [by injection Er4 as <-|].
    run_step Er4. destruct x3 as [k st3]. injection Er4 as <-. apply then_ending.
    by eapply then_createAdd. }
  run_step H. rename x3 into st3. cbn zeta in H.
  pose proof (then_counter _ _ _ _ _ _ _ P2 (inBlock_placed _ _ _ _ P2 Hp) Er5) as P3.
  pose proof (then_restartWith x n c _ _ (placed_trans _ _ _ P1 P3)) as P5.
  set (st4 := restartWith x n c st3) in *. clearbody st4.
  destruct (isCounterIncrement (ed (dag st4) x)); [|by injection H as <-].
  run_step H. injection H as <-. apply then_ending.
  eapply then_counter; [exact P5| |exact Er6]. apply inBlock_terminator, (placed_good _ _ P5).
Qed.

Lemma instrumentEdge_placed e n next c st st' :
  Good st -> instrumentEdge e n next c st = Ok st' -> placed st st'.
Proof.
  intros HG H. unfold instrumentEdge in H. run_step H.
  assert (placed st x) as P1.
  { destruct (cut_type _); [by eapply instrumentCutEdge_placed|by eapply instrumentNormalEdge_placed]. }
  destruct next as [t|]; [|by injection H as <-].
  destruct (getEndingPathNumber _); [|by injection H as <-]. by eapply then_push.
Qed.

(** Placing an edge's code either succeeds, or prints the warning. *)
Lemma placeEdge_placed e st ok st' : Good st -> placeEdge e st = Ok (ok, st') ->
  (ok = true /\ placed st st') \/ (ok = false /\ st' = warn CouldNotSplit st).
Proof.
  intros HG H. unfold placeEdge in H. destruct (_ && _).
  - run_ok H. left. split; [done|]. by eapply instrumentEdge_placed.
  - case_decide; run_ok H; [|by right]. left. split; [done|].
    pose proof (then_push _ _ _ _ _ (placed_refl _ HG) Er) as P1.
    eapply placed_trans; [exact P1|]. eapply instrumentEdge_placed; [by eapply placed_good|done].
Qed.

(** The first call found lies in the block. *)
Lemma firstCall_elem s l k : firstCall s l = Some k -> k ∈ l.
Proof. induction l as [|i l IH]; simpl; [done|]. destruct (isCall _); [intros [= ->]; by left|right; auto]. Qed.

Lemma fromIterator_elem i k l : k ∈ fromIterator i l -> k ∈ l.
Proof. induction l as [|j l IH]; simpl; [done|]. case_decide; [done|]. right. auto. Qed.

Lemma instrumentCallEdge_placed e st st' :
  Good st -> instrumentCallEdge st e = Ok st' -> placed st st'.
Proof.
  intros HG H. unfold instrumentCallEdge in H. run_step H. rename x into b. run_step H. cbn zeta in H.
  run_step H. pose proof (placed_refl _ HG) as P0.
  assert (inBlock (firstCall (fn st) (fromIterator x (insts (fn st) b))) b st) as Hp.
  { intros k Hk. eapply fromIterator_elem, firstCall_elem; exact Hk. }
  run_step H. destruct x1 as [pn st1].
  assert (placed st st1) as P1.
  { destruct (getStartingPathNumber _); [|by injection Er2 as <- <-].
    case_decide; [by injection Er2 as <- <-|]. run_step Er2. destruct x1 as [k st2].
    injection Er2 as <- <-. by eapply then_createAdd. }
  run_step H. rename x1 into st2.
  pose proof (then_counter _ _ _ _ _ _ _ P1 (inBlock_placed _ _ _ _ P1 Hp) Er3) as P2.
  eapply then_counter; [exact P2| |exact H]. apply inBlock_terminator, (placed_good _ _ P2).
Qed.

End Facts.

(** ** Splitting an edge of the DAG *)

(** Successor lists hold created edges of that node, and edges lead between
    created nodes. *)
Record Linked (d : BLInstrumentationDag) : Prop := {
  lk_succ n e : e ∈ succEdges (nd d n) -> e ∈ _edges d /\ getSource (ed d e) = n;
  lk_source e : e ∈ _edges d -> is_Some (nodeStore d !! getSource (ed d e));
  lk_target e : e ∈ _edges d -> is_Some (nodeStore d !! getTarget (ed d e));
  lk_edges : NoDup (_edges d)
}.

Ltac lookups :=
  repeat (rewrite lookup_total_insert_eq || rewrite lookup_total_insert_ne by done).

Section Split.
Context `{BS : !BallLarusOpsSpec B}.

(** What [splitUpdate] leaves behind: the former edge leads to the new node,
    a new edge leads from there to the old target. *)
Record SplitOf (f : EdgeId) (nb : BlockId) (d d' : BLInstrumentationDag) (new : NodeId) (g : EdgeId)
    : Prop := {
  sp_edges : _edges d' = _edges d ++ [g];
  sp_fresh : g ∉ _edges d;
  sp_paths : getNumberOfPaths d' = getNumberOfPaths d /\ getCounterArray d' = getCounterArray d;
  sp_ends : getRoot d' = getRoot d /\ getExit d' = getExit d;
  sp_node : nodeStore d !! new = None;
  sp_stored n : is_Some (nodeStore d !! n) \/ n = new -> is_Some (nodeStore d' !! n);
  sp_block : getBlock (nd d' new) = Some nb;
  sp_other e : e ∈ _edges d -> e <> f -> ed d' e = ed d e;
  sp_former_source : getSource (ed d' f) = getSource (ed d f);
  sp_former_target : getTarget (ed d' f) = new;
  sp_former_done : hasInstrumentation (ed d' f) = hasInstrumentation (ed d f);
  sp_former_marks : getIncrement (ed d' f) = getIncrement (ed d f) /\
    isInitialization (ed d' f) = isInitialization (ed d f) /\
    isCounterIncrement (ed d' f) = isCounterIncrement (ed d f);
  sp_former_type : cut_type (getType (ed d f)) = true ->
    getType (ed d' f) = NORMAL /\ getType (ed d' g) = getType (ed d f) /\
    getPhonyRoot (ed d' g) = getPhonyRoot (ed d f) /\ getPhonyExit (ed d' g) = getPhonyExit (ed d f);
  sp_former_plain : cut_type (getType (ed d f)) = false ->
    getType (ed d' f) = getType (ed d f) /\ getType (ed d' g) = NORMAL;
  sp_new_source : getSource (ed d' g) = new;
  sp_new_target : getTarget (ed d' g) = getTarget (ed d f);
  sp_new_marks : getIncrement (ed d' g) = 0 /\ isInitialization (ed d' g) = false /\
    isCounterIncrement (ed d' g) = false /\ hasInstrumentation (ed d' g) = false;
  sp_attr n : n <> new -> getBlock (nd d' n) = getBlock (nd d n) /\
    getStartingPathNumber (nd d' n) = getStartingPathNumber (nd d n) /\
    getEndingPathNumber (nd d' n) = getEndingPathNumber (nd d n) /\
    getPathPHI (nd d' n) = getPathPHI (nd d n);
  sp_new_attr : getStartingPathNumber (nd d' new) = None /\
    getEndingPathNumber (nd d' new) = None /\ getPathPHI (nd d' new) = None;
  sp_succ n : n <> new -> succEdges (nd d' n) = succEdges (nd d n);
  sp_new_succ : succEdges (nd d' new) = [g];
  sp_new_pred : predEdges (nd d' new) = [f];
  sp_pred n : n <> new -> n <> getTarget (ed d f) -> predEdges (nd d' n) = predEdges (nd d n);
  sp_old_pred : f ∈ predEdges (nd d (getTarget (ed d f))) ->
    f :: predEdges (nd d' (getTarget (ed d f))) ≡ₚ g :: predEdges (nd d (getTarget (ed d f)))
}.

Lemma insertEdge_nil e : insertEdge e [] = [e].
Proof. apply Permutation_singleton_r, insertEdge_perm. Qed.

Lemma replace_edge f g l : f ∈ l -> f :: insertEdge g (removeEdge f l) ≡ₚ g :: l.
Proof.
  intros Hf. rewrite insertEdge_perm. etransitivity; [apply Permutation_swap|].
  constructor. symmetry. by apply removeEdge_perm.
Qed.

(** The state before types and phony edges are moved. *)
Definition splitNodes (f : EdgeId) (nb : BlockId) (d : BLInstrumentationDag)
    : NodeId * EdgeId * BLInstrumentationDag :=
  let old := getTarget (ed d f) in
  let new := (addNode (Some nb) d).1 in
  let d := (addNode (Some nb) d).2 in
  let d := updEdge f (setTarget new) d in
  let d := updNode new (fun n => setPredEdges (insertEdge f (predEdges n)) n) d in
  let d := updNode old (fun n => setPredEdges (removeEdge f (predEdges n)) n) d in
  (new, (addEdge new old 0 d).1, (addEdge new old 0 d).2).

Lemma splitNodes_spec f nb d new g d' :
  is_Some (nodeStore d !! getTarget (ed d f)) -> splitNodes f nb d = (new, g, d') ->
  nodeStore d !! new = None /\ g ∉ _edges d /\ g <> f /\ _edges d' = _edges d ++ [g] /\
  (getNumberOfPaths d' = getNumberOfPaths d /\ getCounterArray d' = getCounterArray d) /\
  (getRoot d' = getRoot d /\ getExit d' = getExit d) /\
  (forall n, is_Some (nodeStore d !! n) \/ n = new -> is_Some (nodeStore d' !! n)) /\
  (forall e, ed d' e = if decide (e = g) then newEdge new (getTarget (ed d f))
                       else if decide (e = f) then setTarget new (ed d f) else ed d e) /\
  (forall n, nd d' n = if decide (n = new) then setSuccEdges [g] (setPredEdges [f] (newNode (Some nb)))
     else if decide (n = getTarget (ed d f))
       then setPredEdges (insertEdge g (removeEdge f (predEdges (nd d n)))) (nd d n)
     else nd d n).
Proof.
  intros Hold H. unfold splitNodes in H. cbn zeta in H. rewrite addNode_eq in H.
  set (old := getTarget (ed d f)) in *.
  set (n0 := (addNode (Some nb) d).1) in *.
  destruct (addNode_fresh (Some nb) d) as [Hn0 _]. fold n0 in Hn0.
  match type of H with context [addEdge n0 old 0 ?x] => set (d4 := x) in * end.
  rewrite (addEdge_eq n0 old 0 d4) in H. set (g0 := (addEdge n0 old 0 d4).1) in *.
  destruct (addEdge_fresh n0 old 0 d4) as [Hg0 Hg1]. fold g0 in Hg0, Hg1.
  injection H as <- <- <-.
  assert (old <> n0) as Hon by (intros E; rewrite E, Hn0 in Hold; by destruct Hold).
  assert (g0 <> f) as Hgf by (intros ->; unfold d4 in Hg0; simpl in Hg0; by rewrite lookup_insert_eq in Hg0).
  split_and!; try done.
  - intros n Hn. simpl. rewrite !lookup_insert_is_Some'. destruct Hn as [Hn| ->]; tauto.
  - intros e. unfold ed at 1. simpl.
    repeat case_decide; subst; by lookups.
  - intros n. repeat case_decide; subst; unfold nd; simpl; lookups; unfold nd; simpl; lookups; try done.
    simpl. by rewrite !insertEdge_nil.
Qed.

Lemma cut_type_cases t : cut_type t = true <-> t = BACKEDGE \/ t = SPLITEDGE.
Proof. destruct t; simpl; intuition congruence. Qed.

Lemma splitUpdate_nodes f nb d new g d5 : g <> f -> splitNodes f nb d = (new, g, d5) ->
  splitUpdate f nb d =
    if cut_type (getType (ed d5 f)) then
      updEdge f (setPhonyExit None) (updEdge f (setPhonyRoot None) (updEdge f (setType NORMAL)
        (updEdge g (setPhonyExit (getPhonyExit (ed d5 f))) (updEdge g (setPhonyRoot (getPhonyRoot (ed d5 f)))
          (updEdge g (setType (getType (ed d5 f))) d5)))))
    else d5.
Proof.
  intros Hgf H. unfold splitUpdate. unfold splitNodes in H. cbn zeta in H |- *. injection H as -> -> ->.
  destruct (cut_type (getType (ed d5 f))) eqn:E.
  - rewrite decide_True by (by apply cut_type_cases). by rewrite !ed_updEdge_ne by done.
  - rewrite decide_False; [done|]. intros Hc%cut_type_cases. congruence.
Qed.

Lemma splitUpdate_spec f nb d : Linked d -> f ∈ _edges d ->
  exists new g, SplitOf f nb d (splitUpdate f nb d) new g.
Proof.
  intros HL Hf. destruct (splitNodes f nb d) as [[new g] d5] eqn:E.
  pose proof (lk_target _ HL f Hf) as Hold.
  destruct (splitNodes_spec f nb d new g d5 Hold E) as (Hn & Hg & Hgf & HE & Hpa & Hen & Hst & Hed & Hnd).
  assert (getTarget (ed d f) <> new) as Hon by (intros <-; rewrite Hn in Hold; by destruct Hold).
  assert (ed d5 f = setTarget new (ed d f)) as Ef by (rewrite Hed; by repeat case_decide).
  assert (ed d5 g = newEdge new (getTarget (ed d f))) as Eg by (rewrite Hed; by case_decide).
  assert (forall e, e ∈ _edges d -> e <> g) as Hne by (by intros e He ->).
  assert (forall e, e ∈ _edges d -> e <> f -> ed d5 e = ed d e) as Eo.
  { intros e He Hef. specialize (Hne e He). rewrite Hed. by repeat case_decide. }
  pose proof (Hnd (getTarget (ed d f))) as Eold. rewrite decide_False, decide_True in Eold by done.
  pose proof (Hnd new) as Enew. rewrite decide_True in Enew by done.
  exists new, g. rewrite (splitUpdate_nodes f nb d new g d5) by done.
  assert (cut_type (getType (ed d5 f)) = cut_type (getType (ed d f))) as Ec by (by rewrite Ef).
  rewrite Ec. destruct (cut_type (getType (ed d f))) eqn:Ecut; split; try done;
    rewrite ?nd_updEdge, ?ed_updEdge_eq, ?(ed_updEdge_ne f g), ?(ed_updEdge_ne g f), ?Enew by done;
    repeat (rewrite ed_updEdge_eq || rewrite (ed_updEdge_ne f g) by done || rewrite (ed_updEdge_ne g f) by done);
    rewrite ?Ef, ?Eg; try done.
  all: try (intros e He Hef; specialize (Hne e He); rewrite ?ed_updEdge_ne by done; by apply Eo).
  all: try (intros n Hn1; rewrite ?nd_updEdge, Hnd, decide_False by done; by case_decide).
  all: try (intros n Hn1 Hn2; rewrite ?nd_updEdge, Hnd, !decide_False by done; done).
  all: try (intros; congruence).
  all: intros Hfp; rewrite ?nd_updEdge, Eold; simpl.
  all: by apply replace_edge.
Qed.

End Split.

(** ** The traversal *)

(** An edge yet to be instrumented counts for itself and, when its source has
    several successors, for the edge a split would add. *)
Definition edgeCost (d : BLInstrumentationDag) (e : EdgeId) : nat :=
  if hasInstrumentation (ed d e) then 0
  else if decide (length (succEdges (nd d (getSource (ed d e)))) <= 1)%nat then 1 else 2.

Definition remaining (d : BLInstrumentationDag) : nat := sum_list_with (edgeCost d) (_edges d).

Definition instrumented (d : BLInstrumentationDag) (e : EdgeId) : Prop :=
  e ∈ _edges d /\ hasInstrumentation (ed d e) = true.

(** Every edge the traversal could go on to is instrumented. *)
Definition followed (d : BLInstrumentationDag) (e : EdgeId) : Prop :=
  forall x, x ∈ succEdges (nd d (getTarget (ed d e))) -> instrumented d x.

Lemma remaining_bound d : (remaining d <= 2 * length (_edges d))%nat.
Proof.
  unfold remaining. induction (_edges d) as [|e l IH]; simpl; [lia|].
  unfold edgeCost at 1. destruct (hasInstrumentation _); [lia|]. case_decide; lia.
Qed.

Section Traversal.
Context `{LS : !LLVMSpec L} `{BS : !BallLarusOpsSpec B}.

(** What any part of the traversal does; the edges in [ex] may still have
    successors to follow. *)
Record advanced (ex : EdgeId -> Prop) (st st' : PassState) : Prop := {
  ad_linked : Linked (dag st');
  ad_good : Good st';
  ad_fn : extends (fn st) (fn st');
  ad_remaining : (remaining (dag st') <= remaining (dag st))%nat;
  ad_paths : getNumberOfPaths (dag st') = getNumberOfPaths (dag st) /\
    getCounterArray (dag st') = getCounterArray (dag st);
  ad_edges e : e ∈ _edges (dag st) -> e ∈ _edges (dag st');
  ad_done e : instrumented (dag st) e -> ed (dag st') e = ed (dag st) e;
  ad_node n : is_Some (nodeStore (dag st) !! n) ->
    is_Some (nodeStore (dag st') !! n) /\ succEdges (nd (dag st') n) = succEdges (nd (dag st) n);
  ad_warnings : exists w, warnings st' = warnings st ++ w;
  ad_followed : warnings st' = warnings st ->
    forall e, ~ ex e -> instrumented (dag st') e -> ~ instrumented (dag st) e -> followed (dag st') e
}.

Definition none (e : EdgeId) : Prop := False.

Lemma advanced_refl ex st : Linked (dag st) -> Good st -> advanced ex st st.
Proof.
  intros HL HG. split; try done.
  - apply extends_refl, HG.
  - exists []. by rewrite app_nil_r.
Qed.

Lemma advanced_instrumented ex st st' e :
  advanced ex st st' -> instrumented (dag st) e -> instrumented (dag st') e.
Proof.
  intros HA He. split; [apply (ad_edges _ _ _ HA), He|]. rewrite (ad_done _ _ _ HA e He). apply He.
Qed.

Lemma advanced_warnings ex ex' st1 st2 st3 : advanced ex st1 st2 -> advanced ex' st2 st3 ->
  warnings st3 = warnings st1 -> warnings st2 = warnings st1 /\ warnings st3 = warnings st2.
Proof.
  intros H1 H2 E. destruct (ad_warnings _ _ _ H1) as [w1 E1], (ad_warnings _ _ _ H2) as [w2 E2].
  rewrite E2, E1, <- app_assoc in E. rewrite <- (app_nil_r (warnings st1)) in E at 2.
  apply app_inv_head, app_nil in E as [-> ->]. rewrite app_nil_r in *. split; congruence.
Qed.

Lemma followed_later ex st st' e : advanced ex st st' -> Linked (dag st) -> instrumented (dag st) e ->
  followed (dag st) e -> followed (dag st') e.
Proof.
  intros HA HL He HF x. rewrite (ad_done _ _ _ HA e He).
  rewrite (proj2 (ad_node _ _ _ HA _ (lk_target _ HL e (proj1 He)))).
  intros Hx. eapply advanced_instrumented; [done|]. by apply HF.
Qed.

Lemma advanced_trans ex st1 st2 st3 : advanced ex st1 st2 -> advanced none st2 st3 -> advanced ex st1 st3.
Proof.
  intros H1 H2. split; try apply H2.
  - eapply extends_trans; [apply H1|apply H2].
  - etransitivity; [apply H2|apply H1].
  - destruct (ad_paths _ _ _ H1), (ad_paths _ _ _ H2). split; congruence.
  - intros e He. by apply (ad_edges _ _ _ H2), (ad_edges _ _ _ H1).
  - intros e He. rewrite (ad_done _ _ _ H2); [by apply (ad_done _ _ _ H1)|by eapply advanced_instrumented].
  - intros n Hn. destruct (ad_node _ _ _ H1 n Hn) as [Hn' E1].
    destruct (ad_node _ _ _ H2 n Hn') as [Hn'' E2]. split; [done|congruence].
  - destruct (ad_warnings _ _ _ H1) as [w1 E1], (ad_warnings _ _ _ H2) as [w2 E2].
    exists (w1 ++ w2). by rewrite E2, E1, app_assoc.
  - intros E e Hex He Hne. destruct (advanced_warnings _ _ _ _ _ H1 H2 E) as [E1 E2].
    destruct (decide (e ∈ _edges (dag st2) /\ hasInstrumentation (ed (dag st2) e) = true)) as [He2|He2].
    + eapply followed_later; [done|apply H1|done|]. by apply (ad_followed _ _ _ H1).
    + by apply (ad_followed _ _ _ H2); [|intros []| |].
Qed.

(** Marking the edge. *)
Definition markEdge (e : EdgeId) (d : BLInstrumentationDag) : BLInstrumentationDag :=
  updEdge e (setHasInstrumentation true) d.

Lemma markEdge_ne e x d : x <> e -> ed (markEdge e d) x = ed d x.
Proof. intros H. by apply ed_updEdge_ne. Qed.

Lemma markEdge_source e x d : getSource (ed (markEdge e d) x) = getSource (ed d x).
Proof. unfold markEdge. rewrite ed_updEdge. by case_decide; subst. Qed.

Lemma markEdge_target e x d : getTarget (ed (markEdge e d) x) = getTarget (ed d x).
Proof. unfold markEdge. rewrite ed_updEdge. by case_decide; subst. Qed.

Lemma markEdge_linked e d : Linked d -> Linked (markEdge e d).
Proof.
  intros HL. split; [intros n x|intros x|intros x|]; rewrite ?markEdge_source, ?markEdge_target; apply HL.
Qed.

Lemma markEdge_remaining e d : Linked d -> e ∈ _edges d ->
  (remaining (markEdge e d) + edgeCost d e = remaining d)%nat.
Proof.
  intros HL He. unfold remaining.
  pose proof (sum_list_with_one (edgeCost (markEdge e d)) (edgeCost d) e (_edges d)
    (lk_edges _ HL) He) as H.
  assert (edgeCost (markEdge e d) e = 0)%nat as E0.
  { unfold edgeCost, markEdge. by rewrite ed_updEdge_eq. }
  rewrite E0, Nat.add_0_r in H. apply H. intros x _ Hx. unfold edgeCost. by rewrite markEdge_ne.
Qed.

(** Splitting the edge just marked. *)
Section SplitOfMarked.
Context (f : EdgeId) (nb : BlockId) (d d' : BLInstrumentationDag) (new : NodeId) (g : EdgeId).
Context (HL : Linked d) (Hf : f ∈ _edges d) (HS : SplitOf f nb d d' new g).

Lemma stored_not_new n : is_Some (nodeStore d !! n) -> n <> new.
Proof. intros [x Hx] ->. by rewrite (sp_node _ _ _ _ _ _ HS) in Hx. Qed.

Lemma split_source e : e ∈ _edges d -> getSource (ed d' e) = getSource (ed d e).
Proof.
  intros He. destruct (decide (e = f)) as [->|Hne]; [by apply (sp_former_source _ _ _ _ _ _ HS)|].
  by rewrite (sp_other _ _ _ _ _ _ HS).
Qed.

Lemma split_succ_in n e : e ∈ succEdges (nd d' n) -> e ∈ _edges d' /\ getSource (ed d' e) = n.
Proof.
  rewrite (sp_edges _ _ _ _ _ _ HS). destruct (decide (n = new)) as [->|Hn].
  - rewrite (sp_new_succ _ _ _ _ _ _ HS). intros ->%list_elem_of_singleton.
    split; [set_solver|by apply (sp_new_source _ _ _ _ _ _ HS)].
  - rewrite (sp_succ _ _ _ _ _ _ HS) by done. intros He. destruct (lk_succ _ HL n e He) as [He' <-].
    split; [set_solver|by apply split_source].
Qed.

Lemma split_cost_old e : e ∈ _edges d -> e <> f -> edgeCost d' e = edgeCost d e.
Proof.
  intros He Hne. unfold edgeCost. rewrite (sp_other _ _ _ _ _ _ HS) by done.
  by rewrite (sp_succ _ _ _ _ _ _ HS) by (apply stored_not_new, (lk_source _ HL), He).
Qed.

Lemma split_remaining : hasInstrumentation (ed d f) = true ->
  remaining d' = S (remaining d).
Proof.
  intros Hd. unfold remaining. rewrite (sp_edges _ _ _ _ _ _ HS), sum_list_with_app. simpl.
  rewrite (sum_list_with_ext (edgeCost d') (edgeCost d)).
  - assert (edgeCost d' g = 1)%nat as ->; [|lia]. unfold edgeCost.
    destruct (sp_new_marks _ _ _ _ _ _ HS) as (_ & _ & _ & ->).
    by rewrite (sp_new_source _ _ _ _ _ _ HS), (sp_new_succ _ _ _ _ _ _ HS).
  - intros e He. destruct (decide (e = f)) as [->|Hne]; [|by apply split_cost_old].
    unfold edgeCost. by rewrite (sp_former_done _ _ _ _ _ _ HS), Hd.
Qed.

Lemma split_linked : Linked d'.
Proof.
  assert (forall e, e ∈ _edges d' -> e = g \/ e ∈ _edges d) as Hcase.
  { intros e. rewrite (sp_edges _ _ _ _ _ _ HS), elem_of_app, list_elem_of_singleton. tauto. }
  split; [apply split_succ_in| | |].
  - intros e [->|He]%Hcase; apply (sp_stored _ _ _ _ _ _ HS).
    + right. apply (sp_new_source _ _ _ _ _ _ HS).
    + left. rewrite split_source by done. by apply (lk_source _ HL).
  - intros e [->|He]%Hcase; apply (sp_stored _ _ _ _ _ _ HS).
    + left. rewrite (sp_new_target _ _ _ _ _ _ HS). by apply (lk_target _ HL).
    + destruct (decide (e = f)) as [->|Hne]; [right; apply (sp_former_target _ _ _ _ _ _ HS)|].
      left. rewrite (sp_other _ _ _ _ _ _ HS) by done. by apply (lk_target _ HL).
  - rewrite (sp_edges _ _ _ _ _ _ HS). apply NoDup_app. split_and!; [apply HL| |apply NoDup_singleton].
    intros e He ->%list_elem_of_singleton. by apply (sp_fresh _ _ _ _ _ _ HS).
Qed.

End SplitOfMarked.

(** Marking an edge and splitting it: the edge is instrumented, and less
    remains to be done. *)
Record entered (e : EdgeId) (st st' : PassState) : Prop := {
  en_advanced : advanced (eq e) st st';
  en_here : instrumented (dag st') e;
  en_less : (remaining (dag st') < remaining (dag st))%nat;
  en_warnings : warnings st' = warnings st
}.

Lemma Good_dag st d : Good st -> (forall n, getPathPHI (nd d n) = getPathPHI (nd (dag st) n) \/
  getPathPHI (nd d n) = None) -> Good (setDag d st).
Proof.
  intros [HV HP] Hd. split; [done|]. intros n phi Hphi. simpl in *.
  destruct (Hd n) as [E|E]; rewrite E in Hphi; [by apply (HP n)|done].
Qed.

Lemma mark_entered e st : Linked (dag st) -> Good st -> e ∈ _edges (dag st) ->
  hasInstrumentation (ed (dag st) e) = false -> entered e st (setDag (markEdge e (dag st)) st).
Proof.
  intros HL HG He Hd.
  assert (remaining (markEdge e (dag st)) < remaining (dag st))%nat as Hlt.
  { pose proof (markEdge_remaining e (dag st) HL He) as H.
    unfold edgeCost in H. rewrite Hd in H. case_decide; lia. }
  assert (forall x, x <> e -> ed (markEdge e (dag st)) x = ed (dag st) x) as Hne by (intros; by apply markEdge_ne).
  split; [split; try done| |done|done].
  - by apply markEdge_linked.
  - apply extends_refl, HG.
  - simpl. lia.
  - intros x [_ Hx]. apply Hne. intros ->. congruence.
  - exists []. by rewrite app_nil_r.
  - intros _ x Hex [Hx Hx'] Hn. destruct Hn. simpl in Hx'. rewrite Hne in Hx' by congruence. done.
  - split; [done|]. simpl. unfold markEdge. by rewrite ed_updEdge_eq.
Qed.


Lemma split_advanced e nb st st1 s : entered e st st1 ->
  dag st1 = markEdge e (dag st) -> fn st1 = fn st -> Linked (dag st) -> Good st -> e ∈ _edges (dag st) ->
  edgeCost (dag st) e = 2%nat -> extends (fn st1) s ->
  entered e st (setDag (splitUpdate e nb (dag st1)) (setFn s st1)).
Proof.
  intros HEn Ed Efn HL HG He Hcost HE.
  assert (Linked (dag st1)) as HL1 by apply HEn.
  assert (e ∈ _edges (dag st1)) as He1 by (by rewrite Ed).
  assert (hasInstrumentation (ed (dag st1) e) = true) as Hi by apply HEn.
  destruct (splitUpdate_spec e nb (dag st1) HL1 He1) as (new & g & HS).
  set (d' := splitUpdate e nb (dag st1)) in *.
  assert (remaining d' < remaining (dag st))%nat as Hlt.
  { rewrite (split_remaining e nb (dag st1) d' new g HL1 HS Hi).
    pose proof (markEdge_remaining e (dag st) HL He). rewrite <- Ed in *. lia. }
  assert (instrumented d' e) as Hie.
  { split; [rewrite (sp_edges _ _ _ _ _ _ HS); set_solver|].
    by rewrite (sp_former_done _ _ _ _ _ _ HS). }
  split; [split| |done|apply HEn]; simpl; try done.
  - by eapply split_linked.
  - apply Good_dag.
    + eapply placed_good, placed_setFn; [apply (ad_good _ _ _ (en_advanced _ _ _ HEn))|done].
    + intros n. destruct (decide (n = new)) as [->|Hn]; [right; apply HS|left; by apply (sp_attr _ _ _ _ _ _ HS)].
  - by rewrite <- Efn.
  - lia.
  - destruct (sp_paths _ _ _ _ _ _ HS) as [-> ->]. by rewrite Ed.
  - intros x Hx. rewrite (sp_edges _ _ _ _ _ _ HS), Ed. set_solver.
  - intros x Hx. destruct (decide (x = e)) as [->|Hne].
    + destruct Hx as [_ Hx]. unfold edgeCost in Hcost. by rewrite Hx in Hcost.
    + rewrite (sp_other _ _ _ _ _ _ HS); [|rewrite Ed; apply Hx|done]. rewrite Ed. by apply markEdge_ne.
  - intros n Hn. assert (is_Some (nodeStore (dag st1) !! n)) as Hn1 by (by rewrite Ed).
    split; [apply (sp_stored _ _ _ _ _ _ HS); by left|].
    rewrite (sp_succ _ _ _ _ _ _ HS); [by rewrite Ed|by eapply stored_not_new].
  - rewrite (en_warnings _ _ _ HEn). exists []. by rewrite app_nil_r.
  - intros _ x Hex [Hx Hx'] Hn. destruct Hn. rewrite (sp_edges _ _ _ _ _ _ HS), elem_of_app in Hx.
    destruct Hx as [Hx| ->%list_elem_of_singleton].
    + rewrite (sp_other _ _ _ _ _ _ HS), Ed, markEdge_ne in Hx' by congruence.
      split; [by rewrite Ed in Hx|done].
    + destruct (sp_new_marks _ _ _ _ _ _ HS) as (_ & _ & _ & E). congruence.
Qed.

Lemma Good_setFn st s : Good st -> extends (fn st) s -> Good (setFn s st).
Proof. intros HG HE. eapply placed_good, placed_setFn; [apply HG|done]. Qed.

Lemma entered_setFn e st st1 s : entered e st st1 -> extends (fn st1) s -> entered e st (setFn s st1).
Proof.
  intros [HA Hh Hl Hw] HE. split; try done. destruct HA. split; try done.
  - by apply Good_setFn.
  - by eapply extends_trans.
Qed.

Lemma splitCritical_entered e st ok st' : Linked (dag st) -> Good st -> e ∈ _edges (dag st) ->
  hasInstrumentation (ed (dag st) e) = false ->
  splitCritical e (setDag (markEdge e (dag st)) st) = (ok, st') -> entered e st st'.
Proof.
  intros HL HG He Hd H. pose proof (mark_entered e st HL HG He Hd) as HEn.
  unfold splitCritical in H. set (st1 := setDag (markEdge e (dag st)) st) in *.
  destruct (getBlock _) as [sb|]; [|by injection H as <- <-].
  destruct (getBlock _) as [tb|]; [|by injection H as <- <-].
  case_decide as Hs; [by injection H as <- <-|].
  case_decide; [by injection H as <- <-|]. destruct (isIndirectBr _ _); [by injection H as <- <-|].
  destruct (SplitCriticalEdge _ _ _) as [s|] eqn:Es; [|by injection H as <- <-].
  assert (extends (fn st1) s) as HE by (eapply split_extends; [apply HG|exact Es]).
  destruct (successors s sb !! _) as [nb|]; injection H as <- <-; [|by apply entered_setFn].
  apply (split_advanced e nb st st1 s); try done.
  unfold edgeCost. rewrite Hd. unfold getNumberSuccEdges in Hs. simpl in Hs.
  rewrite markEdge_source in Hs. unfold markEdge in Hs. rewrite nd_updEdge in Hs. by rewrite decide_False.
Qed.

Lemma placed_ed st st' e : placed st st' -> ed (dag st') e = ed (dag st) e.
Proof. intros HP. unfold ed. by rewrite (pl_edgeStore _ _ HP). Qed.

Lemma placed_linked st st' : placed st st' -> Linked (dag st) -> Linked (dag st').
Proof.
  intros HP HL. split.
  - intros n e. rewrite (sn_succ _ _ (pl_shape _ _ HP n)), (placed_ed _ _ _ HP), (pl_edges _ _ HP). apply HL.
  - intros e. rewrite (placed_ed _ _ _ HP), (pl_edges _ _ HP). intros He. by apply (pl_stored _ _ HP), HL.
  - intros e. rewrite (placed_ed _ _ _ HP), (pl_edges _ _ HP). intros He. by apply (pl_stored _ _ HP), HL.
  - rewrite (pl_edges _ _ HP). apply HL.
Qed.

Lemma placed_instrumented st st' e : placed st st' -> instrumented (dag st') e <-> instrumented (dag st) e.
Proof. intros HP. unfold instrumented. by rewrite (placed_ed _ _ _ HP), (pl_edges _ _ HP). Qed.

Lemma placed_remaining st st' : placed st st' -> remaining (dag st') = remaining (dag st).
Proof.
  intros HP. unfold remaining. rewrite (pl_edges _ _ HP). apply sum_list_with_ext. intros e _.
  unfold edgeCost. by rewrite (placed_ed _ _ _ HP), (sn_succ _ _ (pl_shape _ _ HP _)).
Qed.

Lemma placed_advanced ex st st' : placed st st' -> Linked (dag st) -> advanced ex st st'.
Proof.
  intros HP HL. split.
  - by eapply placed_linked.
  - by eapply placed_good.
  - apply HP.
  - by rewrite (placed_remaining _ _ HP).
  - split; [apply HP|apply HP].
  - intros e. by rewrite (pl_edges _ _ HP).
  - intros e _. by apply placed_ed.
  - intros n Hn. split; [by apply (pl_stored _ _ HP)|by rewrite (sn_succ _ _ (pl_shape _ _ HP n))].
  - exists []. by rewrite (pl_warnings _ _ HP), app_nil_r.
  - intros _ e _ He Hn. by rewrite placed_instrumented in He.
Qed.

Lemma warn_advanced ex w st : Linked (dag st) -> Good st -> advanced ex st (warn w st).
Proof.
  intros HL HG. split; try done.
  - apply extends_refl, HG.
  - by exists [w].
Qed.

(** What the traversal promises from one edge on. *)
Definition traverses (fuel : nat) : Prop := forall e st,
  Linked (dag st) -> Good st -> e ∈ _edges (dag st) -> hasInstrumentation (ed (dag st) e) = false ->
  (remaining (dag st) <= fuel)%nat ->
  match insertInstrumentationStartingAt fuel e st with
  | Ok st' => advanced none st st' /\ instrumented (dag st') e
  | Err x => x <> OutOfFuel
  end.

(** The loop over the successors of a target. *)
Lemma successors_loop fuel l st : traverses fuel -> Linked (dag st) -> Good st ->
  (forall x, x ∈ l -> x ∈ _edges (dag st)) -> (remaining (dag st) <= fuel)%nat ->
  match foldR (fun st next =>
           if hasInstrumentation (ed (dag st) next) then Ok st
           else insertInstrumentationStartingAt fuel next st) st l with
  | Ok st' => advanced none st st' /\ forall x, x ∈ l -> instrumented (dag st') x
  | Err x => x <> OutOfFuel
  end.
Proof.
  intros HT. revert st. induction l as [|x l IH]; intros st HL HG Hl Hr; cbn [foldR].
  { split; [by apply advanced_refl|]. intros x Hx. by apply not_elem_of_nil in Hx. }
  assert (x ∈ _edges (dag st)) as Hx by (apply Hl; by left).
  assert (exists r, (if hasInstrumentation (ed (dag st) x) then Ok st
            else insertInstrumentationStartingAt fuel x st) = r /\
          match r with Ok st' => advanced none st st' /\ instrumented (dag st') x | Err e => e <> OutOfFuel end)
    as (r & -> & Hr').
  { destruct (hasInstrumentation (ed (dag st) x)) eqn:E.
    - exists (Ok st). split; [done|]. by split; [apply advanced_refl|].
    - eexists. split; [done|]. by apply HT. }
  destruct r as [st1|err]; [|exact Hr']. destruct Hr' as [HA Hi]. cbn [mbind result_bind].
  specialize (IH st1 (ad_linked _ _ _ HA) (ad_good _ _ _ HA)
    ltac:(intros y Hy; apply (ad_edges _ _ _ HA), Hl; by right)
    ltac:(pose proof (ad_remaining _ _ _ HA); lia)).
  destruct (foldR _ st1 l) as [st2|err]; [|exact IH]. destruct IH as [HA2 Hl2].
  split; [by eapply advanced_trans|]. intros y [->|Hy]%elem_of_cons; [|by apply Hl2].
  by eapply advanced_instrumented.
Qed.

(** Everything that happens at the edge itself, before its successors. *)
Lemma placeEdge_entered e st st1 ok st2 : entered e st st1 -> placeEdge e st1 = Ok (ok, st2) ->
  advanced (eq e) st st2 /\ instrumented (dag st2) e /\ (remaining (dag st2) < remaining (dag st))%nat /\
  getTarget (ed (dag st2) e) = getTarget (ed (dag st1) e) /\ (ok = false -> warnings st2 <> warnings st).
Proof.
  intros [HA Hi Hr Hw] H. pose proof (ad_linked _ _ _ HA) as HL. pose proof (ad_good _ _ _ HA) as HG.
  apply placeEdge_placed in H as [[-> HP]|[-> ->]]; [| |done].
  - split_and!.
    + eapply advanced_trans; [exact HA|by apply placed_advanced].
    + by rewrite placed_instrumented.
    + by rewrite (placed_remaining _ _ HP).
    + by rewrite (placed_ed _ _ _ HP).
    + done.
  - split_and!; try done.
    + eapply advanced_trans; [exact HA|by apply warn_advanced].
    + intros _. simpl. rewrite Hw. apply app_not_self.
Qed.

(** *** Only the recursion runs out of fuel *)

Definition noFuel {A} (r : result A) : Prop := r <> Err OutOfFuel.

Lemma noFuel_bind {A C} (r : result A) (f : A -> result C) :
  noFuel r -> (forall a, noFuel (f a)) -> noFuel (a ← r; f a).
Proof. intros Hr Hf. destruct r as [a|e]; [apply Hf|]. intros [= ->]. by apply Hr. Qed.

Lemma noFuel_Ok {A} (a : A) : noFuel (Ok a).
Proof. done. Qed.
Lemma noFuel_assert b : noFuel (assert b).
Proof. by destruct b. Qed.
Lemma noFuel_deref {A} (p : option A) : noFuel (deref p).
Proof. by destruct p. Qed.
Lemma noFuel_iter p : noFuel (iter p).
Proof. by destruct p. Qed.

Ltac nofuel :=
  repeat first
    [ apply noFuel_Ok | apply noFuel_assert | apply noFuel_deref | apply noFuel_iter
    | apply noFuel_bind; [|intros ?]
    | match goal with
      | |- noFuel (match ?p with _ => _ end) => destruct p
      | |- noFuel (if ?p then _ else _) => destruct p
      | |- noFuel (let '(_, _) := ?p in _) => destruct p
      | |- noFuel (Err _) => discriminate
      end
    | progress cbn zeta ].

Lemma noFuel_createAt i p st : noFuel (createAt i p st).
Proof. unfold createAt. nofuel. Qed.
Lemma noFuel_createAdd l r p st : noFuel (createAdd l r p st).
Proof. unfold createAdd. nofuel. all: apply noFuel_createAt. Qed.
Lemma noFuel_counter v p b st : noFuel (insertCounterIncrement v p b st).
Proof. unfold insertCounterIncrement. nofuel. all: apply noFuel_createAt. Qed.

Lemma noFuel_push u t st : noFuel (pushValueIntoNode u t st).
Proof.
  unfold pushValueIntoNode, preparePHI, pushValueIntoPHI. nofuel. all: apply noFuel_createAt.
Qed.

Lemma noFuel_placeEdge e st : noFuel (placeEdge e st).
Proof.
  unfold placeEdge, instrumentEdge, instrumentCutEdge, instrumentNormalEdge. nofuel.
  all: apply noFuel_push || apply noFuel_createAdd || apply noFuel_counter.
Qed.

Lemma traverses_all fuel : traverses fuel.
Proof.
  induction fuel as [|fuel IH]; intros e st HL HG He Hd Hr; cbn [insertInstrumentationStartingAt].
  - exfalso. pose proof (en_less _ _ _ (mark_entered e st HL HG He Hd)). lia.
  - fold (markEdge e (dag st)).
    destruct (splitCritical e (setDag (markEdge e (dag st)) st)) as [ok st1] eqn:Es.
    pose proof (splitCritical_entered e st ok st1 HL HG He Hd Es) as HEn.
    pose proof (en_advanced _ _ _ HEn) as HA1.
    destruct ok; cbn [negb].
    2:{ split; [|apply HEn].
        pose proof (warn_advanced none CantInstrument st1 (ad_linked _ _ _ HA1) (ad_good _ _ _ HA1)) as HW.
        pose proof (advanced_trans _ _ _ _ HA1 HW) as HA. destruct HA. split; try done.
        intros E. simpl in E. rewrite (en_warnings _ _ _ HEn) in E. by apply app_not_self in E. }
    destruct (placeEdge e st1) as [[ok st2]|err] eqn:Ep.
    2:{ intros ->. by eapply noFuel_placeEdge. }
    destruct (placeEdge_entered e st st1 ok st2 HEn Ep) as (HA2 & Hi2 & Hr2 & Ht2 & Hw2).
    cbn [mbind result_bind]. destruct ok.
    2:{ split; [|done]. destruct HA2. split; try done. intros E. by destruct (Hw2 eq_refl E). }
    pose proof (successors_loop fuel (succEdges (nd (dag st2) (getTarget (ed (dag st1) e)))) st2 IH
      (ad_linked _ _ _ HA2) (ad_good _ _ _ HA2)) as HLp.
    destruct (foldR _ st2 _) as [st3|err]; [|apply HLp; [intros x Hx; by apply (lk_succ _ (ad_linked _ _ _ HA2) _ _ Hx)|lia]].
    destruct HLp as [HA3 Hl3]; [intros x Hx; by apply (lk_succ _ (ad_linked _ _ _ HA2) _ _ Hx)|lia|].
    pose proof (advanced_trans _ _ _ _ HA2 HA3) as HA.
    assert (instrumented (dag st3) e) as Hi3 by (exact (advanced_instrumented _ _ _ _ HA3 Hi2)).
    split; [|done]. destruct HA. split; try done.
    intros E x _ Hx Hn. destruct (decide (x = e)) as [->|Hne]; [|by apply ad_followed0; [|congruence| |]].
    intros y. rewrite (ad_done _ _ _ HA3 e Hi2).
    rewrite (proj2 (ad_node _ _ _ HA3 _ (lk_target _ (ad_linked _ _ _ HA2) e (proj1 Hi2)))), Ht2.
    apply Hl3.
Qed.

Lemma noFuel_callEdge st e : noFuel (instrumentCallEdge st e).
Proof.
  unfold instrumentCallEdge. nofuel.
  all: apply noFuel_createAdd || apply noFuel_counter.
Qed.

Lemma callEdges_loop l st : Linked (dag st) -> Good st ->
  match foldR instrumentCallEdge st l with
  | Ok st' => advanced none st st'
  | Err x => x <> OutOfFuel
  end.
Proof.
  revert st. induction l as [|e l IH]; intros st HL HG; cbn [foldR]; [by apply advanced_refl|].
  destruct (instrumentCallEdge st e) as [st1|err] eqn:E.
  2:{ intros ->. by eapply noFuel_callEdge. }
  cbn [mbind result_bind].
  pose proof (placed_advanced none _ _ (instrumentCallEdge_placed _ _ _ HG E) HL) as HA.
  specialize (IH st1 (ad_linked _ _ _ HA) (ad_good _ _ _ HA)).
  destruct (foldR _ st1 l); [by eapply advanced_trans|done].
Qed.

(** The traversal as a whole, from the edge that closes the DAG. *)
Lemma insertInstrumentation_advanced fuel st er : Linked (dag st) -> Good st ->
  getExitRootEdge (dag st) = Some er -> er ∈ _edges (dag st) ->
  hasInstrumentation (ed (dag st) er) = false -> (2 * length (_edges (dag st)) <= fuel)%nat ->
  match insertInstrumentation fuel st with
  | Ok st' => advanced none st st' /\ instrumented (dag st') er
  | Err x => x <> OutOfFuel
  end.
Proof.
  intros HL HG Her Hin Hd Hf. unfold insertInstrumentation. rewrite Her. cbn [deref mbind result_bind].
  pose proof (remaining_bound (dag st)) as Hb.
  pose proof (traverses_all fuel er st HL HG Hin Hd ltac:(lia)) as HT.
  destruct (insertInstrumentationStartingAt fuel er st) as [st1|err]; [|exact HT].
  destruct HT as [HA Hi]. cbn [mbind result_bind].
  pose proof (callEdges_loop (getCallPhonyEdges (dag st1)) st1 (ad_linked _ _ _ HA) (ad_good _ _ _ HA)) as HC.
  destruct (foldR _ st1 _) as [st2|err]; [|exact HC].
  split; [by eapply advanced_trans|by eapply advanced_instrumented].
Qed.

End Traversal.

(** ** Properties of the insertion *)

(** The edges the traversal can reach: from an edge to the successors of its
    target. *)
Inductive reached (d : BLInstrumentationDag) (er : EdgeId) : EdgeId -> Prop :=
  | reached_er : reached d er er
  | reached_next e x : reached d er e -> x ∈ succEdges (nd d (getTarget (ed d e))) -> reached d er x.

(** What [runOnFunction] starts the insertion with: a linked DAG none of whose
    edges is instrumented and none of whose nodes has a PHI node, and a
    function of LLVM's. *)
Record Fresh `{LS : !LLVMSpec L} (d : BLInstrumentationDag) (s : Fn) (er : EdgeId) : Prop := {
  fr_linked : Linked d;
  fr_valid : valid s;
  fr_exit : getExitRootEdge d = Some er;
  fr_er : er ∈ _edges d;
  fr_done e : hasInstrumentation (ed d e) = false;
  fr_phi n : getPathPHI (nd d n) = None
}.

Lemma Fresh_advanced `{LS : !LLVMSpec L} `{BS : !BallLarusOpsSpec B} d s er fuel :
  Fresh d s er -> (2 * length (_edges d) <= fuel)%nat ->
  match insertInstrumentation fuel (MkPass d s []) with
  | Ok st' => advanced none (MkPass d s []) st' /\ instrumented (dag st') er
  | Err x => x <> OutOfFuel
  end.
Proof.
  intros HF Hfuel. apply insertInstrumentation_advanced; simpl; try apply HF; [|done].
  split; [apply HF|]. intros n phi Hphi. simpl in Hphi. by rewrite (fr_phi _ _ _ HF) in Hphi.
Qed.

Lemma reached_instrumented `{LS : !LLVMSpec L} `{BS : !BallLarusOpsSpec B} d s er st' e :
  Fresh d s er -> advanced none (MkPass d s []) st' -> instrumented (dag st') er ->
  warnings st' = [] -> reached (dag st') er e -> hasInstrumentation (ed (dag st') e) = true.
Proof.
  intros HF HA Hi Hw He. cut (instrumented (dag st') e); [by intros [_ ?]|].
  induction He as [|e x He IH Hx]; [done|].
  apply (ad_followed _ _ _ HA Hw e); [intros []|done| |done].
  intros [_ Hd]. simpl in Hd. by rewrite (fr_done _ _ _ HF) in Hd.
Qed.

(** ** The example, instrumented *)

Definition checkLinked (d : BLInstrumentationDag) : bool :=
  bool_decide (NoDup (_edges d)) &&
  forallb (fun n => bool_decide (Forall (fun e => e ∈ _edges d /\ getSource (ed d e) = n) (succEdges (nd d n))))
    (map_to_list (nodeStore d)).*1 &&
  forallb (fun e => bool_decide (is_Some (nodeStore d !! getSource (ed d e)) /\
                                 is_Some (nodeStore d !! getTarget (ed d e)))) (_edges d).

Lemma checkLinked_sound d : checkLinked d = true -> Linked d.
Proof.
  intros H. apply andb_true_iff in H as [[H1 H2]%andb_true_iff H3].
  apply bool_decide_eq_true in H1. rewrite forallb_forall in H2. rewrite forallb_forall in H3.
  assert (forall e, e ∈ _edges d -> is_Some (nodeStore d !! getSource (ed d e)) /\
    is_Some (nodeStore d !! getTarget (ed d e))) as H4.
  { intros e He. specialize (H3 e ltac:(by apply list_elem_of_In)). by apply bool_decide_eq_true in H3. }
  split; [|by apply H4|by apply H4|done].
  intros n e He. destruct (nodeStore d !! n) as [x|] eqn:E.
  - assert (n ∈ (map_to_list (nodeStore d)).*1) as Hn.
    { apply list_elem_of_fmap. exists (n, x). split; [done|]. by apply elem_of_map_to_list. }
    specialize (H2 n ltac:(by apply list_elem_of_In)). apply bool_decide_eq_true in H2.
    rewrite Forall_forall in H2. by apply H2.
  - unfold nd in He. rewrite lookup_total_alt, E in He. by apply not_elem_of_nil in He.
Qed.

(** No edge instrumented, no node with a PHI node. *)
Definition checkFresh (d : BLInstrumentationDag) : bool :=
  forallb (fun e => negb (hasInstrumentation e)) (map_to_list (edgeStore d)).*2 &&
  forallb (fun n => bool_decide (getPathPHI n = None)) (map_to_list (nodeStore d)).*2.

Lemma checkFresh_sound d : checkFresh d = true ->
  (forall e, hasInstrumentation (ed d e) = false) /\ (forall n, getPathPHI (nd d n) = None).
Proof.
  intros [H1 H2]%andb_true_iff. rewrite forallb_forall in H1. rewrite forallb_forall in H2. split.
  - intros e. unfold ed. rewrite lookup_total_alt. destruct (edgeStore d !! e) as [x|] eqn:E; [|done].
    apply negb_true_iff, H1, list_elem_of_In, list_elem_of_fmap. exists (e, x).
    split; [done|]. by apply elem_of_map_to_list.
  - intros n. unfold nd. rewrite lookup_total_alt. destruct (nodeStore d !! n) as [x|] eqn:E; [|done].
    apply (bool_decide_eq_true_1 _), H2, list_elem_of_In, list_elem_of_fmap. exists (n, x).
    split; [done|]. by apply elem_of_map_to_list.
Qed.

(** The function of [exampleLoop]: every block ends in its terminator, the
    blocks with several predecessors start with a PHI node. *)
Definition exampleFn : ListFn := MkFn
  (list_to_map [(0, [100; 101]); (1, [102; 103]); (2, [104; 105]); (3, [106; 107]); (4, [108])])%nat
  (list_to_map [(100, OriginalOther); (101, OriginalOther); (102, OriginalPHI); (103, OriginalOther);
                (104, OriginalCall); (105, OriginalOther); (106, OriginalPHI); (107, OriginalOther);
                (108, OriginalOther)])%nat
  (list_to_map [(0, [1]); (1, [2; 3]); (2, [3]); (3, [1; 4])])%nat.

Lemma exampleFn_valid : ListValid exampleFn.
Proof.
  assert (forall b, b ∈ [0; 1; 2; 3; 4]%nat \/ blockInsts exampleFn b = []) as Hb.
  { intros b. destruct (decide (b ∈ [0; 1; 2; 3; 4]%nat)) as [H|H]; [by left|right].
    unfold blockInsts, exampleFn. cbn [blocks]. by rewrite not_elem_of_list_to_map_1. }
  assert (forall P : BlockId -> Prop, Forall P [0; 1; 2; 3; 4]%nat ->
    (forall b, blockInsts exampleFn b = [] -> P b) -> forall b, P b) as all.
  { intros P HP H0 b. destruct (Hb b) as [H|H]; [|by apply H0]. rewrite Forall_forall in HP. by apply HP. }
  split.
  - intros b. apply (all (fun b => forall i, i ∈ blockInsts exampleFn b -> i ∈ dom (instrs exampleFn))).
    + assert (Forall (fun b => Forall (fun i => i ∈ dom (instrs exampleFn)) (blockInsts exampleFn b))
        [0; 1; 2; 3; 4]%nat) as H by (apply (bool_decide_unpack _); by vm_compute).
      eapply Forall_impl; [exact H|]. intros c Hc. by rewrite Forall_forall in Hc.
    + intros c ->. intros i Hi. by apply not_elem_of_nil in Hi.
  - apply all; [apply (bool_decide_unpack _); by vm_compute|]. intros b ->. constructor.
  - intros b c i Hi Hc. destruct (Hb b) as [H1|H1]; [|rewrite H1 in Hi; by apply not_elem_of_nil in Hi].
    destruct (Hb c) as [H2|H2]; [|rewrite H2 in Hc; by apply not_elem_of_nil in Hc].
    assert (Forall (fun b => Forall (fun c => Forall (fun i => i ∈ blockInsts exampleFn c -> b = c)
      (blockInsts exampleFn b)) [0; 1; 2; 3; 4]%nat) [0; 1; 2; 3; 4]%nat) as H
      by (apply (bool_decide_unpack _); by vm_compute).
    rewrite Forall_forall in H. specialize (H b H1). rewrite Forall_forall in H. specialize (H c H2).
    rewrite Forall_forall in H. exact (H i Hi Hc).
  - apply (all (fun b => forall t, last (blockInsts exampleFn b) = Some t -> isPHI (instOf exampleFn t) = false)).
    + repeat (constructor; [intros t Ht; vm_compute in Ht; by injection Ht as <-|]). constructor.
    + intros c ->. done.
Qed.

(** The example marked, its phony edges unlinked. *)
Definition exampleMarked : BLInstrumentationDag :=
  match markDag exampleLoop with Some d => unlinkPhony d | None => exampleLoop end.

Lemma exampleMarked_fresh : Fresh exampleMarked (exampleFn : @Fn ListLLVM) 0%nat.
Proof.
  destruct (checkFresh_sound exampleMarked) as [H1 H2]; [by vm_compute|].
  split; [apply checkLinked_sound; by vm_compute|exact exampleFn_valid|by vm_compute| |done|done].
  apply (bool_decide_unpack _). by vm_compute.
Qed.

(** A run known to succeed. *)
Definition isOk {A} (r : result A) : bool := match r with Ok _ => true | Err _ => false end.

Definition resultOr {A} (a : A) (r : result A) : A := match r with Ok a' => a' | Err _ => a end.

Lemma isOk_eq {A} (a : A) r : isOk r = true -> r = Ok (resultOr a r).
Proof. by destruct r. Qed.

#[local] Abbreviation exampleState := (MkPass exampleMarked (exampleFn : @Fn ListLLVM) []).
#[local] Abbreviation exampleRun := (insertInstrumentation (2 * length (_edges exampleMarked)) exampleState).

Lemma exampleRun_eq : exampleRun = Ok (resultOr exampleState exampleRun).
Proof. apply isOk_eq. by vm_compute. Qed.

(** C13: the recursion of the insertion terminates: whatever the marks, the
    function and the splits LLVM performs, a depth of twice the number of DAG
    edges is enough, although every split adds an edge. *)
Theorem insertion_terminates `{LS : !LLVMSpec L} `{BS : !BallLarusOpsSpec B} d s er :
  Fresh d s er ->
  insertInstrumentation (2 * length (_edges d)) (MkPass d s []) <> Err OutOfFuel.
Proof.
  intros HF. pose proof (Fresh_advanced d s er _ HF (le_n _)) as H.
  by destruct (insertInstrumentation _ _); [|intros [= ->]].
Qed.

Lemma insertion_terminates_witness :
  exampleRun <> Err OutOfFuel.
Proof. exact (insertion_terminates exampleMarked (exampleFn : @Fn ListLLVM) 0%nat exampleMarked_fresh). Defined.

(** C14: when the insertion succeeds and no warning was printed, every edge
    that can be reached from the entry of the DAG, the edges added by splits
    included, has been instrumented, and the successors of the original nodes
    are what they were. *)
Theorem insertion_covers_every_edge `{LS : !LLVMSpec L} `{BS : !BallLarusOpsSpec B} d s er st' e :
  Fresh d s er ->
  insertInstrumentation (2 * length (_edges d)) (MkPass d s []) = Ok st' ->
  warnings st' = [] -> reached (dag st') er e ->
  hasInstrumentation (ed (dag st') e) = true /\
  forall n, is_Some (nodeStore d !! n) -> succEdges (nd (dag st') n) = succEdges (nd d n).
Proof.
  intros HF E Hw He. pose proof (Fresh_advanced d s er _ HF (le_n _)) as H. rewrite E in H.
  destruct H as [HA Hi]. split; [by eapply reached_instrumented|].
  intros n Hn. by apply (ad_node _ _ _ HA).
Qed.

Lemma insertion_covers_every_edge_witness :
  hasInstrumentation (ed (dag (resultOr exampleState exampleRun)) 1%nat) = true /\
  forall n, is_Some (nodeStore exampleMarked !! n) ->
    succEdges (nd (dag (resultOr exampleState exampleRun)) n) = succEdges (nd exampleMarked n).
Proof.
  apply (insertion_covers_every_edge exampleMarked (exampleFn : @Fn ListLLVM) 0%nat
           (resultOr exampleState exampleRun) 1%nat exampleMarked_fresh exampleRun_eq).
  - vm_compute. reflexivity.
  - eapply reached_next; [apply reached_er|]. apply (bool_decide_unpack _). by vm_compute.
Defined.

(** C15: the insertion only adds code: every block keeps its instructions in
    their order, and no original instruction is changed, except that operands
    of PHI nodes may be renamed when their edge is split. *)
Theorem insertion_keeps_the_code `{LS : !LLVMSpec L} `{BS : !BallLarusOpsSpec B} d s er st' b i :
  Fresh d s er ->
  insertInstrumentation (2 * length (_edges d)) (MkPass d s []) = Ok st' ->
  sublist (insts s b) (insts (fn st') b) /\
  (i ∈ insts s b -> isPHI (inst s i) = false -> inst (fn st') i = inst s i).
Proof.
  intros HF E. pose proof (Fresh_advanced d s er _ HF (le_n _)) as H. rewrite E in H.
  destruct H as [HA _]. pose proof (ad_fn _ _ _ HA) as HE.
  split; [apply (ext_insts _ _ HE)|apply (ext_inst _ _ HE)].
Qed.

Lemma insertion_keeps_the_code_witness :
  sublist [104%nat; 105%nat] (insts (fn (resultOr exampleState exampleRun)) 2%nat) /\
  inst (fn (resultOr exampleState exampleRun)) 104%nat = OriginalCall.
Proof.
  destruct (insertion_keeps_the_code exampleMarked (exampleFn : @Fn ListLLVM) 0%nat (resultOr exampleState exampleRun)
    2%nat 104%nat exampleMarked_fresh exampleRun_eq) as [H1 H2].
  split; [exact H1|]. apply H2; [apply (bool_decide_unpack _); by vm_compute|reflexivity].
Defined.
