(* ===== verification/Dot.v ===== *)
(** * Printing the DAG

    [BLInstrumentationDag::generateDotGraph] and the [operator<<] of edges
    (src/PathLogging.cpp), as functions from the DAG to the text they write,
    and a reader of the graph's lines: what is written tells source, target,
    type and increment of every edge.  The names of nodes and of the function
    are LLVM's; [errorInfo] is what opening the file sets. *)

From Stdlib Require Import Ascii String.
From stdpp Require Import base numbers list gmap strings pretty.
From S2P Require Import Prelude Dag Insertion.

Local Open Scope Z_scope.

(** ** Text *)

Definition TAB : ascii := "009".
Definition NEWLINE : ascii := "010".
Definition QUOTE : ascii := "034".

Definition tab : string := String TAB "".
Definition newline : string := String NEWLINE "".
Definition quote : string := String QUOTE "".

(** [c_str()] ends at the first NUL. *)
Fixpoint c_str (s : string) : string :=
  match s with
  | "" => ""
  | String c s => if decide (c = "000"%char) then "" else String c (c_str s)
  end.

(** ** What the code writes *)

Section Printing.
Context (getName : NodeId -> string) (functionName : string).

(** [operator<<]. *)
Definition edge_text (edge : BLInstrumentationEdge) : string :=
  "[" +:+ getName (getSource edge) +:+ " -> " +:+ getName (getTarget edge) +:+ "] init: " +:+
  (if isInitialization edge then "yes" else "no") +:+ " incr:" +:+ pretty (getIncrement edge) +:+
  " cinc: " +:+ (if isCounterIncrement edge then "yes" else "no").

(** The attributes, by the cases of the [switch]. *)
Definition dot_attributes (type : EdgeType) (inc : Z) : string :=
  match type with
  | NORMAL => "[label=" +:+ pretty inc +:+ "] [color=black];" +:+ newline
  | BACKEDGE => "[color=cyan];" +:+ newline
  | BACKEDGE_PHONY => "[label=" +:+ pretty inc +:+ "] [color=blue];" +:+ newline
  | SPLITEDGE => "[color=violet];" +:+ newline
  | SPLITEDGE_PHONY => "[label=" +:+ pretty inc +:+ "] [color=red];" +:+ newline
  | CALLEDGE_PHONY => "[label=" +:+ pretty inc +:+ "] [color=green];" +:+ newline
  end.

(** The body of the loop. *)
Definition dot_edge (d : BLInstrumentationDag) (edge : EdgeId) : string :=
  let sourceName := getName (getSource (ed d edge)) in
  let targetName := getName (getTarget (ed d edge)) in
  tab +:+ quote +:+ c_str sourceName +:+ quote +:+ " -> " +:+ quote +:+ c_str targetName +:+ quote +:+ " " +:+
  dot_attributes (getType (ed d edge)) (getIncrement (ed d edge)).

Fixpoint dot_edges (d : BLInstrumentationDag) (edges : list EdgeId) : string :=
  match edges with
  | [] => ""
  | edge :: edges => dot_edge d edge +:+ dot_edges d edges
  end.

(** The file written, or the message when it could not be opened. *)
Inductive dot_result : Set :=
  | Wrote (filename contents : string)
  | Errs (message : string).

Definition generateDotGraph (errorInfo : string) (d : BLInstrumentationDag) : dot_result :=
  let filename := "pathdag." +:+ functionName +:+ ".dot" in
  if decide (errorInfo = "") then
    Wrote (c_str filename)
      ("digraph " +:+ functionName +:+ " {" +:+ newline +:+ dot_edges d (_edges d) +:+ "}" +:+ newline)
  else Errs ("Error opening '" +:+ c_str filename +:+ "' for writing!" +:+ newline).

End Printing.

(** ** A reader *)

(** After the prefix [p]. *)
Fixpoint strip (p s : string) : option string :=
  match p, s with
  | "", _ => Some s
  | String a p, String b s => if decide (a = b) then strip p s else None
  | _, "" => None
  end.

(** Up to the first [c], and after it. *)
Fixpoint break_at (c : ascii) (s : string) : option (string * string) :=
  match s with
  | "" => None
  | String a s =>
      if decide (a = c) then Some ("", s)
      else '(l, r) ← break_at c s; Some (String a l, r)
  end.

(** An edge as the graph shows it: the increment is the label, if there is one. *)
Record shown : Set := MkShown {
  sh_source : string;
  sh_target : string;
  sh_label : option string;
  sh_color : string
}.

#[export] Instance shown_eq_dec : EqDecision shown.
Proof. solve_decision. Defined.

Definition read_label (s : string) : option (option string * string) :=
  match strip "[label=" s with
  | Some s => '(label, s) ← break_at "]" s; s ← strip " " s; Some (Some label, s)
  | None => Some (None, s)
  end.

Definition read_edge (s : string) : option (shown * string) :=
  s ← strip (tab +:+ quote) s;
  '(source, s) ← break_at QUOTE s;
  s ← strip (" -> " +:+ quote) s;
  '(target, s) ← break_at QUOTE s;
  s ← strip " " s;
  '(label, s) ← read_label s;
  s ← strip "[color=" s;
  '(color, s) ← break_at "]" s;
  s ← strip (";" +:+ newline) s;
  Some (MkShown source target label color, s).

Fixpoint read_edges (fuel : nat) (s : string) : option (list shown) :=
  match fuel with
  | O => None
  | S fuel =>
      if decide (s = "}" +:+ newline) then Some []
      else '(e, s) ← read_edge s; l ← read_edges fuel s; Some (e :: l)
  end.

(** The lines after the first. *)
Definition read_graph (s : string) : option (list shown) :=
  '(_, s) ← break_at NEWLINE s; read_edges (String.length s) s.

(** ** What is read back *)

Definition color_of (type : EdgeType) : string :=
  match type with
  | NORMAL => "black" | BACKEDGE => "cyan" | BACKEDGE_PHONY => "blue"
  | SPLITEDGE => "violet" | SPLITEDGE_PHONY => "red" | CALLEDGE_PHONY => "green"
  end.

Definition labelled_type (type : EdgeType) : bool :=
  match type with BACKEDGE | SPLITEDGE => false | _ => true end.

Definition show_edge (getName : NodeId -> string) (d : BLInstrumentationDag) (e : EdgeId) : shown :=
  MkShown (getName (getSource (ed d e))) (getName (getTarget (ed d e)))
    (if labelled_type (getType (ed d e)) then Some (pretty (getIncrement (ed d e))) else None)
    (color_of (getType (ed d e))).

Fixpoint without (c : ascii) (s : string) : Prop :=
  match s with "" => True | String a s => a <> c /\ without c s end.

#[export] Instance without_dec c s : Decision (without c s).
Proof. induction s; simpl; apply _. Defined.

(** A node's name that can stand between quotes. *)
Definition quotable (s : string) : Prop := without QUOTE s /\ without "000" s.

#[export] Instance quotable_dec s : Decision (quotable s).
Proof. unfold quotable. apply _. Defined.

Lemma append_cons a (p s : string) : String a p +:+ s = String a (p +:+ s).
Proof. done. Qed.

Lemma append_assoc (a b c : string) : (a +:+ b) +:+ c = a +:+ b +:+ c.
Proof. induction a as [|x a IH]; [done|]. by rewrite !append_cons, IH. Qed.

Lemma append_length (a b : string) : String.length (a +:+ b) = (String.length a + String.length b)%nat.
Proof. induction a as [|x a IH]; [done|]. rewrite append_cons. cbn [String.length Nat.add]. by rewrite IH. Qed.

Lemma c_str_whole s : without "000" s -> c_str s = s.
Proof. induction s as [|a s IH]; [done|]. intros [Ha Hs]. cbn [c_str].
  rewrite decide_False by done. by rewrite IH. Qed.

Lemma strip_append p s : strip p (p +:+ s) = Some s.
Proof. induction p as [|a p IH]; [done|]. rewrite append_cons. cbn [strip].
  by rewrite decide_True. Qed.

Lemma break_at_append c a s : without c a -> break_at c (a +:+ String c s) = Some (a, s).
Proof.
  induction a as [|x a IH]; intros Hc.
  { change (break_at c (String c s) = Some ("", s)). cbn [break_at]. by rewrite decide_True. }
  destruct Hc as [Hx Ha]. rewrite append_cons. cbn [break_at]. rewrite decide_False by done. by rewrite IH.
Qed.

Lemma without_append c a b : without c (a +:+ b) <-> without c a /\ without c b.
Proof. induction a as [|x a IH]; [cbn; tauto|].
  rewrite append_cons. cbn [without]. rewrite IH. tauto. Qed.

(** Numerals are digits after a sign. *)
Lemma pretty_N_go_without c x s : (forall n, pretty_N_char n <> c) -> without c s ->
  without c (pretty_N_go x s).
Proof.
  intros Hc. revert s. induction (N.lt_wf_0 x) as [x _ IH]; intros s Hs.
  destruct (decide (0 < x)%N) as [Hx|Hx].
  - rewrite pretty_N_go_step by done. apply IH; [by apply N.div_lt|]. by split.
  - replace x with 0%N by lia. by rewrite pretty_N_go_0.
Qed.

Lemma pretty_without (z : Z) c : (forall n, pretty_N_char n <> c) -> c <> "0"%char -> c <> "-"%char ->
  without c (pretty z).
Proof.
  intros Hc H0 Hd. assert (forall p : positive, without c (pretty p)) as Hp.
  { intros p. unfold pretty, pretty_positive, pretty, pretty_N. case_decide; [done|].
    by apply pretty_N_go_without. }
  destruct z as [|p|p]; [split; [congruence|done]|apply Hp|].
  change (without c ("-" +:+ pretty p)). apply without_append. split; [split; [congruence|done]|apply Hp].
Qed.

Lemma pretty_no_bracket (z : Z) : without "]" (pretty z).
Proof.
  apply pretty_without; [|done|done]. intros n. unfold pretty_N_char. by repeat case_match.
Qed.

Lemma pretty_inj (a b : Z) : @eq string (pretty a) (pretty b) -> a = b.
Proof. apply (inj (pretty : Z -> string)). Qed.

(** ** Reading what was written *)

(** The end of a line, as the reader takes it apart. *)
Definition color_text (type : EdgeType) (rest : string) : string :=
  "[color=" +:+ color_of type +:+ String "]" (";" +:+ newline +:+ rest).

Lemma attributes_text type inc rest :
  dot_attributes type inc +:+ rest =
    if labelled_type type then "[label=" +:+ pretty inc +:+ String "]" (" " +:+ color_text type rest)
    else color_text type rest.
Proof. unfold color_text. destruct type; cbn [dot_attributes labelled_type]; rewrite !append_assoc; reflexivity. Qed.

Lemma read_label_text type inc rest :
  read_label (dot_attributes type inc +:+ rest) =
    Some (if labelled_type type then Some (pretty inc) else None, color_text type rest).
Proof.
  rewrite attributes_text. unfold read_label. destruct (labelled_type type) eqn:E.
  - rewrite strip_append, break_at_append by apply pretty_no_bracket.
    cbn [mbind option_bind]. by rewrite strip_append.
  - unfold color_text. by destruct type.
Qed.

Lemma read_color_text type rest :
  (s ← strip "[color=" (color_text type rest); '(color, s) ← break_at "]" s;
   s ← strip (";" +:+ newline) s; Some (color, s)) = Some (color_of type, rest).
Proof.
  unfold color_text. rewrite strip_append. cbn [mbind option_bind].
  rewrite break_at_append by (by destruct type). cbn [mbind option_bind].
  by rewrite <- append_assoc, strip_append.
Qed.

Section Reading.
Context (getName : NodeId -> string) (d : BLInstrumentationDag).
Context (HN : forall n, quotable (getName n)).

Lemma edge_line e rest : dot_edge getName d e +:+ rest =
  (tab +:+ quote) +:+ getName (getSource (ed d e)) +:+ String QUOTE ((" -> " +:+ quote) +:+
    getName (getTarget (ed d e)) +:+ String QUOTE (" " +:+
      dot_attributes (getType (ed d e)) (getIncrement (ed d e)) +:+ rest)).
Proof using HN.
  unfold dot_edge. destruct (HN (getSource (ed d e))), (HN (getTarget (ed d e))).
  rewrite !c_str_whole by done. rewrite !append_assoc. reflexivity.
Qed.

Lemma read_edge_text e rest :
  read_edge (dot_edge getName d e +:+ rest) = Some (show_edge getName d e, rest).
Proof using HN.
  destruct (HN (getSource (ed d e))) as [Hs _], (HN (getTarget (ed d e))) as [Ht _].
  rewrite edge_line. unfold read_edge. rewrite strip_append. cbn [mbind option_bind].
  rewrite break_at_append by done. cbn [mbind option_bind]. rewrite strip_append. cbn [mbind option_bind].
  rewrite break_at_append by done. cbn [mbind option_bind]. rewrite strip_append. cbn [mbind option_bind].
  rewrite read_label_text. cbn [mbind option_bind].
  pose proof (read_color_text (getType (ed d e)) rest) as HC. destruct (strip "[color=" _) as [s|]; [|done].
  cbn [mbind option_bind] in HC |- *. destruct (break_at "]" s) as [[c s']|]; [|done].
  cbn [mbind option_bind] in HC |- *. destruct (strip (";" +:+ newline) s') as [s''|]; [|done].
  cbn [mbind option_bind] in HC |- *. by injection HC as -> ->.
Qed.

(** Each line begins with a tab. *)
Lemma read_edges_text l fuel : (length l < fuel)%nat ->
  read_edges fuel (dot_edges getName d l +:+ "}" +:+ newline) = Some (map (show_edge getName d) l).
Proof using HN.
  revert fuel. induction l as [|e l IH]; intros [|fuel] Hf; simpl in Hf; try lia; [done|].
  cbn [dot_edges read_edges map]. rewrite append_assoc. rewrite decide_False by (rewrite edge_line; discriminate).
  rewrite read_edge_text. cbn [mbind option_bind]. by rewrite IH by lia.
Qed.

Lemma dot_edges_length l : (length l <= String.length (dot_edges getName d l))%nat.
Proof.
  induction l as [|e l IH]; [done|]. cbn [dot_edges length]. rewrite append_length.
  assert (0 < String.length (dot_edge getName d e))%nat by (unfold dot_edge; rewrite append_length; cbn; lia). lia.
Qed.

End Reading.

(** The colour tells the type. *)
Lemma color_of_inj t t' : color_of t = color_of t' -> t = t'.
Proof. by destruct t, t'. Qed.

(** What is shown of two edges tells them apart by names, type and, where the
    graph shows it, increment. *)
Lemma show_edge_inj getName d e d' e' : show_edge getName d e = show_edge getName d' e' ->
  getName (getSource (ed d e)) = getName (getSource (ed d' e')) /\
  getName (getTarget (ed d e)) = getName (getTarget (ed d' e')) /\
  getType (ed d e) = getType (ed d' e') /\
  (labelled_type (getType (ed d e)) = true -> getIncrement (ed d e) = getIncrement (ed d' e')).
Proof.
  unfold show_edge. intros [= E1 E2 E3 E4%color_of_inj]. split_and!; try done. intros HL.
  rewrite E4 in HL, E3. rewrite HL in E3. apply pretty_inj. congruence.
Qed.

(** C34: when the file can be opened the graph written reads back, on names
    without quotes, as the list of the DAG's edges in their order, each with
    source, target, type (the colour) and, except on back and split edges, the
    increment.  The file is named after the function, up to a NUL in its name.
    When it cannot be opened nothing is written. *)
Theorem dot_graph_reads_back getName functionName errorInfo d :
  (forall n, quotable (getName n)) -> without NEWLINE functionName ->
  match generateDotGraph getName functionName errorInfo d with
  | Wrote filename contents =>
      errorInfo = "" /\ filename = c_str ("pathdag." +:+ functionName +:+ ".dot") /\
      (without "000" functionName -> filename = "pathdag." +:+ functionName +:+ ".dot") /\
      read_graph contents = Some (map (show_edge getName d) (_edges d))
  | Errs _ => errorInfo <> ""
  end.
Proof.
  intros HN Hf. unfold generateDotGraph. case_decide as E; [|done]. split; [done|]. split; [done|].
  split; [intros H0; apply c_str_whole; rewrite !without_append; by repeat split|]. unfold read_graph.
  assert ("digraph " +:+ functionName +:+ " {" +:+ newline +:+ dot_edges getName d (_edges d) +:+ "}" +:+ newline =
    ("digraph " +:+ functionName +:+ " {") +:+ String NEWLINE (dot_edges getName d (_edges d) +:+ "}" +:+ newline))
    as -> by (rewrite !append_assoc; reflexivity).
  rewrite break_at_append; [|rewrite !without_append; by repeat split].
  cbn [mbind option_bind]. apply (read_edges_text getName d HN). rewrite append_length.
  pose proof (dot_edges_length getName d (_edges d)). change (String.length ("}" +:+ newline)) with 2%nat. lia.
Qed.

(** The example's DAG after the marking phases, nodes named by letters: the
    unlinked phony edges are still shown. *)
Definition exampleName (n : NodeId) : string :=
  String (ascii_of_nat (97 + n mod 26)) "".

Lemma exampleName_quotable n : quotable (exampleName n).
Proof.
  assert (Forall (fun k => quotable (String (ascii_of_nat (97 + k)) "")) (seq 0 26)) as H
    by (apply (bool_decide_unpack _); vm_compute; exact I).
  rewrite Forall_forall in H. unfold exampleName.
  assert (n mod 26 < 26)%nat as Hn by (by apply Nat.mod_upper_bound).
  generalize dependent (n mod 26)%nat. intros k Hk. apply (H k), elem_of_seq. lia.
Qed.

Lemma dot_graph_reads_back_witness :
  match generateDotGraph exampleName "main" "" exampleMarked with
  | Wrote filename contents =>
      filename = "pathdag.main.dot" /\
      option_map (map (fun e => (sh_source e, sh_target e, sh_label e, sh_color e))) (read_graph contents) =
        Some [("a", "b", Some "0", "black"); ("b", "c", Some "0", "black");
              ("c", "d", Some "0", "black"); ("d", "b", None, "cyan");
              ("a", "b", Some "4", "blue"); ("d", "e", Some "0", "blue");
              ("d", "f", Some "1", "black"); ("f", "e", Some "0", "black");
              ("b", "d", Some "2", "black"); ("e", "a", Some "0", "black")]
  | Errs _ => False
  end.
Proof.
  pose proof (dot_graph_reads_back exampleName "main" "" exampleMarked exampleName_quotable) as H.
  destruct (generateDotGraph _ _ _ _) as [filename contents|m].
  - destruct H as (_ & -> & _ & ->); [by repeat split|]. split; [reflexivity|]. vm_compute. reflexivity.
  - by destruct H.
Defined.
