(* ===== verification/Placement.v ===== *)
(** * Placing code in a block

    What the methods of [PathProfiler] (src/PathLogging.cpp) that place code do
    to one block and to the path numbers of one node, when they find what they
    need: each of them succeeds, appends its instructions to those the block
    already has from the pass, and leaves every other block alone. *)

From stdpp Require Import base numbers list gmap.
From S2P Require Import Prelude Dag BallLarus Marking IR Instrument Execution Emitted.
From S2P Require Import Insertion.

Local Open Scope Z_scope.

Section Placement.
Context `{LS : !LLVMSpec L} `{LF : !LLVMFlow L} `{B : BallLarusOps}.

(** ** Appending to a block *)

(** The last instruction of a block is an original one, and no PHI node. *)
Definition LastOk (s : Fn) (b : BlockId) : Prop :=
  exists t, last (insts s b) = Some t /\ isOriginal (inst s t) = true /\ isPHI (inst s t) = false.

(** Everything from the position on is original. *)
Definition AppendAt (s : Fn) (b : BlockId) (p : InstId) : Prop :=
  exists l1 l2, insts s b = l1 ++ p :: l2 /\ Forall (fun i => isOriginal (inst s i) = true) (p :: l2).

(** The pass's code of block [b] grows by [l] at its end. *)
Record appended (b : BlockId) (s s' : Fn) (l : list InstId) : Prop := {
  ap_extends : extends s s';
  ap_inst c i : i ∈ insts s c -> inst s' i = inst s i;
  ap_here : code s' b = code s b ++ l;
  ap_else c : c <> b -> code s' c = code s c;
  ap_cfg c : successors s' c = successors s c;
  ap_last c : LastOk s c -> LastOk s' c
}.

Lemma appended_refl b s : valid s -> appended b s s [].
Proof. intros HV. split; by rewrite ?app_nil_r. Qed.

Lemma appended_trans b s1 s2 s3 l l' :
  appended b s1 s2 l -> appended b s2 s3 l' -> appended b s1 s3 (l ++ l').
Proof.
  intros H1 H2. split.
  - eapply extends_trans; [apply H1|apply H2].
  - intros c i Hi. rewrite (ap_inst _ _ _ _ H2 c i); [by apply (ap_inst _ _ _ _ H1 c)|].
    eapply extends_elem; [apply H1|done].
  - by rewrite (ap_here _ _ _ _ H2), (ap_here _ _ _ _ H1), app_assoc.
  - intros c Hc. by rewrite (ap_else _ _ _ _ H2), (ap_else _ _ _ _ H1).
  - intros c. by rewrite (ap_cfg _ _ _ _ H2), (ap_cfg _ _ _ _ H1).
  - intros c Hc. by apply (ap_last _ _ _ _ H2), (ap_last _ _ _ _ H1).
Qed.

Lemma appended_valid b s s' l : appended b s s' l -> valid s'.
Proof. intros H. apply (ap_extends _ _ _ _ H). Qed.

Lemma code_elem s b i : i ∈ code s b -> i ∈ insts s b.
Proof. intros Hi. unfold code in Hi. by apply list_elem_of_filter in Hi as [_ ?]. Qed.

(** The instructions appended keep their meaning when more is appended. *)
Lemma appended_new b s s' l i : appended b s s' l -> i ∈ l -> i ∈ insts s' b.
Proof. intros H Hi. apply code_elem. rewrite (ap_here _ _ _ _ H). apply elem_of_app. by right. Qed.

Lemma code_ext s s' (l : list InstId) : (forall i, i ∈ l -> isOriginal (inst s' i) = isOriginal (inst s i)) ->
  filter (fun i => isOriginal (inst s' i) = false) l = filter (fun i => isOriginal (inst s i) = false) l.
Proof.
  induction l as [|i l IH]; intros H; [done|]. rewrite !filter_cons, (H i) by (by left).
  rewrite IH by (intros j Hj; apply H; by right). done.
Qed.

Lemma filter_original s (l : list InstId) : Forall (fun i => isOriginal (inst s i) = true) l ->
  filter (fun i => isOriginal (inst s i) = false) l = [].
Proof.
  induction l as [|i l IH]; intros H; [done|]. apply Forall_cons in H as [Hi H].
  rewrite filter_cons, decide_False by congruence. by apply IH.
Qed.

Lemma create_appended i b p s : valid s -> AppendAt s b p -> isOriginal i = false ->
  let k := (Create i p s).1 in let s' := (Create i p s).2 in
  appended b s s' [k] /\ inst s' k = i /\ AppendAt s' b p.
Proof.
  intros HV (l1 & l2 & E & HF) Hi k s'. subst k s'.
  assert (p ∈ insts s b) as Hp by (rewrite E; apply elem_of_app; right; by left).
  assert (forall c j, j ∈ insts s c -> inst (Create i p s).2 j = inst s j) as HI.
  { intros c j Hj. apply create_other; [done|]. intros ->. by eapply create_fresh. }
  pose proof (create_inst i p s HV) as Hk. pose proof (create_here i p s b l1 l2 HV E) as E'.
  assert (forall c, c <> b -> insts (Create i p s).2 c = insts s c) as Hc.
  { intros c Hc. apply create_elsewhere; [done|]. intros Hpc. apply Hc.
    by rewrite <- (insts_parent s c p HV Hpc), (insts_parent s b p HV Hp). }
  assert (Forall (fun j => isOriginal (inst (Create i p s).2 j) = true) (p :: l2)) as HF'.
  { apply Forall_forall. intros j Hj. rewrite (HI b j) by (rewrite E; apply elem_of_app; by right).
    by eapply Forall_forall in Hj; [|exact HF]. }
  split; [split|split; [done|]].
  - by eapply create_extends.
  - done.
  - unfold code. rewrite E, E', !filter_app, (filter_cons _ _ (p :: l2)), decide_True by (by rewrite Hk).
    rewrite (filter_original s _ HF), (filter_original _ _ HF'), app_nil_r. f_equal.
    apply code_ext. intros j Hj. rewrite (HI b); [done|]. rewrite E. apply elem_of_app. by left.
  - intros c Hne. unfold code. rewrite Hc by done. apply code_ext. intros j Hj. by rewrite (HI c).
  - intros c. apply create_cfg.
  - intros c (t & Ht & HO). exists t. rewrite (HI c t) by (by apply last_Some_elem_of). split; [|done].
    destruct (decide (c = b)) as [->|Hne]; [|by rewrite Hc].
    rewrite E', last_app, <- Ht, E, last_app. done.
  - exists (l1 ++ [(Create i p s).1]), l2. rewrite E', <- app_assoc. done.
Qed.

(** ** Insertion points *)

Lemma terminator_point s b : valid s -> LastOk s b ->
  exists p, getTerminator s b = Some p /\ AppendAt s b p.
Proof.
  intros HV (t & Ht & HO & HP).
  destruct (terminator_some s b HV) as [p Hp]; [by intros E; rewrite E in Ht|].
  exists p. split; [done|]. destruct (terminator_last s b p HV Hp) as [_ [l E]].
  rewrite E, last_snoc in Ht. injection Ht as ->. exists l, []. by rewrite E, Forall_singleton.
Qed.

Lemma code_nil s b i : code s b = [] -> i ∈ insts s b -> isOriginal (inst s i) = true.
Proof.
  intros Hc Hi. apply not_false_iff_true. intros Hf.
  assert (i ∈ code s b) as H by (by apply list_elem_of_filter).
  rewrite Hc in H. by apply not_elem_of_nil in H.
Qed.

Lemma first_point s b : valid s -> LastOk s b -> code s b = [] ->
  exists p, getFirstInsertionPt s b = Some p /\ AppendAt s b p.
Proof.
  intros HV (t & Ht & HO & HP) Hc.
  destruct (first_insertion_some s b t HV) as [p Hp]; [by apply last_Some_elem_of|done|].
  exists p. split; [done|]. destruct (first_insertion s b p HV Hp) as (l1 & l2 & E & _).
  exists l1, l2. split; [done|]. apply Forall_forall. intros i Hi. eapply code_nil; [done|].
  rewrite E. apply elem_of_app. by right.
Qed.

(** The place for the code of an edge. *)
Lemma edge_point (atBeginning : bool) s b : valid s -> LastOk s b -> (atBeginning = true -> code s b = []) ->
  exists p, (if atBeginning then getFirstInsertionPt s b else getTerminator s b) = Some p /\ AppendAt s b p.
Proof. destruct atBeginning; intros; [by apply first_point; auto|by apply terminator_point]. Qed.

(** ** Creating instructions *)

Lemma createAt_spec i b p st : valid (fn st) -> AppendAt (fn st) b p -> isOriginal i = false ->
  exists k s', createAt i (Some p) st = Ok (k, setFn s' st) /\ appended b (fn st) s' [k] /\
    inst s' k = i /\ AppendAt s' b p.
Proof.
  intros HV HA Hi. destruct (create_appended i b p (fn st) HV HA Hi) as (H1 & H2 & H3).
  by exists (Create i p (fn st)).1, (Create i p (fn st)).2.
Qed.

Lemma createAdd_spec v r b p st : valid (fn st) -> AppendAt (fn st) b p ->
  exists k s', createAdd (Some v) r (Some p) st = Ok (k, setFn s' st) /\ appended b (fn st) s' [k] /\
    inst s' k = AddInst v r /\ AppendAt s' b p.
Proof. intros HV HA. by apply createAt_spec. Qed.

Lemma counter_spec v b p st : valid (fn st) -> AppendAt (fn st) b p -> 0 < getNumberOfPaths (dag st) ->
  exists c s', insertCounterIncrement (Some v) (Some p) true st = Ok (setFn s' st) /\
    appended b (fn st) s' [c] /\ callsCode s' (Some v) c /\ AppendAt s' b p.
Proof.
  intros HV HA Hn. destruct (createAt_spec (PathCall true v) b p st HV HA eq_refl) as (c & s' & E & H1 & H2 & H3).
  exists c, s'. unfold insertCounterIncrement, HASH_THRESHHOLD. rewrite decide_False by lia.
  cbn [deref mbind result_bind]. rewrite E. split_and!; try done. by exists v.
Qed.

(** ** The code of an edge *)

(** Only the path numbers of [n] change. *)
Definition numbered (n : NodeId) (S E : option Value) (d d' : BLInstrumentationDag) : Prop :=
  (edgeStore d' = edgeStore d /\ _edges d' = _edges d) /\ getNumberOfPaths d' = getNumberOfPaths d /\
  forall m, nd d' m = if decide (m = n) then setEndingPathNumber E (setStartingPathNumber S (nd d n))
                      else nd d m.

Lemma numbered_refl n d :
  numbered n (getStartingPathNumber (nd d n)) (getEndingPathNumber (nd d n)) d d.
Proof. split_and!; try done. intros m. case_decide; subst; [by destruct (nd d n)|done]. Qed.

Lemma numbered_start n S S' E d d' : numbered n S E d d' ->
  numbered n S' E d (updNode n (setStartingPathNumber S') d').
Proof.
  intros (H1 & H2 & H3). split; [exact H1|]. split; [exact H2|]. intros m. rewrite nd_updNode.
  repeat case_decide; subst; try done; rewrite H3; by rewrite ?decide_True, ?decide_False by done.
Qed.

Lemma numbered_end n S E E' d d' : numbered n S E d d' ->
  numbered n S E' d (updNode n (setEndingPathNumber E') d').
Proof.
  intros (H1 & H2 & H3). split; [exact H1|]. split; [exact H2|]. intros m. rewrite nd_updNode.
  repeat case_decide; subst; try done; rewrite H3; by rewrite ?decide_True, ?decide_False by done.
Qed.

Lemma numbered_values n S E d d' : numbered n S E d d' ->
  getStartingPathNumber (nd d' n) = S /\ getEndingPathNumber (nd d' n) = E /\
  getBlock (nd d' n) = getBlock (nd d n).
Proof. intros (_ & _ & H). rewrite H, decide_True by done. done. Qed.

Lemma numbered_ed n S E d d' e : numbered n S E d d' -> ed d' e = ed d e.
Proof. intros ((H & _) & _). unfold ed. by rewrite H. Qed.

(** Instructions placed earlier keep their meaning. *)
Lemma adds_later b s1 s2 inc S l V l' : addsCode s1 inc S l V -> (forall i, i ∈ l -> i ∈ insts s1 b) ->
  appended b s1 s2 l' -> addsCode s2 inc S l V.
Proof.
  intros [H|(Hi & v & i & HS & -> & HI & HV)] Hl HA; [by left|]. right. split; [done|].
  exists v, i. split_and!; try done. rewrite (ap_inst _ _ _ _ HA b i); [done|]. apply Hl. by left.
Qed.

Lemma calls_later b s1 s2 V c l' : callsCode s1 V c -> c ∈ insts s1 b -> appended b s1 s2 l' -> callsCode s2 V c.
Proof.
  intros (v & HV & HI) Hc HA. exists v. by rewrite (ap_inst _ _ _ _ HA b c).
Qed.

(** The path register is set up, or changed. *)
Lemma normal_first e n b p (atBeginning : bool) st :
  let x := ed (dag st) e in
  let S := getStartingPathNumber (nd (dag st) n) in
  let E := getEndingPathNumber (nd (dag st) n) in
  valid (fn st) -> AppendAt (fn st) b p ->
  (isInitialization x = false -> getIncrement x <> 0 -> is_Some E /\ S = E) ->
  exists st1 l S1 V,
    (if isInitialization x then
       Ok (onNode n (setEndingPathNumber (Some (createEdgeIncrementConstant x))) st)
     else if decide (getIncrement x = 0) then Ok st
     else
       '(newpn, st) ← createAdd S (createEdgeIncrementConstant x) (Some p) st;
       let st := onNode n (setEndingPathNumber (Some (Instruction newpn))) st in
       Ok (if atBeginning then onNode n (setStartingPathNumber (Some (Instruction newpn))) st else st))
      = Ok st1 /\
    appended b (fn st) (fn st1) l /\ AppendAt (fn st1) b p /\
    (if isInitialization x then l = [] /\ V = Some (ConstantInt (i32 (getIncrement x)))
     else addsCode (fn st1) (getIncrement x) E l V) /\
    numbered n S1 V (dag st) (dag st1) /\ (atBeginning = true -> S = E -> S1 = V \/ isInitialization x = true).
Proof.
  intros x S E HV HA HE. destruct (isInitialization x).
  { eexists _, [], S, _. split; [done|]. split_and!; try done; [by apply appended_refl| |by right].
    eapply numbered_end, numbered_refl. }
  destruct (decide (getIncrement x = 0)) as [Hi|Hi].
  { exists st, [], S, E. split_and!; try done; [by apply appended_refl|by left|apply numbered_refl|by left]. }
  destruct (HE eq_refl Hi) as [[v Ev] HS]. rewrite HS, Ev.
  destruct (createAdd_spec v (ConstantInt (i32 (getIncrement x))) b p st HV HA) as (k & s' & Ek & H1 & H2 & H3).
  unfold createEdgeIncrementConstant, createIncrementConstant. rewrite Ek. cbn [mbind result_bind].
  eexists _, [k], (if atBeginning then Some (Instruction k) else S), (Some (Instruction k)).
  split; [done|]. rewrite <- Ev. destruct atBeginning; simpl; split_and!; try done.
  all: try (right; split; [done|]; by exists v, k).
  - apply numbered_start with (S := S), numbered_end with (E := E), numbered_refl.
  - by left.
  - apply numbered_end with (E := E), numbered_refl.
Qed.

(** The code of an edge that is not cut: it is placed, as [normalCode]
    describes it, and the node's path number becomes its result. *)
Lemma instrumentNormalEdge_spec e n b (atBeginning : bool) st :
  let x := ed (dag st) e in
  let S := getStartingPathNumber (nd (dag st) n) in
  let E := getEndingPathNumber (nd (dag st) n) in
  valid (fn st) -> getBlock (nd (dag st) n) = Some b -> LastOk (fn st) b ->
  (atBeginning = true -> code (fn st) b = []) -> 0 < getNumberOfPaths (dag st) ->
  (isInitialization x = false -> getIncrement x <> 0 -> is_Some E /\ S = E) ->
  (isCounterIncrement x = true -> isInitialization x = true \/ is_Some E) ->
  exists st' l S' V,
    instrumentNormalEdge e n atBeginning st = Ok st' /\ appended b (fn st) (fn st') l /\
    normalCode (fn st') x E l V /\ numbered n S' V (dag st) (dag st') /\
    (atBeginning = true -> S = E -> is_Some V -> S' = V \/ isInitialization x = true).
Proof.
  intros x S E HV Hb HL Hc Hn HE Hcnt. unfold instrumentNormalEdge. rewrite Hb. cbn [deref mbind result_bind].
  destruct (edge_point atBeginning (fn st) b HV HL Hc) as (p & -> & HA).
  destruct (normal_first e n b p atBeginning st HV HA HE) as (st1 & l & S1 & V & E1 & H1 & HA1 & HC & HN & HS).
  cbv zeta in E1. cbn zeta. fold x S. fold x S in E1. fold x in HC. fold x S E in HS. fold E in HC. rewrite E1. cbn [mbind result_bind].
  destruct (numbered_values _ _ _ _ _ HN) as (_ & EV & _).
  destruct (isCounterIncrement x) eqn:Ec.
  - assert (exists v, V = Some v) as [v ->].
    { destruct (isInitialization x); [by destruct HC as [_ ->]; eexists|].
      destruct (Hcnt eq_refl) as [|[v Hv]]; [done|].
      destruct HC as [(_ & _ & ->)|(_ & v' & i & _ & _ & _ & ->)]; [by exists v|by eexists]. }
    rewrite EV.
    destruct (counter_spec v b p st1 (appended_valid _ _ _ _ H1) HA1) as (c & s' & E2 & H2 & HCc & _).
    { destruct HN as (_ & -> & _). done. }
    rewrite E2. cbn [mbind result_bind]. eexists _, (l ++ [c]), S1, None. split; [done|]. split_and!.
    + by eapply appended_trans.
    + exists l, (Some v). rewrite Ec. split; [|by exists c].
      destruct (isInitialization x); [done|]. eapply adds_later; [done| |done].
      intros i Hi. by eapply appended_new.
    + by eapply numbered_end.
    + by intros _ _ [].
  - exists st1, l, S1, V. split_and!; try done.
    + exists l, V. by rewrite Ec.
    + intros; by apply HS.
Qed.

(** What a node's path number becomes is known from the code. *)
Lemma normalCode_value s x S l V : normalCode s x S l V ->
  is_Some V <-> isCounterIncrement x = false /\ (isInitialization x = true \/ is_Some S).
Proof.
  intros (l0 & V0 & H0 & H1).
  assert (is_Some V0 <-> isInitialization x = true \/ is_Some S) as HV.
  { destruct (isInitialization x).
    - destruct H0 as [_ ->]. split; [by left|done].
    - destruct H0 as [(_ & _ & ->)|(_ & v & i & -> & _ & _ & ->)]; [|by split; [right|]].
      split; [by right|]. by intros [|]. }
  destruct (isCounterIncrement x).
  - destruct H1 as (c & _ & _ & ->). split; [by intros []|by intros [? _]].
  - destruct H1 as [_ ->]. rewrite HV. tauto.
Qed.

(** *** Cut edges *)

Lemma startFromZero_spec n st :
  let S := getStartingPathNumber (nd (dag st) n) in
  let E := getEndingPathNumber (nd (dag st) n) in
  fn (startFromZero n st) = fn st /\
  exists S', numbered n S' (Some (default (ConstantInt 0) E)) (dag st) (dag (startFromZero n st)) /\
    ((is_Some E -> S = E) -> S' = Some (default (ConstantInt 0) E)) /\
    (is_Some E -> S' = S).
Proof.
  intros S E. unfold startFromZero. fold E. destruct E as [v|] eqn:EE.
  - split; [done|]. exists S. split_and!; [|by intros H; rewrite H|done].
    simpl. rewrite <- EE. apply numbered_refl.
  - split; [done|]. exists (Some (ConstantInt 0)). split_and!; [|done|by intros []].
    apply numbered_end with (E := E), numbered_start with (S := S). apply numbered_refl.
Qed.

Lemma restartWith_spec top n (c : bool) st d S E : numbered n S E d (dag st) ->
  let w := Some (ConstantInt (i32 (getIncrement (ed d top)))) in
  numbered n (if c then w else S) w d (dag (restartWith top n c st)) /\ fn (restartWith top n c st) = fn st.
Proof.
  intros HN w. unfold restartWith, createEdgeIncrementConstant, createIncrementConstant.
  rewrite (numbered_ed _ _ _ _ _ top HN). fold w. split; [|by destruct c].
  destruct c; simpl.
  - eapply numbered_end, numbered_start, HN.
  - by eapply numbered_end.
Qed.

(** The addition of a cut edge, for the end of the current path. *)
Lemma cut_first bottom n b p st d0 S0 v :
  let inc := getIncrement (ed (dag st) bottom) in
  valid (fn st) -> AppendAt (fn st) b p -> numbered n S0 (Some v) d0 (dag st) ->
  (inc <> 0 -> S0 = Some v) ->
  exists st1 l V,
    (if decide (inc = 0) then Ok st
     else
       '(newpn, st) ← createAdd (getStartingPathNumber (nd (dag st) n))
                        (createEdgeIncrementConstant (ed (dag st) bottom)) (Some p) st;
       Ok (onNode n (setEndingPathNumber (Some (Instruction newpn))) st)) = Ok st1 /\
    appended b (fn st) (fn st1) l /\ AppendAt (fn st1) b p /\
    addsCode (fn st1) inc (Some v) l (Some V) /\ numbered n S0 (Some V) d0 (dag st1).
Proof.
  intros inc HV HA HN HS. fold inc. destruct (decide (inc = 0)) as [Hi|Hi].
  { exists st, ([] : list InstId), v. split_and!; try done; [by apply appended_refl|by left]. }
  destruct (numbered_values _ _ _ _ _ HN) as (-> & _ & _). rewrite (HS Hi).
  destruct (createAdd_spec v (ConstantInt (i32 inc)) b p st HV HA) as (k & s' & Ek & H1 & H2 & H3).
  unfold createEdgeIncrementConstant, createIncrementConstant. fold inc. rewrite Ek. cbn [mbind result_bind].
  eexists _, [k], (Instruction k). split; [done|]. split_and!; try done.
  - right. split; [done|]. by exists v, k.
  - rewrite <- (HS Hi). by eapply numbered_end.
Qed.

Lemma instrumentCutEdge_spec e n b (atBeginning : bool) st top bottom :
  let S := getStartingPathNumber (nd (dag st) n) in
  let E := getEndingPathNumber (nd (dag st) n) in
  valid (fn st) -> getBlock (nd (dag st) n) = Some b -> LastOk (fn st) b ->
  (atBeginning = true -> code (fn st) b = []) -> 0 < getNumberOfPaths (dag st) ->
  getPhonyRoot (ed (dag st) e) = Some top -> getPhonyExit (ed (dag st) e) = Some bottom ->
  isInitialization (ed (dag st) top) = true -> isCounterIncrement (ed (dag st) bottom) = true ->
  (getIncrement (ed (dag st) bottom) <> 0 -> is_Some E -> S = E) ->
  exists st' l S' V,
    instrumentCutEdge e n atBeginning st = Ok st' /\ appended b (fn st) (fn st') l /\
    cutCode (fn st') (ed (dag st) top) (ed (dag st) bottom) E l V /\ numbered n S' V (dag st) (dag st') /\
    (atBeginning = true -> is_Some V -> S' = V).
Proof.
  intros S E HV Hb HL Hc Hn Ht Hbt Hti Hbc HE. unfold instrumentCutEdge. rewrite Ht, Hbt.
  cbn [deref mbind result_bind]. rewrite Hti, Hbc. cbn [assert mbind result_bind]. cbn zeta.
  destruct (startFromZero_spec n st) as (F0 & S0 & HN0 & HS0 & HS0'). fold E S in HN0, HS0, HS0'.
  set (st0 := startFromZero n st) in *.
  destruct (numbered_values _ _ _ _ _ HN0) as (_ & _ & Hb0). rewrite Hb0, Hb. cbn [deref mbind result_bind].
  rewrite F0. destruct (edge_point atBeginning (fn st) b HV HL Hc) as (p & -> & HA).
  pose proof (numbered_ed _ _ _ _ _ bottom HN0) as Hedb. pose proof (numbered_ed _ _ _ _ _ top HN0) as Hedt.
  destruct (cut_first bottom n b p st0 (dag st) S0 (default (ConstantInt 0) E)) as (st1 & l & V1 & E1 & H1 & HA1 & HC1 & HN1);
    [by rewrite F0|by rewrite F0|done| |].
  { rewrite Hedb. intros Hi. apply HS0. by apply HE. }
  cbv zeta in E1. rewrite E1. cbn [mbind result_bind]. rewrite Hedb in HC1. rewrite F0 in H1.
  destruct (numbered_values _ _ _ _ _ HN1) as (_ & -> & _).
  destruct (counter_spec V1 b p st1 (appended_valid _ _ _ _ H1) HA1) as (c & s2 & E2 & H2 & HC2 & HA2).
  { destruct HN1 as (_ & -> & _). done. }
  rewrite E2. cbn [mbind result_bind].
  destruct (restartWith_spec top n atBeginning (setFn s2 st1) (dag st) S0 (Some V1) HN1) as [HN3 F3].
  set (st3 := restartWith _ _ _ _) in *. set (w := Some (ConstantInt _)) in *.
  rewrite (numbered_ed _ _ _ _ _ top HN3).
  pose proof (appended_trans _ _ _ _ _ _ H1 H2) as H12.
  assert (forall s' l', appended b s2 s' l' -> addsCode s' (getIncrement (ed (dag st) bottom)) (Some (default (ConstantInt 0) E)) l (Some V1) /\
    callsCode s' (Some V1) c) as Hlater.
  { intros s' l' H'. split.
    - eapply adds_later; [exact HC1| |exact (appended_trans _ _ _ _ _ _ H2 H')]. intros i Hi. by eapply appended_new.
    - eapply calls_later; [exact HC2| |exact H']. eapply appended_new; [exact H2|by left]. }
  destruct (isCounterIncrement (ed (dag st) top)) eqn:Ec.
  - destruct (terminator_point s2 b (appended_valid _ _ _ _ H2)) as (q & Eq & HAq).
    { by eapply ap_last, (ap_last _ _ _ _ H1). }
    rewrite F3. simpl fn. rewrite Eq. destruct (numbered_values _ _ _ _ _ HN3) as (_ & -> & _).
    destruct (counter_spec (ConstantInt (i32 (getIncrement (ed (dag st) top)))) b q st3) as (c2 & s4 & E4 & H4 & HC4 & _).
    { rewrite F3. apply H2. } { by rewrite F3. } { destruct HN3 as (_ & -> & _). done. }
    unfold w. rewrite E4. cbn [mbind result_bind]. rewrite F3 in H4. simpl fn in H4.
    destruct (Hlater _ _ H4) as [HL1 HL2].
    eexists _, (l ++ [c; c2]), _, None. split; [done|]. split_and!.
    + change [c; c2] with ([c] ++ [c2]). rewrite app_assoc. by eapply appended_trans.
    + exists l, (Some V1), c. split_and!; [done|done|]. rewrite Ec. by exists c2.
    + by eapply numbered_end.
    + by intros _ [].
  - destruct (Hlater _ _ (appended_refl b s2 (appended_valid _ _ _ _ H2))) as [HL1 HL2].
    exists st3, (l ++ [c]), (if atBeginning then w else S0), w. split; [done|]. rewrite F3. simpl fn. split_and!.
    + done.
    + exists l, (Some V1), c. rewrite Ec. done.
    + done.
    + by intros ->.
Qed.

Lemma cutCode_value s top bottom S l V : cutCode s top bottom S l V ->
  is_Some V <-> isCounterIncrement top = false.
Proof.
  intros (l0 & V1 & c & _ & _ & H). destruct (isCounterIncrement top).
  - destruct H as (c2 & _ & _ & ->). split; [by intros []|done].
  - by destruct H as [_ ->].
Qed.

(** ** Passing a value on *)

(** Only the operands of the PHI node [p] change. *)
Record rephied (p : InstId) (s s' : Fn) : Prop := {
  rp_extends : extends s s';
  rp_insts c : insts s' c = insts s c;
  rp_inst j : j <> p -> inst s' j = inst s j;
  rp_cfg c : successors s' c = successors s c;
  rp_phi : (exists l, inst s p = PHINode l) /\ exists l, inst s' p = PHINode l
}.

Lemma rephied_trans p s1 s2 s3 : rephied p s1 s2 -> rephied p s2 s3 -> rephied p s1 s3.
Proof.
  intros H1 H2. split.
  - eapply extends_trans; [apply H1|apply H2].
  - intros c. by rewrite (rp_insts _ _ _ H2), (rp_insts _ _ _ H1).
  - intros j Hj. by rewrite (rp_inst _ _ _ H2), (rp_inst _ _ _ H1).
  - intros c. by rewrite (rp_cfg _ _ _ H2), (rp_cfg _ _ _ H1).
  - split; [apply H1|apply H2].
Qed.

Lemma rephied_add v c p l s : valid s -> inst s p = PHINode l -> rephied p s (addIncoming v c p s).
Proof.
  intros HV Hp. split.
  - apply addIncoming_extends; [done|by rewrite Hp].
  - intros. apply incoming_insts.
  - intros. by apply incoming_other.
  - intros. apply incoming_cfg.
  - split; [by eexists|]. eexists. by apply incoming_phi.
Qed.

Lemma rephied_remove c p l1 v l2 s : valid s -> inst s p = PHINode (l1 ++ (v, c) :: l2) -> c ∉ l1.*2 ->
  rephied p s (removeIncomingValue c p s).
Proof.
  intros HV Hp Hc. split.
  - apply removeIncoming_extends; [done|by rewrite Hp].
  - intros. apply remove_insts.
  - intros. by apply remove_other.
  - intros. apply remove_cfg.
  - split; [by eexists|]. eexists. by eapply remove_phi.
Qed.

Lemma rephied_code p s s' b : rephied p s s' -> code s' b = code s b.
Proof.
  intros H. unfold code. rewrite (rp_insts _ _ _ H). apply list_filter_iff. intros i.
  destruct (decide (i = p)) as [->|Hi]; [|by rewrite (rp_inst _ _ _ H)].
  destruct (rp_phi _ _ _ H) as [[l E] [l' E']]. by rewrite E, E'.
Qed.

Lemma rephied_last p s s' b : rephied p s s' -> LastOk s b -> LastOk s' b.
Proof.
  intros H (t & Ht & HO & HP). exists t. rewrite (rp_insts _ _ _ H). split; [done|].
  rewrite (rp_inst _ _ _ H); [done|]. intros ->.
  destruct (rp_phi _ _ _ H) as [[l E] _]. by rewrite E in HO.
Qed.

Lemma appended_rephied b s s1 s2 p : appended b s s1 [p] -> (forall c, p ∉ insts s c) -> rephied p s1 s2 ->
  appended b s s2 [p].
Proof.
  intros H Hp HR. split.
  - eapply extends_trans; [apply H|apply HR].
  - intros c i Hi. rewrite (rp_inst _ _ _ HR); [by apply (ap_inst _ _ _ _ H c)|]. intros ->. by apply (Hp c).
  - rewrite (rephied_code _ _ _ _ HR). apply H.
  - intros c Hc. rewrite (rephied_code _ _ _ _ HR). by apply H.
  - intros c. rewrite (rp_cfg _ _ _ HR). apply H.
  - intros c Hc. eapply rephied_last; [done|]. by apply H.
Qed.

(** Every predecessor gets an entry. *)
Lemma incoming_loop p v preds l st : valid (fn st) -> inst (fn st) p = PHINode l ->
  exists s', foldl (fun st pred => setFn (addIncoming v pred p (fn st)) st) st preds = setFn s' st /\
    (preds = [] /\ s' = fn st \/ rephied p (fn st) s') /\
    inst s' p = PHINode (l ++ map (fun b => (v, b)) preds).
Proof.
  revert l st. induction preds as [|b preds IH]; intros l st HV Hp.
  { exists (fn st). split_and!; [by destruct st|by left|by rewrite app_nil_r]. }
  pose proof (rephied_add v b p l (fn st) HV Hp) as HR.
  destruct (IH (l ++ [(v, b)]) (setFn (addIncoming v b p (fn st)) st)) as (s' & E & HR' & Hp').
  { apply HR. } { by apply incoming_phi. }
  exists s'. simpl foldl. rewrite E. split_and!; [done| |by rewrite Hp', <- app_assoc].
  right. destruct HR' as [[_ ->]|HR']; [done|]. by eapply rephied_trans.
Qed.

(** A PHI node with an entry for each edge into its block. *)
Definition PhiFor (s : Fn) (b : BlockId) (p : InstId) (l : list (Value * BlockId)) : Prop :=
  inst s p = PHINode l /\
  forall c, count_occ Nat.eq_dec l.*2 c = count_occ Nat.eq_dec (successors s c) b.

Lemma preparePHI_spec n b st : valid (fn st) -> getBlock (nd (dag st) n) = Some b -> LastOk (fn st) b ->
  code (fn st) b = [] ->
  exists st' p l, preparePHI n st = Ok st' /\ appended b (fn st) (fn st') [p] /\ PhiFor (fn st') b p l /\
    edgeStore (dag st') = edgeStore (dag st) /\
    (forall m, nd (dag st') m =
      if decide (m = n)
      then setEndingPathNumber (Some (Instruction p)) (setStartingPathNumber (Some (Instruction p))
             (setPathPHI (Some p) (nd (dag st) n)))
      else nd (dag st) m) /\
    forall c, p ∉ insts (fn st) c.
Proof.
  intros HV Hb HL Hc. unfold preparePHI. rewrite Hb. cbn [deref mbind result_bind].
  destruct (first_point (fn st) b HV HL Hc) as (q & -> & HA).
  destruct (createAt_spec (PHINode []) b q st HV HA eq_refl) as (p & s' & E & H1 & H2 & _).
  assert (forall c, p ∉ insts (fn st) c) as Hp.
  { unfold createAt in E. cbn [iter mbind result_bind] in E. injection E as <- _.
    intros c. by apply create_fresh. }
  rewrite E. cbn [mbind result_bind]. cbn zeta.
  set (st1 := onNode n _ _).
  destruct (incoming_loop p (createIncrementConstant (-1) 32) (predecessors (fn st) b) [] st1)
    as (s2 & E2 & HR & Hl); [exact (appended_valid _ _ _ _ H1)|exact H2|].
  rewrite E2. assert (appended b (fn st) s2 [p]) as HAp.
  { destruct HR as [[_ ->]|HR]; [exact H1|]. by eapply appended_rephied. }
  eexists _, p, _. split; [done|]. split_and!; [exact HAp| |done| |done].
  - split; [exact Hl|]. intros c. rewrite (ap_cfg _ _ _ _ HAp), <- (pred_count _ _ _ HV).
    f_equal. simpl. clear. induction (predecessors (fn st) b) as [|x k IH]; [done|]. simpl. by f_equal.
  - intros m. unfold st1. simpl. rewrite !nd_updNode. repeat case_decide; subst; done.
Qed.

Lemma incomingFor_app c l1 l2 : c ∉ l1.*2 -> incomingFor c (l1 ++ l2) = incomingFor c l2.
Proof.
  induction l1 as [|[v b] l1 IH]; intros H; [done|]. simpl in *.
  rewrite decide_False by (intros ->; apply H; by left). apply IH. intros Hc. apply H. by right.
Qed.

Lemma incomingFor_mid c l1 v b l2 : c <> b -> incomingFor c (l1 ++ (v, b) :: l2) = incomingFor c (l1 ++ l2).
Proof.
  intros Hne. induction l1 as [|[w d] l1 IH]; simpl; [by rewrite decide_False by done|].
  by case_decide.
Qed.

Lemma incomingFor_snoc c l v b : c <> b -> incomingFor c (l ++ [(v, b)]) = incomingFor c l.
Proof. intros H. rewrite <- (app_nil_r l) at 2. by rewrite incomingFor_mid. Qed.

(** The entry of the source's block is replaced. *)
Lemma pushValueIntoPHI_spec t u p l bu bt v st :
  valid (fn st) -> getPathPHI (nd (dag st) t) = Some p -> PhiFor (fn st) bt p l ->
  getBlock (nd (dag st) u) = Some bu -> count_occ Nat.eq_dec (successors (fn st) bu) bt = 1%nat ->
  getEndingPathNumber (nd (dag st) u) = Some v ->
  exists s' l', pushValueIntoPHI t u st = Ok (setFn s' st) /\ rephied p (fn st) s' /\ PhiFor s' bt p l' /\
    incomingFor bu l' = Some v /\ forall c, c <> bu -> incomingFor c l' = incomingFor c l.
Proof.
  intros HV Hp [Hl Hcnt] Hu H1 HE. unfold pushValueIntoPHI. rewrite Hp, Hu. cbn [deref mbind result_bind]. cbn zeta.
  simpl dag. rewrite HE. cbn [deref mbind result_bind].
  assert (bu ∈ l.*2) as Hin.
  { apply list_elem_of_In, (count_occ_In Nat.eq_dec). rewrite Hcnt. lia. }
  apply list_elem_of_split_l in Hin as (k1 & k2 & Ek & Hk1).
  assert (exists l1 w l2, l = l1 ++ (w, bu) :: l2 /\ bu ∉ l1.*2 /\ bu ∉ l2.*2) as (l1 & w & l2 & -> & Hn1 & Hn2).
  { apply fmap_app_inv in Ek as (l1 & l2' & -> & El2 & ->).
    symmetry in El2. apply fmap_cons_inv in El2 as ([w b'] & l2 & Eb & -> & ->). simpl in Eb. subst b'.
    exists l1, w, l2. split_and!; [done|done|]. specialize (Hcnt bu).
    rewrite H1, fmap_app, fmap_cons, count_occ_app, count_occ_cons_eq in Hcnt by done.
    intros Hin%list_elem_of_In. apply (count_occ_In Nat.eq_dec) in Hin. unfold BlockId in *. lia. }
  pose proof (rephied_remove bu p l1 w l2 (fn st) HV Hl Hn1) as HR1.
  pose proof (remove_phi bu p (fn st) l1 w l2 Hl Hn1) as Hl1.
  set (s1 := removeIncomingValue bu p (fn st)) in *.
  pose proof (rephied_add v bu p (l1 ++ l2) s1 (ext_valid _ _ (rp_extends _ _ _ HR1)) Hl1) as HR2.
  exists (addIncoming v bu p s1), ((l1 ++ l2) ++ [(v, bu)]). split_and!.
  - done.
  - by eapply rephied_trans.
  - split; [by apply incoming_phi|].
    intros c. rewrite (rp_cfg _ _ _ HR2), (rp_cfg _ _ _ HR1), <- Hcnt.
    rewrite !fmap_app, fmap_cons, !count_occ_app, !fmap_cons. cbn [count_occ snd].
    destruct (Nat.eq_dec bu c); cbn [count_occ fmap list_fmap]; unfold BlockId in *; lia.
  - rewrite incomingFor_app; [simpl; by rewrite decide_True|]. rewrite fmap_app. by apply not_elem_of_app.
  - intros c Hc. by rewrite incomingFor_snoc, incomingFor_mid.
Qed.

(** Into a node with one predecessor: the value becomes the node's own. *)
Lemma push_single u t bt st : getBlock (nd (dag st) t) = Some bt ->
  (getNumberPredEdges (nd (dag st) t) <= 1)%nat -> getStartingPathNumber (nd (dag st) t) = None ->
  let E := getEndingPathNumber (nd (dag st) u) in
  exists st', pushValueIntoNode u t st = Ok st' /\ fn st' = fn st /\ numbered t E E (dag st) (dag st').
Proof.
  intros Hb Hp HS E. unfold pushValueIntoNode. rewrite Hb, decide_True, HS by done.
  rewrite bool_decide_eq_true_2 by done. cbn [assert mbind result_bind]. cbn zeta.
  assert (getEndingPathNumber (nd (dag (onNode t (setStartingPathNumber E) st)) u) = E) as EE.
  { simpl. rewrite nd_updNode. case_decide; by subst. }
  fold E. rewrite EE. eexists. split_and!; [done|done|].
  eapply numbered_end, numbered_start, numbered_refl.
Qed.

(** Into a node with several: through its PHI node, which is created first
    when there is none. *)
Lemma push_join u t bu bt v st : valid (fn st) -> getBlock (nd (dag st) t) = Some bt ->
  (2 <= getNumberPredEdges (nd (dag st) t))%nat -> getBlock (nd (dag st) u) = Some bu ->
  count_occ Nat.eq_dec (successors (fn st) bu) bt = 1%nat ->
  getEndingPathNumber (nd (dag st) u) = Some v ->
  match getPathPHI (nd (dag st) t) with
  | Some p => exists l, PhiFor (fn st) bt p l
  | None => u <> t /\ LastOk (fn st) bt /\ code (fn st) bt = []
  end ->
  exists st' p l', pushValueIntoNode u t st = Ok st' /\ PhiFor (fn st') bt p l' /\
    incomingFor bu l' = Some v /\ edgeStore (dag st') = edgeStore (dag st) /\
    match getPathPHI (nd (dag st) t) with
    | Some q => p = q /\ rephied p (fn st) (fn st') /\ dag st' = dag st /\
        forall l, PhiFor (fn st) bt p l -> forall c, c <> bu -> incomingFor c l' = incomingFor c l
    | None => appended bt (fn st) (fn st') [p] /\
        forall m, nd (dag st') m =
          if decide (m = t)
          then setEndingPathNumber (Some (Instruction p)) (setStartingPathNumber (Some (Instruction p))
                 (setPathPHI (Some p) (nd (dag st) t)))
          else nd (dag st) m
    end.
Proof.
  intros HV Hbt Hp Hbu H1 HE HP. unfold pushValueIntoNode. rewrite Hbt, decide_False by lia.
  destruct (getPathPHI (nd (dag st) t)) as [q|] eqn:EP.
  - destruct HP as [l Hl]. rewrite decide_False by done. cbn [mbind result_bind].
    destruct (pushValueIntoPHI_spec t u q l bu bt v st HV EP Hl Hbu H1 HE) as (s' & l' & E & HR & HP' & Hi & Hn).
    exists (setFn s' st), q, l'. split_and!; try done. intros k Hk.
    destruct Hk as [Hk _], Hl as [Hl _]. rewrite Hl in Hk. injection Hk as <-. exact Hn.
  - destruct HP as (Hne & HL & Hc). rewrite decide_True by done.
    destruct (preparePHI_spec t bt st HV Hbt HL Hc) as (st1 & p & l & E1 & HA & Hl & HS & HN & Hfr).
    rewrite E1. cbn [mbind result_bind].
    pose proof (HN t) as Ht. rewrite decide_True in Ht by done.
    pose proof (HN u) as Hu. rewrite decide_False in Hu by done.
    destruct (pushValueIntoPHI_spec t u p l bu bt v st1) as (s' & l' & E & HR & HP' & Hi & Hn);
      [exact (appended_valid _ _ _ _ HA)|by rewrite Ht|done|by rewrite Hu| |by rewrite Hu|].
    { by rewrite (ap_cfg _ _ _ _ HA). }
    exists (setFn s' st1), p, l'. split_and!; try done. by eapply appended_rephied.
Qed.

End Placement.
