(* ===== verification/Emission.v ===== *)
(** * The state of the insertion

    What holds between two calls of [insertInstrumentationStartingAt]
    (src/PathLogging.cpp): the DAG mirrors the control-flow graph of the
    function ([Layout]); its marks say consistently where a path is under way
    ([Labelled]); and the edges done so far have their code ([Inv], built on
    [Emitted]).  The lemmas of this file carry the parts of [Inv] that a step
    does not touch over that step. *)

From stdpp Require Import base numbers list gmap fin_sets.
From S2P Require Import Prelude Dag BallLarus Marking IR Instrument Execution Emitted.
From S2P Require Import Insertion Placement.

Local Open Scope Z_scope.

(** ** Labels *)

(** The edge leaves its source. *)
Definition linked (d : BLInstrumentationDag) (e : EdgeId) : Prop :=
  e ∈ succEdges (nd d (getSource (ed d e))).

(** Neither cut nor adding anything. *)
Definition plain (x : BLInstrumentationEdge) : Prop :=
  cut_type (getType x) = false /\ getIncrement x = 0.

(** Whether a path is under way after an edge, given whether one was before. *)
Definition after (d : BLInstrumentationDag) (e : EdgeId) (under_way : bool) : bool :=
  if cut_type (getType (ed d e))
  then match getPhonyRoot (ed d e) with
       | Some top => negb (isCounterIncrement (ed d top))
       | None => false
       end
  else negb (isCounterIncrement (ed d e)) && (isInitialization (ed d e) || under_way).

(** A cut edge has no marks of its own, but those of its phony edges. *)
Definition CutMarks (d : BLInstrumentationDag) (e : EdgeId) : Prop :=
  getIncrement (ed d e) = 0 /\ isInitialization (ed d e) = false /\ isCounterIncrement (ed d e) = false /\
  exists top bottom, getPhonyRoot (ed d e) = Some top /\ getPhonyExit (ed d e) = Some bottom /\
    top ∈ _edges d /\ bottom ∈ _edges d /\
    isInitialization (ed d top) = true /\ isCounterIncrement (ed d bottom) = true.

(** [under_way n]: on entry to [n] a path number is in the register.  It is
    never used without, nor overwritten where a single predecessor hands it
    on to an addition. *)
Record Labelled (d : BLInstrumentationDag) (under_way : NodeId -> bool) : Prop := {
  lb_bare n : getBlock (nd d n) = None -> under_way n = false;
  lb_edge e : linked d e -> getBlock (nd d (getTarget (ed d e))) <> None ->
    under_way (getTarget (ed d e)) = after d e (under_way (getSource (ed d e)));
  lb_add e : linked d e -> cut_type (getType (ed d e)) = false -> isInitialization (ed d e) = false ->
    getIncrement (ed d e) <> 0 -> under_way (getSource (ed d e)) = true;
  lb_count e : linked d e -> cut_type (getType (ed d e)) = false -> isCounterIncrement (ed d e) = true ->
    isInitialization (ed d e) = true \/ under_way (getSource (ed d e)) = true;
  lb_init e : linked d e -> cut_type (getType (ed d e)) = false -> isInitialization (ed d e) = true ->
    (getNumberPredEdges (nd d (getTarget (ed d e))) <= 1)%nat ->
    getBlock (nd d (getTarget (ed d e))) <> None ->
    forall x, x ∈ succEdges (nd d (getTarget (ed d e))) -> plain (ed d x);
  lb_cut e : linked d e -> cut_type (getType (ed d e)) = true -> CutMarks d e
}.

Definition entered (d : BLInstrumentationDag) (Q : gset EdgeId) (n : NodeId) : Prop :=
  exists e, e ∈ Q /\ getTarget (ed d e) = n.

Definition left (d : BLInstrumentationDag) (Q : gset EdgeId) (n : NodeId) : Prop :=
  exists e, e ∈ Q /\ getSource (ed d e) = n /\ atSource d e = true.

Lemma set_exists_dec (Q : gset EdgeId) (P : EdgeId -> Prop) `{!forall e, Decision (P e)} :
  (exists e, e ∈ Q /\ P e) \/ ~ (exists e, e ∈ Q /\ P e).
Proof.
  destruct (decide (set_Exists P Q)) as [HE|HN].
  - left. destruct HE as (e & ? & ?). by exists e.
  - right. intros (e & He & HP). apply HN. by exists e.
Qed.

Lemma entered_dec d Q n : entered d Q n \/ ~ entered d Q n.
Proof. apply set_exists_dec. intros e. apply _. Qed.

(** A node nothing has been placed in. *)
Definition blank (n : BLInstrumentationNode) : Prop :=
  getStartingPathNumber n = None /\ getEndingPathNumber n = None /\ getPathPHI n = None.

Section Emission.
Context `{LS : !LLVMSpec L} `{LF : !LLVMFlow L} `{BS : !BallLarusOpsSpec B}.

(** ** The DAG mirrors the function *)

Record Layout (d : BLInstrumentationDag) (s : Fn) : Prop := {
  ly_linked : Linked d;
  ly_valid : valid s;
  ly_pred n e : e ∈ predEdges (nd d n) <-> linked d e /\ getTarget (ed d e) = n;
  ly_succ n : NoDup (succEdges (nd d n));
  ly_pred_nodup n : NoDup (predEdges (nd d n));
  ly_block n m b : getBlock (nd d n) = Some b -> getBlock (nd d m) = Some b -> n = m;
  ly_cfg n b : getBlock (nd d n) = Some b ->
    successors s b ≡ₚ omap (fun e => getBlock (nd d (getTarget (ed d e)))) (succEdges (nd d n));
  ly_last n b : getBlock (nd d n) = Some b -> LastOk s b;
  ly_out n b : getBlock (nd d n) = Some b -> succEdges (nd d n) <> [];
  ly_exit : getBlock (nd d (getExit d)) = None /\ is_Some (nodeStore d !! getExit d);
  ly_target e : linked d e -> getBlock (nd d (getTarget (ed d e))) = None ->
    getTarget (ed d e) = getExit d /\ atSource d e = true
}.

(** ** What has been emitted *)

Record NodeOk (d : BLInstrumentationDag) (s : Fn) (under_way : NodeId -> bool) (Q : gset EdgeId) (g : Ghost)
    (n : NodeId) (b : BlockId) : Prop := {
  no_code : code s b = g_pre g n ++ g_post g n;
  no_blank : ~ entered d Q n -> blank (nd d n) /\ g n = blankGhost;
  no_mid : entered d Q n -> is_Some (g_mid g n) <-> under_way n = true;
  no_stay : ~ left d Q n -> g_post g n = [] /\ getEndingPathNumber (nd d n) = g_mid g n /\
    (is_Some (g_mid g n) -> getStartingPathNumber (nd d n) = g_mid g n \/
       forall x, x ∈ succEdges (nd d n) -> plain (ed d x));
  no_left : left d Q n -> getEndingPathNumber (nd d n) = g_out g n;
  no_join : entered d Q n -> (2 <= getNumberPredEdges (nd d n))%nat ->
    if under_way n
    then exists p l, getPathPHI (nd d n) = Some p /\ g_pre g n = [p] /\ g_mid g n = Some (Instruction p) /\
           PhiFor s b p l
    else getPathPHI (nd d n) = None /\ g_pre g n = []
}.

Record Inv (d : BLInstrumentationDag) (s : Fn) (under_way : NodeId -> bool) (Q : gset EdgeId) (g : Ghost)
    : Prop := {
  iv_layout : Layout d s;
  iv_labels : Labelled d under_way;
  iv_done e : e ∈ Q -> linked d e;
  iv_from e : e ∈ Q -> getBlock (nd d (getSource (ed d e))) = None \/ entered d Q (getSource (ed d e));
  iv_node n b : getBlock (nd d n) = Some b -> NodeOk d s under_way Q g n b;
  iv_bare n : getBlock (nd d n) = None -> blank (nd d n) /\ g n = blankGhost;
  iv_edge e : e ∈ Q -> EdgeEmitted s d g e
}.

(** ** Steps that leave an edge's code alone *)

Definition same_marks (x y : BLInstrumentationEdge) : Prop :=
  getIncrement y = getIncrement x /\ isInitialization y = isInitialization x /\
  isCounterIncrement y = isCounterIncrement x.

(** The parts of a node that say where its edges' code goes. *)
Record same_place (d d' : BLInstrumentationDag) (n : NodeId) : Prop := {
  sm_block : getBlock (nd d' n) = getBlock (nd d n);
  sm_succ : getNumberSuccEdges (nd d' n) = getNumberSuccEdges (nd d n);
  sm_pred : getNumberPredEdges (nd d' n) = getNumberPredEdges (nd d n)
}.

Lemma addsCode_frame s s' inc S l V : (forall i, i ∈ l -> isPHI (inst s i) = false -> inst s' i = inst s i) ->
  addsCode s inc S l V -> addsCode s' inc S l V.
Proof.
  intros HI [H|(Hi & v & i & HS & -> & E & HV)]; [by left|]. right. split; [done|]. exists v, i.
  by rewrite (HI i); [|left|rewrite E].
Qed.

Lemma callsCode_frame s s' V c : (isPHI (inst s c) = false -> inst s' c = inst s c) ->
  callsCode s V c -> callsCode s' V c.
Proof. intros HI (v & HV & E). exists v. by rewrite HI by (by rewrite E). Qed.

Lemma edgeCode_frame s s' d d' e S l V :
  ed d' e = ed d e -> (forall x, x ∈ _edges d -> same_marks (ed d x) (ed d' x)) ->
  (cut_type (getType (ed d e)) = true -> CutMarks d e) ->
  (forall i, i ∈ l -> isPHI (inst s i) = false -> inst s' i = inst s i) ->
  edgeCode s d e S l V -> edgeCode s' d' e S l V.
Proof.
  intros Ee Hm HC HI. unfold edgeCode. rewrite Ee. destruct (cut_type _).
  - intros (top & bottom & Et & Eb & Hti & Hbc & l0 & V1 & c & HA & Hc & H).
    destruct (HC eq_refl) as (_ & _ & _ & top' & bottom' & Et' & Eb' & Hti' & Hbi' & _).
    rewrite Et in Et'. rewrite Eb in Eb'. injection Et' as <-. injection Eb' as <-.
    destruct (Hm top Hti') as (T1 & T2 & T3), (Hm bottom Hbi') as (B1 & B2 & B3).
    exists top, bottom. rewrite T2, B3. split_and!; try done.
    exists l0, V1, c. rewrite T1, B1, T3. split_and!.
    + eapply addsCode_frame; [|exact HA]. intros i Hi. apply HI.
      destruct (isCounterIncrement (ed d top)); [destruct H as (? & _ & -> & _)|destruct H as [-> _]];
        apply elem_of_app; by left.
    + eapply callsCode_frame; [|exact Hc]. apply HI.
      destruct (isCounterIncrement (ed d top)); [destruct H as (? & _ & -> & _)|destruct H as [-> _]];
        apply elem_of_app; right; by left.
    + destruct (isCounterIncrement (ed d top)); [|done]. destruct H as (c2 & Hc2 & -> & ->). exists c2. split; [|done].
      eapply callsCode_frame; [|exact Hc2]. apply HI. apply elem_of_app. right. right. by left.
  - intros (l0 & V0 & HA & H). exists l0, V0.
    assert (forall i, i ∈ l0 -> i ∈ l) as Hl.
    { intros i Hi. destruct (isCounterIncrement (ed d e)); [destruct H as (? & _ & -> & _)|destruct H as [-> _]; done].
      apply elem_of_app. by left. }
    split.
    + destruct (isInitialization (ed d e)); [done|]. eapply addsCode_frame; [|exact HA]. auto.
    + destruct (isCounterIncrement (ed d e)); [|done]. destruct H as (c & Hc & -> & ->). exists c. split; [|done].
      eapply callsCode_frame; [|exact Hc]. apply HI. apply elem_of_app. right. by left.
Qed.

Lemma atSource_frame d d' e : ed d' e = ed d e -> same_place d d' (getSource (ed d e)) ->
  atSource d' e = atSource d e.
Proof. intros Ee H. unfold atSource. by rewrite Ee, (sm_block _ _ _ H), (sm_succ _ _ _ H). Qed.

(** The code of an edge stays where it is when the values and the code parts
    at its ends do. *)
Lemma EdgeEmitted_frame s s' d d' g g' e (u := getSource (ed d e)) (v := getTarget (ed d e)) :
  ed d' e = ed d e -> (forall x, x ∈ _edges d -> same_marks (ed d x) (ed d' x)) ->
  (cut_type (getType (ed d e)) = true -> CutMarks d e) ->
  same_place d d' u -> same_place d d' v ->
  (forall i, i ∈ g_post g u \/ i ∈ g_pre g v -> isPHI (inst s i) = false -> inst s' i = inst s i) ->
  (g_mid g' u = g_mid g u /\ g_post g' u = g_post g u /\ (atSource d e = true -> g_out g' u = g_out g u)) ->
  (g_pre g' v = g_pre g v /\ g_mid g' v = g_mid g v) ->
  (atSource d e = true -> forall p l b, g_pre g v = [p] -> inst s p = PHINode l ->
     getBlock (nd d u) = Some b ->
     exists l', inst s' p = PHINode l' /\ incomingFor b l' = incomingFor b l) ->
  EdgeEmitted s d g e -> EdgeEmitted s' d' g' e.
Proof.
  intros Ee Hm HC Hu Hv HI (G1 & G2 & G3) (G4 & G5) HP H. unfold EdgeEmitted in *.
  rewrite (atSource_frame d d' e Ee Hu), Ee. fold u v in H |- *.
  rewrite (sm_block _ _ _ Hu), (sm_block _ _ _ Hv), G1, G2, G4, G5.
  destruct (atSource d e).
  - destruct H as [HE HN]. rewrite G3 by done. split; [apply (edgeCode_frame s s' d d'); auto|].
    intros Hb. specialize (HN Hb). unfold Enters in *. rewrite (sm_pred _ _ _ Hv), G4, G5, G3 by done.
    case_decide; [done|]. destruct (g_out g u); [|done].
    destruct HN as (p & l & b & E1 & E2 & E3 & E4 & E5).
    destruct (HP eq_refl p l b E1 E3 E4) as (l' & E3' & E5'). exists p, l', b.
    rewrite (sm_block _ _ _ Hu), E5'. done.
  - destruct H as (Hb & HE & HN). split_and!; [done| |done]. apply (edgeCode_frame s s' d d'); auto.
Qed.

(** ** Steps that leave a node alone *)

Lemma NodeOk_frame d d' s s' w w' Q Q' g g' n b :
  getNumberPredEdges (nd d' n) = getNumberPredEdges (nd d n) ->
  succEdges (nd d' n) = succEdges (nd d n) ->
  getStartingPathNumber (nd d' n) = getStartingPathNumber (nd d n) ->
  getEndingPathNumber (nd d' n) = getEndingPathNumber (nd d n) ->
  getPathPHI (nd d' n) = getPathPHI (nd d n) ->
  (entered d' Q' n <-> entered d Q n) -> (left d' Q' n <-> left d Q n) ->
  (forall x, x ∈ succEdges (nd d n) -> plain (ed d x) -> plain (ed d' x)) ->
  w' n = w n -> g' n = g n -> code s' b = code s b ->
  (forall p l, g_pre g n = [p] -> PhiFor s b p l -> exists l', PhiFor s' b p l') ->
  NodeOk d s w Q g n b -> NodeOk d' s' w' Q' g' n b.
Proof.
  intros E1 E2 E3 E4 E5 HE HL Hpl Ew Eg Ec HP [H1 H2 H3 H4 H5 H6].
  assert (g_mid g' n = g_mid g n) as G1 by (unfold g_mid; by rewrite Eg).
  assert (g_out g' n = g_out g n) as G2 by (unfold g_out; by rewrite Eg).
  assert (g_pre g' n = g_pre g n) as G3 by (unfold g_pre; by rewrite Eg).
  assert (g_post g' n = g_post g n) as G4 by (unfold g_post; by rewrite Eg).
  split; rewrite ?G1, ?G2, ?G3, ?G4, ?E3, ?E4, ?E5, ?Ew, ?E1, ?E2.
  - by rewrite Ec.
  - rewrite HE, Eg. unfold blank. by rewrite E3, E4, E5.
  - by rewrite HE.
  - rewrite HL. intros Hn. destruct (H4 Hn) as (K1 & K2 & K3). split_and!; [done|done|].
    intros Hs. destruct (K3 Hs) as [|K]; [by left|]. right. auto.
  - by rewrite HL.
  - rewrite HE. intros He Hp. specialize (H6 He Hp). destruct (w n); [|done].
    destruct H6 as (p & l & P1 & P2 & P3 & P4). destruct (HP p l P2 P4) as [l' ?]. by exists p, l'.
Qed.

End Emission.
