(* ===== verification/Emit.v ===== *)
(** * Placing the code of one edge

    [placeEdge] of src/PathLogging.cpp (the two branches of
    [insertInstrumentationStartingAt] that call [instrumentEdge]) succeeds
    from every state in which [Inv] holds, and re-establishes [Inv] with the
    edge among those done. *)

From stdpp Require Import base numbers list gmap fin_sets.
From S2P Require Import Prelude Dag BallLarus Marking IR Instrument Execution Emitted.
From S2P Require Import Insertion Placement Emission.

Local Open Scope Z_scope.

Section Emit.
Context `{LS : !LLVMSpec L} `{LF : !LLVMFlow L} `{BS : !BallLarusOpsSpec B}.

(** The code of an edge, cut or not. *)
Lemma edge_code_spec e n b (atBeginning : bool) st :
  let d := dag st in
  let S := getStartingPathNumber (nd d n) in
  let E := getEndingPathNumber (nd d n) in
  valid (fn st) -> getBlock (nd d n) = Some b -> LastOk (fn st) b ->
  (atBeginning = true -> code (fn st) b = []) -> 0 < getNumberOfPaths d ->
  (cut_type (getType (ed d e)) = true -> CutMarks d e) ->
  (is_Some E -> S = E \/ plain (ed d e)) ->
  (cut_type (getType (ed d e)) = false -> isInitialization (ed d e) = false -> getIncrement (ed d e) <> 0 ->
   is_Some E) ->
  (cut_type (getType (ed d e)) = false -> isCounterIncrement (ed d e) = true ->
   isInitialization (ed d e) = true \/ is_Some E) ->
  exists st' l S' V,
    (if cut_type (getType (ed d e)) then instrumentCutEdge e n atBeginning st
     else instrumentNormalEdge e n atBeginning st) = Ok st' /\
    appended b (fn st) (fn st') l /\ edgeCode (fn st') d e E l V /\ numbered n S' V d (dag st') /\
    (atBeginning = true -> S = E -> is_Some V ->
       S' = V \/ (cut_type (getType (ed d e)) = false /\ isInitialization (ed d e) = true)) /\
    (is_Some V <-> after d e (bool_decide (is_Some E)) = true).
Proof.
  intros d S E HV Hb HL Hc Hp HC HS Hadd Hcnt. unfold edgeCode, after.
  destruct (cut_type (getType (ed d e))) eqn:Ecut.
  - destruct (HC eq_refl) as (_ & _ & _ & top & bottom & Et & Eb & _ & _ & Hti & Hbc).
    destruct (instrumentCutEdge_spec e n b atBeginning st top bottom HV Hb HL Hc Hp Et Eb Hti Hbc)
      as (st' & l & S' & V & E1 & H1 & H2 & H3 & H4).
    { intros _ Hs. destruct (HS Hs) as [|[Hn _]]; [done|congruence]. }
    exists st', l, S', V. split_and!; try done.
    + by exists top, bottom.
    + intros Ha _ Hs. left. by apply H4.
    + by rewrite (cutCode_value _ _ _ _ _ _ H2), Et, negb_true_iff.
  - destruct (instrumentNormalEdge_spec e n b atBeginning st HV Hb HL Hc Hp)
      as (st' & l & S' & V & E1 & H1 & H2 & H3 & H4).
    { intros Hi Hinc. specialize (Hadd eq_refl Hi Hinc). split; [done|].
      destruct (HS Hadd) as [|[_ Hn]]; [done|contradiction]. }
    { auto. }
    exists st', l, S', V. split_and!; try done.
    + intros Ha HSE Hs. destruct (H4 Ha HSE Hs); [by left|by right].
    + rewrite (normalCode_value _ _ _ _ _ H2), andb_true_iff, negb_true_iff, orb_true_iff, bool_decide_eq_true.
      done.
Qed.

(** ** What a placement carries over *)

Lemma placed_linked_edge st st' x : placed st st' -> linked (dag st') x <-> linked (dag st) x.
Proof.
  intros HP. unfold linked. by rewrite (placed_ed _ _ _ HP), (sn_succ _ _ (pl_shape _ _ HP _)).
Qed.

Lemma placed_place st st' n : placed st st' -> same_place (dag st) (dag st') n.
Proof.
  intros HP. pose proof (pl_shape _ _ HP n) as H. split.
  - apply H.
  - unfold getNumberSuccEdges. by rewrite (sn_succ _ _ H).
  - unfold getNumberPredEdges. by rewrite (sn_pred _ _ H).
Qed.

Lemma placed_atSource st st' x : placed st st' -> atSource (dag st') x = atSource (dag st) x.
Proof. intros HP. apply atSource_frame; [by apply placed_ed|by apply placed_place]. Qed.

Lemma placed_layout st st' : placed st st' -> Layout (dag st) (fn st) ->
  (forall c, successors (fn st') c = successors (fn st) c) ->
  (forall c, LastOk (fn st) c -> LastOk (fn st') c) -> Layout (dag st') (fn st').
Proof.
  intros HP HL Hc Hl.
  assert (forall n, getBlock (nd (dag st') n) = getBlock (nd (dag st) n)) as Hb by (intros n; apply (pl_shape _ _ HP n)).
  split.
  - eapply placed_linked; [done|apply HL].
  - apply HP.
  - intros n x. rewrite (sn_pred _ _ (pl_shape _ _ HP n)), (ly_pred _ _ HL), (placed_linked_edge _ _ _ HP).
    by rewrite (placed_ed _ _ _ HP).
  - intros n. rewrite (sn_succ _ _ (pl_shape _ _ HP n)). apply HL.
  - intros n. rewrite (sn_pred _ _ (pl_shape _ _ HP n)). apply HL.
  - intros n m b. rewrite !Hb. apply HL.
  - intros n b. rewrite Hb, Hc, (sn_succ _ _ (pl_shape _ _ HP n)). intros E. rewrite (ly_cfg _ _ HL n b E).
    apply Permutation_refl'. apply list_omap_ext. apply Forall_Forall2_diag, Forall_forall. intros x _.
    by rewrite (placed_ed _ _ _ HP), Hb.
  - intros n b. rewrite Hb. intros E. by apply Hl, (ly_last _ _ HL n).
  - intros n b. rewrite Hb, (sn_succ _ _ (pl_shape _ _ HP n)). apply HL.
  - rewrite (pl_exit _ _ HP), Hb. split; [apply HL|]. apply (pl_stored _ _ HP), HL.
  - intros x. rewrite (placed_linked_edge _ _ _ HP), (placed_ed _ _ _ HP), Hb, (pl_exit _ _ HP), (placed_atSource _ _ _ HP).
    apply HL.
Qed.

Lemma plain_ed d d' x : ed d' x = ed d x -> plain (ed d' x) <-> plain (ed d x).
Proof. by intros ->. Qed.

Lemma placed_labels st st' w : placed st st' -> Labelled (dag st) w -> Labelled (dag st') w.
Proof.
  intros HP HL.
  assert (forall n, getBlock (nd (dag st') n) = getBlock (nd (dag st) n)) as Hb by (intros n; apply (pl_shape _ _ HP n)).
  assert (forall x, ed (dag st') x = ed (dag st) x) as He by (intros x; by apply placed_ed).
  split.
  - intros n. rewrite Hb. apply HL.
  - intros x. rewrite (placed_linked_edge _ _ _ HP). unfold after. rewrite !He, Hb.
    intros H1 H2. rewrite (lb_edge _ _ HL x H1 H2). unfold after. destruct (cut_type _); [|done].
    by destruct (getPhonyRoot _); rewrite ?He.
  - intros x. rewrite (placed_linked_edge _ _ _ HP), He. apply HL.
  - intros x. rewrite (placed_linked_edge _ _ _ HP), He. apply HL.
  - intros x. rewrite (placed_linked_edge _ _ _ HP), He, Hb, (sm_pred _ _ _ (placed_place _ _ _ HP)),
      (sn_succ _ _ (pl_shape _ _ HP _)). intros H1 H2 H3 H4 H5 y Hy. rewrite He. by apply (lb_init _ _ HL x).
  - intros x. rewrite (placed_linked_edge _ _ _ HP), He. intros H1 H2.
    destruct (lb_cut _ _ HL x H1 H2) as (C1 & C2 & C3 & top & bottom & C). unfold CutMarks. rewrite He.
    split_and!; try done. exists top, bottom. by rewrite (pl_edges _ _ HP), !He.
Qed.

(** The code known of a node is in its block. *)
Lemma ghost_insts d s w Q g n i : Inv d s w Q g -> i ∈ g_pre g n ++ g_post g n ->
  exists b, getBlock (nd d n) = Some b /\ i ∈ insts s b.
Proof.
  intros HI Hi. destruct (getBlock (nd d n)) as [b|] eqn:E.
  - exists b. split; [done|]. apply code_elem. by rewrite (no_code _ _ _ _ _ _ _ (iv_node _ _ _ _ _ HI n b E)).
  - destruct (iv_bare _ _ _ _ _ HI n E) as [_ Eg]. unfold g_pre, g_post in Hi. rewrite Eg in Hi.
    by apply not_elem_of_nil in Hi.
Qed.

Definition upd (g : Ghost) (n : NodeId) (x : NodeGhost) : Ghost := fun m => if decide (m = n) then x else g m.

Lemma upd_eq g n x : upd g n x n = x.
Proof. unfold upd. by rewrite decide_True. Qed.

Lemma upd_ne g n x m : m <> n -> upd g n x m = g m.
Proof. intros H. unfold upd. by rewrite decide_False. Qed.

Lemma not_left_multi d Q n : (2 <= getNumberSuccEdges (nd d n))%nat -> ~ left d Q n.
Proof.
  intros Hn (x & Hx & Hu & Ha). unfold atSource in Ha. apply andb_prop in Ha as [_ Ha].
  apply bool_decide_eq_true in Ha. rewrite Hu in Ha. lia.
Qed.

Section Step.
Context (st : PassState) (w : NodeId -> bool) (Q : gset EdgeId) (g : Ghost) (e : EdgeId).
Context (HI : Inv (dag st) (fn st) w Q g) (HQ : e ∉ Q) (He : linked (dag st) e)
  (Hp : 0 < getNumberOfPaths (dag st)).
Abbreviation d := (dag st).
Abbreviation s := (fn st).
Abbreviation u := (getSource (ed d e)).
Abbreviation v := (getTarget (ed d e)).

Lemma edge_exists : e ∈ _edges d.
Proof using HI He. by apply (lk_succ _ (ly_linked _ _ (iv_layout _ _ _ _ _ HI))) in He as [? _]. Qed.

(** The only edge out of a node, or into one, is not done yet. *)
Lemma only_out x : (getNumberSuccEdges (nd d u) <= 1)%nat -> linked d x -> getSource (ed d x) = u -> x = e.
Proof using He.
  intros Hn Hx Hu. unfold linked in Hx. rewrite Hu in Hx. by apply (length_le_1_unique (succEdges (nd d u))).
Qed.

Lemma only_in x : (getNumberPredEdges (nd d v) <= 1)%nat -> linked d x -> getTarget (ed d x) = v -> x = e.
Proof using He HI.
  intros Hn Hx Hv. pose proof (ly_pred _ _ (iv_layout _ _ _ _ _ HI)) as HP.
  apply (length_le_1_unique (predEdges (nd d v))); [done| |]; by apply HP.
Qed.

Lemma not_left : (getNumberSuccEdges (nd d u) <= 1)%nat -> ~ left d Q u.
Proof using He HI HQ.
  intros Hn (x & Hx & Hu & _). apply HQ. rewrite <- (only_out x Hn); [done| |done].
  by apply (iv_done _ _ _ _ _ HI).
Qed.

Lemma not_entered : (getNumberPredEdges (nd d v) <= 1)%nat -> ~ entered d Q v.
Proof using He HI HQ.
  intros Hn (x & Hx & Hv). apply HQ. rewrite <- (only_in x Hn); [done| |done].
  by apply (iv_done _ _ _ _ _ HI).
Qed.

(** The edges done so far, with this one. *)
Lemma entered_more d' n : edgeStore d' = edgeStore d ->
  entered d' (Q ∪ {[e]}) n <-> entered d Q n \/ n = v.
Proof using.
  intros E. unfold entered. assert (forall x, ed d' x = ed d x) as Ee by (intros x; unfold ed; by rewrite E).
  split.
  - intros (x & [Hx| ->%elem_of_singleton]%elem_of_union & Hv); rewrite Ee in Hv; [left; by exists x|by right].
  - intros [(x & Hx & Hv)| ->]; [exists x|exists e]; rewrite Ee; split; try done; apply elem_of_union; [by left|].
    right. by apply elem_of_singleton.
Qed.

Lemma left_more d' n : edgeStore d' = edgeStore d -> (forall m, same_place d d' m) ->
  left d' (Q ∪ {[e]}) n <-> left d Q n \/ (n = u /\ atSource d e = true).
Proof using.
  intros E Hs. unfold left. assert (forall x, ed d' x = ed d x) as Ee by (intros x; unfold ed; by rewrite E).
  assert (forall x, atSource d' x = atSource d x) as Ea by (intros x; by apply atSource_frame).
  split.
  - intros (x & [Hx| ->%elem_of_singleton]%elem_of_union & Hv & Ha); rewrite Ee in Hv; rewrite Ea in Ha;
      [left; by exists x|by right].
  - intros [(x & Hx & Hv & Ha)|[-> Ha]]; [exists x|exists e]; rewrite Ee, Ea; split_and!; try done;
      apply elem_of_union; [by left|]. right. by apply elem_of_singleton.
Qed.

(** ** Putting the invariant back together *)

Abbreviation Q' := (Q ∪ {[e]}).

Lemma placed_inv st' g' : placed st st' ->
  (forall c, successors (fn st') c = successors s c) -> (forall c, LastOk s c -> LastOk (fn st') c) ->
  getBlock (nd d u) = None \/ entered d Q u ->
  (forall n b, getBlock (nd d n) = Some b -> NodeOk (dag st') (fn st') w Q' g' n b) ->
  (forall n, getBlock (nd d n) = None -> nd (dag st') n = nd d n /\ g' n = g n) ->
  (forall x, x ∈ Q -> let a := getSource (ed d x) in let b := getTarget (ed d x) in
     (g_mid g' a = g_mid g a /\ g_post g' a = g_post g a /\ (atSource d x = true -> g_out g' a = g_out g a)) /\
     (g_pre g' b = g_pre g b /\ g_mid g' b = g_mid g b)) ->
  (forall x, x ∈ Q -> atSource d x = true -> forall p l b, g_pre g (getTarget (ed d x)) = [p] ->
     inst s p = PHINode l -> getBlock (nd d (getSource (ed d x))) = Some b ->
     exists l', inst (fn st') p = PHINode l' /\ incomingFor b l' = incomingFor b l) ->
  EdgeEmitted (fn st') (dag st') g' e -> Inv (dag st') (fn st') w Q' g'.
Proof using HI He.
  intros HP Hcfg Hlast Hu Hnode Hbare Hg HPhi Hedge.
  pose proof (iv_labels _ _ _ _ _ HI) as HLb. pose proof (pl_edgeStore _ _ HP) as Est. split.
  - by apply (placed_layout _ _ HP (iv_layout _ _ _ _ _ HI)).
  - by eapply placed_labels.
  - intros x Hx. rewrite (placed_linked_edge _ _ _ HP). apply elem_of_union in Hx as [Hx| ->%elem_of_singleton]; [|done].
    by apply (iv_done _ _ _ _ _ HI).
  - intros x Hx. rewrite (placed_ed _ _ _ HP), (sn_block _ _ (pl_shape _ _ HP _)), (entered_more _ _ Est).
    apply elem_of_union in Hx as [Hx| ->%elem_of_singleton]; [|tauto].
    destruct (iv_from _ _ _ _ _ HI x Hx); tauto.
  - intros n b. rewrite (sn_block _ _ (pl_shape _ _ HP _)). apply Hnode.
  - intros n. rewrite (sn_block _ _ (pl_shape _ _ HP _)). intros Hb. destruct (Hbare n Hb) as [-> ->].
    by apply (iv_bare _ _ _ _ _ HI).
  - intros x [Hx| ->%elem_of_singleton]%elem_of_union; [|done]. destruct (Hg x Hx) as [G1 G2].
    apply (EdgeEmitted_frame s (fn st') d (dag st') g); try by apply placed_place.
    + by apply placed_ed.
    + intros y _. by rewrite (placed_ed _ _ _ HP).
    + by apply (lb_cut _ _ HLb), (iv_done _ _ _ _ _ HI).
    + assert (forall n i, i ∈ g_pre g n ++ g_post g n -> isPHI (inst s i) = false -> inst (fn st') i = inst s i) as Hin.
      { intros n i Hi Hph. destruct (ghost_insts _ _ _ _ _ _ _ HI Hi) as (b & _ & Hib). by apply (ext_inst _ _ (pl_fn _ _ HP) b). }
      intros i [Hi|Hi]; [apply (Hin (getSource (ed d x)))|apply (Hin (getTarget (ed d x)))];
        apply elem_of_app; [by right|by left].
    + done.
    + done.
    + intros Ha. by apply (HPhi x Hx).
    + by apply (iv_edge _ _ _ _ _ HI).
Qed.

(** A node that is neither the source of the code nor the target. *)
Lemma placed_node st' g' n b : placed st st' -> getBlock (nd d n) = Some b ->
  nd (dag st') n = nd d n -> g' n = g n -> (entered d Q n \/ n <> v) -> (n <> u \/ atSource d e = false) ->
  code (fn st') b = code s b ->
  (forall p l, g_pre g n = [p] -> PhiFor s b p l -> exists l', PhiFor (fn st') b p l') ->
  NodeOk (dag st') (fn st') w Q' g' n b.
Proof using HI.
  intros HP Hb Hnd Hg Hv Hu Hc Hphi. pose proof (pl_edgeStore _ _ HP) as Est.
  apply (NodeOk_frame d (dag st') s (fn st') w w Q Q' g); rewrite ?Hnd; try done.
  - rewrite (entered_more _ _ Est). destruct (entered_dec d Q n); tauto.
  - rewrite (left_more _ n Est (fun m => placed_place _ _ m HP)). intuition congruence.
  - intros x _. by rewrite (placed_ed _ _ _ HP).
  - by apply (iv_node _ _ _ _ _ HI).
Qed.

(** *** In the target *)

Section Target.
Context (HA : atSource d e = false) (Hone : (getNumberPredEdges (nd d v) = 1)%nat)
  (Hu : getBlock (nd d u) = None \/ entered d Q u).

Lemma target_block : is_Some (getBlock (nd d v)).
Proof using HA HI He.
  destruct (getBlock (nd d v)) eqn:E; [done|].
  destruct (ly_target _ _ (iv_layout _ _ _ _ _ HI) e He E). congruence.
Qed.

(** The source's value, as the target will get it. *)
Lemma source_value : getEndingPathNumber (nd d u) = g_mid g u /\
  (getBlock (nd d u) <> None -> g_post g u = []) /\
  (is_Some (g_mid g u) <-> w u = true) /\ u <> v.
Proof using HA HI HQ He Hone Hu.
  destruct (getBlock (nd d u)) as [b|] eqn:E.
  - destruct Hu as [|Hen]; [congruence|].
    assert (2 <= getNumberSuccEdges (nd d u))%nat as Hm.
    { unfold atSource in HA. rewrite E in HA. rewrite bool_decide_eq_true_2 in HA by done.
      apply bool_decide_eq_false in HA. lia. }
    pose proof (iv_node _ _ _ _ _ HI u b E) as HN.
    destruct (no_stay _ _ _ _ _ _ _ HN (not_left_multi d Q u Hm)) as (H1 & H2 & _).
    split_and!; [done|done|by apply (no_mid _ _ _ _ _ _ _ HN)|].
    intros Huv. apply not_entered; [lia|]. by rewrite <- Huv.
  - destruct (iv_bare _ _ _ _ _ HI u E) as [(_ & H2 & _) Eg]. unfold g_mid. rewrite Eg, H2. split_and!; try done.
    + rewrite (lb_bare _ _ (iv_labels _ _ _ _ _ HI) u E). split; [by intros []|done].
    + intros Huv. destruct target_block as [b Hb]. rewrite <- Huv in Hb. congruence.
Qed.

(** The run, and what it leaves in the target. *)
Lemma target_run bv : getBlock (nd d v) = Some bv -> getStartingPathNumber (nd d v) = None -> code s bv = [] ->
  exists st', placeEdge e st = Ok (true, st') /\ exists l S' V, appended bv s (fn st') l /\
    edgeCode (fn st') d e (g_mid g u) l V /\
    (forall m, nd (dag st') m = if decide (m = v) then setEndingPathNumber V (setStartingPathNumber S' (nd d v)) else nd d m) /\
    (is_Some V -> S' = V \/ forall x, x ∈ succEdges (nd d v) -> plain (ed d x)) /\
    (is_Some V <-> w v = true).
Proof using All.
  intros Hbv Bs Hcode. destruct source_value as (HE & Hpost & Hw & Huv).
  pose proof (iv_layout _ _ _ _ _ HI) as HLy. pose proof (iv_labels _ _ _ _ _ HI) as HLb.
  unfold placeEdge. unfold atSource in HA. rewrite HA, decide_True by done.
  destruct (push_single u v bv st Hbv ltac:(lia) Bs) as (st1 & E1 & F1 & HN1). rewrite HE in HN1.
  rewrite E1. cbn [mbind result_bind].
  destruct (numbered_values _ _ _ _ _ HN1) as (S1 & V1 & B1). pose proof (fun x => numbered_ed _ _ _ _ _ x HN1) as Hed.
  destruct HN1 as ((Es & Ee) & Epn & HN1).
  destruct (edge_code_spec e v bv true st1) as (st2 & l & S' & V & E2 & H1 & H2 & H3 & H4 & H5);
    rewrite ?F1, ?B1, ?S1, ?V1, ?Hed; auto; try apply HLy.
  - by apply (ly_last _ _ HLy v).
  - lia.
  - intros Hc. destruct (lb_cut _ _ HLb e He Hc) as (C1 & C2 & C3 & top & bottom & C). unfold CutMarks.
    rewrite Hed. split_and!; try done. exists top, bottom. by rewrite Ee, !Hed.
  - intros H1 H2 H3. apply Hw. by apply (lb_add _ _ HLb e).
  - intros H1 H2. destruct (lb_count _ _ HLb e He H1 H2); [by left|right]. by apply Hw.
  - unfold instrumentEdge. rewrite Hed in E2 |- *. rewrite E2. cbn [mbind result_bind].
    eexists. split; [done|]. exists l, S', V. rewrite F1 in H1. rewrite V1 in H2, H5. split_and!.
    + done.
    + eapply (edgeCode_frame (fn st2) (fn st2) (dag st1)); [by rewrite Hed| | | |exact H2]; try done.
      * intros x _. by rewrite Hed.
      * intros Hc. rewrite Hed in Hc. destruct (lb_cut _ _ HLb e He Hc) as (C1 & C2 & C3 & top & bottom & C). unfold CutMarks.
        rewrite Hed. split_and!; try done. exists top, bottom. by rewrite Ee, !Hed.
    + intros m. destruct H3 as (_ & _ & ->). rewrite !HN1. by repeat case_decide.
    + intros Hs. rewrite S1, V1 in H4. destruct (H4 eq_refl eq_refl Hs) as [|[Hc Hi]]; [by left|right].
      rewrite Hed in Hc, Hi. apply (lb_init _ _ HLb e); auto; [lia|congruence].
    + rewrite H5, (lb_edge _ _ HLb e He) by congruence. unfold after. rewrite !Hed.
      assert (bool_decide (is_Some (g_mid g u)) = w u) as ->.
      { destruct (w u) eqn:Ew; [by apply bool_decide_eq_true_2, Hw|].
        apply bool_decide_eq_false_2. by rewrite Hw. }
      destruct (cut_type _); [|done]. by destruct (getPhonyRoot _); rewrite ?Hed.
Qed.

Lemma place_target : Good st -> exists st' g', placeEdge e st = Ok (true, st') /\
  Inv (dag st') (fn st') w Q' g'.
Proof using All.
  intros HG. destruct target_block as [bv Hbv]. destruct source_value as (HE & Hpost & Hw & Huv).
  pose proof (iv_layout _ _ _ _ _ HI) as HLy. pose proof (iv_labels _ _ _ _ _ HI) as HLb.
  pose proof (not_entered ltac:(lia)) as Hnv. pose proof (iv_node _ _ _ _ _ HI v bv Hbv) as HNv.
  destruct (no_blank _ _ _ _ _ _ _ HNv Hnv) as [(Bs & Be & Bp) Bg].
  assert (code s bv = []) as Hcode.
  { rewrite (no_code _ _ _ _ _ _ _ HNv). unfold g_pre, g_post. by rewrite Bg. }
  destruct (target_run bv Hbv Bs Hcode) as (st' & Ep & l & S' & V & HAp & HC & HN & HS & HV).
  pose proof (placeEdge_placed e st true st' HG Ep) as [[_ HP]|[? _]]; [|done].
  assert (forall x, x ∈ Q -> getTarget (ed d x) <> v /\ getSource (ed d x) <> v) as Hxv.
  { intros x Hx. split; [intros Hxt; apply Hnv; by exists x|]. intros Hxs.
    destruct (iv_from _ _ _ _ _ HI x Hx) as [H|H]; rewrite Hxs in H; [congruence|done]. }
  assert (forall n k b, getBlock (nd d n) = Some b -> k ∈ g_pre g n -> inst (fn st') k = inst s k) as Hin.
  { intros n k b Hb Hk. apply (ap_inst _ _ _ _ HAp b). apply code_elem.
    rewrite (no_code _ _ _ _ _ _ _ (iv_node _ _ _ _ _ HI n b Hb)). apply elem_of_app. by left. }
  exists st', (upd g v (MkGhost V None l [])). split; [done|].
  apply placed_inv; [done|apply HAp|apply HAp|done| | | | |].
  - intros n b Hb. destruct (decide (n = v)) as [->|Hn].
    + assert (b = bv) as -> by congruence. pose proof (HN v) as HNv'. rewrite decide_True in HNv' by done.
      split; unfold g_mid, g_pre, g_post, g_out; rewrite ?upd_eq; cbn [n_mid n_out n_pre n_post].
      * by rewrite app_nil_r, (ap_here _ _ _ _ HAp), Hcode.
      * intros Hx. destruct Hx. apply (entered_more _ _ (pl_edgeStore _ _ HP)). by right.
      * by intros _.
      * intros _. rewrite HNv'. split_and!; [done|done|]. intros Hs. destruct (HS Hs) as [|Hpl]; [by left|right].
        intros x Hx. rewrite (placed_ed _ _ _ HP). by apply Hpl.
      * rewrite (left_more _ _ (pl_edgeStore _ _ HP) (fun m => placed_place _ _ m HP)).
        intros [(x & Hx & Hxs & _)|[Hvu _]]; [by destruct (Hxv x Hx)|congruence].
      * rewrite (sm_pred _ _ _ (placed_place _ _ _ HP)). lia.
    + apply placed_node; try done; [by rewrite HN, decide_False|by apply upd_ne|by right|by right| |].
      * apply HAp. intros ->. by apply Hn, (ly_block _ _ HLy n v bv).
      * intros p k Epre [Hk1 Hk2]. exists k. split; [|intros c; by rewrite (ap_cfg _ _ _ _ HAp)].
        rewrite (Hin n p b); [done|done|]. rewrite Epre. by left.
  - intros n Hb. assert (n <> v) as Hn by congruence. by rewrite HN, decide_False, upd_ne.
  - intros x Hx. destruct (Hxv x Hx). cbn zeta. unfold g_mid, g_post, g_out, g_pre. by rewrite !upd_ne.
  - intros x Hx _ p k b Epre Hk _. exists k. split; [|done].
    assert (p ∈ g_pre g (getTarget (ed d x)) ++ g_post g (getTarget (ed d x))) as Hp' by (rewrite Epre; by left).
    destruct (ghost_insts _ _ _ _ _ _ _ HI Hp') as (c & _ & Hc). by rewrite (ap_inst _ _ _ _ HAp c).
  - unfold EdgeEmitted. rewrite (placed_atSource _ _ _ HP), HA, (placed_ed _ _ _ HP), !(sn_block _ _ (pl_shape _ _ HP _)).
    unfold g_mid, g_pre, g_post. rewrite upd_eq, upd_ne by done. cbn [n_mid n_out n_pre n_post]. split_and!; [congruence| |done].
    eapply (edgeCode_frame (fn st') (fn st') d); [by apply placed_ed| |by apply (lb_cut _ _ HLb)|done|exact HC].
    intros y _. by rewrite (placed_ed _ _ _ HP).
Qed.

End Target.

(** *** In the source *)

Section Source.
Context (HA : atSource d e = true) (Hu : entered d Q u).

Lemma source_alone : is_Some (getBlock (nd d u)) /\ (getNumberSuccEdges (nd d u) <= 1)%nat.
Proof using HA.
  unfold atSource in HA. apply andb_prop in HA as [H1 H2].
  apply bool_decide_eq_true in H1, H2. split; [|done]. by destruct (getBlock _).
Qed.

(** What the source's block looks like before. *)
Lemma source_node bu : getBlock (nd d u) = Some bu ->
  code s bu = g_pre g u /\ getEndingPathNumber (nd d u) = g_mid g u /\
  (is_Some (g_mid g u) -> getStartingPathNumber (nd d u) = g_mid g u \/ plain (ed d e)) /\
  (is_Some (g_mid g u) <-> w u = true).
Proof using HA HI HQ He Hu.
  intros Hb. destruct source_alone as [_ Hone]. pose proof (iv_node _ _ _ _ _ HI u bu Hb) as HN.
  destruct (no_stay _ _ _ _ _ _ _ HN (not_left Hone)) as (H1 & H2 & H3). split_and!.
  - by rewrite (no_code _ _ _ _ _ _ _ HN), H1, app_nil_r.
  - done.
  - intros Hs. destruct (H3 Hs) as [|H]; [by left|right]. by apply H.
  - by apply (no_mid _ _ _ _ _ _ _ HN).
Qed.

(** The first half of the run: the code of the edge. *)
Lemma source_run bu : getBlock (nd d u) = Some bu -> exists st1 l S' V,
  (if cut_type (getType (ed d e)) then instrumentCutEdge e u false st
   else instrumentNormalEdge e u false st) = Ok st1 /\
  appended bu s (fn st1) l /\ edgeCode (fn st1) d e (g_mid g u) l V /\ numbered u S' V d (dag st1) /\
  (is_Some V <-> after d e (w u) = true).
Proof using LF HA HI HQ He Hp Hu.
  intros Hb. destruct (source_node bu Hb) as (Hc & HE & HS & Hw).
  pose proof (iv_layout _ _ _ _ _ HI) as HLy. pose proof (iv_labels _ _ _ _ _ HI) as HLb.
  destruct (edge_code_spec e u bu false st) as (st1 & l & S' & V & E1 & H1 & H2 & H3 & _ & H5);
    rewrite ?HE; try done; try apply HLy.
  - by apply (ly_last _ _ HLy u).
  - by apply (lb_cut _ _ HLb).
  - intros K1 K2 K3. apply Hw. by apply (lb_add _ _ HLb e).
  - intros K1 K2. destruct (lb_count _ _ HLb e He K1 K2); [by left|right]. by apply Hw.
  - exists st1, l, S', V. rewrite HE in H2, H5. split_and!; try done. rewrite H5. f_equiv.
    destruct (w u) eqn:Ew.
    + rewrite bool_decide_eq_true_2; [done|]. by apply Hw.
    + rewrite bool_decide_eq_false_2; [done|]. by rewrite Hw.
Qed.

(** The target was entered before exactly when it has another edge into it. *)
Lemma target_not_source : ~ entered d Q v -> v <> u.
Proof using Hu. intros Hn E. apply Hn. by rewrite E. Qed.

Section Finish.
Context (st1 st' : PassState) (l : list InstId) (V : option Value) (bu : BlockId) (g' : Ghost).
Context (Hbu : getBlock (nd d u) = Some bu) (HP : placed st st')
  (HAp : appended bu s (fn st1) l) (HC : edgeCode (fn st1) d e (g_mid g u) l V)
  (HV : is_Some V <-> after d e (w u) = true).
Context (Hext : extends (fn st1) (fn st')) (Hcfg : forall c, successors (fn st') c = successors s c)
  (Hlast : forall c, LastOk s c -> LastOk (fn st') c)
  (Hcode : code (fn st') bu = code (fn st1) bu)
  (Hend : getEndingPathNumber (nd (dag st') u) = V)
  (Hphi : getPathPHI (nd (dag st') u) = getPathPHI (nd d u))
  (Hg : g' u = MkGhost (g_mid g u) V (g_pre g u) l)
  (Hother : forall n, n <> u -> n <> v -> nd (dag st') n = nd d n /\ g' n = g n)
  (Hocode : forall n b, getBlock (nd d n) = Some b -> n <> u -> n <> v -> code (fn st') b = code s b)
  (Hjoin : forall n b p k, getBlock (nd d n) = Some b -> entered d Q n -> g_pre g n = [p] ->
     PhiFor s b p k -> exists k', PhiFor (fn st') b p k' /\
       forall c, (n = v -> c <> bu) -> incomingFor c k' = incomingFor c k)
  (Hbare : getBlock (nd d v) = None -> nd (dag st') v = nd d v /\ g' v = g v)
  (Hv : entered d Q v -> v <> u -> g' v = g v)
  (Hnode : forall b, getBlock (nd d v) = Some b -> v <> u -> NodeOk (dag st') (fn st') w Q' g' v b)
  (Henter : getBlock (nd d v) <> None -> Enters (fn st') (dag st') g' u v).

Lemma source_ok : NodeOk (dag st') (fn st') w Q' g' u bu.
Proof using All.
  destruct (source_node bu Hbu) as (Hc & _ & _ & Hw). pose proof (iv_node _ _ _ _ _ HI u bu Hbu) as HN.
  split; unfold g_mid, g_pre, g_post, g_out; rewrite Hg; cbn [n_mid n_out n_pre n_post].
  - by rewrite Hcode, (ap_here _ _ _ _ HAp), Hc.
  - intros Hx. destruct Hx. apply (entered_more _ _ (pl_edgeStore _ _ HP)). by left.
  - by intros _.
  - intros Hx. destruct Hx. apply (left_more _ _ (pl_edgeStore _ _ HP) (fun m => placed_place _ _ m HP)). by right.
  - by intros _.
  - intros _. rewrite (sm_pred _ _ _ (placed_place _ _ _ HP)). intros Hp2.
    pose proof (no_join _ _ _ _ _ _ _ HN Hu Hp2) as HJ. rewrite Hphi. destruct (w u); [|done].
    destruct HJ as (p & k & J1 & J2 & J3 & J4). destruct (Hjoin u bu p k Hbu Hu J2 J4) as (k' & J4' & _).
    by exists p, k'.
Qed.

(** The slots of the edges done before. *)
Lemma kept_slot x : x ∈ Q -> atSource d x = true -> forall p k b, g_pre g (getTarget (ed d x)) = [p] ->
  inst s p = PHINode k -> getBlock (nd d (getSource (ed d x))) = Some b ->
  exists k', inst (fn st') p = PHINode k' /\ incomingFor b k' = incomingFor b k.
Proof using All.
  intros Hx Ha p k b Epre Hk Hb. destruct source_alone as [_ Hone].
  assert (entered d Q (getTarget (ed d x))) as Hxt by (by exists x).
  assert (p ∈ g_pre g (getTarget (ed d x)) ++ g_post g (getTarget (ed d x))) as Hp' by (rewrite Epre; by left).
  destruct (ghost_insts _ _ _ _ _ _ _ HI Hp') as (c & Hc & _).
  pose proof (iv_edge _ _ _ _ _ HI x Hx) as HE. unfold EdgeEmitted in HE. rewrite Ha in HE.
  destruct HE as [_ HE]. specialize (HE ltac:(congruence)). unfold Enters in HE.
  case_decide as Hpr; [destruct HE as [HE _]; congruence|].
  pose proof (no_join _ _ _ _ _ _ _ (iv_node _ _ _ _ _ HI _ _ Hc) Hxt ltac:(lia)) as HJ.
  destruct (w (getTarget (ed d x))); [|destruct HJ; congruence]. destruct HJ as (q & m & _ & J2 & _ & J4).
  assert (q = p) as -> by congruence. destruct (Hjoin _ _ p m Hc Hxt Epre J4) as (k' & [K1 _] & K2).
  destruct J4 as [J4 _]. assert (m = k) as -> by congruence.
  exists k'. split; [done|]. apply K2. intros _ ->.
  pose proof (ly_block _ _ (iv_layout _ _ _ _ _ HI) _ _ _ Hb Hbu) as Hxu.
  apply HQ. rewrite <- (only_out x Hone); [done| |done]. by apply (iv_done _ _ _ _ _ HI).
Qed.

Lemma source_inv : Inv (dag st') (fn st') w Q' g'.
Proof using All.
  pose proof (iv_labels _ _ _ _ _ HI) as HLb. destruct source_alone as [_ Hone].
  apply placed_inv; [done|done|done|by right| | | | |].
  - intros n b Hb. destruct (decide (n = u)) as [->|Hnu].
    { assert (b = bu) as -> by congruence. apply source_ok. }
    destruct (decide (n = v)) as [->|Hnv]; [by apply Hnode|]. destruct (Hother n Hnu Hnv) as [E1 E2].
    apply placed_node; try done; [by right|by left|by eapply Hocode|].
    intros p k Epre Hk. destruct (entered_dec d Q n) as [Hen|Hen].
    + destruct (Hjoin n b p k Hb Hen Epre Hk) as (k' & ? & _). by exists k'.
    + destruct (no_blank _ _ _ _ _ _ _ (iv_node _ _ _ _ _ HI n b Hb) Hen) as [_ Eg].
      unfold g_pre in Epre. by rewrite Eg in Epre.
  - intros n Hb. destruct (decide (n = v)) as [->|Hnv]; [by apply Hbare|]. apply Hother; congruence.
  - intros x Hx. cbn zeta.
    assert (getSource (ed d x) <> u) as Hxu.
    { intros Hxu. apply HQ. rewrite <- (only_out x Hone); [done| |done]. by apply (iv_done _ _ _ _ _ HI). }
    assert (forall n, entered d Q n -> g_pre g' n = g_pre g n /\ g_mid g' n = g_mid g n) as Hent.
    { intros n Hn. unfold g_pre, g_mid. destruct (decide (n = u)) as [->|Hnu]; [by rewrite Hg|].
      destruct (decide (n = v)) as [->|Hnv]; [by rewrite Hv|]. by destruct (Hother n Hnu Hnv) as [_ ->]. }
    split; [|by apply Hent; exists x].
    assert (g' (getSource (ed d x)) = g (getSource (ed d x))) as Eg.
    { destruct (decide (getSource (ed d x) = v)) as [Ev|Hnv]; [|by apply Hother].
      destruct (iv_from _ _ _ _ _ HI x Hx) as [H|H]; rewrite Ev in H |- *; [by apply Hbare|].
      apply Hv; congruence. }
    unfold g_mid, g_post, g_out. by rewrite Eg.
  - apply kept_slot.
  - unfold EdgeEmitted. rewrite (placed_atSource _ _ _ HP), HA, (placed_ed _ _ _ HP), (sn_block _ _ (pl_shape _ _ HP _)).
    split; [|done]. unfold g_mid, g_post, g_out. rewrite Hg. cbn [n_mid n_out n_post].
    eapply (edgeCode_frame (fn st1) (fn st') d); [by apply placed_ed| |by apply (lb_cut _ _ HLb)| |exact HC].
    + intros y _. by rewrite (placed_ed _ _ _ HP).
    + intros i Hi. apply (ext_inst _ _ Hext bu). by eapply appended_new.
Qed.

End Finish.

(** The ways the value can go on from the source's block. *)
Section Cases.
Context (st1 : PassState) (l : list InstId) (S' V : option Value) (bu : BlockId) (HG : Good st).
Context (Hbu : getBlock (nd d u) = Some bu)
  (E1 : (if cut_type (getType (ed d e)) then instrumentCutEdge e u false st
         else instrumentNormalEdge e u false st) = Ok st1)
  (HAp : appended bu s (fn st1) l) (HC : edgeCode (fn st1) d e (g_mid g u) l V)
  (HN : numbered u S' V d (dag st1)) (HV : is_Some V <-> after d e (w u) = true).

Let gu : Ghost := upd g u (MkGhost (g_mid g u) V (g_pre g u) l).

Definition sourceGoal : Prop := exists st' g', placeEdge e st = Ok (true, st') /\
  Inv (dag st') (fn st') w Q' g'.

Lemma place_unfold : placeEdge e st =
  (st' ← (match V with Some _ => pushValueIntoNode u v st1 | None => Ok st1 end); Ok (true, st')).
Proof using HA E1 HN.
  unfold placeEdge, instrumentEdge. unfold atSource in HA. rewrite HA, E1. cbn [mbind result_bind].
  by destruct (numbered_values _ _ _ _ _ HN) as (_ & -> & _).
Qed.

Lemma placed_of st' : placeEdge e st = Ok (true, st') -> placed st st'.
Proof using HG. intros E. by destruct (placeEdge_placed e st true st' HG E) as [[_ HP]|[? _]]. Qed.

Lemma numbered_other n : n <> u -> nd (dag st1) n = nd d n.
Proof using HN. intros Hn. destruct HN as (_ & _ & H). by rewrite H, decide_False. Qed.

Lemma numbered_phi : getPathPHI (nd (dag st1) u) = getPathPHI (nd d u).
Proof using HN. destruct HN as (_ & _ & H). by rewrite H, decide_True. Qed.

(** PHI nodes whose function step changes no old instruction. *)
Lemma join_kept st' : (forall c i, i ∈ insts s c -> inst (fn st') i = inst s i) ->
  (forall c, successors (fn st') c = successors s c) ->
  forall n b p k, getBlock (nd d n) = Some b -> entered d Q n -> g_pre g n = [p] -> PhiFor s b p k ->
  exists k', PhiFor (fn st') b p k' /\ forall c, (n = v -> c <> bu) -> incomingFor c k' = incomingFor c k.
Proof using HI.
  intros Hi Hc n b p k Hb _ Epre [K1 K2]. exists k. split; [|done].
  assert (p ∈ g_pre g n ++ g_post g n) as Hp' by (rewrite Epre; by left).
  destruct (ghost_insts _ _ _ _ _ _ _ HI Hp') as (c & _ & Hpc).
  split; [by rewrite (Hi c)|]. intros x. by rewrite Hc.
Qed.

Lemma target_label : getBlock (nd d v) <> None -> w v = true <-> is_Some V.
Proof using HI He HV. intros Hb. by rewrite (lb_edge _ _ (iv_labels _ _ _ _ _ HI) e He Hb), HV. Qed.

(** Without a value at the end of the source nothing is under way in the target. *)
Lemma quiet_label : V = None -> getBlock (nd d v) <> None -> w v = false.
Proof using HI He HV.
  intros HVn Hb. apply not_true_iff_false. rewrite target_label by done. rewrite HVn. by intros [].
Qed.

Lemma quiet_target : V = None -> getBlock (nd d v) <> None -> g_pre gu v = [] /\ g_mid gu v = None.
Proof using HI HQ He HV.
  intros HVn Hb. pose proof (quiet_label HVn Hb) as Hwv.
  assert (g_pre g v = [] /\ g_mid g v = None) as [H1 H2].
  { destruct (getBlock (nd d v)) as [b|] eqn:Eb; [|done]. pose proof (iv_node _ _ _ _ _ HI v b Eb) as HNv.
    destruct (entered_dec d Q v) as [Hen|Hen].
    - assert (g_mid g v = None) as Hm.
      { apply eq_None_not_Some. rewrite (no_mid _ _ _ _ _ _ _ HNv Hen). by rewrite Hwv. }
      split; [|done]. assert (2 <= getNumberPredEdges (nd d v))%nat as Hpr.
      { destruct (decide (getNumberPredEdges (nd d v) <= 1)%nat); [|lia]. exfalso. by apply not_entered. }
      pose proof (no_join _ _ _ _ _ _ _ HNv Hen Hpr) as HJ. rewrite Hwv in HJ. apply HJ.
    - destruct (no_blank _ _ _ _ _ _ _ HNv Hen) as [_ Bg]. unfold g_pre, g_mid. by rewrite Bg. }
  unfold g_pre, g_mid, gu in *. destruct (decide (v = u)) as [Evu|Hvu]; [|by rewrite upd_ne].
  rewrite Evu in H1, H2 |- *. by rewrite upd_eq.
Qed.

Lemma quiet_node b : placed st st1 -> V = None -> getBlock (nd d v) = Some b -> v <> u ->
  code (fn st1) b = code s b -> NodeOk (dag st1) (fn st1) w Q' gu v b.
Proof using All.
  intros HP HVn Hb Hvu Hc. pose proof (quiet_label HVn ltac:(congruence)) as Hwv.
  destruct (entered_dec d Q v) as [Hen|Hen].
  - apply placed_node; try done; [by apply numbered_other|by apply upd_ne|by left|by left|].
    intros p k Epre Hk. destruct (join_kept st1 (ap_inst _ _ _ _ HAp) (ap_cfg _ _ _ _ HAp) v b p k Hb Hen Epre Hk)
      as (k' & ? & _). by exists k'.
  - pose proof (iv_node _ _ _ _ _ HI v b Hb) as HNv. destruct (no_blank _ _ _ _ _ _ _ HNv Hen) as [(B1 & B2 & B3) Bg].
    split; unfold g_mid, g_pre, g_post, g_out, gu; rewrite ?upd_ne, ?Bg, ?numbered_other by done; cbn [blankGhost n_mid n_out n_pre n_post].
    + rewrite Hc, (no_code _ _ _ _ _ _ _ HNv). unfold g_pre, g_post. by rewrite Bg.
    + by split.
    + intros _. rewrite Hwv. split; [by intros []|done].
    + intros _. rewrite B1, B2. split_and!; [done|done|by left].
    + by rewrite B2.
    + intros _ _. by rewrite Hwv, B3.
Qed.

(** No value goes on, or it leaves the function. *)
Lemma source_quiet : V = None \/ getBlock (nd d v) = None -> sourceGoal.
Proof using All.
  intros Hq. pose proof (iv_layout _ _ _ _ _ HI) as HLy.
  assert (placeEdge e st = Ok (true, st1)) as Ep.
  { rewrite place_unfold. destruct Hq as [HVn|Hb]; [by rewrite HVn|].
    assert (pushValueIntoNode u v st1 = Ok st1) as EP.
    { unfold pushValueIntoNode. rewrite numbered_other by congruence. by rewrite Hb. }
    rewrite EP. clear. by destruct V. }
  pose proof (placed_of _ Ep) as HP. destruct (numbered_values _ _ _ _ _ HN) as (_ & Hend & _).
  assert (forall n b, getBlock (nd d n) = Some b -> n <> u -> code (fn st1) b = code s b) as Hoc.
  { intros n b Hb Hn. apply HAp. intros ->. by apply Hn, (ly_block _ _ HLy n u bu). }
  exists st1, gu. split; [done|].
  apply (source_inv st1 st1 l V bu gu); try done.
  - apply extends_refl, (appended_valid _ _ _ _ HAp).
  - apply HAp.
  - apply HAp.
  - apply numbered_phi.
  - apply upd_eq.
  - intros n Hnu _. split; [by apply numbered_other|by apply upd_ne].
  - intros n b Hb Hn _. by eapply Hoc.
  - apply join_kept; apply HAp.
  - intros Hb. assert (v <> u) by congruence. split; [by apply numbered_other|by apply upd_ne].
  - intros _ Hn. by apply upd_ne.
  - intros b Hb Hvu. destruct Hq as [HVn|Hq]; [|congruence]. apply quiet_node; auto. by eapply Hoc.
  - intros Hb. destruct Hq as [HVn|Hq]; [|congruence]. unfold Enters.
    destruct (quiet_target HVn Hb) as [G1 G2].
    assert (g_out gu u = None) as G3 by (unfold g_out, gu; by rewrite upd_eq).
    rewrite G1, G2, G3. by case_decide.
Qed.

Lemma other_code bv : getBlock (nd d v) = Some bv -> v <> u -> code (fn st1) bv = code s bv.
Proof using HAp HI Hbu.
  intros Hb Hvu. apply HAp. intros ->. by apply Hvu, (ly_block _ _ (iv_layout _ _ _ _ _ HI) v u bu).
Qed.

Lemma other_blocks n b : getBlock (nd d n) = Some b -> n <> u -> n <> v -> code (fn st1) b = code s b.
Proof using HAp HI Hbu.
  intros Hb Hn _. apply HAp. intros ->. by apply Hn, (ly_block _ _ (iv_layout _ _ _ _ _ HI) n u bu).
Qed.

(** What the push starts from when the target is new. *)
Lemma fresh_target bv : getBlock (nd d v) = Some bv -> ~ entered d Q v ->
  v <> u /\ nd (dag st1) v = nd d v /\ blank (nd d v) /\ g v = blankGhost /\ code (fn st1) bv = [] /\ ~ left d Q v.
Proof using HAp HI HN Hbu Hu.
  intros Hb Hen. pose proof (target_not_source Hen) as Hvu. pose proof (iv_node _ _ _ _ _ HI v bv Hb) as HNv.
  destruct (no_blank _ _ _ _ _ _ _ HNv Hen) as [HB Bg]. split_and!; try done.
  - by apply numbered_other.
  - rewrite other_code by done. rewrite (no_code _ _ _ _ _ _ _ HNv). unfold g_pre, g_post. by rewrite Bg.
  - intros (x & Hx & Hxv & _). destruct (iv_from _ _ _ _ _ HI x Hx) as [H|H]; rewrite Hxv in H; [congruence|done].
Qed.

Lemma not_left_after st' : placed st st' -> v <> u -> ~ left d Q v -> ~ left (dag st') Q' v.
Proof using.
  intros HP Hvu Hl. rewrite (left_more _ _ (pl_edgeStore _ _ HP) (fun m => placed_place _ _ m HP)).
  intros [H|[H _]]; [by apply Hl|by apply Hvu].
Qed.

Lemma entered_after st' : placed st st' -> entered (dag st') Q' v.
Proof using. intros HP. apply (entered_more _ _ (pl_edgeStore _ _ HP)). by right. Qed.

(** The target has no other predecessor: the value is its own. *)
Lemma source_single bv : getBlock (nd d v) = Some bv -> (getNumberPredEdges (nd d v) <= 1)%nat -> is_Some V ->
  sourceGoal.
Proof using All.
  intros Hbv Hpr HVs. pose proof (not_entered Hpr) as Hen.
  destruct (fresh_target bv Hbv Hen) as (Hvu & E1v & (B1 & B2 & B3) & Bg & Hcv & Hl).
  destruct (numbered_values _ _ _ _ _ HN) as (_ & Hend & _).
  destruct (push_single u v bv st1) as (st2 & Ep & F2 & HN2); [by rewrite E1v..|]. rewrite Hend in HN2.
  assert (placeEdge e st = Ok (true, st2)) as Epl.
  { rewrite place_unfold. destruct HVs as [x Hx]. rewrite Hx. by rewrite Ep. }
  pose proof (placed_of _ Epl) as HP. destruct (numbered_values _ _ _ _ _ HN2) as (Sv & Ev & _).
  assert (forall n, n <> v -> nd (dag st2) n = nd (dag st1) n) as Hn2.
  { intros n Hn. destruct HN2 as (_ & _ & H). by rewrite H, decide_False. }
  exists st2, (upd gu v (MkGhost V None [] [])). split; [done|].
  apply (source_inv st1 st2 l V bu); rewrite ?F2; try done.
  - apply extends_refl, (appended_valid _ _ _ _ HAp).
  - apply HAp.
  - apply HAp.
  - by rewrite Hn2 by congruence.
  - rewrite Hn2 by congruence. apply numbered_phi.
  - unfold gu. by rewrite upd_ne, upd_eq by congruence.
  - intros n Hnu Hnv. unfold gu. by rewrite Hn2, numbered_other, !upd_ne.
  - apply other_blocks.
  - rewrite <- F2. apply join_kept; rewrite F2; apply HAp.
  - congruence.
  - intros b Hb _. assert (b = bv) as -> by congruence.
    split; unfold g_mid, g_pre, g_post, g_out; rewrite ?upd_eq; cbn [n_mid n_out n_pre n_post].
    + done.
    + intros Hx. destruct Hx. by apply entered_after.
    + intros _. by rewrite target_label by congruence.
    + intros _. rewrite Sv, Ev. split_and!; [done|done|by left].
    + intros Hx. by apply not_left_after in Hx.
    + intros _. rewrite (sm_pred _ _ _ (placed_place _ _ _ HP)). lia.
  - intros _. unfold Enters. rewrite (sm_pred _ _ _ (placed_place _ _ _ HP)), decide_True by done.
    unfold g_pre, g_mid, g_out, gu. by rewrite upd_eq, upd_ne, upd_eq by congruence.
Qed.

(** The terminator of the source's block leads to the target's, once. *)
Lemma source_successors bv : getBlock (nd d v) = Some bv ->
  count_occ Nat.eq_dec (successors (fn st1) bu) bv = 1%nat.
Proof using All.
  intros Hbv. destruct source_alone as [_ Hone]. rewrite (ap_cfg _ _ _ _ HAp).
  pose proof (ly_cfg _ _ (iv_layout _ _ _ _ _ HI) u bu Hbu) as Hs.
  assert (succEdges (nd d u) = [e]) as Es.
  { unfold getNumberSuccEdges in Hone. pose proof He as Hin. unfold linked in Hin.
    destruct (succEdges (nd d u)) as [|x [|]]; [by apply not_elem_of_nil in Hin| |simpl in Hone; lia].
    by apply list_elem_of_singleton in Hin as ->. }
  rewrite Es in Hs. simpl in Hs. rewrite Hbv in Hs. apply Permutation_singleton_r in Hs. rewrite Hs.
  simpl. by destruct (Nat.eq_dec bv bv).
Qed.

(** The target has others, and none has been followed: its PHI node is made. *)
Lemma source_join_new bv : getBlock (nd d v) = Some bv -> (2 <= getNumberPredEdges (nd d v))%nat -> is_Some V ->
  ~ entered d Q v -> sourceGoal.
Proof using All.
  intros Hbv Hpr HVs Hen. pose proof (iv_layout _ _ _ _ _ HI) as HLy.
  destruct (fresh_target bv Hbv Hen) as (Hvu & E1v & (B1 & B2 & B3) & Bg & Hcv & Hl).
  destruct (numbered_values _ _ _ _ _ HN) as (_ & Hend & Hbu1). destruct HVs as [x Hx].
  destruct (push_join u v bu bv x st1) as (st2 & p & k & Ep & HPhi & Hin & Est & HM);
    rewrite ?E1v, ?B3 in *; try done.
  { apply (appended_valid _ _ _ _ HAp). } { by rewrite Hbu1. } { by apply source_successors. } { congruence. }
  { split_and!; [done| |done]. apply HAp. by apply (ly_last _ _ HLy v). }
  destruct HM as [HA2 Hn2].
  assert (placeEdge e st = Ok (true, st2)) as Epl by (by rewrite place_unfold, Hx, Ep).
  pose proof (placed_of _ Epl) as HP.
  assert (forall n, n <> v -> nd (dag st2) n = nd (dag st1) n) as Hn2' by (intros n Hn; by rewrite Hn2, decide_False).
  pose proof (Hn2 v) as Hn2v. rewrite decide_True in Hn2v by done.
  assert (bu <> bv) as Hbb by (intros ->; by apply Hvu, (ly_block _ _ HLy v u bv)).
  assert (forall n b, getBlock (nd d n) = Some b -> n <> v -> code (fn st2) b = code (fn st1) b) as Hoc.
  { intros n b Hb Hn. apply HA2. intros ->. by apply Hn, (ly_block _ _ HLy n v bv). }
  exists st2, (upd gu v (MkGhost (Some (Instruction p)) None [p] [])). split; [done|].
  apply (source_inv st1 st2 l V bu); try done.
  - apply HA2.
  - intros c. by rewrite (ap_cfg _ _ _ _ HA2), (ap_cfg _ _ _ _ HAp).
  - intros c Hc. by apply HA2, HAp.
  - apply (Hoc u); [done|congruence].
  - by rewrite Hn2' by congruence.
  - rewrite Hn2' by congruence. apply numbered_phi.
  - unfold gu. by rewrite upd_ne, upd_eq by congruence.
  - intros n Hnu Hnv. unfold gu. by rewrite Hn2', numbered_other, !upd_ne.
  - intros n b Hb Hnu Hnv. rewrite (Hoc n b) by done. by eapply other_blocks.
  - apply join_kept.
    + intros c i Hi. rewrite (ap_inst _ _ _ _ HA2 c i); [by apply (ap_inst _ _ _ _ HAp c)|].
      eapply extends_elem; [apply HAp|done].
    + intros c. by rewrite (ap_cfg _ _ _ _ HA2), (ap_cfg _ _ _ _ HAp).
  - congruence.
  - intros b Hb _. assert (b = bv) as -> by congruence.
    split; unfold g_mid, g_pre, g_post, g_out; rewrite ?upd_eq; cbn [n_mid n_out n_pre n_post].
    + rewrite (ap_here _ _ _ _ HA2), Hcv. done.
    + intros H. destruct H. by apply entered_after.
    + intros _. rewrite target_label by congruence. rewrite Hx. by split.
    + intros _. rewrite Hn2v. split_and!; [done|done|by left].
    + intros H. by apply not_left_after in H.
    + intros _ _. rewrite (proj2 (target_label ltac:(congruence))) by (by rewrite Hx).
      exists p, k. rewrite Hn2v. done.
  - intros _. unfold Enters. rewrite (sm_pred _ _ _ (placed_place _ _ _ HP)), decide_False by lia.
    unfold g_pre, g_mid, g_out, gu. rewrite upd_eq, upd_ne, upd_eq by congruence. cbn [n_mid n_out n_pre].
    rewrite Hx. exists p, k, bu. rewrite (sm_block _ _ _ (placed_place _ _ _ HP)). destruct HPhi. done.
Qed.

(** PHI nodes when the one of the target takes a value more. *)
Lemma joins_kept bv p k k' st2 : getBlock (nd d v) = Some bv -> g_pre g v = [p] -> PhiFor s bv p k -> p ∈ code s bv ->
  rephied p (fn st1) (fn st2) -> PhiFor (fn st2) bv p k' ->
  (forall c, c <> bu -> incomingFor c k' = incomingFor c k) ->
  forall n b q m, getBlock (nd d n) = Some b -> entered d Q n -> g_pre g n = [q] -> PhiFor s b q m ->
    exists m', PhiFor (fn st2) b q m' /\ forall c, (n = v -> c <> bu) -> incomingFor c m' = incomingFor c m.
Proof using HI HAp.
  intros Hbv J2 J4 Hpc HR HPhi Hoth n b q m Hb Hn Epre Hm. pose proof (iv_layout _ _ _ _ _ HI) as HLy.
  destruct (decide (n = v)) as [->|Hnv].
  - assert (q = p /\ b = bv) as [-> ->] by (split; congruence). exists k'. split; [done|].
    intros c Hc. destruct J4 as [K1 _], Hm as [M1 _]. assert (m = k) as -> by congruence. by apply Hoth, Hc.
  - destruct (join_kept st1 (ap_inst _ _ _ _ HAp) (ap_cfg _ _ _ _ HAp) n b q m Hb Hn Epre Hm) as (m' & [M1 M2] & M3).
    exists m'. split; [|exact M3]. split; [|intros c; by rewrite (rp_cfg _ _ _ HR)].
    rewrite (rp_inst _ _ _ HR); [done|]. intros ->. apply Hnv, (ly_block _ _ HLy n v b); [done|].
    assert (p ∈ code s b) as Hpb by (rewrite (no_code _ _ _ _ _ _ _ (iv_node _ _ _ _ _ HI n b Hb)), Epre; by left).
    rewrite <- (insts_parent s b p (ly_valid _ _ HLy) (code_elem _ _ _ Hpb)).
    by rewrite (insts_parent s bv p (ly_valid _ _ HLy) (code_elem _ _ _ Hpc)).
Qed.

(** The target has been entered before: the value goes into its PHI node. *)
Lemma source_join_old bv : getBlock (nd d v) = Some bv -> (2 <= getNumberPredEdges (nd d v))%nat -> is_Some V ->
  entered d Q v -> sourceGoal.
Proof using All.
  intros Hbv Hpr HVs Hen. pose proof (iv_layout _ _ _ _ _ HI) as HLy.
  pose proof (iv_node _ _ _ _ _ HI v bv Hbv) as HNv. pose proof (no_join _ _ _ _ _ _ _ HNv Hen Hpr) as HJ.
  rewrite (proj2 (target_label ltac:(congruence)) HVs) in HJ. destruct HJ as (p & k & J1 & J2 & J3 & J4).
  assert (getPathPHI (nd (dag st1) v) = Some p /\ getBlock (nd (dag st1) v) = Some bv /\
    getNumberPredEdges (nd (dag st1) v) = getNumberPredEdges (nd d v)) as (P1 & P2 & P3).
  { destruct HN as (_ & _ & H). rewrite H. case_decide as Ev; [|done]. rewrite Ev in J1, Hbv |- *. done. }
  assert (p ∈ code s bv) as Hpc by (rewrite (no_code _ _ _ _ _ _ _ HNv), J2; by left).
  assert (PhiFor (fn st1) bv p k) as HPhi1.
  { destruct J4 as [K1 K2]. split; [by rewrite (ap_inst _ _ _ _ HAp bv p (code_elem _ _ _ Hpc))|].
    intros c. by rewrite (ap_cfg _ _ _ _ HAp). }
  destruct (numbered_values _ _ _ _ _ HN) as (_ & Hend & Hbu1). destruct HVs as [x Hx].
  destruct (push_join u v bu bv x st1) as (st2 & q & k' & Ep & HPhi & Hin & Est & HM);
    rewrite ?P1, ?P2, ?P3 in *; try done.
  { apply (appended_valid _ _ _ _ HAp). } { by rewrite Hbu1. } { by apply source_successors. } { congruence. }
  { by exists k. }
  destruct HM as (-> & HR & Ed & Hoth). specialize (Hoth k HPhi1).
  assert (placeEdge e st = Ok (true, st2)) as Epl by (by rewrite place_unfold, Hx, Ep).
  pose proof (placed_of _ Epl) as HP.
  exists st2, gu. split; [done|].
  pose proof (joins_kept bv p k k' st2 Hbv J2 J4 Hpc HR HPhi Hoth) as Hjoin.
  apply (source_inv st1 st2 l V bu); try done.
  - apply HR.
  - intros c. by rewrite (rp_cfg _ _ _ HR), (ap_cfg _ _ _ _ HAp).
  - intros c Hc. eapply rephied_last; [done|]. by apply HAp.
  - by apply (rephied_code _ _ _ _ HR).
  - by rewrite Ed.
  - rewrite Ed. apply numbered_phi.
  - apply upd_eq.
  - intros n Hnu _. rewrite Ed. split; [by apply numbered_other|by apply upd_ne].
  - intros n b Hb Hnu Hnv. rewrite (rephied_code _ _ _ _ HR). by eapply other_blocks.
  - congruence.
  - intros _ Hn. by apply upd_ne.
  - intros b Hb Hvu. apply placed_node; try done; [rewrite Ed; by apply numbered_other|by apply upd_ne|by left|by left| |].
    + rewrite (rephied_code _ _ _ _ HR). assert (b = bv) as -> by congruence. by apply other_code.
    + intros q m Epre Hm. destruct (Hjoin v b q m Hb Hen Epre Hm) as (m' & ? & _). by exists m'.
  - intros _. unfold Enters. rewrite (sm_pred _ _ _ (placed_place _ _ _ HP)), decide_False by lia.
    assert (g_pre gu v = [p] /\ g_mid gu v = Some (Instruction p)) as [-> ->].
    { unfold g_pre, g_mid, gu in *. destruct (decide (v = u)) as [Evu|Hvu]; [|by rewrite upd_ne].
      rewrite Evu in J2, J3 |- *. by rewrite upd_eq. }
    assert (g_out gu u = Some x) as -> by (unfold g_out, gu; by rewrite upd_eq).
    exists p, k', bu. rewrite (sm_block _ _ _ (placed_place _ _ _ HP)). destruct HPhi. done.
Qed.

Lemma source_cases : sourceGoal.
Proof using All.
  destruct (decide (is_Some V)) as [HVs|HVn].
  2:{ apply source_quiet. left. by apply eq_None_not_Some. }
  destruct (getBlock (nd d v)) as [bv|] eqn:Ebv.
  2:{ apply source_quiet. by right. }
  destruct (decide (getNumberPredEdges (nd d v) <= 1)%nat) as [Hpr|Hpr]; [by eapply source_single|].
  destruct (entered_dec d Q v); [eapply source_join_old|eapply source_join_new]; try done; lia.
Qed.

End Cases.

Lemma place_source : Good st -> exists st' g', placeEdge e st = Ok (true, st') /\
  Inv (dag st') (fn st') w Q' g'.
Proof using All.
  intros HG. destruct source_alone as [[bu Hbu] _].
  destruct (source_run bu Hbu) as (st1 & l & S' & V & E1 & H1 & H2 & H3 & H4).
  by eapply source_cases.
Qed.

End Source.

(** *** Either way *)

(** The code of an edge is placed, or the edge is given up with a warning. *)
Lemma placeEdge_inv : Good st -> getBlock (nd d u) = None \/ entered d Q u ->
  (exists st' g', placeEdge e st = Ok (true, st') /\ Inv (dag st') (fn st') w Q' g') \/
  placeEdge e st = Ok (false, warn CouldNotSplit st).
Proof using All.
  intros HG Hu. destruct (atSource d e) eqn:HA.
  - left. apply place_source; [done| |done]. destruct Hu as [Hu|]; [|done].
    unfold atSource in HA. apply andb_prop in HA as [HA _]. by apply bool_decide_eq_true in HA.
  - destruct (decide (getNumberPredEdges (nd d v) = 1)%nat) as [H1|H1]; [left; by apply place_target|right].
    unfold placeEdge. unfold atSource in HA. by rewrite HA, decide_False.
Qed.

End Step.
End Emit.
