(* ===== verification/SplitStep.v ===== *)
(** * Splitting a critical edge

    [splitCritical] of src/PathLogging.cpp keeps [Inv]: LLVM's split of the
    control-flow edge and [splitUpdate]'s of the DAG edge fit together, the
    marks still say consistently where a path is under way, and the code
    emitted before stays where it is. *)

From stdpp Require Import base numbers list gmap fin_sets.
From S2P Require Import Prelude Dag BallLarus Marking IR Instrument Execution Emitted.
From S2P Require Import Insertion Placement Emission Emit.

Local Open Scope Z_scope.

(** ** List lemmas *)

Lemma indexOf_split b l : b ∈ l -> exists l1 l2, l = l1 ++ b :: l2 /\ indexOf b l = length l1 /\ b ∉ l1.
Proof.
  induction l as [|c l IH]; intros Hb; [by apply not_elem_of_nil in Hb|]. simpl. case_decide as Hc.
  - subst. exists [], l. split_and!; [done|done|apply not_elem_of_nil].
  - apply elem_of_cons in Hb as [->|Hb]; [done|]. destruct (IH Hb) as (l1 & l2 & -> & -> & Hn).
    exists (c :: l1), l2. split_and!; [done|done|]. by apply not_elem_of_cons.
Qed.

Lemma insert_middle {A} (l1 l2 : list A) x y : <[length l1 := y]> (l1 ++ x :: l2) = l1 ++ y :: l2.
Proof. by rewrite <- (Nat.add_0_r (length l1)), insert_app_r. Qed.

Lemma lookup_middle' {A} (l1 l2 : list A) x : (l1 ++ x :: l2) !! length l1 = Some x.
Proof. by apply list_lookup_middle. Qed.

Lemma omap_ext_in {A C} (f h : A -> option C) (l : list A) : (forall x, x ∈ l -> f x = h x) -> omap f l = omap h l.
Proof.
  intros H. by apply list_omap_ext, Forall_Forall2_diag, Forall_forall.
Qed.

Lemma omap_cons_some {A C} (f : A -> option C) x l y : f x = Some y -> omap f (x :: l) = y :: omap f l.
Proof. intros H. simpl. by rewrite H. Qed.

Lemma renameBlock_count b new l c : b ∈ l.*2 -> b <> new ->
  (count_occ Nat.eq_dec (renameBlock b new l).*2 c + (if decide (c = b) then 1 else 0) =
   count_occ Nat.eq_dec l.*2 c + (if decide (c = new) then 1 else 0))%nat.
Proof.
  intros Hb Hn. induction l as [|[v x] l IH]; [by apply not_elem_of_nil in Hb|]. cbn [renameBlock]. destruct (decide (x = b)) as [->|Hx].
  - rewrite !fmap_cons. cbn [snd count_occ].
    destruct (Nat.eq_dec new c), (Nat.eq_dec b c), (decide (c = b)), (decide (c = new)); subst; try done; unfold BlockId in *; lia.
  - rewrite fmap_cons in Hb. apply elem_of_cons in Hb as [?|Hb]; [by subst|]. specialize (IH Hb).
    rewrite !fmap_cons. cbn [snd count_occ]. destruct (Nat.eq_dec x c); lia.
Qed.

Lemma renameBlock_incoming b new l c : c <> b -> c <> new -> incomingFor c (renameBlock b new l) = incomingFor c l.
Proof.
  intros H1 H2. induction l as [|[v x] l IH]; [done|]. simpl. case_decide; simpl.
  - subst. by rewrite !decide_False by congruence.
  - by rewrite IH.
Qed.

Section SplitStep.
Context `{LS : !LLVMSpec L} `{LF : !LLVMFlow L} `{BS : !BallLarusOpsSpec B}.

Section Step.
Context (d d' : BLInstrumentationDag) (s s' : Fn) (w : NodeId -> bool) (Q : gset EdgeId) (gh : Ghost).
Context (f g : EdgeId) (new : NodeId) (bu bv nb : BlockId).
Context (HI : Inv d s w Q gh) (HQ : f ∉ Q) (Hf : linked d f).
Abbreviation u := (getSource (ed d f)).
Abbreviation v := (getTarget (ed d f)).
Context (Hmany : (2 <= getNumberSuccEdges (nd d u))%nat)
  (Hbu : getBlock (nd d u) = Some bu) (Hbv : getBlock (nd d v) = Some bv).
Abbreviation k := (indexOf bv (successors s bu)).
Context (Hs : SplitCriticalEdge bu k s = Some s') (Hnb : successors s' bu !! k = Some nb)
  (HS : SplitOf f nb d d' new g).

Let HLy : Layout d s := iv_layout _ _ _ _ _ HI.
Let HLb : Labelled d w := iv_labels _ _ _ _ _ HI.
Let HV : valid s := ly_valid _ _ HLy.

Lemma f_edge : f ∈ _edges d.
Proof using HI Hf. by apply (lk_succ _ (ly_linked _ _ HLy)) in Hf as [? _]. Qed.

(** *** The function *)

Lemma target_in : bv ∈ successors s bu.
Proof using HI Hf Hbu Hbv.
  rewrite (ly_cfg _ _ HLy u bu Hbu). apply list_elem_of_omap. exists f. by split.
Qed.

(** The control-flow graph and the instructions after the split. *)
Lemma split_function : exists t,
  successors s bu !! k = Some bv /\ successors s' bu = <[k := nb]> (successors s bu) /\
  successors s' nb = [bv] /\ successors s nb = [] /\ bu <> nb /\ (forall c, nb ∉ successors s c) /\
  (forall c, c <> bu -> c <> nb -> successors s' c = successors s c) /\
  insts s nb = [] /\ insts s' nb = [t] /\ inst s' t = OriginalOther /\ (forall c, c <> nb -> insts s' c = insts s c).
Proof using HI Hf Hbu Hbv Hs Hnb LF.
  destruct (split_edge bu k s s' HV Hs) as (old & nb' & t & Ho & Es & En & Hi & Hi' & _ & _ & Ht & Hio & _).
  destruct (indexOf_split bv (successors s bu) target_in) as (l1 & l2 & E & Ek & _).
  assert (successors s bu !! k = Some bv) as Eb by (rewrite E at 2; rewrite Ek; apply lookup_middle').
  assert (old = bv) as -> by congruence.
  assert (nb' = nb) as ->.
  { rewrite Es, list_lookup_insert_eq in Hnb by (by apply lookup_lt_Some in Eb). congruence. }
  destruct (split_cfg bu k s s' nb HV Hs Hnb) as (Hne & Hsn & Hc & Hoth). by exists t.
Qed.

Lemma not_a_block n : getBlock (nd d n) <> Some nb.
Proof using HI Hf Hbu Hbv Hs Hnb LF.
  destruct split_function as (t & _ & _ & _ & _ & _ & _ & _ & Hi & _). intros Hb.
  destruct (ly_last _ _ HLy n nb Hb) as (x & Hx & _). by rewrite Hi in Hx.
Qed.

Lemma split_inst c i : i ∈ insts s c -> isPHI (inst s i) = false -> inst s' i = inst s i.
Proof using HI Hs. apply (ext_inst _ _ (split_extends _ _ _ _ HV Hs)). Qed.

Lemma split_last c : LastOk s c -> LastOk s' c.
Proof using HI Hf Hbu Hbv Hs Hnb LF.
  destruct split_function as (t & _ & _ & _ & _ & _ & _ & _ & Hi & _ & _ & Ho).
  intros (x & Hx & HO & HP). assert (c <> nb) as Hc by (intros ->; by rewrite Hi in Hx).
  exists x. rewrite Ho by done. rewrite (split_inst c x); [done| |done]. by apply last_Some_elem_of.
Qed.

(** A PHI node of the old target gets the new block in the place of the source's. *)
Lemma split_phis c i l : i ∈ insts s c -> inst s i = PHINode l ->
  inst s' i = PHINode (if decide (c = bv) then renameBlock bu nb l else l).
Proof using HI Hf Hbu Hbv Hs Hnb LF.
  destruct split_function as (t & Eb & _). intros Hi El. by eapply split_phi.
Qed.

Lemma split_kind c i : i ∈ insts s c -> isOriginal (inst s' i) = isOriginal (inst s i).
Proof using HI Hf Hbu Hbv Hs Hnb LF.
  intros Hi. destruct (inst s i) eqn:E; try (rewrite (split_inst c i Hi); by rewrite E).
  - by rewrite (split_phis c i _ Hi E).
  - by rewrite (split_original _ _ _ _ _ _ HV Hs Hi E).
Qed.

Lemma split_code c : code s' c = code s c.
Proof using HI Hf Hbu Hbv Hs Hnb LF.
  destruct split_function as (t & _ & _ & _ & _ & _ & _ & _ & Hi & Hi' & Ht & Ho). unfold code.
  destruct (decide (c = nb)) as [->|Hc].
  - rewrite Hi, Hi'. rewrite filter_cons, decide_False by (by rewrite Ht). done.
  - rewrite Ho by done. apply code_ext. intros i Hx. by apply (split_kind c i).
Qed.

(** The entries of the PHI nodes still match the edges into their blocks. *)
Lemma split_phi_for b p l : PhiFor s b p l -> p ∈ insts s b -> b <> nb -> exists l', PhiFor s' b p l' /\
  forall c, c <> bu -> c <> nb -> incomingFor c l' = incomingFor c l.
Proof using HI Hf Hbu Hbv Hs Hnb LF.
  clear HQ Hmany HS. intros [H1 H2] Hp Hbn.
  destruct split_function as (t & Eb & Ebu & Enb & Esn & Hne & Hnew & Hoth & _).
  assert (exists l1 l2, successors s bu = l1 ++ bv :: l2 /\ successors s' bu = l1 ++ nb :: l2) as (l1 & l2 & E & E').
  { destruct (indexOf_split bv (successors s bu) target_in) as (l1 & l2 & E & Ek & _).
    exists l1, l2. split; [done|]. rewrite Ebu, Ek, E at 1. by rewrite insert_middle. }
  exists (if decide (b = bv) then renameBlock bu nb l else l). split.
  2:{ intros c Hc1 Hc2. case_decide; [by apply renameBlock_incoming|done]. }
  split; [by eapply split_phis|]. intros c.
  assert (count_occ Nat.eq_dec (successors s' c) b + (if decide (b = bv) then if decide (c = bu) then 1 else 0 else 0) =
    count_occ Nat.eq_dec (successors s c) b + (if decide (b = bv) then if decide (c = nb) then 1 else 0 else 0))%nat as Hcount.
  { destruct (decide (c = nb)) as [->|Hcn].
    - rewrite Enb, Esn, (decide_False (P := nb = bu)) by congruence. cbn [count_occ].
      destruct (Nat.eq_dec bv b), (decide (b = bv)); subst; try done; lia.
    - destruct (decide (c = bu)) as [->|Hcb].
      + rewrite E, E', !count_occ_app. cbn [count_occ].
        destruct (Nat.eq_dec nb b), (Nat.eq_dec bv b), (decide (b = bv)); subst; try done; lia.
      + rewrite Hoth by done. by case_decide. }
  rewrite <- H2 in Hcount. case_decide as Hb; [|lia]. subst b.
  pose proof (renameBlock_count bu nb l c) as HR.
  assert (bu ∈ l.*2) as Hin.
  { apply list_elem_of_In, (count_occ_In Nat.eq_dec). rewrite H2, E, count_occ_app. cbn [count_occ].
    destruct (Nat.eq_dec bv bv); [lia|done]. }
  specialize (HR Hin Hne). unfold BlockId in *. lia.
Qed.

(** *** The DAG *)

Let HLk : Linked d := ly_linked _ _ HLy.

Lemma old_node e : e ∈ _edges d -> getSource (ed d e) <> new /\ getTarget (ed d e) <> new.
Proof using HI HS.
  intros He. split; apply (stored_not_new f nb d d' new g HS); [by apply (lk_source _ HLk)|by apply (lk_target _ HLk)].
Qed.

Lemma new_edge : g ∉ _edges d /\ f <> g.
Proof using HI Hf HS.
  pose proof (sp_fresh _ _ _ _ _ _ HS) as Hg. split; [done|]. intros E. apply Hg. rewrite <- E. apply f_edge.
Qed.

Lemma old_ed e : e ∈ _edges d -> e <> f -> ed d' e = ed d e.
Proof using HS. apply (sp_other _ _ _ _ _ _ HS). Qed.

Lemma old_marks e : e ∈ _edges d -> same_marks (ed d e) (ed d' e).
Proof using HS.
  intros He. destruct (decide (e = f)) as [->|Hne]; [|by rewrite old_ed].
  destruct (sp_former_marks _ _ _ _ _ _ HS) as (? & ? & ?). by split_and!.
Qed.

Lemma old_place n : n <> new -> same_place d d' n.
Proof using HI Hf HS.
  clear Hmany. intros Hn. split.
  - by apply (sp_attr _ _ _ _ _ _ HS).
  - unfold getNumberSuccEdges. by rewrite (sp_succ _ _ _ _ _ _ HS).
  - unfold getNumberPredEdges. destruct (decide (n = v)) as [->|Hv]; [|by rewrite (sp_pred _ _ _ _ _ _ HS)].
    assert (f ∈ predEdges (nd d v)) as Hfp by (by apply (ly_pred _ _ HLy)).
    pose proof (Permutation_length (sp_old_pred _ _ _ _ _ _ HS Hfp)) as HP. simpl in HP. lia.
Qed.

Lemma old_linked e : e ∈ _edges d -> linked d' e <-> linked d e.
Proof using HI HS.
  intros He. unfold linked. rewrite (split_source f nb d d' new g HS e He).
  by rewrite (sp_succ _ _ _ _ _ _ HS) by (by apply old_node).
Qed.

Lemma new_linked : linked d' g.
Proof using HS.
  unfold linked. rewrite (sp_new_source _ _ _ _ _ _ HS), (sp_new_succ _ _ _ _ _ _ HS). by left.
Qed.

Lemma linked_edge e : linked d e -> e ∈ _edges d.
Proof using HI. intros He. by apply (lk_succ _ HLk) in He as [? _]. Qed.

Lemma linked_case e : linked d' e -> e = g \/ (e ∈ _edges d /\ linked d e).
Proof using BS HI Hf HS.
  intros He. assert (e ∈ _edges d') as Hin.
  { by apply (split_succ_in f nb d d' new g HLk f_edge HS) in He as [? _]. }
  rewrite (sp_edges _ _ _ _ _ _ HS), elem_of_app, list_elem_of_singleton in Hin.
  destruct Hin as [Hin| ->]; [right|by left]. split; [done|]. by apply old_linked.
Qed.

Lemma split_pred n e : e ∈ predEdges (nd d' n) <-> linked d' e /\ getTarget (ed d' e) = n.
Proof using BS HI Hf HS.
  destruct new_edge as [Hg Hfg]. pose proof (old_node f f_edge) as [Hu Hv].
  destruct (decide (n = new)) as [->|Hn].
  { rewrite (sp_new_pred _ _ _ _ _ _ HS), list_elem_of_singleton. split.
    - intros ->. split; [by apply old_linked; [apply f_edge|]|apply (sp_former_target _ _ _ _ _ _ HS)].
    - intros [[->|[He _]]%linked_case Ht]; [by rewrite (sp_new_target _ _ _ _ _ _ HS) in Ht|].
      destruct (decide (e = f)) as [|Hne]; [done|]. rewrite old_ed in Ht by done. by destruct (old_node e He). }
  assert (forall x, x ∈ _edges d -> x <> f -> (linked d' x /\ getTarget (ed d' x) = n <-> x ∈ predEdges (nd d n))) as Hold.
  { intros x Hx Hne. by rewrite (ly_pred _ _ HLy), (old_linked x Hx), old_ed. }
  assert (~ (linked d' f /\ getTarget (ed d' f) = n)) as Hnf.
  { rewrite (sp_former_target _ _ _ _ _ _ HS). intros [_ ?]. congruence. }
  destruct (decide (n = v)) as [->|Hnv].
  - assert (f ∈ predEdges (nd d v)) as Hfp by (by apply (ly_pred _ _ HLy)).
    pose proof (sp_old_pred _ _ _ _ _ _ HS Hfp) as HP.
    assert (NoDup (f :: predEdges (nd d' v))) as Hnd.
    { rewrite HP. apply NoDup_cons. split; [|apply HLy]. intros Hgp. apply (ly_pred _ _ HLy) in Hgp as [Hgp _].
      by apply Hg, linked_edge. }
    apply NoDup_cons in Hnd as [Hfn _].
    assert (forall x, x <> f -> x ∈ predEdges (nd d' v) <-> x = g \/ x ∈ predEdges (nd d v)) as Hmem.
    { intros x Hx. pose proof (elem_of_Permutation_proper x _ _ HP) as HE. rewrite !elem_of_cons in HE. tauto. }
    destruct (decide (e = f)) as [->|Hef]; [by split; [intros|]|]. rewrite (Hmem e Hef). split.
    + intros [->|He]; [split; [apply new_linked|apply (sp_new_target _ _ _ _ _ _ HS)]|].
      apply Hold; try done. apply (ly_pred _ _ HLy) in He as [He _]. by apply linked_edge.
    + intros [Hl Ht]. destruct (linked_case e Hl) as [->|[He _]]; [by left|right]. by apply Hold.
  - rewrite (sp_pred _ _ _ _ _ _ HS) by done. split.
    + intros He. assert (e <> f) as Hef.
      { intros ->. apply (ly_pred _ _ HLy) in He as [_ He]. by apply Hnv. }
      apply Hold; try done. apply (ly_pred _ _ HLy) in He as [He _]. by apply linked_edge.
    + intros [Hl Ht]. destruct (linked_case e Hl) as [->|[He _]].
      * rewrite (sp_new_target _ _ _ _ _ _ HS) in Ht. by destruct Hnv.
      * destruct (decide (e = f)) as [->|Hef]; [by destruct Hnf|]. by apply Hold.
Qed.

Lemma old_block n : n <> new -> getBlock (nd d' n) = getBlock (nd d n).
Proof using HS. intros Hn. by apply (sp_attr _ _ _ _ _ _ HS). Qed.

Lemma node_case n b : getBlock (nd d' n) = Some b -> (n = new /\ b = nb) \/ (n <> new /\ getBlock (nd d n) = Some b).
Proof using HS.
  destruct (decide (n = new)) as [->|Hn]; [|rewrite old_block by done; by right].
  rewrite (sp_block _ _ _ _ _ _ HS). intros [= <-]. by left.
Qed.

(** The blocks of the targets of an old edge but the split one. *)
Lemma old_target_block e : e ∈ _edges d -> e <> f ->
  getBlock (nd d' (getTarget (ed d' e))) = getBlock (nd d (getTarget (ed d e))).
Proof using BS HI Hf HS. intros He Hne. rewrite old_ed, old_block by (done || by apply old_node). done. Qed.

Lemma split_cfg_dag n b : getBlock (nd d' n) = Some b ->
  successors s' b ≡ₚ omap (fun e => getBlock (nd d' (getTarget (ed d' e)))) (succEdges (nd d' n)).
Proof using BS HI Hf Hbu Hbv Hs Hnb HS LF.
  destruct split_function as (t & Eb & Ebu & Enb & Esn & Hne & Hnew & Hoth & _).
  pose proof (old_node f f_edge) as [Hu Hv].
  intros [[-> ->]|[Hn Hb]]%node_case.
  { rewrite (sp_new_succ _ _ _ _ _ _ HS), Enb. simpl. rewrite (sp_new_target _ _ _ _ _ _ HS), old_block, Hbv by done. done. }
  rewrite (sp_succ _ _ _ _ _ _ HS) by done. pose proof (ly_cfg _ _ HLy n b Hb) as HC.
  assert (forall l : list EdgeId, (forall x, x ∈ l -> x ∈ succEdges (nd d n) /\ x <> f) ->
    omap (fun e => getBlock (nd d' (getTarget (ed d' e)))) l = omap (fun e => getBlock (nd d (getTarget (ed d e)))) l) as Hom.
  { intros l Hl. apply omap_ext_in. intros x Hx. destruct (Hl x Hx) as [Hxs Hxf]. apply old_target_block; [|done].
    by apply (lk_succ _ HLk) in Hxs as [? _]. }
  destruct (decide (n = u)) as [->|Hnu].
  - assert (b = bu) as -> by congruence.
    destruct (indexOf_split bv (successors s bu) target_in) as (l1 & l2 & E & Ek & _).
    rewrite Ebu, Ek, E at 1. rewrite insert_middle.
    pose proof Hf as Hfs. unfold linked in Hfs. apply list_elem_of_split in Hfs as (k1 & k2 & Es).
    pose proof (ly_succ _ _ HLy u) as Hnd. rewrite Es in Hnd. apply NoDup_app in Hnd as (_ & Hd & Hnd2).
    apply NoDup_cons in Hnd2 as [Hf2 _].
    rewrite E, Es, omap_app, (omap_cons_some _ f k2 bv) in HC by done.
    rewrite Es, omap_app, (omap_cons_some _ f k2 nb), (Hom k1), (Hom k2).
    + rewrite <- !Permutation_middle in HC |- *. constructor. by apply Permutation_cons_inv in HC.
    + intros x Hx. rewrite Es. split; [apply elem_of_app; right; by right|]. by intros ->.
    + intros x Hx. rewrite Es. split; [apply elem_of_app; by left|]. intros ->. apply (Hd f Hx). by left.
    + rewrite (sp_former_target _ _ _ _ _ _ HS). apply (sp_block _ _ _ _ _ _ HS).
  - rewrite Hoth, (Hom (succEdges (nd d n))); [done| | |].
    + intros x Hx. split; [done|]. intros ->. apply Hnu. by apply (lk_succ _ HLk) in Hx as [_ ->].
    + intros ->. by apply Hnu, (ly_block _ _ HLy n u bu).
    + intros ->. by apply (not_a_block n).
Qed.

Lemma split_atSource e : e ∈ _edges d -> e <> f -> atSource d' e = atSource d e.
Proof using BS HI Hf HS. intros He Hne. apply atSource_frame; [by apply old_ed|]. apply old_place. by apply old_node. Qed.

Lemma split_layout : Layout d' s'.
Proof using BS HI Hf Hbu Hbv Hs Hnb HS LF.
  destruct split_function as (t & _ & _ & _ & _ & _ & _ & _ & Hi & Hi' & Ht & Ho).
  destruct (sp_ends _ _ _ _ _ _ HS) as [_ Ee].
  assert (getExit d <> new) as Hex by (apply (stored_not_new f nb d d' new g HS); apply HLy).
  split.
  - by apply (split_linked f nb d d' new g HLk f_edge HS).
  - by eapply split_valid.
  - intros n e. by apply split_pred.
  - intros n. destruct (decide (n = new)) as [->|Hn].
    + rewrite (sp_new_succ _ _ _ _ _ _ HS). apply NoDup_singleton.
    + rewrite (sp_succ _ _ _ _ _ _ HS) by done. apply HLy.
  - intros n. destruct (decide (n = new)) as [->|Hn]; [rewrite (sp_new_pred _ _ _ _ _ _ HS); apply NoDup_singleton|].
    destruct (decide (n = v)) as [->|Hnv]; [|rewrite (sp_pred _ _ _ _ _ _ HS) by done; apply HLy].
    assert (f ∈ predEdges (nd d v)) as Hfp by (by apply (ly_pred _ _ HLy)).
    assert (NoDup (f :: predEdges (nd d' v))) as Hnd; [|by apply NoDup_cons in Hnd as [_ ?]].
    rewrite (sp_old_pred _ _ _ _ _ _ HS Hfp). apply NoDup_cons. split; [|apply HLy].
    intros Hgp. apply (ly_pred _ _ HLy) in Hgp as [Hgp _]. by apply (proj1 new_edge), linked_edge.
  - intros n m b H1 H2. apply node_case in H1 as [[-> ->]|[Hn H1]], H2 as [[-> E]|[Hm H2]].
    all: try done; try (subst b); try (by destruct (not_a_block _ H1)); try (by destruct (not_a_block _ H2)).
    by apply (ly_block _ _ HLy n m b).
  - apply split_cfg_dag.
  - intros n b [[-> ->]|[Hn Hb]]%node_case; [|by apply split_last, (ly_last _ _ HLy n)].
    exists t. by rewrite Hi', Ht.
  - intros n b [[-> ->]|[Hn Hb]]%node_case; [by rewrite (sp_new_succ _ _ _ _ _ _ HS)|].
    rewrite (sp_succ _ _ _ _ _ _ HS) by done. by apply (ly_out _ _ HLy n b).
  - rewrite Ee, old_block by done. split; [apply HLy|]. apply (sp_stored _ _ _ _ _ _ HS). left. apply HLy.
  - rewrite Ee. intros e [->|[He Hl]]%linked_case.
    + rewrite (sp_new_target _ _ _ _ _ _ HS), old_block by (apply old_node, f_edge). congruence.
    + destruct (decide (e = f)) as [->|Hne].
      * rewrite (sp_former_target _ _ _ _ _ _ HS), (sp_block _ _ _ _ _ _ HS). done.
      * rewrite old_target_block, old_ed, split_atSource by done. apply (ly_target _ _ HLy e Hl).
Qed.

(** *** The labels *)

Definition splitLabel (n : NodeId) : bool :=
  if decide (n = new)
  then if cut_type (getType (ed d f)) then w u else after d f (w u)
  else w n.

Lemma label_old n : n <> new -> splitLabel n = w n.
Proof using. intros Hn. unfold splitLabel. by rewrite decide_False. Qed.

Lemma label_new : splitLabel new = if cut_type (getType (ed d f)) then w u else after d f (w u).
Proof using. unfold splitLabel. by rewrite decide_True. Qed.

(** The former edge: what is left of it when it was cut, and the whole of it
    otherwise. *)
Lemma former_type : cut_type (getType (ed d' f)) = false.
Proof using HS.
  destruct (cut_type (getType (ed d f))) eqn:E.
  - by destruct (sp_former_type _ _ _ _ _ _ HS E) as [-> _].
  - by destruct (sp_former_plain _ _ _ _ _ _ HS E) as [-> _].
Qed.

Lemma former_after a : after d' f a = if cut_type (getType (ed d f)) then a else after d f a.
Proof using BS HI Hf HS.
  destruct (sp_former_marks _ _ _ _ _ _ HS) as (M1 & M2 & M3). unfold after. rewrite former_type, M2, M3.
  destruct (cut_type (getType (ed d f))) eqn:E; [|done].
  destruct (lb_cut _ _ HLb f Hf E) as (_ & -> & -> & _). done.
Qed.

Lemma old_after e a : linked d e -> e <> f -> after d' e a = after d e a.
Proof using BS HI HS.
  intros He Hne. pose proof (linked_edge e He) as Hin. unfold after. rewrite old_ed by done.
  destruct (cut_type (getType (ed d e))) eqn:E; [|done].
  destruct (lb_cut _ _ HLb e He E) as (_ & _ & _ & top & bottom & -> & _ & Ht & _).
  by destruct (old_marks top Ht) as (_ & _ & ->).
Qed.

Lemma new_after a : after d' g a = if cut_type (getType (ed d f)) then after d f a else a.
Proof using BS HI Hf HS.
  destruct (sp_new_marks _ _ _ _ _ _ HS) as (M1 & M2 & M3 & _). unfold after.
  destruct (cut_type (getType (ed d f))) eqn:E.
  - destruct (sp_former_type _ _ _ _ _ _ HS E) as (_ & -> & -> & _). rewrite E.
    destruct (lb_cut _ _ HLb f Hf E) as (_ & _ & _ & top & bottom & -> & _ & Ht & _).
    by destruct (old_marks top Ht) as (_ & _ & ->).
  - destruct (sp_former_plain _ _ _ _ _ _ HS E) as (_ & ->). by rewrite M2, M3.
Qed.

Lemma plain_later x : linked d x -> plain (ed d x) -> plain (ed d' x).
Proof using BS HI HS.
  intros Hx [H1 H2]. destruct (decide (x = f)) as [->|Hne]; [|by rewrite old_ed by (done || by apply linked_edge)].
  split; [apply former_type|]. by destruct (sp_former_marks _ _ _ _ _ _ HS) as (-> & _).
Qed.

Lemma cut_later e : linked d e -> e <> f -> cut_type (getType (ed d e)) = true -> CutMarks d' e.
Proof using BS HI HS.
  intros He Hne Hc. destruct (lb_cut _ _ HLb e He Hc) as (C1 & C2 & C3 & top & bottom & P1 & P2 & P3 & P4 & P5 & P6).
  unfold CutMarks. rewrite old_ed by (done || by apply linked_edge). split_and!; try done.
  exists top, bottom. rewrite (sp_edges _ _ _ _ _ _ HS), !elem_of_app.
  destruct (old_marks top P3) as (_ & -> & _), (old_marks bottom P4) as (_ & _ & ->). tauto.
Qed.

Lemma new_cut : cut_type (getType (ed d' g)) = true -> CutMarks d' g.
Proof using BS HI Hf HS.
  destruct (sp_new_marks _ _ _ _ _ _ HS) as (M1 & M2 & M3 & _).
  destruct (cut_type (getType (ed d f))) eqn:E.
  - intros _. destruct (sp_former_type _ _ _ _ _ _ HS E) as (_ & _ & Er & Ex).
    destruct (lb_cut _ _ HLb f Hf E) as (_ & _ & _ & top & bottom & P1 & P2 & P3 & P4 & P5 & P6).
    unfold CutMarks. rewrite Er, Ex. split_and!; try done. exists top, bottom.
    rewrite (sp_edges _ _ _ _ _ _ HS), !elem_of_app.
    destruct (old_marks top P3) as (_ & -> & _), (old_marks bottom P4) as (_ & _ & ->). tauto.
  - destruct (sp_former_plain _ _ _ _ _ _ HS E) as (_ & ->). done.
Qed.

(** Marks that must not be used: the same as before, since the new edge has
    none and the former keeps its own. *)
Lemma split_use e : linked d' e -> cut_type (getType (ed d' e)) = false ->
  (e = g \/ e = f /\ cut_type (getType (ed d f)) = true) /\ getIncrement (ed d' e) = 0 /\
    isInitialization (ed d' e) = false /\ isCounterIncrement (ed d' e) = false \/
  linked d e /\ cut_type (getType (ed d e)) = false /\ same_marks (ed d e) (ed d' e) /\
    getSource (ed d' e) = getSource (ed d e).
Proof using BS HI Hf HS.
  intros He Hc. destruct (linked_case e He) as [->|[Hin Hl]].
  { left. destruct (sp_new_marks _ _ _ _ _ _ HS) as (M1 & M2 & M3 & _). split_and!; try done. by left. }
  destruct (decide (e = f)) as [->|Hne].
  - destruct (cut_type (getType (ed d f))) eqn:E.
    + left. destruct (lb_cut _ _ HLb f Hf E) as (C1 & C2 & C3 & _).
      destruct (old_marks f f_edge) as (-> & -> & ->). split_and!; try done. by right.
    + right. split_and!; try done; [by apply old_marks, f_edge|apply (sp_former_source _ _ _ _ _ _ HS)].
  - right. rewrite old_ed in Hc |- * by done. by split_and!.
Qed.

Lemma source_label e : linked d e -> splitLabel (getSource (ed d e)) = w (getSource (ed d e)).
Proof using BS HI HS. intros He. by apply label_old, old_node, linked_edge. Qed.

Lemma split_labels : Labelled d' splitLabel.
Proof using BS HI Hf Hbu Hbv HS.
  pose proof (old_node f f_edge) as [Hu Hv]. split.
  - intros n Hb. destruct (decide (n = new)) as [->|Hn]; [by rewrite (sp_block _ _ _ _ _ _ HS) in Hb|].
    rewrite label_old by done. apply (lb_bare _ _ HLb). by rewrite <- old_block.
  - intros e [->|[Hin Hl]]%linked_case Hb.
    + rewrite (sp_new_target _ _ _ _ _ _ HS), (sp_new_source _ _ _ _ _ _ HS), label_new, label_old, new_after by done.
      rewrite (lb_edge _ _ HLb f Hf) by congruence. by destruct (cut_type _).
    + destruct (decide (e = f)) as [->|Hne].
      * rewrite (sp_former_target _ _ _ _ _ _ HS), (sp_former_source _ _ _ _ _ _ HS), label_new, label_old, former_after by done.
        done.
      * rewrite old_target_block in Hb by done. rewrite old_after by done. rewrite old_ed by done.
        rewrite source_label by done. rewrite label_old by (by apply old_node). by apply (lb_edge _ _ HLb).
  - intros e He Hc Hi Hinc. destruct (split_use e He Hc) as [(_ & ? & _)|(Hl & Hc' & (M1 & M2 & M3) & ->)]; [done|].
    rewrite source_label by done. apply (lb_add _ _ HLb); congruence.
  - intros e He Hc Hcnt. destruct (split_use e He Hc) as [(_ & _ & _ & ?)|(Hl & Hc' & (M1 & M2 & M3) & ->)]; [congruence|].
    rewrite source_label, M2 by done. apply (lb_count _ _ HLb); congruence.
  - intros e He Hc Hi Hpr Hb x Hx.
    destruct (split_use e He Hc) as [(_ & _ & ? & _)|(Hl & Hc' & (M1 & M2 & M3) & _)]; [congruence|].
    destruct (decide (e = f)) as [->|Hne].
    + rewrite (sp_former_target _ _ _ _ _ _ HS), (sp_new_succ _ _ _ _ _ _ HS) in Hx. apply list_elem_of_singleton in Hx as ->.
      destruct (sp_new_marks _ _ _ _ _ _ HS) as (N1 & _). destruct (sp_former_plain _ _ _ _ _ _ HS Hc') as [_ N2].
      unfold plain. by rewrite N1, N2.
    + pose proof (linked_edge e Hl) as Hin. rewrite old_ed in Hpr, Hb, Hx by done. destruct (old_node e Hin) as [_ Ht].
      rewrite (sm_pred _ _ _ (old_place _ Ht)) in Hpr. rewrite old_block in Hb by done.
      rewrite (sp_succ _ _ _ _ _ _ HS) in Hx by done.
      assert (linked d x) as Hlx by (unfold linked; by rewrite (proj2 (lk_succ _ HLk _ _ Hx))).
      apply plain_later; [done|]. apply (lb_init _ _ HLb e); congruence.
  - intros e He Hc. destruct (linked_case e He) as [->|[Hin Hl]]; [by apply new_cut|].
    destruct (decide (e = f)) as [->|Hne]; [by rewrite former_type in Hc|].
    apply cut_later; [done|done|]. by rewrite old_ed in Hc.
Qed.

(** *** The invariant *)

Lemma split_entered n : n <> new -> entered d' Q n <-> entered d Q n.
Proof using BS HI HQ HS.
  intros Hn. split; intros (e & He & Ht); exists e; (split; [done|]);
    pose proof (linked_edge e (iv_done _ _ _ _ _ HI e He)); assert (e <> f) by (by intros ->).
  - by rewrite old_ed in Ht.
  - by rewrite old_ed.
Qed.

Lemma split_left n : left d' Q n <-> left d Q n.
Proof using BS HI HQ Hf HS.
  split; intros (e & He & Ht & Ha); exists e; (split; [done|]);
    pose proof (linked_edge e (iv_done _ _ _ _ _ HI e He)); assert (e <> f) by (by intros ->).
  - by rewrite old_ed in Ht; rewrite split_atSource in Ha.
  - by rewrite old_ed, split_atSource.
Qed.

Lemma new_not_entered : ~ entered d' Q new.
Proof using BS HI HQ HS.
  intros (e & He & Ht). pose proof (linked_edge e (iv_done _ _ _ _ _ HI e He)) as Hin.
  rewrite old_ed in Ht by (congruence || done). by destruct (old_node e Hin).
Qed.

Lemma new_ghost : gh new = blankGhost.
Proof using BS HI HS.
  apply (iv_bare _ _ _ _ _ HI). unfold nd. by rewrite lookup_total_alt, (sp_node _ _ _ _ _ _ HS).
Qed.

Lemma split_node n b : getBlock (nd d' n) = Some b -> NodeOk d' s' splitLabel Q gh n b.
Proof using BS HI HQ Hf Hbu Hbv Hs Hnb HS LF.
  intros [[-> ->]|[Hn Hb]]%node_case.
  - destruct split_function as (t & _ & _ & _ & _ & _ & _ & _ & Hi & _).
    destruct (sp_new_attr _ _ _ _ _ _ HS) as (A1 & A2 & A3).
    split; unfold g_mid, g_out, g_pre, g_post; rewrite ?new_ghost; cbn [blankGhost n_mid n_out n_pre n_post].
    + rewrite split_code. unfold code. by rewrite Hi.
    + done.
    + intros He. by destruct new_not_entered.
    + intros _. split_and!; [done|done|by left].
    + done.
    + intros He. by destruct new_not_entered.
  - pose proof (iv_node _ _ _ _ _ HI n b Hb) as HN.
    destruct (sp_attr _ _ _ _ _ _ HS n Hn) as (_ & A1 & A2 & A3).
    apply (NodeOk_frame d d' s s' w splitLabel Q Q gh); try done.
    + apply (sm_pred _ _ _ (old_place n Hn)).
    + by apply (sp_succ _ _ _ _ _ _ HS).
    + by apply split_entered.
    + apply split_left.
    + intros x Hx. apply plain_later. unfold linked. by rewrite (proj2 (lk_succ _ HLk _ _ Hx)).
    + by apply label_old.
    + apply split_code.
    + intros p l Epre Hp. assert (p ∈ insts s b) as Hpb.
      { apply code_elem. rewrite (no_code _ _ _ _ _ _ _ HN), Epre. by left. }
      destruct (split_phi_for b p l Hp Hpb) as (l' & ? & _); [|by exists l'].
      intros ->. by apply (not_a_block n).
Qed.

Lemma split_edge_emitted e : e ∈ Q -> EdgeEmitted s' d' gh e.
Proof using BS HI HQ Hf Hmany Hbu Hbv Hs Hnb HS LF.
  intros He. pose proof (iv_done _ _ _ _ _ HI e He) as Hl. pose proof (linked_edge e Hl) as Hin.
  assert (e <> f) as Hne by (by intros ->). destruct (old_node e Hin) as [Hsn Htn].
  apply (EdgeEmitted_frame s s' d d' gh).
  - by apply old_ed.
  - intros x. apply old_marks.
  - by apply (lb_cut _ _ HLb).
  - by apply old_place.
  - by apply old_place.
  - intros i Hi. assert (exists n, i ∈ g_pre gh n ++ g_post gh n) as [n Hn].
    { destruct Hi as [Hi|Hi]; eexists; apply elem_of_app; [by right|by left]. }
    destruct (ghost_insts _ _ _ _ _ _ _ HI Hn) as (b & _ & Hb). by apply (split_inst b).
  - done.
  - done.
  - intros Ha p l b Epre Hp Hb.
    assert (p ∈ g_pre gh (getTarget (ed d e)) ++ g_post gh (getTarget (ed d e))) as Hp' by (rewrite Epre; by left).
    destruct (ghost_insts _ _ _ _ _ _ _ HI Hp') as (c & _ & Hc).
    assert (b <> nb) as Hbn by (intros ->; by apply (not_a_block (getSource (ed d e)))).
    assert (b <> bu) as Hbb.
    { intros ->. pose proof (ly_block _ _ HLy _ _ _ Hb Hbu) as Hsu.
      apply (not_left_multi d Q u Hmany). by exists e. }
    rewrite (split_phis c p l Hc Hp). eexists. split; [done|].
    case_decide; [by apply renameBlock_incoming|done].
  - by apply (iv_edge _ _ _ _ _ HI).
Qed.

Lemma split_inv : Inv d' s' splitLabel Q gh.
Proof using BS HI HQ Hf Hmany Hbu Hbv Hs Hnb HS LF.
  split.
  - apply split_layout.
  - apply split_labels.
  - intros e He. pose proof (iv_done _ _ _ _ _ HI e He) as Hl. by apply old_linked; [apply linked_edge|].
  - intros e He. pose proof (linked_edge e (iv_done _ _ _ _ _ HI e He)) as Hin. destruct (old_node e Hin) as [Hn _].
    rewrite old_ed by (done || by intros ->). rewrite old_block, split_entered by done. by apply (iv_from _ _ _ _ _ HI).
  - apply split_node.
  - intros n Hb. destruct (decide (n = new)) as [->|Hn]; [by rewrite (sp_block _ _ _ _ _ _ HS) in Hb|].
    rewrite old_block in Hb by done. destruct (sp_attr _ _ _ _ _ _ HS n Hn) as (_ & A1 & A2 & A3).
    unfold blank. rewrite A1, A2, A3. by apply (iv_bare _ _ _ _ _ HI).
  - apply split_edge_emitted.
Qed.

End Step.
End SplitStep.
