(* ===== verification/Flow.v ===== *)
(** * Routes before and after a step

    A step of the insertion (src/PathLogging.cpp) changes the routes of the
    DAG only where it splits an edge: a route then takes two edges for one,
    and enters the new block in between.  [Refines] says that two DAGs have
    the same routes in this sense, with the same meaning of their marks. *)

From stdpp Require Import base numbers list gmap fin_sets.
From S2P Require Import Prelude Dag BallLarus Marking IR Instrument Execution Emitted.
From S2P Require Import Insertion Placement Emission SplitStep.

Local Open Scope Z_scope.

Definition stored (d : BLInstrumentationDag) (n : NodeId) : Prop := is_Some (nodeStore d !! n).

(** The same route: what its marks say, and those of its blocks for which [P]
    holds. *)
Record SameRoute (P : BlockId -> bool) (d0 : BLInstrumentationDag) (l0 : list EdgeId)
    (d : BLInstrumentationDag) (l : list EdgeId) : Prop := {
  sr_walk r : walkExec d l r = walkExec d0 l0 r;
  sr_blocks : filter (fun b => P b = true) (blocksOf d0 l0) = filter (fun b => P b = true) (blocksOf d l)
}.

Record Refines (P : BlockId -> bool) (d0 d : BLInstrumentationDag) : Prop := {
  rf_stored n : stored d0 n -> stored d n;
  rf_block n : stored d0 n -> getBlock (nd d n) = getBlock (nd d0 n);
  rf_ends : getRoot d = getRoot d0 /\ getExit d = getExit d0;
  rf_exit e : linked d0 e -> getSource (ed d0 e) = getExit d0 ->
    linked d e /\ getSource (ed d e) = getExit d /\ getTarget (ed d e) = getTarget (ed d0 e) /\
    forall r, edgeExec d e r = edgeExec d0 e r;
  rf_forth x y l0 : stored d0 x -> stored d0 y -> linked_route d0 x l0 y ->
    exists l, linked_route d x l y /\ SameRoute P d0 l0 d l;
  rf_back x y l : stored d0 x -> stored d0 y -> linked_route d x l y ->
    exists l0, linked_route d0 x l0 y /\ SameRoute P d0 l0 d l
}.

Lemma filter_and_idem (P R : BlockId -> bool) (l : list BlockId) :
  (forall b, P b = true -> R b = true) ->
  filter (fun b => P b = true) (filter (fun b => R b = true) l) = filter (fun b => P b = true) l.
Proof.
  intros H. induction l as [|b l IH]; [done|]. rewrite !(filter_cons _ b l).
  destruct (decide (R b = true)) as [HR|HR]; [rewrite filter_cons, IH; done|].
  rewrite IH, decide_False; [done|]. intros HP. by apply HR, H.
Qed.

Lemma SameRoute_trans P d0 l0 d1 l1 d2 l2 :
  SameRoute P d0 l0 d1 l1 -> SameRoute P d1 l1 d2 l2 -> SameRoute P d0 l0 d2 l2.
Proof. intros [H1 H2] [H3 H4]. split; [intros r; by rewrite H3|congruence]. Qed.

Lemma Refines_trans P d0 d1 d2 : Refines P d0 d1 -> Refines P d1 d2 -> Refines P d0 d2.
Proof.
  intros [S1 B1 [R1 X1] E1 F1 K1] [S2 B2 [R2 X2] E2 F2 K2]. split.
  - auto.
  - intros n Hn. rewrite B2, B1 by auto. done.
  - split; congruence.
  - intros e He Hs. destruct (E1 e He Hs) as (He1 & Hs1 & Ht1 & Hr1).
    destruct (E2 e He1 Hs1) as (He2 & Hs2 & Ht2 & Hr2). split_and!; [done|done|congruence|]. intros r.
    by rewrite Hr2.
  - intros x y l Hx Hy Hl. destruct (F1 x y l Hx Hy Hl) as (l1 & Hl1 & G1).
    destruct (F2 x y l1 (S1 _ Hx) (S1 _ Hy) Hl1) as (l2 & Hl2 & G2). exists l2. split; [done|].
    by eapply SameRoute_trans.
  - intros x y l Hx Hy Hl. destruct (K2 x y l (S1 _ Hx) (S1 _ Hy) Hl) as (l1 & Hl1 & G1).
    destruct (K1 x y l1 Hx Hy Hl1) as (l0 & Hl0 & G0). exists l0. split; [done|].
    by eapply SameRoute_trans.
Qed.

(** ** Steps that change no route *)

(** The same graph and the same marks; path numbers, PHI nodes and what has
    been instrumented may differ. *)
Record same_flow (d d' : BLInstrumentationDag) : Prop := {
  sf_node n : static_node_eq (nd d n) (nd d' n);
  sf_stored n : stored d n -> stored d' n;
  sf_edge e : static_eq (ed d e) (ed d' e) /\ same_marks (ed d e) (ed d' e);
  sf_edges : _edges d' = _edges d;
  sf_ends : getRoot d' = getRoot d /\ getExit d' = getExit d
}.

Lemma same_flow_edgeExec d d' e r : same_flow d d' -> edgeExec d' e r = edgeExec d e r.
Proof.
  intros H. unfold edgeExec, cutExec, markExec. destruct (sf_edge _ _ H e) as [HE (M1 & M2 & M3)].
  rewrite (se_type _ _ HE), (se_phonyRoot _ _ HE), (se_phonyExit _ _ HE), M1, M2, M3.
  destruct (cut_type _); [|done]. destruct (getPhonyRoot _) as [top|]; [|done].
  destruct (getPhonyExit _) as [bottom|]; [|done]. cbn [mbind option_bind].
  destruct (sf_edge _ _ H top) as [_ (-> & -> & ->)], (sf_edge _ _ H bottom) as [_ (-> & _ & ->)]. done.
Qed.

Lemma walkExec_ext d d' l r : (forall e r, e ∈ l -> edgeExec d' e r = edgeExec d e r) ->
  walkExec d' l r = walkExec d l r.
Proof.
  revert r. induction l as [|e l IH]; intros r H; [done|]. rewrite !walkExec_cons, H by (by left).
  destruct (edgeExec d e r) as [[r1 o1]|]; [|done]. cbn [mbind option_bind].
  rewrite IH; [done|]. intros x r' Hx. apply H. by right.
Qed.

Lemma blocksOf_ext d d' l : (forall e, e ∈ l -> getBlock (nd d' (getTarget (ed d' e))) = getBlock (nd d (getTarget (ed d e)))) ->
  blocksOf d' l = blocksOf d l.
Proof. intros H. by apply omap_ext_in. Qed.

Lemma linked_route_mono d d' x l y : (forall n, succEdges (nd d' n) = succEdges (nd d n)) ->
  (forall e, getSource (ed d' e) = getSource (ed d e)) -> (forall e, getTarget (ed d' e) = getTarget (ed d e)) ->
  getExit d' = getExit d -> linked_route d x l y -> linked_route d' x l y.
Proof.
  intros Hn Hs Ht He H. induction H as [|x e p y H1 H2 H3 H4 IH]; [constructor|].
  constructor; [by rewrite Hn|by rewrite Hs|by rewrite He|by rewrite Ht].
Qed.

Lemma same_flow_refines P d d' : same_flow d d' -> Refines P d d'.
Proof.
  intros H.
  assert (forall n, succEdges (nd d' n) = succEdges (nd d n)) as Hn by (intros n; apply (sf_node _ _ H n)).
  assert (forall e, getSource (ed d' e) = getSource (ed d e)) as Hs by (intros e; apply (sf_edge _ _ H e)).
  assert (forall e, getTarget (ed d' e) = getTarget (ed d e)) as Ht by (intros e; apply (sf_edge _ _ H e)).
  assert (forall l, SameRoute P d l d' l) as HS.
  { intros l. split.
    - intros r. apply walkExec_ext. intros e r' _. by apply same_flow_edgeExec.
    - f_equal. symmetry. apply blocksOf_ext. intros e _. rewrite Ht. apply (sf_node _ _ H). }
  destruct (sf_ends _ _ H) as [E1 E2]. split.
  - apply (sf_stored _ _ H).
  - intros n _. apply (sf_node _ _ H n).
  - done.
  - intros e He Hse. unfold linked. rewrite Hn, Hs, Ht, E2. split_and!; try done. intros r.
    by apply same_flow_edgeExec.
  - intros x y l _ _ Hl. exists l. split; [|apply HS]. by apply (linked_route_mono d d').
  - intros x y l _ _ Hl. exists l. split; [|apply HS]. by apply (linked_route_mono d' d).
Qed.

(** ** Splitting an edge *)

Section Split.
Context `{LS : !LLVMSpec L} `{LF : !LLVMFlow L} `{BS : !BallLarusOpsSpec B}.
Context (d d' : BLInstrumentationDag) (s s' : Fn) (w : NodeId -> bool) (Q : gset EdgeId) (gh : Ghost).
Context (f g : EdgeId) (new : NodeId) (nb : BlockId).
Context (HI : Inv d s w Q gh) (Hf : linked d f) (HS : SplitOf f nb d d' new g)
  (Hfresh : forall n, getBlock (nd d n) <> Some nb) (Hub : getBlock (nd d (getSource (ed d f))) <> None).

Let HLy : Layout d s := iv_layout _ _ _ _ _ HI.
Let HLb : Labelled d w := iv_labels _ _ _ _ _ HI.

(** The new edge follows the former one. *)
Definition expand (l : list EdgeId) : list EdgeId := e ← l; if decide (e = f) then [f; g] else [e].

Lemma expand_cons e l : expand (e :: l) = (if decide (e = f) then [f; g] else [e]) ++ expand l.
Proof. done. Qed.

Lemma split_exec_former r : edgeExec d f r = ('(r1, o1) ← edgeExec d' f r; '(r2, o2) ← edgeExec d' g r1; Some (r2, o1 ++ o2)).
Proof using HI Hf HS BS.
  pose proof (former_type d d' f g new nb HS) as Hft. 
  assert (edgeExec d' f r = markExec (ed d' f) r) as -> by (unfold edgeExec; by rewrite Hft).
  destruct (sp_former_marks _ _ _ _ _ _ HS) as (M1 & M2 & M3), (sp_new_marks _ _ _ _ _ _ HS) as (N1 & N2 & N3 & _).
  unfold edgeExec. destruct (cut_type (getType (ed d f))) eqn:E.
  - destruct (sp_former_type _ _ _ _ _ _ HS E) as (_ & T2 & T3 & T4). rewrite T2, E.
    destruct (lb_cut _ _ HLb f Hf E) as (C1 & C2 & C3 & top & bottom & P1 & P2 & P3 & P4 & _).
    unfold markExec at 1. rewrite M1, M2, M3, C1, C2, C3. cbn [mbind option_bind]. rewrite decide_True by done.
    cbn [mbind option_bind]. unfold cutExec. rewrite T3, T4, P1, P2. cbn [mbind option_bind].
    destruct (old_marks d d' f g new nb HS top P3) as (-> & -> & ->), (old_marks d d' f g new nb HS bottom P4) as (-> & _ & ->).
    by repeat case_match.
  - destruct (sp_former_plain _ _ _ _ _ _ HS E) as (_ & T2). rewrite T2. cbn [cut_type].
    unfold markExec. rewrite M1, M2, M3, N1, N2, N3.
    destruct (isInitialization (ed d f)); [|case_decide; [|destruct r; [|done]]]; cbn [mbind option_bind];
      rewrite ?decide_True by done; destruct (isCounterIncrement (ed d f)); cbn [mbind option_bind]; try done;
      try (destruct r; cbn; rewrite ?decide_True by done; done).
Qed.

Lemma split_exec_other e r : linked d e -> e <> f -> edgeExec d' e r = edgeExec d e r.
Proof using HI HS BS.
  intros He Hne. pose proof (linked_edge d s w Q gh HI e He) as Hin. unfold edgeExec, cutExec.
  rewrite (old_ed d d' f g new nb HS e Hin Hne). destruct (cut_type (getType (ed d e))) eqn:E; [|done].
  destruct (lb_cut _ _ HLb e He E) as (_ & _ & _ & top & bottom & -> & -> & P3 & P4 & _). cbn [mbind option_bind].
  destruct (old_marks d d' f g new nb HS top P3) as (-> & -> & ->), (old_marks d d' f g new nb HS bottom P4) as (-> & _ & ->).
  done.
Qed.

Lemma route_linked x l y : linked_route d x l y -> forall e, e ∈ l -> linked d e.
Proof using.
  induction 1 as [|x e p y H1 H2 H3 H4 IH]; intros k Hk; [by apply not_elem_of_nil in Hk|].
  apply elem_of_cons in Hk as [->|Hk]; [|by apply IH]. unfold linked. by rewrite H2.
Qed.

Lemma walkExec_app l1 l2 r : walkExec d' (l1 ++ l2) r =
  ('(r1, o1) ← walkExec d' l1 r; '(r2, o2) ← walkExec d' l2 r1; Some (r2, o1 ++ o2)).
Proof using. apply runExec_app. Qed.

Lemma walkExec_nil h r : walkExec h [] r = Some (r, []).
Proof using. done. Qed.

Lemma expand_walk l r : (forall e, e ∈ l -> linked d e) -> walkExec d' (expand l) r = walkExec d l r.
Proof using HI Hf HS BS.
  revert r. induction l as [|e l IH]; intros r Hl; [done|].
  assert (linked d e) as He by (apply Hl; by left).
  assert (forall r, walkExec d' (expand l) r = walkExec d l r) as IH' by (intros r'; apply IH; intros x Hx; apply Hl; by right).
  rewrite expand_cons, walkExec_app, (walkExec_cons d). case_decide as Hef.
  - rewrite Hef. rewrite split_exec_former, !walkExec_cons.
    destruct (edgeExec d' f r) as [[r1 o1]|]; [|done]. cbn [mbind option_bind]. rewrite walkExec_cons.
    destruct (edgeExec d' g r1) as [[r2 o2]|]; [|done]. cbn [mbind option_bind].
    rewrite walkExec_nil. cbn [mbind option_bind]. rewrite IH'. destruct (walkExec d l r2) as [[r3 o3]|]; [|done].
    cbn [mbind option_bind]. by rewrite app_nil_r, ?app_assoc.
  - rewrite walkExec_cons, split_exec_other by done.
    destruct (edgeExec d e r) as [[r1 o1]|]; [|done]. cbn [mbind option_bind].
    rewrite walkExec_nil. cbn [mbind option_bind]. rewrite IH', app_nil_r. done.
Qed.

Definition notNew (b : BlockId) : bool := bool_decide (b <> nb).

Lemma blocksOf_app h l1 l2 : blocksOf h (l1 ++ l2) = blocksOf h l1 ++ blocksOf h l2.
Proof using. apply omap_app. Qed.

Lemma blocksOf_cons h e l : blocksOf h (e :: l) = option_list (getBlock (nd h (getTarget (ed h e)))) ++ blocksOf h l.
Proof using. unfold blocksOf. simpl. by destruct (getBlock (nd h (getTarget (ed h e)))). Qed.

Lemma notNew_filter n l : filter (fun b => notNew b = true) (option_list (getBlock (nd d n)) ++ l) =
  option_list (getBlock (nd d n)) ++ filter (fun b => notNew b = true) l.
Proof using Hfresh.
  specialize (Hfresh n). destruct (getBlock (nd d n)) as [b|]; [|done]. simpl.
  rewrite filter_cons, decide_True; [done|]. unfold notNew. apply bool_decide_eq_true. congruence.
Qed.

Lemma expand_blocks l : (forall e, e ∈ l -> linked d e) ->
  blocksOf d l = filter (fun b => notNew b = true) (blocksOf d' (expand l)).
Proof using HI Hf HS BS Hfresh.
  induction l as [|e l IH]; intros Hl; [done|]. assert (linked d e) as He by (apply Hl; by left).
  pose proof (linked_edge d s w Q gh HI e He) as Hin. destruct (old_node d d' s w Q gh f g new nb HI HS e Hin) as [_ Ht].
  rewrite expand_cons, blocksOf_app, filter_app, blocksOf_cons, <- IH by (intros x Hx; apply Hl; by right). f_equal.
  pose proof (sp_attr _ _ _ _ _ _ HS _ Ht) as [Hb _]. case_decide as Hef.
  - rewrite Hef in *. rewrite !blocksOf_cons, (sp_former_target _ _ _ _ _ _ HS), (sp_block _ _ _ _ _ _ HS),
      (sp_new_target _ _ _ _ _ _ HS), Hb. simpl option_list at 2. cbn [app]. rewrite filter_cons, decide_False.
    + rewrite notNew_filter. by rewrite app_nil_r.
    + unfold notNew. rewrite bool_decide_eq_true. tauto.
  - rewrite blocksOf_cons, (old_ed d d' f g new nb HS e Hin Hef), Hb. rewrite notNew_filter. by rewrite app_nil_r.
Qed.

Lemma stored_old n : stored d n -> n <> new.
Proof using HS. apply (stored_not_new f nb d d' new g HS). Qed.

Lemma exit_old : getExit d <> new.
Proof using HI HS. apply stored_old. apply (ly_exit _ _ HLy). Qed.

Lemma expand_route x l y : stored d x -> linked_route d x l y -> linked_route d' x (expand l) y.
Proof using HI Hf HS BS.
  intros Hx H. revert Hx. destruct (sp_ends _ _ _ _ _ _ HS) as [_ Ex].
  induction H as [x|x e p y H1 H2 H3 H4 IH]; intros Hx; [constructor|].
  assert (e ∈ _edges d) as Hin by (by apply (lk_succ _ (ly_linked _ _ HLy)) in H1 as [? _]).
  assert (stored d (getTarget (ed d e))) as Ht by (by apply (lk_target _ (ly_linked _ _ HLy))).
  specialize (IH Ht). pose proof (stored_old x Hx) as Hxn. pose proof exit_old as Hexn.
  rewrite expand_cons. case_decide as Hef.
  - rewrite Hef in *. cbn [app]. constructor; rewrite ?Ex, ?(sp_succ _ _ _ _ _ _ HS), ?(sp_former_source _ _ _ _ _ _ HS) by done; try done.
    rewrite (sp_former_target _ _ _ _ _ _ HS). constructor.
    + rewrite (sp_new_succ _ _ _ _ _ _ HS). by left.
    + apply (sp_new_source _ _ _ _ _ _ HS).
    + rewrite Ex. congruence.
    + by rewrite (sp_new_target _ _ _ _ _ _ HS).
  - cbn [app]. constructor; rewrite ?Ex, ?(sp_succ _ _ _ _ _ _ HS), ?(old_ed d d' f g new nb HS e Hin Hef) by done; done.
Qed.

Lemma contract_route n x l y : (length l <= n)%nat -> stored d x -> stored d y -> linked_route d' x l y ->
  exists l0, l = expand l0 /\ linked_route d x l0 y.
Proof using HI Hf HS BS.
  destruct (sp_ends _ _ _ _ _ _ HS) as [_ Ex].
  revert x l. induction n as [|n IH]; intros x l Hn Hx Hy H; (inversion H as [|? e p ? H1 H2 H3 H4]; subst;
    [exists []; split; [done|constructor]|]); simpl in Hn; [lia|].
  pose proof (stored_old _ Hx) as Hxn. rewrite (sp_succ _ _ _ _ _ _ HS) in H1 by done.
  destruct (lk_succ _ (ly_linked _ _ HLy) _ _ H1) as [Hin Hsrc].
  destruct (decide (e = f)) as [Hef|Hef].
  - rewrite Hef in *. rewrite (sp_former_target _ _ _ _ _ _ HS) in H4.
    destruct p as [|e2 p2]; [exfalso; apply (stored_old _ Hy); by inversion H4|].
    assert (e2 ∈ succEdges (nd d' new) /\ linked_route d' (getTarget (ed d' e2)) p2 y) as [K1 K4] by (by inversion H4).
    rewrite (sp_new_succ _ _ _ _ _ _ HS) in K1. apply list_elem_of_singleton in K1 as ->.
    rewrite (sp_new_target _ _ _ _ _ _ HS) in K4. simpl in Hn.
    destruct (IH _ p2 ltac:(lia) (lk_target _ (ly_linked _ _ HLy) _ Hin) Hy K4) as (l0 & -> & Hl0).
    exists (f :: l0). rewrite expand_cons, decide_True by done. split; [done|].
    constructor; try done. by rewrite <- Ex.
  - rewrite (old_ed d d' f g new nb HS e Hin Hef) in *.
    destruct (IH _ p ltac:(lia) (lk_target _ (ly_linked _ _ HLy) _ Hin) Hy H4) as (l0 & -> & Hl0).
    exists (e :: l0). rewrite expand_cons, decide_False by done. split; [done|].
    constructor; try done. by rewrite <- Ex.
Qed.

Lemma split_refines P : (forall b, P b = true -> b <> nb) -> Refines P d d'.
Proof using HI Hf HS BS Hfresh Hub.
  intros HP.
  assert (forall x l y, linked_route d x l y -> SameRoute P d l d' (expand l)) as Hsame.
  { intros x l y Hl. split.
    - intros r. apply expand_walk. by eapply route_linked.
    - rewrite expand_blocks by (by eapply route_linked). apply filter_and_idem.
      intros b Hb. by apply bool_decide_eq_true, HP. }
  split.
  - intros n Hn. apply (sp_stored _ _ _ _ _ _ HS). by left.
  - intros n Hn. apply (sp_attr _ _ _ _ _ _ HS). by apply stored_old.
  - apply (sp_ends _ _ _ _ _ _ HS).
  - intros e He Hs. pose proof (linked_edge d s w Q gh HI e He) as Hin.
    assert (e <> f) as Hne by (intros ->; rewrite Hs in Hub; by rewrite (proj1 (ly_exit _ _ HLy)) in Hub).
    rewrite (old_linked d d' s w Q gh f g new nb HI HS e Hin), (old_ed d d' f g new nb HS e Hin Hne).
    rewrite (proj2 (sp_ends _ _ _ _ _ _ HS)). split_and!; try done. intros r. by apply split_exec_other.
  - intros x y l Hx Hy Hl. exists (expand l). split; [by apply expand_route|by eapply Hsame].
  - intros x y l Hx Hy Hl. destruct (contract_route (length l) x l y ltac:(lia) Hx Hy Hl) as (l0 & -> & Hl0).
    exists l0. split; [done|by eapply Hsame].
Qed.

End Split.
