(* ===== verification/Simulation.v ===== *)
(** * The instrumented function does what the marks say

    The traversal of [insertInstrumentationStartingAt] (src/PathLogging.cpp)
    as a whole: from a consistently marked DAG that mirrors the function it
    never fails an assert, uses no null pointer and finds every insertion
    point; and when it prints no warning, running the instrumented function
    along any route reports what the marks say of the route ([walkExec]). *)

From stdpp Require Import base numbers list gmap fin_sets.
From S2P Require Import Prelude Dag BallLarus Marking IR Instrument Execution Emitted.
From S2P Require Import Insertion Placement Emission Emit SplitStep Flow.

Local Open Scope Z_scope.

Section Simulation.
Context `{LS : !LLVMSpec L} `{LF : !LLVMFlow L} `{BS : !BallLarusOpsSpec B}.

(** ** Marking an edge as done *)

Lemma mark_view e d x : static_eq (ed d x) (ed (markEdge e d) x) /\ same_marks (ed d x) (ed (markEdge e d) x).
Proof.
  unfold markEdge. rewrite ed_updEdge. by case_decide; subst.
Qed.

Lemma mark_flow e d : same_flow d (markEdge e d).
Proof. split; try done. apply mark_view. Qed.

Lemma mark_linked e d x : linked (markEdge e d) x <-> linked d x.
Proof. unfold linked. by rewrite markEdge_source. Qed.

Lemma mark_atSource e d x : atSource (markEdge e d) x = atSource d x.
Proof. unfold atSource. by rewrite markEdge_source. Qed.

Lemma mark_plain e d x : plain (ed (markEdge e d) x) <-> plain (ed d x).
Proof.
  unfold plain. destruct (mark_view e d x) as [HE (M & _ & _)]. by rewrite (se_type _ _ HE), M.
Qed.

Lemma mark_layout e d s : Layout d s -> Layout (markEdge e d) s.
Proof.
  intros H. split; try apply H.
  - apply markEdge_linked, H.
  - intros n x. rewrite mark_linked, markEdge_target. apply H.
  - intros n b Hb. rewrite (ly_cfg _ _ H n b Hb). apply Permutation_refl'. apply omap_ext_in. intros x _.
    by rewrite markEdge_target.
  - intros x. rewrite mark_linked, markEdge_target, mark_atSource. apply H.
Qed.

Lemma mark_cut e d x : CutMarks d x -> CutMarks (markEdge e d) x.
Proof.
  intros (C1 & C2 & C3 & top & bottom & P1 & P2 & P3 & P4 & P5 & P6).
  destruct (mark_view e d x) as [HE (M1 & M2 & M3)]. unfold CutMarks.
  rewrite M1, M2, M3, (se_phonyRoot _ _ HE), (se_phonyExit _ _ HE). split_and!; try done. exists top, bottom.
  destruct (mark_view e d top) as [_ (_ & -> & _)], (mark_view e d bottom) as [_ (_ & _ & ->)]. done.
Qed.

Lemma mark_labels e d w : Labelled d w -> Labelled (markEdge e d) w.
Proof.
  intros H.
  assert (forall x a, after (markEdge e d) x a = after d x a) as Ha.
  { intros x a. unfold after. destruct (mark_view e d x) as [HE (M1 & M2 & M3)].
    rewrite (se_type _ _ HE), (se_phonyRoot _ _ HE), M2, M3. destruct (cut_type _); [|done].
    destruct (getPhonyRoot _) as [top|]; [|done]. by destruct (mark_view e d top) as [_ (_ & _ & ->)]. }
  assert (forall x, getType (ed (markEdge e d) x) = getType (ed d x)) as Ht by (intros x; apply (mark_view e d x)).
  assert (forall x, same_marks (ed d x) (ed (markEdge e d) x)) as Hm by (intros x; apply mark_view).
  split; intros x; rewrite ?mark_linked, ?markEdge_target, ?markEdge_source, ?Ht.
  - apply H.
  - rewrite Ha. apply H.
  - destruct (Hm x) as (-> & -> & _). apply H.
  - destruct (Hm x) as (_ & -> & ->). apply H.
  - destruct (Hm x) as (_ & -> & _). intros H1 H2 H3 H4 H5 y Hy. rewrite mark_plain. by apply (lb_init _ _ H x).
  - intros H1 H2. by apply mark_cut, (lb_cut _ _ H).
Qed.

Lemma mark_inv d s w Q g e : Inv d s w Q g -> e ∉ Q -> Inv (markEdge e d) s w Q g.
Proof.
  intros H HQ. split.
  - apply mark_layout, H.
  - apply mark_labels, H.
  - intros x Hx. apply mark_linked. by apply (iv_done _ _ _ _ _ H).
  - intros x Hx. rewrite markEdge_source. destruct (iv_from _ _ _ _ _ H x Hx) as [|(y & Hy & Ht)]; [by left|right].
    exists y. by rewrite markEdge_target.
  - intros n b Hb. apply (NodeOk_frame d (markEdge e d) s s w w Q Q g); try done.
    + split; intros (x & Hx & Ht); exists x; by rewrite markEdge_target in *.
    + split; intros (x & Hx & Ht); exists x; by rewrite markEdge_source, mark_atSource in *.
    + intros x _. by rewrite mark_plain.
    + intros p l _ Hp. by exists l.
    + by apply (iv_node _ _ _ _ _ H).
  - apply (iv_bare _ _ _ _ _ H).
  - intros x Hx. apply (EdgeEmitted_frame s s d (markEdge e d) g); try done.
    + apply markEdge_ne. by intros ->.
    + intros y _. apply mark_view.
    + apply (lb_cut _ _ (iv_labels _ _ _ _ _ H)). by apply (iv_done _ _ _ _ _ H).
    + intros _ p l b _ Hp _. by exists l.
    + by apply (iv_edge _ _ _ _ _ H).
Qed.

(** ** Splitting *)

Section SplitMarks.
Context (f : EdgeId) (nb : BlockId) (d d' : BLInstrumentationDag) (new : NodeId) (g : EdgeId)
  (HS : SplitOf f nb d d' new g) (Hf : f ∈ _edges d).

Lemma split_has x : x ∈ _edges d -> hasInstrumentation (ed d' x) = hasInstrumentation (ed d x).
Proof using HS.
  intros Hx. destruct (decide (x = f)) as [->|Hne]; [apply (sp_former_done _ _ _ _ _ _ HS)|].
  by rewrite (sp_other _ _ _ _ _ _ HS).
Qed.

Lemma split_edge_case x : x ∈ _edges d' -> x ∈ _edges d \/ x = g.
Proof using HS. by rewrite (sp_edges _ _ _ _ _ _ HS), elem_of_app, list_elem_of_singleton. Qed.

Lemma split_instrumented x : instrumented d' x -> instrumented d x.
Proof using HS.
  intros [Hx Hh]. destruct (split_edge_case x Hx) as [Hx'| ->].
  - split; [done|]. by rewrite <- split_has.
  - destruct (sp_new_marks _ _ _ _ _ _ HS) as (_ & _ & _ & E). congruence.
Qed.

Lemma split_calls x : x ∈ _edges d' -> getType (ed d' x) = CALLEDGE_PHONY ->
  x ∈ _edges d /\ getType (ed d x) = CALLEDGE_PHONY.
Proof using HS Hf.
  intros Hx Ht. destruct (cut_type (getType (ed d f))) eqn:E.
  - destruct (sp_former_type _ _ _ _ _ _ HS E) as (T1 & T2 & _).
    destruct (split_edge_case x Hx) as [Hx'| ->]; [|rewrite T2 in Ht; by rewrite Ht in E].
    split; [done|]. destruct (decide (x = f)) as [->|Hne]; [congruence|]. by rewrite (sp_other _ _ _ _ _ _ HS) in Ht.
  - destruct (sp_former_plain _ _ _ _ _ _ HS E) as (T1 & T2).
    destruct (split_edge_case x Hx) as [Hx'| ->]; [|congruence].
    split; [done|]. destruct (decide (x = f)) as [->|Hne]; [congruence|]. by rewrite (sp_other _ _ _ _ _ _ HS) in Ht.
Qed.

End SplitMarks.

(** What [splitCritical] leaves, whether it splits or not. *)
Record split_kept (e : EdgeId) (st st1 : PassState) (w1 : NodeId -> bool) (Q : gset EdgeId) (g : Ghost) : Prop := {
  sk_inv : Inv (dag st1) (fn st1) w1 Q g;
  sk_linked : linked (dag st1) e;
  sk_source : getSource (ed (dag st1) e) = getSource (ed (dag st) e);
  sk_block : getBlock (nd (dag st1) (getSource (ed (dag st) e))) = getBlock (nd (dag st) (getSource (ed (dag st) e)));
  sk_entered : entered (dag st) Q (getSource (ed (dag st) e)) -> entered (dag st1) Q (getSource (ed (dag st) e));
  sk_paths : getNumberOfPaths (dag st1) = getNumberOfPaths (dag st);
  sk_instrumented x : instrumented (dag st1) x -> instrumented (dag st) x;
  sk_has x : x ∈ _edges (dag st) -> hasInstrumentation (ed (dag st1) x) = hasInstrumentation (ed (dag st) x);
  sk_calls x : x ∈ _edges (dag st1) -> getType (ed (dag st1) x) = CALLEDGE_PHONY ->
    x ∈ _edges (dag st) /\ getType (ed (dag st) x) = CALLEDGE_PHONY;
  sk_refines P : (forall b, P b = true -> insts (fn st) b <> []) -> Refines P (dag st) (dag st1)
}.

Lemma not_split e st w Q g : Inv (dag st) (fn st) w Q g -> linked (dag st) e -> split_kept e st st w Q g.
Proof. intros HI He. split; try done. intros P _. by apply same_flow_refines. Qed.

(** LLVM splits: the block on the edge becomes a node. *)
Lemma split_done e st w Q g bu bv nb s' : Inv (dag st) (fn st) w Q g -> e ∉ Q -> linked (dag st) e ->
  (2 <= getNumberSuccEdges (nd (dag st) (getSource (ed (dag st) e))))%nat ->
  getBlock (nd (dag st) (getSource (ed (dag st) e))) = Some bu ->
  getBlock (nd (dag st) (getTarget (ed (dag st) e))) = Some bv ->
  SplitCriticalEdge bu (getSuccessorNumber e st) (fn st) = Some s' ->
  successors s' bu !! getSuccessorNumber e st = Some nb ->
  exists w1, split_kept e st (setDag (splitUpdate e nb (dag st)) (setFn s' st)) w1 Q g.
Proof.
  intros HI HQ He Hm Ebu Ebv Es En. unfold getSuccessorNumber in Es, En. rewrite Ebu, Ebv in Es, En.
  pose proof (iv_layout _ _ _ _ _ HI) as HLy.
  assert (e ∈ _edges (dag st)) as Hin by (by apply (lk_succ _ (ly_linked _ _ HLy)) in He as [? _]).
  destruct (splitUpdate_spec e nb (dag st) (ly_linked _ _ HLy) Hin) as (new & x & HS).
  set (d' := splitUpdate e nb (dag st)) in *.
  pose proof (split_inv (dag st) d' (fn st) s' w Q g e x new bu bv nb HI HQ He Hm Ebu Ebv Es En HS) as HI'.
  assert (getSource (ed (dag st) e) <> new) as Hn.
  { apply (stored_not_new e nb (dag st) d' new x HS). by apply (lk_source _ (ly_linked _ _ HLy)). }
  assert (forall n, getBlock (nd (dag st) n) <> Some nb) as Hfr.
  { intros n. by eapply (not_a_block (dag st) (fn st) s' w Q g e bu bv nb HI He Ebu Ebv Es En). }
  exists (splitLabel (dag st) w e new). split.
  - exact HI'.
  - simpl. unfold linked. rewrite (sp_former_source _ _ _ _ _ _ HS). rewrite (sp_succ _ _ _ _ _ _ HS) by done. done.
  - apply (sp_former_source _ _ _ _ _ _ HS).
  - simpl. by apply (sp_attr _ _ _ _ _ _ HS).
  - simpl. intros Hen. by eapply (split_entered (dag st) d' (fn st) w Q g e x new nb HI HQ HS).
  - apply (sp_paths _ _ _ _ _ _ HS).
  - intros y. by apply (split_instrumented e nb (dag st) d' new x HS).
  - intros y Hy. by apply (split_has e nb (dag st) d' new x HS).
  - intros y. by apply (split_calls e nb (dag st) d' new x HS).
  - intros P HP. simpl. eapply (split_refines (dag st) d' (fn st) w Q g e x new nb); try done; [by rewrite Ebu|].
    intros b Hb ->. apply (HP nb Hb).
    destruct (split_function (dag st) (fn st) s' w Q g e bu bv nb HI He Ebu Ebv Es En)
      as (t & _ & _ & _ & _ & _ & _ & _ & Hi & _). done.
Qed.

Lemma splitCritical_inv e st w Q g ok st1 : Inv (dag st) (fn st) w Q g -> e ∉ Q -> linked (dag st) e ->
  splitCritical e st = (ok, st1) -> exists w1, split_kept e st st1 w1 Q g.
Proof.
  intros HI HQ He H. pose proof (not_split e st w Q g HI He) as Hsame. unfold splitCritical in H.
  destruct (getBlock (nd (dag st) (getSource (ed (dag st) e)))) as [bu|] eqn:Ebu; [|injection H as <- <-; by exists w].
  destruct (getBlock (nd (dag st) (getTarget (ed (dag st) e)))) as [bv|] eqn:Ebv; [|injection H as <- <-; by exists w].
  case_decide as Hmany; [injection H as <- <-; by exists w|].
  case_decide; [injection H as <- <-; by exists w|].
  destruct (isIndirectBr _ _); [injection H as <- <-; by exists w|].
  destruct (SplitCriticalEdge _ _ _) as [s'|] eqn:Es; [|injection H as <- <-; by exists w].
  destruct (successors s' bu !! _) as [nb|] eqn:En; injection H as <- <-.
  - eapply split_done; try done. lia.
  - exfalso. pose proof (iv_layout _ _ _ _ _ HI) as HLy.
    destruct (split_edge _ _ _ _ (ly_valid _ _ HLy) Es) as (old & nb & t & Ho & Esu & _).
    rewrite Esu, list_lookup_insert_eq in En by (by apply lookup_lt_Some in Ho). done.
Qed.

(** ** The traversal *)

Section Traverse.
Context (s0 : Fn).

(** The blocks of the function to be instrumented. *)
Definition original (b : BlockId) : bool := bool_decide (insts s0 b <> []).

(** Between two steps. *)
Record Ready (st : PassState) (w : NodeId -> bool) (Q : gset EdgeId) (g : Ghost) : Prop := {
  rd_inv : Inv (dag st) (fn st) w Q g;
  rd_good : Good st;
  rd_paths : 0 < getNumberOfPaths (dag st);
  rd_fn : extends s0 (fn st);
  rd_done x : x ∈ Q -> hasInstrumentation (ed (dag st) x) = true;
  rd_calls x : x ∈ _edges (dag st) -> getType (ed (dag st) x) <> CALLEDGE_PHONY
}.

(** Every edge counted as done has its code. *)
Definition Full (st : PassState) (Q : gset EdgeId) : Prop := forall x, instrumented (dag st) x -> x ∈ Q.

Record went (st : PassState) (Q : gset EdgeId) (st' : PassState) (Q' : gset EdgeId) : Prop := {
  wt_advanced : advanced none st st';
  wt_more : Q ⊆ Q';
  wt_full : warnings st' = warnings st -> Full st Q -> Full st' Q';
  wt_refines : Refines original (dag st) (dag st')
}.

Lemma went_refl st w Q g : Ready st w Q g -> went st Q st Q.
Proof using.
  intros H. split; try done.
  - apply advanced_refl; [apply (iv_layout _ _ _ _ _ (rd_inv _ _ _ _ H))|apply H].
  - by apply same_flow_refines.
Qed.

Lemma went_trans st Q st1 Q1 st2 Q2 : went st Q st1 Q1 -> went st1 Q1 st2 Q2 -> went st Q st2 Q2.
Proof using.
  intros [A1 M1 F1 R1] [A2 M2 F2 R2]. split.
  - by eapply advanced_trans.
  - etransitivity; eauto.
  - intros E HF. destruct (advanced_warnings _ _ _ _ _ A1 A2 E) as [E1 E2]. auto.
  - by eapply Refines_trans.
Qed.

(** What the traversal does at the edge itself. *)
Lemma mark_ready st w Q g e : Ready st w Q g -> hasInstrumentation (ed (dag st) e) = false -> e ∉ Q.
Proof using. intros H Hh He. by rewrite (rd_done _ _ _ _ H e He) in Hh. Qed.

Lemma instrumented_mark e d x : instrumented (markEdge e d) x -> x = e \/ instrumented d x.
Proof using.
  intros [Hx Hh]. destruct (decide (x = e)) as [|Hne]; [by left|right]. split; [done|].
  by rewrite markEdge_ne in Hh.
Qed.

Lemma split_ready st w Q g e ok st1 : Ready st w Q g -> linked (dag st) e ->
  hasInstrumentation (ed (dag st) e) = false ->
  getBlock (nd (dag st) (getSource (ed (dag st) e))) = None \/ entered (dag st) Q (getSource (ed (dag st) e)) ->
  splitCritical e (setDag (markEdge e (dag st)) st) = (ok, st1) ->
  exists w1, Ready st1 w1 Q g /\ linked (dag st1) e /\ e ∉ Q /\ hasInstrumentation (ed (dag st1) e) = true /\
    (getBlock (nd (dag st1) (getSource (ed (dag st1) e))) = None \/ entered (dag st1) Q (getSource (ed (dag st1) e))) /\
    (forall x, instrumented (dag st1) x -> x = e \/ instrumented (dag st) x) /\
    Refines original (dag st) (dag st1).
Proof using LF BS.
  intros H He Hh Hu Hsp. pose proof (mark_ready _ _ _ _ _ H Hh) as HQ.
  pose proof (iv_layout _ _ _ _ _ (rd_inv _ _ _ _ H)) as HLy.
  assert (e ∈ _edges (dag st)) as Hin by (by apply (lk_succ _ (ly_linked _ _ HLy)) in He as [? _]).
  pose proof (splitCritical_entered e st ok st1 (ly_linked _ _ HLy) (rd_good _ _ _ _ H) Hin Hh Hsp) as HEn.
  pose proof (en_advanced _ _ _ HEn) as HA.
  destruct (splitCritical_inv e (setDag (markEdge e (dag st)) st) w Q g ok st1)
    as (w1 & [HI Hl Es Eb Een Ep Ei Eh Ec HR]).
  { simpl. by apply mark_inv; [apply H|]. } { done. } { by apply mark_linked. } { done. }
  simpl in *. rewrite markEdge_source in *. exists w1. split_and!; try done.
  - split; try done.
    + apply HA.
    + rewrite Ep. apply H.
    + eapply extends_trans; [apply H|apply HA].
    + intros x Hx. assert (x ∈ _edges (dag st)) as Hxe.
      { pose proof (iv_done _ _ _ _ _ (rd_inv _ _ _ _ H) x Hx) as Hlx. by apply (lk_succ _ (ly_linked _ _ HLy)) in Hlx as [? _]. }
      rewrite Eh by done. rewrite markEdge_ne by (by intros ->). by apply (rd_done _ _ _ _ H).
    + intros x Hx Ht. destruct (Ec x Hx Ht) as [Hx' Ht']. apply (rd_calls _ _ _ _ H x Hx').
      by rewrite <- (se_type _ _ (proj1 (mark_view e (dag st) x))).
  - rewrite Eh by done. unfold markEdge. by rewrite ed_updEdge_eq.
  - rewrite Es, Eb. destruct Hu as [Hu|(x & Hx & Ht)]; [by left|right]. apply Een. exists x.
    by rewrite markEdge_target.
  - intros x Hx. by apply instrumented_mark, Ei.
  - eapply Refines_trans; [apply same_flow_refines, mark_flow|apply HR].
    intros b Hb Hi. apply bool_decide_eq_true in Hb. apply Hb.
    pose proof (ext_insts _ _ (rd_fn _ _ _ _ H) b) as Hsub. rewrite Hi in Hsub. by apply sublist_nil_r in Hsub.
Qed.

Lemma placed_flow st st' : placed st st' -> same_flow (dag st) (dag st').
Proof using.
  intros HP. split.
  - apply HP.
  - apply (pl_stored _ _ HP).
  - intros e. rewrite (placed_ed _ _ _ HP). by split.
  - apply HP.
  - by split; apply HP.
Qed.

Lemma place_ready st w Q g e : Ready st w Q g -> linked (dag st) e -> e ∉ Q ->
  hasInstrumentation (ed (dag st) e) = true ->
  getBlock (nd (dag st) (getSource (ed (dag st) e))) = None \/ entered (dag st) Q (getSource (ed (dag st) e)) ->
  (exists st' g', placeEdge e st = Ok (true, st') /\ Ready st' w (Q ∪ {[e]}) g' /\ placed st st') \/
  placeEdge e st = Ok (false, warn CouldNotSplit st).
Proof using LF BS.
  intros H He HQ Hh Hu.
  destruct (placeEdge_inv st w Q g e (rd_inv _ _ _ _ H) HQ He (rd_paths _ _ _ _ H) (rd_good _ _ _ _ H) Hu)
    as [(st' & g' & E & HI)|E]; [left|by right].
  destruct (placeEdge_placed e st true st' (rd_good _ _ _ _ H) E) as [[_ HP]|[? _]]; [|done].
  exists st', g'. split_and!; try done. split; try done.
  - by eapply placed_good.
  - rewrite (pl_paths _ _ HP). apply H.
  - eapply extends_trans; [apply H|apply HP].
  - intros x. rewrite (placed_ed _ _ _ HP). intros [Hx| ->%elem_of_singleton]%elem_of_union; [|done].
    by apply (rd_done _ _ _ _ H).
  - intros x. rewrite (placed_ed _ _ _ HP), (pl_edges _ _ HP). apply H.
Qed.

Lemma warn_ready wn st w Q g : Ready st w Q g -> Ready (warn wn st) w Q g.
Proof using. by intros []. Qed.

(** One call of the recursion, given the calls it makes. *)
Definition follows (fuel : nat) : Prop := forall e st w Q g,
  Ready st w Q g -> linked (dag st) e -> hasInstrumentation (ed (dag st) e) = false ->
  getBlock (nd (dag st) (getSource (ed (dag st) e))) = None \/ entered (dag st) Q (getSource (ed (dag st) e)) ->
  (remaining (dag st) <= fuel)%nat ->
  exists st' w' Q' g', insertInstrumentationStartingAt fuel e st = Ok st' /\ Ready st' w' Q' g' /\ went st Q st' Q'.

Lemma follow_loop fuel v l st w Q g : follows fuel -> Ready st w Q g ->
  (forall x, x ∈ l -> x ∈ succEdges (nd (dag st) v)) -> entered (dag st) Q v -> (remaining (dag st) <= fuel)%nat ->
  exists st' w' Q' g', foldR (fun st next =>
           if hasInstrumentation (ed (dag st) next) then Ok st
           else insertInstrumentationStartingAt fuel next st) st l = Ok st' /\
    Ready st' w' Q' g' /\ went st Q st' Q'.
Proof using LF BS.
  intros HF. revert st w Q g. induction l as [|x l IH]; intros st w Q g H Hl Hv Hr.
  { exists st, w, Q, g. split_and!; try done. by eapply went_refl. }
  pose proof (iv_layout _ _ _ _ _ (rd_inv _ _ _ _ H)) as HLy.
  destruct (lk_succ _ (ly_linked _ _ HLy) v x) as [Hx Hs]; [apply Hl; by left|].
  assert (exists st1 w1 Q1 g1, (if hasInstrumentation (ed (dag st) x) then Ok st
            else insertInstrumentationStartingAt fuel x st) = Ok st1 /\ Ready st1 w1 Q1 g1 /\ went st Q st1 Q1)
    as (st1 & w1 & Q1 & g1 & E & H1 & W1).
  { destruct (hasInstrumentation (ed (dag st) x)) eqn:Eh.
    - exists st, w, Q, g. split_and!; try done. by eapply went_refl.
    - apply (HF x st w Q g); try done; [|rewrite Hs; by right].
      unfold linked. rewrite Hs. apply Hl. by left. }
  cbn [foldR]. rewrite E. cbn [mbind result_bind].
  destruct Hv as (y & Hy & Hyv).
  assert (instrumented (dag st) y) as Hyi.
  { split; [|by apply (rd_done _ _ _ _ H)]. pose proof (iv_done _ _ _ _ _ (rd_inv _ _ _ _ H) y Hy) as Hly.
    by apply (lk_succ _ (ly_linked _ _ HLy)) in Hly as [? _]. }
  assert (is_Some (nodeStore (dag st) !! v)) as Hvs by (rewrite <- Hyv; apply (lk_target _ (ly_linked _ _ HLy)), Hyi).
  destruct (IH st1 w1 Q1 g1) as (st2 & w2 & Q2 & g2 & E2 & H2 & W2); try done.
  - intros k Hk. destruct (ad_node _ _ _ (wt_advanced _ _ _ _ W1) v Hvs) as [_ ->]. apply Hl. by right.
  - exists y. split; [by apply (wt_more _ _ _ _ W1)|]. by rewrite (ad_done _ _ _ (wt_advanced _ _ _ _ W1) y Hyi).
  - pose proof (ad_remaining _ _ _ (wt_advanced _ _ _ _ W1)). lia.
  - exists st2, w2, Q2, g2. split_and!; try done. by eapply went_trans.
Qed.

Lemma follows_all fuel : follows fuel.
Proof using LF BS.
  induction fuel as [|fuel IH]; intros e st w Q g H He Hh Hu Hr.
  - exfalso. pose proof (iv_layout _ _ _ _ _ (rd_inv _ _ _ _ H)) as HLy.
    assert (e ∈ _edges (dag st)) as Hin by (by apply (lk_succ _ (ly_linked _ _ HLy)) in He as [? _]).
    pose proof (en_less _ _ _ (mark_entered e st (ly_linked _ _ HLy) (rd_good _ _ _ _ H) Hin Hh)). lia.
  - pose proof (iv_layout _ _ _ _ _ (rd_inv _ _ _ _ H)) as HLy.
    assert (e ∈ _edges (dag st)) as Hin by (by apply (lk_succ _ (ly_linked _ _ HLy)) in He as [? _]).
    pose proof (traverses_all (S fuel) e st (ly_linked _ _ HLy) (rd_good _ _ _ _ H) Hin Hh Hr) as HT.
    cbn [insertInstrumentationStartingAt] in HT |- *. fold (markEdge e (dag st)) in HT |- *.
    destruct (splitCritical e (setDag (markEdge e (dag st)) st)) as [ok st1] eqn:Es.
    pose proof (splitCritical_entered e st ok st1 (ly_linked _ _ HLy) (rd_good _ _ _ _ H) Hin Hh Es) as HEn.
    destruct (split_ready st w Q g e ok st1 H He Hh Hu Es) as (w1 & H1 & Hl1 & HQ & Hh1 & Hu1 & Hi1 & HR1).
    destruct ok; cbn [negb] in HT |- *.
    2:{ exists (warn CantInstrument st1), w1, Q, g. split_and!; [done|by apply warn_ready|]. split; try done.
        - apply HT.
        - intros E. simpl in E. rewrite (en_warnings _ _ _ HEn) in E. by apply app_not_self in E. }
    destruct (place_ready st1 w1 Q g e H1 Hl1 HQ Hh1 Hu1) as [(st2 & g2 & Ep & H2 & HP)|Ep]; rewrite Ep in HT |- *;
      cbn [mbind result_bind] in HT |- *.
    2:{ exists (warn CouldNotSplit st1), w1, Q, g. split_and!; [done|by apply warn_ready|]. split; try done.
        - apply HT.
        - intros E. simpl in E. rewrite (en_warnings _ _ _ HEn) in E. by apply app_not_self in E. }
    destruct (placeEdge_entered e st st1 true st2 HEn Ep) as (HA2 & Hi2 & Hr2 & Ht2 & _).
    destruct (follow_loop fuel (getTarget (ed (dag st1) e)) (succEdges (nd (dag st2) (getTarget (ed (dag st1) e))))
      st2 w1 (Q ∪ {[e]}) g2 IH H2) as (st3 & w3 & Q3 & g3 & E3 & H3 & W3); [done| |lia|].
    { exists e. rewrite Ht2. split; [|done]. apply elem_of_union. right. by apply elem_of_singleton. }
    rewrite E3 in HT |- *. exists st3, w3, Q3, g3. split_and!; try done. split.
    + apply HT.
    + etransitivity; [|apply (wt_more _ _ _ _ W3)]. apply union_subseteq_l.
    + intros E HFu. destruct (advanced_warnings _ _ _ _ _ HA2 (wt_advanced _ _ _ _ W3) E) as [E1 E2].
      apply (wt_full _ _ _ _ W3 E2). intros x Hx. apply elem_of_union. rewrite elem_of_singleton.
      rewrite placed_instrumented in Hx by done. destruct (Hi1 x Hx) as [->|Hx']; [by right|left]. by apply HFu.
    + eapply Refines_trans; [exact HR1|]. eapply Refines_trans; [|apply (wt_refines _ _ _ _ W3)].
      by apply same_flow_refines, placed_flow.
Qed.

End Traverse.

(** ** The paths of the instrumented function *)

(** Along the control-flow graph, to a block without successors. *)
Fixpoint complete_path (s : Fn) (b : BlockId) (bs : list BlockId) : Prop :=
  match bs with
  | [] => successors s b = []
  | c :: bs => c ∈ successors s b /\ complete_path s c bs
  end.

Lemma path_route d s n b bs : Layout d s -> getBlock (nd d n) = Some b -> complete_path s b bs ->
  exists l, linked_route d n l (getExit d) /\ blocksOf d l = bs.
Proof.
  intros HL. revert n b. induction bs as [|c bs IH]; intros n b Hb Hp; simpl in Hp.
  - pose proof (ly_cfg _ _ HL n b Hb) as HC. rewrite Hp in HC. apply Permutation_nil_l in HC.
    pose proof (ly_out _ _ HL n b Hb) as Ho. destruct (succEdges (nd d n)) as [|e l] eqn:Es; [done|].
    assert (e ∈ succEdges (nd d n)) as He by (rewrite Es; by left).
    destruct (lk_succ _ (ly_linked _ _ HL) n e He) as [_ Hs].
    assert (getBlock (nd d (getTarget (ed d e))) = None) as Ht.
    { simpl in HC. by destruct (getBlock (nd d (getTarget (ed d e)))). }
    destruct (ly_target _ _ HL e) as [Hx _]; [unfold linked; by rewrite Hs|done|].
    exists [e]. split; [|unfold blocksOf; simpl; by rewrite Ht].
    constructor; try done; [|rewrite Hx; constructor]. intros ->. rewrite (proj1 (ly_exit _ _ HL)) in Hb. done.
  - destruct Hp as [Hc Hp]. rewrite (ly_cfg _ _ HL n b Hb) in Hc. apply list_elem_of_omap in Hc as (e & He & Ht).
    destruct (lk_succ _ (ly_linked _ _ HL) n e He) as [_ Hs]. destruct (IH _ _ Ht Hp) as (l & Hl & <-).
    exists (e :: l). split.
    + constructor; try done. intros ->. rewrite (proj1 (ly_exit _ _ HL)) in Hb. done.
    + unfold blocksOf. simpl. by rewrite Ht.
Qed.

Lemma route_path d s n b l : Layout d s -> getBlock (nd d n) = Some b -> linked_route d n l (getExit d) ->
  complete_path s b (blocksOf d l).
Proof.
  intros HL Hb H. remember (getExit d) as y eqn:Ey. revert b Hb Ey.
  induction H as [x|x e p y H1 H2 H3 H4 IH]; intros b Hb ->; [by rewrite (proj1 (ly_exit _ _ HL)) in Hb|].
  assert (linked d e) as He by (unfold linked; by rewrite H2).
  rewrite blocksOf_cons. destruct (getBlock (nd d (getTarget (ed d e)))) as [c|] eqn:Et; simpl.
  - split; [|by apply IH]. rewrite (ly_cfg _ _ HL x b Hb). apply list_elem_of_omap. by exists e.
  - destruct (ly_target _ _ HL e He Et) as [Hx Ha].
    assert (p = []) as ->.
    { destruct p as [|k p]; [done|]. rewrite Hx in H4. by inversion H4. }
    simpl. unfold atSource in Ha. apply andb_prop in Ha as [_ Ha]. apply bool_decide_eq_true in Ha. rewrite H2 in Ha.
    apply Permutation_nil_r. rewrite (ly_cfg _ _ HL x b Hb). unfold getNumberSuccEdges in Ha.
    destruct (succEdges (nd d x)) as [|k [|]]; simpl in Ha; [done| |lia].
    apply list_elem_of_singleton in H1 as ->. simpl. by rewrite Et.
Qed.

(** ** From a prepared DAG *)

(** What the insertion starts from: a consistently marked DAG that mirrors a
    function the pass has not touched, with no phony call edges. *)
Record Prepared (d : BLInstrumentationDag) (s : Fn) (w : NodeId -> bool) (er : EdgeId) : Prop := {
  pp_fresh : Fresh d s er;
  pp_layout : Layout d s;
  pp_labels : Labelled d w;
  pp_blank n : blank (nd d n);
  pp_code b : code s b = [];
  pp_paths : 0 < getNumberOfPaths d;
  pp_calls e : e ∈ _edges d -> getType (ed d e) <> CALLEDGE_PHONY;
  pp_er : linked d er /\ getSource (ed d er) = getExit d /\ getTarget (ed d er) = getRoot d;
  pp_root : is_Some (getBlock (nd d (getRoot d)))
}.

Section Result.
Context (d : BLInstrumentationDag) (s : Fn) (w : NodeId -> bool) (er : EdgeId) (HP : Prepared d s w er).

Lemma prepared_ready : Ready s (MkPass d s []) w ∅ (fun _ => blankGhost).
Proof using HP.
  pose proof (pp_fresh _ _ _ _ HP) as HF. split; try apply HP; try done.
  - split; try apply HP; try done.
    + intros n b Hb. split; unfold g_mid, g_pre, g_post, g_out; cbn [blankGhost n_mid n_out n_pre n_post].
      * apply HP.
      * split; [apply HP|done].
      * by intros (e & He & _).
      * intros _. destruct (pp_blank _ _ _ _ HP n) as (B1 & B2 & _). simpl. rewrite B1, B2. split_and!; [done|done|by left].
      * by intros (e & He & _).
      * by intros (e & He & _).
    + intros n _. split; [apply HP|done].
  - split; [apply HF|]. intros n phi. simpl. by rewrite (fr_phi _ _ _ HF).
  - apply extends_refl, HF.
Qed.

Lemma prepared_run : exists st' w' Q' g',
  insertInstrumentation (2 * length (_edges d)) (MkPass d s []) = Ok st' /\ Ready s st' w' Q' g' /\
  went s (MkPass d s []) ∅ st' Q' /\ instrumented (dag st') er.
Proof using HP LF BS.
  pose proof (pp_fresh _ _ _ _ HP) as HF. pose proof (pp_layout _ _ _ _ HP) as HLy.
  destruct (pp_er _ _ _ _ HP) as (Hl & Hs & Ht). pose proof (remaining_bound d) as Hb.
  pose proof (Fresh_advanced d s er _ HF (le_n _)) as HA.
  destruct (follows_all s (2 * length (_edges d)) er (MkPass d s []) w ∅ (fun _ => blankGhost) prepared_ready Hl)
    as (st' & w' & Q' & g' & E & HR & HW).
  { apply HF. } { left. simpl. rewrite Hs. apply HLy. } { simpl. lia. }
  unfold insertInstrumentation in HA |- *. simpl dag in *. rewrite (fr_exit _ _ _ HF) in HA |- *.
  cbn [deref mbind result_bind] in HA |- *. rewrite E in HA |- *. cbn [mbind result_bind] in HA |- *.
  assert (getCallPhonyEdges (dag st') = []) as Hc.
  { destruct (getCallPhonyEdges (dag st')) as [|x l] eqn:Ec; [done|]. exfalso.
    assert (x ∈ getCallPhonyEdges (dag st')) as Hx by (rewrite Ec; by left).
    apply list_elem_of_filter in Hx as [Hx Hin]. by apply (rd_calls _ _ _ _ _ HR x Hin). }
  rewrite Hc in HA |- *. cbn [foldR] in HA |- *. exists st', w', Q', g'. split_and!; try done. apply HA.
Qed.

(** *** What the result does *)

Section Done.
Context (st : PassState) (w' : NodeId -> bool) (Q : gset EdgeId) (g : Ghost).
Context (HR : Ready s st w' Q g) (HW : went s (MkPass d s []) ∅ st Q)
  (Hi : instrumented (dag st) er) (Hwn : warnings st = []).

Lemma done_er : linked (dag st) er /\ getSource (ed (dag st) er) = getExit (dag st) /\
  getTarget (ed (dag st) er) = getRoot (dag st) /\ getRoot (dag st) = getRoot d /\ getExit (dag st) = getExit d /\
  (forall r, edgeExec (dag st) er r = edgeExec d er r) /\ stored d (getRoot d) /\ stored d (getExit d).
Proof using HP HW.
  destruct (pp_er _ _ _ _ HP) as (Hl & Hs & Ht). pose proof (wt_refines _ _ _ _ _ HW) as HRf.
  destruct (rf_exit _ _ _ HRf er Hl Hs) as (Hl' & Hs' & Ht' & Hx). destruct (rf_ends _ _ _ HRf) as [E1 E2].
  simpl in *. split_and!; try done; [congruence| |].
  - unfold stored. rewrite <- Ht. pose proof (ly_linked _ _ (pp_layout _ _ _ _ HP)) as HLk.
    apply (lk_target _ HLk). by apply (lk_succ _ HLk) in Hl as [? _].
  - apply (ly_exit _ _ (pp_layout _ _ _ _ HP)).
Qed.

Lemma done_edges e : reached (dag st) er e -> e ∈ Q.
Proof using BS HP HR HW Hi Hwn.
  intros He. apply (wt_full _ _ _ _ _ HW Hwn).
  - intros x [_ Hx]. simpl in Hx. by rewrite (fr_done _ _ _ (pp_fresh _ _ _ _ HP)) in Hx.
  - pose proof (reached_instrumented d s er st e (pp_fresh _ _ _ _ HP) (wt_advanced _ _ _ _ _ HW) Hi Hwn He) as Hh.
    split; [|done]. pose proof (ly_linked _ _ (iv_layout _ _ _ _ _ (rd_inv _ _ _ _ _ HR))) as HLk.
    destruct He as [|x e Hx He]; [apply Hi|]. by apply (lk_succ _ HLk) in He as [? _].
Qed.

Lemma done_reached x l y : linked_route (dag st) x l y ->
  (x = getRoot (dag st) \/ exists k, reached (dag st) er k /\ getTarget (ed (dag st) k) = x) ->
  Forall (fun e => e ∈ Q) l.
Proof using BS HP HR HW Hi Hwn.
  destruct done_er as (_ & _ & Ht & _). induction 1 as [|x e p y H1 H2 H3 H4 IH]; intros Hx; [constructor|].
  assert (reached (dag st) er e) as He.
  { destruct Hx as [->|(k & Hk & <-)].
    - eapply reached_next; [apply reached_er|]. by rewrite Ht.
    - by eapply reached_next. }
  constructor; [by apply done_edges|]. apply IH. right. by exists e.
Qed.

Lemma done_emitted : Emitted st g (fun e => e ∈ Q).
Proof using HR.
  split.
  - intros n b Hb. apply (no_code _ _ _ _ _ _ _ (iv_node _ _ _ _ _ (rd_inv _ _ _ _ _ HR) n b Hb)).
  - apply (iv_edge _ _ _ _ _ (rd_inv _ _ _ _ _ HR)).
Qed.

(** From the entry on, along a route of the instrumented DAG. *)
Lemma done_runs rb l : getBlock (nd (dag st) (getRoot (dag st))) = Some rb ->
  linked_route (dag st) (getRoot (dag st)) l (getExit (dag st)) ->
  exists env out r, execBlocks (fn st) None (rb :: blocksOf (dag st) l) (∅, []) = Some (env, out) /\
    walkExec (dag st) (er :: l) None = Some (r, out).
Proof using BS HP HR HW Hi Hwn.
  intros Hrb Hl. destruct done_er as (Hle & Hs & Ht & _). pose proof done_emitted as HE.
  pose proof (iv_layout _ _ _ _ _ (rd_inv _ _ _ _ _ HR)) as HLy.
  assert (er ∈ Q) as HQ by (apply done_edges, reached_er).
  pose proof (ly_exit _ _ HLy) as [Hex _].
  assert (atSource (dag st) er = false) as Ha by (unfold atSource; by rewrite Hs, Hex).
  assert (g_mid g (getExit (dag st)) = None) as Hm.
  { unfold g_mid. by rewrite (proj2 (iv_bare _ _ _ _ _ (rd_inv _ _ _ _ _ HR) _ Hex)). }
  destruct (enter_block st g (fun e => e ∈ Q) HE er rb ∅ [] None HQ) as (env1 & r1 & o1 & E1 & H1 & X1).
  { by rewrite Ht. } { rewrite Ha, Hs, Hm. done. }
  rewrite Ha in X1. rewrite Hs, Hex, Ht in E1. rewrite Ht in H1.
  destruct (run_route st g (fun e => e ∈ Q) HE (getRoot (dag st)) l Hl) with (from := None (A := BlockId)) (env := env1)
    (out := [] ++ o1) (r := r1) as (st1 & env2 & o2 & E2 & E3 & r2 & W); try done.
  - eapply done_reached; [exact Hl|by left].
  - intros e He Hne. destruct (getBlock (nd (dag st) (getTarget (ed (dag st) e)))) eqn:Eb; [done|].
    destruct (ly_target _ _ HLy e) as [? _]; [by eapply route_linked|done|done].
  - exists env2, (([] ++ o1) ++ o2), r2. cbn [execBlocks]. rewrite run_code, (em_code _ _ _ HE _ _ Hrb), foldM_app.
    rewrite E1. cbn [mbind option_bind]. rewrite E2. cbn [mbind option_bind]. rewrite <- Hrb, E3. split; [done|].
    rewrite walkExec_cons, X1. cbn [mbind option_bind]. by rewrite W.
Qed.

Lemma root_block rb : getBlock (nd d (getRoot d)) = Some rb -> getBlock (nd (dag st) (getRoot (dag st))) = Some rb.
Proof using HP HW.
  intros Hrb. destruct done_er as (_ & _ & _ & -> & _ & _ & Hst & _).
  by rewrite (rf_block _ _ _ (wt_refines _ _ _ _ _ HW) _ Hst).
Qed.

Lemma original_blocks l : filter (fun b => original s b = true) (blocksOf d l) = blocksOf d l.
Proof using HP.
  induction l as [|e l IH]; [done|]. rewrite blocksOf_cons, filter_app, IH. f_equal.
  destruct (getBlock (nd d (getTarget (ed d e)))) as [b|] eqn:Eb; [|done]. simpl.
  rewrite filter_cons, decide_True; [done|]. apply bool_decide_eq_true.
  destruct (ly_last _ _ (pp_layout _ _ _ _ HP) _ _ Eb) as (t & Ht & _). intros E. by rewrite E in Ht.
Qed.

Lemma same_blocks l l' : SameRoute (original s) d l (dag st) l' ->
  blocksOf d l = filter (fun b => original s b = true) (blocksOf (dag st) l').
Proof using HP. intros HS. pose proof (sr_blocks _ _ _ _ _ HS) as HB. by rewrite original_blocks in HB. Qed.

Lemma same_reports l l' : SameRoute (original s) d l (dag st) l' ->
  walkExec (dag st) (er :: l') None = walkExec d (er :: l) None.
Proof using HP HW.
  intros HS. destruct done_er as (_ & _ & _ & _ & _ & Hwe & _). rewrite !walkExec_cons, Hwe.
  destruct (edgeExec d er None) as [[r1 o1]|]; [|done].
  cbn [mbind option_bind]. by rewrite (sr_walk _ _ _ _ _ HS).
Qed.

(** Every complete path of the instrumented function is a route of the
    original one but for new blocks, and reports what the marks say of it. *)
Lemma done_path rb bs : getBlock (nd d (getRoot d)) = Some rb -> complete_path (fn st) rb bs ->
  exists l env out r, linked_route d (getRoot d) l (getExit d) /\
    filter (fun b => original s b = true) bs = blocksOf d l /\
    execBlocks (fn st) None (rb :: bs) (∅, []) = Some (env, out) /\ walkExec d (er :: l) None = Some (r, out).
Proof using BS HP HR HW Hi Hwn.
  intros Hrb Hbs. pose proof (root_block rb Hrb) as Hrb'. destruct done_er as (_ & _ & _ & Er & Ex & Hwe & S1 & S2).
  destruct (path_route (dag st) (fn st) (getRoot (dag st)) rb bs) as (l' & Hl' & Ebs); [apply HR|done|done|].
  destruct (done_runs rb l' Hrb' Hl') as (env & out & r & E1 & E2). rewrite Er, Ex in Hl'.
  destruct (rf_back _ _ _ (wt_refines _ _ _ _ _ HW) _ _ l' S1 S2 Hl') as (l & Hl & HS).
  exists l, env, out, r. split_and!; [done| |by rewrite <- Ebs|].
  - by rewrite (same_blocks l l' HS), <- Ebs.
  - by rewrite <- (same_reports l l' HS).
Qed.

(** Every route of the function is one of its complete paths, but for new
    blocks, and is reported. *)
Lemma done_route rb l : getBlock (nd d (getRoot d)) = Some rb -> linked_route d (getRoot d) l (getExit d) ->
  exists bs env out r, complete_path (fn st) rb bs /\
    filter (fun b => original s b = true) bs = blocksOf d l /\
    execBlocks (fn st) None (rb :: bs) (∅, []) = Some (env, out) /\ walkExec d (er :: l) None = Some (r, out).
Proof using BS HP HR HW Hi Hwn.
  intros Hrb Hl. pose proof (root_block rb Hrb) as Hrb'. destruct done_er as (_ & _ & _ & Er & Ex & Hwe & S1 & S2).
  destruct (rf_forth _ _ _ (wt_refines _ _ _ _ _ HW) _ _ l S1 S2 Hl) as (l' & Hl' & HS).
  simpl in Hl'. rewrite <- Er, <- Ex in Hl'. destruct (done_runs rb l' Hrb' Hl') as (env & out & r & E1 & E2).
  exists (blocksOf (dag st) l'), env, out, r. split_and!; [|by rewrite <- (same_blocks l l' HS)|done|].
  - eapply route_path; [apply HR|done|done].
  - by rewrite <- (same_reports l l' HS).
Qed.

End Done.
End Result.

End Simulation.
