(* ===== verification/Pipeline.v ===== *)
(** * The pass over a function and over a module

    [unlinkPhony]'s effect, [PathProfiler::runOnFunction] and
    [PathProfiler::runOnModule] (src/PathLogging.cpp): the marking phases, the
    unlinking of phony edges and the insertion, composed as the code composes
    them, the entry of the function table, and the counters over all
    functions. *)

From stdpp Require Import base numbers list gmap.
From S2P Require Import Prelude Dag BallLarus Marking MarkFrame IR ListIR Instrument.
From S2P Require Import Insertion.

Local Open Scope Z_scope.

(** LLVM's [ProfilingType] enumerators the pass uses. *)
Inductive ProfilingType : Set := ProfilingArray | ProfilingHash.

(** An entry of the function table: the storage type, the number of paths,
    the counter array. *)
Record functionEntry : Set := MkEntry {
  fe_type : Value;
  fe_paths : Value;
  fe_array : option GlobalId
}.

(** The module's globals the pass keeps, and what it prints. *)
Record counters : Set := MkCounters {
  totalPaths : Z;                        (* int64_t *)
  maxPaths : Z                           (* int64_t *)
}.

Definition countFunction (d : BLInstrumentationDag) (c : counters) : counters :=
  MkCounters (i64 (totalPaths c + getNumberOfPaths d)) (Z.max (maxPaths c) (i64 (getNumberOfPaths d))).

Section Pass.
Context `{L : LLVM} `{B : BallLarusOps}.

(** What else belongs to LLVM: [BLInstrumentationDag(F)] followed by [init]
    and [calculatePathNumbers]; the enumerators' values; a new global array. *)
Context (buildDag : Fn -> BLInstrumentationDag) (profilingCode : ProfilingType -> Z)
  (newCounterArray : Z -> GlobalId).

(** The storage of counters: an array only when there are at most
    [HASH_THRESHHOLD] paths. *)
Definition storeCounters (d : BLInstrumentationDag) : BLInstrumentationDag :=
  if decide (getNumberOfPaths d <= HASH_THRESHHOLD)
  then setCounterArray (Some (newCounterArray (getNumberOfPaths d))) d else d.

Definition tableEntry (d : BLInstrumentationDag) : functionEntry :=
  let type := if decide (getNumberOfPaths d <= HASH_THRESHHOLD) then ProfilingArray else ProfilingHash in
  MkEntry (createIncrementConstant (profilingCode type) 32)
          (createIncrementConstant (getNumberOfPaths d) 32) (getCounterArray d).

(** A function, with the state the insertion leaves.  The marking phases run
    on the fuel [pushFuel], the insertion on twice the number of edges; a
    failing marking phase (undefined behaviour) is [NullPointer]. *)
Definition runOnFunction (ftInit : list functionEntry) (c : counters) (F : Fn)
    : result (list functionEntry * counters * PassState) :=
  let dag0 := buildDag F in
  dag1 ← deref (markDag dag0);
  let dag2 := storeCounters (unlinkPhony dag1) in
  st ← insertInstrumentation (2 * length (_edges dag2)) (MkPass dag2 F []);
  Ok (ftInit ++ [tableEntry (dag st)], countFunction (dag st) c, st).

(** A function of the module; declarations have no body. *)
Definition ModuleFunction : Type := option Fn.

Record ModuleResult : Type := MkModule {
  functions : list ModuleFunction;
  ftInit : list functionEntry;
  pathCounters : counters;
  functionNumber : Z;                    (* unsigned *)
  moduleWarnings : list Warning
}.

Definition runOnModuleFunction (m : ModuleResult) (F : ModuleFunction) : result ModuleResult :=
  match F with
  | None => Ok (MkModule (functions m ++ [None]) (ftInit m) (pathCounters m) (functionNumber m)
                         (moduleWarnings m))
  | Some F =>
      '(ft, c, st) ← runOnFunction (ftInit m) (pathCounters m) F;
      Ok (MkModule (functions m ++ [Some (fn st)]) ft c (u32 (functionNumber m + 1))
                   (moduleWarnings m ++ warnings st))
  end.

(** The counters are the pass's statics: they start at zero and go on from
    module to module.  The last line printed is made of [functionNumber] and
    [pathCounters]. *)
Definition runOnModule (c : counters) (M : list ModuleFunction) : result ModuleResult :=
  foldR runOnModuleFunction (MkModule [] [] c 0 []) M.

End Pass.

(** The table entry of a function with DAG [d] whose paths are counted in the
    hash table. *)
Definition hashEntry (profilingCode : ProfilingType -> Z) (d : BLInstrumentationDag) : functionEntry :=
  MkEntry (ConstantInt (i32 (profilingCode ProfilingHash))) (ConstantInt (i32 (getNumberOfPaths d))) None.

(** ** Unlinking the phony edges *)

Definition isPhony (d : BLInstrumentationDag) (e : EdgeId) : bool := phony_type (getType (ed d e)).

Lemma phony_type_cases t : phony_type t = true <->
  t = BACKEDGE_PHONY \/ t = SPLITEDGE_PHONY \/ t = CALLEDGE_PHONY.
Proof. destruct t; simpl; intuition congruence. Qed.

Section Unlink.
Context `{BS : !BallLarusOpsSpec B}.

Lemma removeEdge_elem e l x : NoDup l -> x ∈ removeEdge e l <-> x ∈ l /\ x <> e.
Proof.
  intros Hd. destruct (decide (e ∈ l)) as [He|He].
  - pose proof (removeEdge_perm e l He) as HP. rewrite HP in Hd. apply NoDup_cons in Hd as [Hn _].
    rewrite HP at 2. rewrite elem_of_cons. split; [|tauto]. intros Hx. split; [by right|by intros ->].
  - rewrite removeEdge_absent by done. split; [|tauto]. intros Hx. split; [done|by intros ->].
Qed.

Lemma removeEdge_nodup e l : NoDup l -> NoDup (removeEdge e l).
Proof.
  intros Hd. destruct (decide (e ∈ l)) as [He|He]; [|by rewrite removeEdge_absent].
  rewrite (removeEdge_perm e l He) in Hd. by apply NoDup_cons in Hd as [_ ?].
Qed.

(** A node's lists after the edges in [gone] have been unlinked. *)
Record unlinked (gone : EdgeId -> Prop) (d d' : BLInstrumentationDag) : Prop := {
  ul_edgeStore : edgeStore d' = edgeStore d;
  ul_edges : _edges d' = _edges d;
  ul_nodes : _nodes d' = _nodes d;
  ul_root : getRoot d' = getRoot d;
  ul_exit : getExit d' = getExit d;
  ul_paths : getNumberOfPaths d' = getNumberOfPaths d;
  ul_array : getCounterArray d' = getCounterArray d;
  ul_stored n : is_Some (nodeStore d !! n) -> is_Some (nodeStore d' !! n);
  ul_node n : getBlock (nd d' n) = getBlock (nd d n) /\ getPathPHI (nd d' n) = getPathPHI (nd d n) /\
    getStartingPathNumber (nd d' n) = getStartingPathNumber (nd d n) /\
    getEndingPathNumber (nd d' n) = getEndingPathNumber (nd d n);
  ul_succ n e : e ∈ succEdges (nd d' n) <->
    e ∈ succEdges (nd d n) /\ ~ (gone e /\ getSource (ed d e) = n);
  ul_pred n e : e ∈ predEdges (nd d' n) <->
    e ∈ predEdges (nd d n) /\ ~ (gone e /\ getTarget (ed d e) = n);
  ul_succ_nodup n : NoDup (succEdges (nd d' n));
  ul_pred_nodup n : NoDup (predEdges (nd d' n))
}.

Lemma unlinkEdge_node e d n :
  static_eq (ed d e) (ed (unlinkEdge e d) e) /\
  getBlock (nd (unlinkEdge e d) n) = getBlock (nd d n) /\
  getPathPHI (nd (unlinkEdge e d) n) = getPathPHI (nd d n) /\
  getStartingPathNumber (nd (unlinkEdge e d) n) = getStartingPathNumber (nd d n) /\
  getEndingPathNumber (nd (unlinkEdge e d) n) = getEndingPathNumber (nd d n) /\
  succEdges (nd (unlinkEdge e d) n) =
    (if decide (getSource (ed d e) = n) then removeEdge e (succEdges (nd d n)) else succEdges (nd d n)) /\
  predEdges (nd (unlinkEdge e d) n) =
    (if decide (getTarget (ed d e) = n) then removeEdge e (predEdges (nd d n)) else predEdges (nd d n)).
Proof.
  unfold unlinkEdge. rewrite ed_updNode. split; [done|].
  destruct (decide (getTarget (ed d e) = n)) as [<-|Ht].
  - rewrite nd_updNode_eq. simpl. rewrite nd_updNode.
    case_decide as E; [rewrite <- E|]; simpl; split_and!; done.
  - rewrite nd_updNode_ne by done. rewrite nd_updNode.
    case_decide as E; [rewrite <- E|]; simpl; split_and!; done.
Qed.

Lemma unlinkEdge_unlinked gone d d' e : unlinked gone d d' ->
  unlinked (fun x => gone x \/ x = e) d (unlinkEdge e d').
Proof.
  intros [HS HE HN HR HX HP HAr Hst Hn Hs Hp Hsd Hpd].
  assert (forall x, ed d' x = ed d x) as Hed by (intros x; unfold ed; by rewrite HS).
  pose proof (unlinkEdge_node e d') as HU. rewrite Hed in HU.
  split; try done; try (intros n); try destruct (HU n) as (_ & E1 & E2 & E3 & E4 & E5 & E6).
  - intros Hsm. simpl. rewrite !lookup_insert_is_Some'. auto.
  - rewrite E1, E2, E3, E4. apply Hn.
  - intros x. rewrite E5. destruct (decide (getSource (ed d e) = n)); rewrite ?removeEdge_elem, Hs by auto; naive_solver.
  - intros x. rewrite E6. destruct (decide (getTarget (ed d e) = n)); rewrite ?removeEdge_elem, Hp by auto; naive_solver.
  - rewrite E5. destruct (decide (getSource (ed d e) = n)); auto using removeEdge_nodup.
  - rewrite E6. destruct (decide (getTarget (ed d e) = n)); auto using removeEdge_nodup.
Qed.

Lemma unlinked_refl d : (forall n, NoDup (succEdges (nd d n))) -> (forall n, NoDup (predEdges (nd d n))) ->
  unlinked (fun _ => False) d d.
Proof. intros Hs Hp. split; try done; naive_solver. Qed.

Lemma unlinked_ext gone gone' d d' : (forall e, gone e <-> gone' e) ->
  unlinked gone d d' -> unlinked gone' d d'.
Proof.
  intros HG []. split; try done; intros n e; rewrite <- HG; auto.
Qed.

Lemma unlinkPhony_unlinked d :
  (forall n, NoDup (succEdges (nd d n))) -> (forall n, NoDup (predEdges (nd d n))) ->
  unlinked (fun e => e ∈ _edges d /\ isPhony d e = true) d (unlinkPhony d).
Proof.
  intros Hs Hp. unfold unlinkPhony.
  assert (forall l gone d', unlinked gone d d' ->
    unlinked (fun e => gone e \/ (e ∈ l /\ isPhony d e = true)) d (foldl unlinkIfPhony d' l)) as H.
  { induction l as [|e l IH]; intros gone d' HU; simpl.
    - eapply unlinked_ext; [|exact HU]. intros e. rewrite elem_of_nil. tauto.
    - assert (getType (ed d' e) = getType (ed d e)) as Et by (unfold ed; by rewrite (ul_edgeStore _ _ _ HU)).
      destruct (isPhony d e) eqn:E.
      + assert (unlinkIfPhony d' e = unlinkEdge e d') as -> by
          (unfold unlinkIfPhony; rewrite decide_True; [done|]; rewrite Et; by apply phony_type_cases).
        eapply unlinked_ext; [|apply IH, unlinkEdge_unlinked, HU]. intros x. rewrite elem_of_cons. naive_solver.
      + assert (unlinkIfPhony d' e = d') as -> by
          (unfold unlinkIfPhony; rewrite decide_False; [done|]; rewrite Et; intros Hc%phony_type_cases;
           unfold isPhony in E; congruence).
        eapply unlinked_ext; [|apply IH, HU]. intros x. rewrite elem_of_cons.
        split; [tauto|]. intros [?|[[->|?] ?]]; [tauto|congruence|tauto]. }
  eapply unlinked_ext; [|apply H, (unlinked_refl d Hs Hp)]. intros e. simpl. tauto.
Qed.

End Unlink.

(** ** From LLVM's DAG to the insertion *)

(** What the constructor of the DAG and LLVM's path numbering hand over: a
    Ball-Larus DAG without marks, whose edges join created nodes, no edge
    instrumented, no PHI node, no counter array, at least one path. *)
Record Handed (d : BLInstrumentationDag) (er : EdgeId) (rank : NodeId -> nat) : Prop := {
  hd_dag : BallLarusDag d er rank;
  hd_unmarked : Unmarked d;
  hd_source e : e ∈ _edges d -> is_Some (nodeStore d !! getSource (ed d e));
  hd_target e : e ∈ _edges d -> is_Some (nodeStore d !! getTarget (ed d e));
  hd_done e : hasInstrumentation (ed d e) = false;
  hd_phi n : getPathPHI (nd d n) = None;
  hd_array : getCounterArray d = None;
  hd_paths : 0 < getNumberOfPaths d
}.

Section Handover.
Context `{LS : !LLVMSpec L} `{BS : !BallLarusOpsSpec B}.
Context (d0 : BLInstrumentationDag) (er : EdgeId) (rank : NodeId -> nat) (HH : Handed d0 er rank).

Lemma marked_exists : exists d1, markDag d0 = Some d1 /\ same_shape d0 d1 /\ unaffected d0 d1.
Proof.
  destruct (markDag_counted d0 er rank (hd_dag _ _ _ HH) (hd_unmarked _ _ _ HH)) as (d1 & E & HC).
  exists d1. split_and!; [done|apply HC|by apply markDag_unaffected].
Qed.

Lemma handover_unlinked d1 : same_shape d0 d1 ->
  unlinked (fun e => e ∈ _edges d1 /\ isPhony d1 e = true) d1 (unlinkPhony d1).
Proof.
  intros HS. pose proof (BallLarusDag_shape _ _ _ _ HS (hd_dag _ _ _ HH)) as HB.
  apply unlinkPhony_unlinked; apply HB.
Qed.

Lemma handover_exit d1 : same_shape d0 d1 -> getExitRootEdge (unlinkPhony d1) = Some er.
Proof.
  intros HS. pose proof (handover_unlinked d1 HS) as HU.
  pose proof (BallLarusDag_shape _ _ _ _ HS (hd_dag _ _ _ HH)) as HB.
  unfold getExitRootEdge. rewrite (ul_exit _ _ _ HU).
  assert (forall e, e ∈ succEdges (nd (unlinkPhony d1) (getExit d1)) <-> e = er) as Hs.
  { intros e. rewrite (ul_succ _ _ _ HU), (bl_exit_succ _ _ _ HB), list_elem_of_singleton.
    split; [tauto|]. intros ->. split; [done|]. intros [[_ Hp] _].
    unfold isPhony in Hp. by rewrite (bl_er_type _ _ _ HB) in Hp. }
  destruct (succEdges (nd (unlinkPhony d1) (getExit d1))) as [|e l].
  - exfalso. apply (not_elem_of_nil er), Hs. done.
  - simpl. f_equal. apply Hs. by left.
Qed.

Lemma handover_fresh d1 s : markDag d0 = Some d1 -> valid s -> Fresh (unlinkPhony d1) s er.
Proof.
  intros Hm Hv. destruct marked_exists as (d1' & Hm' & HS & HA). rewrite Hm in Hm'. injection Hm' as <-.
  pose proof (handover_unlinked d1 HS) as HU.
  pose proof (BallLarusDag_shape _ _ _ _ HS (hd_dag _ _ _ HH)) as HB.
  assert (forall e, ed (unlinkPhony d1) e = ed d1 e) as He by (intros e; unfold ed; by rewrite (ul_edgeStore _ _ _ HU)).
  assert (forall e, e ∈ _edges (unlinkPhony d1) <-> e ∈ _edges d0) as Hin
    by (intros e; by rewrite (ul_edges _ _ _ HU), (ss_edges _ _ HS)).
  split; [split|done|by apply handover_exit| | |].
  - intros n e. rewrite He, (ul_edges _ _ _ HU), (ul_succ _ _ _ HU). intros [H _]. by apply (bl_succ _ _ _ HB).
  - intros e. rewrite Hin, He, (se_source _ _ (ss_ed _ _ HS e)). intros H.
    by apply (ul_stored _ _ _ HU), (ua_stored _ _ HA), (hd_source _ _ _ HH).
  - intros e. rewrite Hin, He, (se_target _ _ (ss_ed _ _ HS e)). intros H.
    by apply (ul_stored _ _ _ HU), (ua_stored _ _ HA), (hd_target _ _ _ HH).
  - rewrite (ul_edges _ _ _ HU). apply (bl_edges_nodup _ _ _ HB).
  - apply Hin, (bl_er_edge _ _ _ (hd_dag _ _ _ HH)).
  - intros e. rewrite He, (ua_done _ _ HA). apply (hd_done _ _ _ HH).
  - intros n. destruct (ul_node _ _ _ HU n) as (_ & -> & _). destruct (ua_numbers _ _ HA n) as (-> & _).
    apply (hd_phi _ _ _ HH).
Qed.

Lemma handover_paths d1 : markDag d0 = Some d1 ->
  getNumberOfPaths (unlinkPhony d1) = getNumberOfPaths d0 /\ getCounterArray (unlinkPhony d1) = None.
Proof.
  intros Hm. destruct marked_exists as (d1' & Hm' & HS & HA). rewrite Hm in Hm'. injection Hm' as <-.
  pose proof (handover_unlinked d1 HS) as HU.
  rewrite (ul_paths _ _ _ HU), (ul_array _ _ _ HU), (ua_paths _ _ HA), (ua_array _ _ HA).
  split; [done|apply (hd_array _ _ _ HH)].
Qed.

(** With at least one path there is no counter array. *)
Lemma stores_nothing arr d1 : markDag d0 = Some d1 -> storeCounters arr (unlinkPhony d1) = unlinkPhony d1.
Proof using HH BS.
  intros Hm. destruct (handover_paths d1 Hm) as [Hp _]. pose proof (hd_paths _ _ _ HH) as H0.
  unfold storeCounters, HASH_THRESHHOLD. rewrite Hp. by rewrite decide_False by lia.
Qed.

(** A function whose DAG LLVM built as documented. *)
Lemma runOnFunction_handed buildDag code arr ft c F : buildDag F = d0 -> valid F ->
  match runOnFunction buildDag code arr ft c F with
  | Ok (ft', c', st) =>
      ft' = ft ++ [hashEntry code d0] /\ c' = countFunction d0 c /\ extends F (fn st) /\
      (warnings st = [] -> forall e, reached (dag st) er e -> hasInstrumentation (ed (dag st) e) = true)
  | Err x => x <> OutOfFuel
  end.
Proof.
  intros EF Hv. unfold runOnFunction. rewrite EF.
  destruct marked_exists as (d1 & Hm & _ & _). rewrite Hm. cbn [deref mbind result_bind].
  destruct (handover_paths d1 Hm) as [Hp Ha]. pose proof (hd_paths _ _ _ HH) as H0.
  rewrite (stores_nothing arr d1 Hm).
  pose proof (handover_fresh d1 F Hm Hv) as HF.
  pose proof (Fresh_advanced _ _ _ _ HF (le_n _)) as HA.
  destruct (insertInstrumentation _ _) as [st|x] eqn:E; [|exact HA]. cbn [mbind result_bind].
  destruct HA as [HA Hi]. destruct (ad_paths _ _ _ HA) as [Ep Ea]. simpl in Ep, Ea.
  rewrite Hp in Ep. rewrite Ha in Ea. split_and!.
  - unfold tableEntry, hashEntry. rewrite Ep, Ea. unfold HASH_THRESHHOLD. by rewrite decide_False by lia.
  - unfold countFunction. by rewrite Ep.
  - apply (ad_fn _ _ _ HA).
  - intros Hw e He. eapply reached_instrumented; try done.
Qed.

End Handover.

Lemma exampleLoop_handed : Handed exampleLoop 0%nat (rankOf exampleRank).
Proof.
  destruct (checkFresh_sound exampleLoop) as [H1 H2]; [by vm_compute|].
  assert (Linked exampleLoop) as HL by (apply checkLinked_sound; by vm_compute).
  split; [exact exampleLoop_dag|exact exampleLoop_unmarked|apply HL|apply HL|exact H1|exact H2|done|done].
Qed.

(** ** A module *)

(** Table and counters have no part in what becomes of the function. *)
Lemma runOnFunction_state `{L : LLVM} `{B : BallLarusOps} buildDag code arr ft c (F : Fn) :
  match runOnFunction buildDag code arr ft c F with
  | Ok (_, _, st) => forall ft c, runOnFunction buildDag code arr ft c F =
      Ok (ft ++ [tableEntry code (dag st)], countFunction (dag st) c, st)
  | Err x => forall ft c, runOnFunction buildDag code arr ft c F = Err x
  end.
Proof.
  unfold runOnFunction. destruct (deref _) as [d|x]; [|done]. cbn [mbind result_bind].
  by destruct (insertInstrumentation _ _).
Qed.

Section Module_.
Context `{LS : !LLVMSpec L} `{BS : !BallLarusOpsSpec B}.
Context (buildDag : Fn -> BLInstrumentationDag) (profilingCode : ProfilingType -> Z)
  (newCounterArray : Z -> GlobalId).

(** Every function with a body has a DAG as documented. *)
Definition ModuleOk (M : list ModuleFunction) : Prop :=
  Forall (fun F => forall s, F = Some s -> valid s /\ exists er rank, Handed (buildDag s) er rank) M.

(** The bodies of a module, in order. *)
Definition bodies (M : list ModuleFunction) : list Fn := omap id M.

(** [r] is what [runOnFunction] makes of [F], if it has a body: the code is kept,
    and unless a warning was printed every edge that can be reached has been
    instrumented. *)
Definition processed (F : ModuleFunction) (r : option PassState) : Prop :=
  match F, r with
  | None, None => True
  | Some s, Some st =>
      (forall ft c, runOnFunction buildDag profilingCode newCounterArray ft c s =
         Ok (ft ++ [hashEntry profilingCode (buildDag s)], countFunction (buildDag s) c, st)) /\
      extends s (fn st) /\
      (warnings st = [] -> exists er rank, Handed (buildDag s) er rank /\
         forall e, reached (dag st) er e -> hasInstrumentation (ed (dag st) e) = true)
  | _, _ => False
  end.

Lemma runOnFunction_processed s : valid s -> (exists er rank, Handed (buildDag s) er rank) ->
  (exists st, processed (Some s) (Some st)) \/
  exists x, x <> OutOfFuel /\ forall ft c, runOnFunction buildDag profilingCode newCounterArray ft c s = Err x.
Proof.
  intros Hv (er & rank & HH).
  pose proof (runOnFunction_state buildDag profilingCode newCounterArray [] (MkCounters 0 0) s) as HS.
  assert (forall ft c, _) as H by (intros ft c; exact (runOnFunction_handed (buildDag s) er rank HH buildDag
    profilingCode newCounterArray ft c s eq_refl Hv)).
  destruct (runOnFunction _ _ _ _ _ s) as [[[ft0 c0] st]|x].
  - left. exists st. split.
    + intros ft c. specialize (H ft c). rewrite HS in H. destruct H as (E1 & E2 & _). by rewrite HS, E1, E2.
    + specialize (H [] (MkCounters 0 0)). rewrite HS in H. destruct H as (_ & _ & HE & Hc).
      split; [done|]. intros Hw. exists er, rank. split; [done|auto].
  - right. exists x. split; [|exact HS]. specialize (H [] (MkCounters 0 0)). by rewrite HS in H.
Qed.

(** The functions of [M] after [m]. *)
Lemma runOnModule_loop M m : ModuleOk M ->
  match foldR (runOnModuleFunction buildDag profilingCode newCounterArray) m M with
  | Ok m' => exists rs, Forall2 processed M rs /\
      functions m' = functions m ++ map (fmap fn) rs /\
      moduleWarnings m' = moduleWarnings m ++ concat (map warnings (omap id rs)) /\
      ftInit m' = ftInit m ++ map (fun s => hashEntry profilingCode (buildDag s)) (bodies M) /\
      pathCounters m' = foldl (fun c s => countFunction (buildDag s) c) (pathCounters m) (bodies M) /\
      functionNumber m' = foldl (fun n _ => u32 (n + 1)) (functionNumber m) (bodies M)
  | Err x => x <> OutOfFuel /\ exists s, s ∈ bodies M /\
      forall ft c, runOnFunction buildDag profilingCode newCounterArray ft c s = Err x
  end.
Proof.
  intros HM. revert m. induction HM as [|F M HF HM IH]; intros m; cbn [foldR].
  { exists []. split_and!; try done; cbn; by rewrite app_nil_r. }
  destruct F as [s|]; cbn [runOnModuleFunction].
  - destruct (HF s eq_refl) as [Hv HH].
    destruct (runOnFunction_processed s Hv HH) as [[st HP]|(x & Hx & E)].
    2:{ rewrite E. split; [done|]. exists s. split; [by left|done]. }
    pose proof HP as [E _]. rewrite E. cbn [mbind result_bind].
    match goal with |- context [foldR ?f ?x M] =>
      specialize (IH x); destruct (foldR f x M) as [m'|e] end; simpl in IH.
    2:{ destruct IH as (Hx & s' & Hs' & E'). split; [done|]. exists s'. split; [by right|done]. }
    destruct IH as (rs & H1 & H2 & H3 & H4 & H5 & H6). exists (Some st :: rs).
    split; [by constructor|]. rewrite H2, H3, H4, <- !app_assoc. done.
  - cbn [mbind result_bind].
    match goal with |- context [foldR ?f ?x M] =>
      specialize (IH x); destruct (foldR f x M) as [m'|e] end; simpl in IH; [|exact IH].
    destruct IH as (rs & H1 & H2 & H3 & H4 & H5 & H6). exists (None :: rs).
    split; [by constructor|]. rewrite H2, H3, H4, <- !app_assoc. done.
Qed.

(** The counters over a list of functions. *)
Lemma countFunction_total l c :
  - 2 ^ 63 <= totalPaths c < 2 ^ 63 ->
  totalPaths (foldl (fun c (s : Fn) => countFunction (buildDag s) c) c l) =
    i64 (totalPaths c + Zsum (fun s => getNumberOfPaths (buildDag s)) l).
Proof.
  revert c. induction l as [|s l IH]; intros c Hc; simpl.
  { rewrite Zsum_nil, Z.add_0_r. by rewrite i64_small. }
  rewrite IH by (apply (wrapS_range 64); lia). simpl. rewrite Zsum_cons.
  apply i64_eqm64. by ring64.
Qed.

Lemma countFunction_max l c :
  maxPaths (foldl (fun c (s : Fn) => countFunction (buildDag s) c) c l) =
    foldl Z.max (maxPaths c) (map (fun s => i64 (getNumberOfPaths (buildDag s))) l).
Proof. revert c. induction l as [|s l IH]; intros c; simpl; [done|]. by rewrite IH. Qed.

Lemma u32_count (l : list Fn) : foldl (fun n _ => u32 (n + 1)) 0 l = u32 (Z.of_nat (length l)).
Proof.
  assert (forall n, foldl (fun n (_ : Fn) => u32 (n + 1)) (u32 n) l = u32 (n + Z.of_nat (length l))) as H.
  { induction l as [|s l IH]; intros n; simpl; [by rewrite Z.add_0_r|].
    replace (u32 (u32 n + 1)) with (u32 (n + 1)) by (unfold u32, wrapU; by rewrite Zplus_mod_idemp_l).
    rewrite IH. f_equal. lia. }
  apply (H 0).
Qed.

End Module_.

(** ** Properties of the pass *)

(** C16: [unlinkPhony] takes exactly the phony edges out of the successor and
    predecessor lists; it removes no edge from the DAG's edge vector, so the
    phony edges stay accessible from the cut edges they stand for, with their
    marks. *)
Theorem unlinkPhony_removes_phony_edges `{BS : !BallLarusOpsSpec B} d er rank :
  BallLarusDag d er rank ->
  edgeStore (unlinkPhony d) = edgeStore d /\ _edges (unlinkPhony d) = _edges d /\
  forall n e,
    (e ∈ succEdges (nd (unlinkPhony d) n) <->
       e ∈ succEdges (nd d n) /\ phony_type (getType (ed d e)) = false) /\
    (e ∈ predEdges (nd (unlinkPhony d) n) <->
       e ∈ predEdges (nd d n) /\ phony_type (getType (ed d e)) = false).
Proof.
  intros HB. assert (unlinked (fun e => e ∈ _edges d /\ isPhony d e = true) d (unlinkPhony d)) as HU
    by (apply unlinkPhony_unlinked; apply HB).
  split_and!; [apply HU|apply HU|]. intros n e.
  rewrite (ul_succ _ _ _ HU), (ul_pred _ _ _ HU), (bl_succ _ _ _ HB), (bl_pred _ _ _ HB).
  unfold isPhony. destruct (phony_type (getType (ed d e))); naive_solver.
Qed.

Lemma unlinkPhony_removes_phony_edges_witness :
  5%nat ∈ succEdges (nd (unlinkPhony exampleLoop) 3%nat) /\
  ~ 7%nat ∈ succEdges (nd (unlinkPhony exampleLoop) 3%nat).
Proof.
  destruct (unlinkPhony_removes_phony_edges exampleLoop 0%nat (rankOf exampleRank) exampleLoop_dag)
    as (_ & _ & H).
  split.
  - apply (H 3%nat 5%nat). split; [apply (bool_decide_unpack _); by vm_compute|reflexivity].
  - intros [_ Hp]%(proj1 (H 3%nat 7%nat)). vm_compute in Hp. discriminate Hp.
Defined.

(** C18: [runOnModule] replaces every body, in place, by what [runOnFunction]
    makes of it, whatever came before it in the module: the body's code is kept
    and, unless a warning was printed for it, all its reachable edges are
    instrumented.  Declarations stay.  The table has exactly one entry per
    body, in order, with the body's number of paths; the number of bodies is
    printed with the total (in 64 bits) and the maximum of their path counts,
    both carried over from earlier modules; the warnings are those of the
    bodies.  It fails only where [runOnFunction] fails on one of the bodies,
    and not for want of recursion depth. *)
Theorem runOnModule_spec `{LS : !LLVMSpec L} `{BS : !BallLarusOpsSpec B}
    buildDag code arr c (M : list ModuleFunction) :
  ModuleOk buildDag M -> - 2 ^ 63 <= totalPaths c < 2 ^ 63 ->
  match runOnModule buildDag code arr c M with
  | Ok m => exists rs, Forall2 (processed buildDag code arr) M rs /\
      functions m = map (fmap fn) rs /\ moduleWarnings m = concat (map warnings (omap id rs)) /\
      ftInit m = map (fun s => hashEntry code (buildDag s)) (bodies M) /\
      functionNumber m = u32 (Z.of_nat (length (bodies M))) /\
      totalPaths (pathCounters m) =
        i64 (totalPaths c + Zsum (fun s => getNumberOfPaths (buildDag s)) (bodies M)) /\
      maxPaths (pathCounters m) =
        foldl Z.max (maxPaths c) (map (fun s => i64 (getNumberOfPaths (buildDag s))) (bodies M))
  | Err x => x <> OutOfFuel /\ exists s, s ∈ bodies M /\
      forall ft c, runOnFunction buildDag code arr ft c s = Err x
  end.
Proof.
  intros HM Hc. pose proof (runOnModule_loop buildDag code arr M (MkModule [] [] c 0 []) HM) as H.
  unfold runOnModule. destruct (foldR _ _ M) as [m|x]; [|exact H].
  destruct H as (rs & H1 & H2 & H3 & H4 & H5 & H6). exists rs. split_and!; try done.
  - rewrite H6. apply u32_count.
  - rewrite H5. by apply countFunction_total.
  - rewrite H5. by apply countFunction_max.
Qed.

Lemma runOnModule_spec_witness :
  match runOnModule (L := ListLLVM) (fun _ => exampleLoop) (fun _ => 2) (fun _ => 0%nat)
          (MkCounters 0 0) [None; Some exampleFn; Some exampleFn] with
  | Ok m => exists rs, Forall2 (processed (LS := ListLLVM_spec) (fun _ => exampleLoop) (fun _ => 2) (fun _ => 0%nat))
        [None; Some (exampleFn : @Fn ListLLVM); Some exampleFn] rs /\
      functions m = map (fmap fn) rs /\
      ftInit m = [MkEntry (ConstantInt 2) (ConstantInt 8) None; MkEntry (ConstantInt 2) (ConstantInt 8) None] /\
      functionNumber m = 2 /\ totalPaths (pathCounters m) = 16 /\ maxPaths (pathCounters m) = 8
  | Err _ => False
  end.
Proof.
  assert (ModuleOk (LS := ListLLVM_spec) (fun _ => exampleLoop) [None; Some exampleFn; Some exampleFn]) as HM.
  { constructor; [intros s; discriminate|].
    do 2 (constructor; [intros s [= <-]; split; [exact exampleFn_valid|];
      exists 0%nat, (rankOf exampleRank); exact exampleLoop_handed|]). constructor. }
  pose proof (runOnModule_spec (L := ListLLVM) (fun _ => exampleLoop) (fun _ => 2) (fun _ => 0%nat)
    (MkCounters 0 0) [None; Some exampleFn; Some exampleFn] HM ltac:(by split)) as H.
  assert (isOk (runOnModule (L := ListLLVM) (fun _ => exampleLoop) (fun _ => 2) (fun _ => 0%nat)
    (MkCounters 0 0) [None; Some exampleFn; Some exampleFn]) = true) as Hok by (vm_compute; reflexivity).
  destruct (runOnModule _ _ _ _ _) as [m|x]; [|discriminate Hok].
  destruct H as (rs & H1 & H2 & _ & H3 & H4 & H5 & H6). exists rs. split; [exact H1|]. split; [exact H2|].
  split; [exact H3|]. split; [exact H4|]. split; [exact H5|exact H6].
Defined.
