(* ===== verification/Labels.v ===== *)
(** * The marks are consistent

    From what LLVM hands over ([Handed], [Mirrors]) to what the insertion
    starts from ([Prepared]): in the DAG the marking phases leave, it depends
    on the node only whether a path number is under way, because every DAG
    path is initialised once and reported once. *)

From stdpp Require Import base numbers list gmap fin_sets.
From S2P Require Import Prelude Dag BallLarus Push Marking MarkFrame IR Instrument.
From S2P Require Import Execution Emitted Insertion Placement Emission Emit SplitStep Flow.
From S2P Require Import Simulation Pipeline.

Local Open Scope Z_scope.

(** ** Stages of a path *)

(** Before the initialisation, between it and the report, after the report. *)
Inductive stage : Set := Idle | Running | Done.

#[export] Instance stage_eq_dec : EqDecision stage.
Proof. solve_decision. Defined.

(** What an edge does to the stage; [None]: its marks do not fit. *)
Definition stageStep (x : BLInstrumentationEdge) (s : stage) : option stage :=
  match s with
  | Idle =>
      if isInitialization x then Some (if isCounterIncrement x then Done else Running)
      else if isCounterIncrement x then None
      else if decide (getIncrement x = 0) then Some Idle else None
  | Running =>
      if isInitialization x then None else Some (if isCounterIncrement x then Done else Running)
  | Done =>
      if isInitialization x || isCounterIncrement x then None
      else if decide (getIncrement x = 0) then Some Done else None
  end.

Definition stages (d : BLInstrumentationDag) (s : stage) (p : list EdgeId) : option stage :=
  foldM (fun s e => stageStep (ed d e) s) s p.

(** The stage before an edge follows from the stage after it. *)
Lemma stageStep_inj x s s' t : stageStep x s = Some t -> stageStep x s' = Some t -> s = s'.
Proof.
  destruct s, s'; simpl; try done; destruct (isInitialization x), (isCounterIncrement x);
    simpl; repeat case_decide; congruence.
Qed.

Lemma stages_cons d s e p : stages d s (e :: p) = stageStep (ed d e) s ≫= fun s => stages d s p.
Proof. done. Qed.

Lemma stages_app d s p q : stages d s (p ++ q) = stages d s p ≫= fun s => stages d s q.
Proof. apply foldM_app. Qed.

Lemma stages_inj d p s s' t : stages d s p = Some t -> stages d s' p = Some t -> s = s'.
Proof.
  revert s s'. induction p as [|e p IH]; intros s s'; [unfold stages; simpl; congruence|].
  rewrite !stages_cons. destruct (stageStep (ed d e) s) as [u|] eqn:E; [|done].
  destruct (stageStep (ed d e) s') as [u'|] eqn:E'; [|done]. intros H H'.
  rewrite (IH _ _ H H') in E. by eapply stageStep_inj.
Qed.

(** Runs of edges of one kind. *)
Lemma stages_idle d p : (forall g, g ∈ p -> getIncrement (ed d g) = 0 /\ isInitialization (ed d g) = false /\
    isCounterIncrement (ed d g) = false) ->
  stages d Idle p = Some Idle /\ stages d Done p = Some Done.
Proof.
  induction p as [|e p IH]; intros H; [done|]. rewrite !stages_cons. unfold stageStep.
  destruct (H e) as (-> & -> & ->); [by left|]. simpl. apply IH. intros g Hg. apply H. by right.
Qed.

Lemma stages_running d p : (forall g, g ∈ p -> isInitialization (ed d g) = false /\
    isCounterIncrement (ed d g) = false) -> stages d Running p = Some Running.
Proof.
  induction p as [|e p IH]; intros H; [done|]. rewrite stages_cons. unfold stageStep.
  destruct (H e) as (-> & ->); [by left|]. simpl. apply IH. intros g Hg. apply H. by right.
Qed.

(** Every path of the DAG goes through all stages. *)
Lemma counted_stages d0 er d p : Counted d0 er d -> dag_path d0 er (getRoot d0) p (getExit d0) ->
  stages d Idle p = Some Done.
Proof.
  intros HC Hp. destruct (ct_path _ _ _ HC p Hp)
    as (A & h & B & l1 & f & l2 & -> & HA & Hh & HBl & E & H1 & Hf & H2 & _).
  assert (stages d Idle (A ++ [h]) = Some Done) as Hd.
  { destruct l2 as [|x m _] using rev_ind.
    - apply app_inj_tail in E as [-> <-]. rewrite stages_app.
      destruct (stages_idle d l1) as [-> _]; [intros g Hg; destruct (H1 g Hg); auto|].
      unfold stages. simpl. by rewrite Hf, Hh.
    - rewrite app_comm_cons, app_assoc in E. apply app_inj_tail in E as [-> <-].
      rewrite !stages_app. destruct (stages_idle d l1) as [-> _].
      { intros g Hg. destruct (H1 g Hg). split_and!; [done|done|apply HA; set_solver]. }
      cbn [mbind option_bind]. rewrite stages_cons. unfold stageStep. rewrite Hf, (HA f) by set_solver.
      cbn [mbind option_bind]. rewrite stages_running; [|intros g Hg; split; [apply H2|apply HA]; set_solver].
      unfold stages. simpl. by rewrite (H2 h), Hh by set_solver. }
  rewrite cons_middle, app_assoc, stages_app, Hd. by apply (stages_idle d B).
Qed.

(** ** The DAG and the function *)

(** What LLVM hands over beyond [Handed]: without its phony edges the DAG
    mirrors the control-flow graph of a function without inserted code; nodes
    are as constructed; backedges close cycles; LLVM gives cut edges no weight,
    makes phony edges for cut edges only, and starts its search at the entry. *)
Record Mirrors `{LS : !LLVMSpec L} `{B : BallLarusOps} (d : BLInstrumentationDag) (er : EdgeId) (F : Fn)
    : Prop := {
  mr_layout : Layout (unlinkPhony d) F;
  mr_code b : code F b = [];
  mr_blank n : blank (nd d n);
  mr_back : BackEdgesClose d er;
  mr_weight e : e ∈ _edges d -> cut_type (getType (ed d e)) = true -> getWeight (ed d e) = 0;
  mr_phony x : x ∈ _edges d -> phony_type (getType (ed d x)) = true ->
    exists c, c ∈ _edges d /\ cut_type (getType (ed d c)) = true /\
      (getPhonyRoot (ed d c) = Some x \/ getPhonyExit (ed d c) = Some x);
  mr_calls x : x ∈ _edges d -> getType (ed d x) <> CALLEDGE_PHONY;
  mr_entry e : e ∈ _edges d -> predEdges (nd d (getSource (ed d e))) <> [];
  mr_root : is_Some (getBlock (nd d (getRoot d)))
}.

Section Layouts.
Context `{LS : !LLVMSpec L}.

(** A layout does not depend on the order of edge lists nor on marks. *)
Lemma Layout_perm d d' s : Linked d' -> getExit d' = getExit d ->
  (forall n, getBlock (nd d' n) = getBlock (nd d n)) ->
  (forall n, succEdges (nd d' n) ≡ₚ succEdges (nd d n)) ->
  (forall n, predEdges (nd d' n) ≡ₚ predEdges (nd d n)) ->
  (forall e, getSource (ed d' e) = getSource (ed d e) /\ getTarget (ed d' e) = getTarget (ed d e)) ->
  is_Some (nodeStore d' !! getExit d) -> Layout d s -> Layout d' s.
Proof.
  intros HLk Hx Hb Hs Hp He Hst H.
  assert (forall e, getSource (ed d' e) = getSource (ed d e)) as Hes by apply He.
  assert (forall e, getTarget (ed d' e) = getTarget (ed d e)) as Het by apply He. clear He.
  assert (forall e, linked d' e <-> linked d e) as Hl by (intros e; unfold linked; by rewrite Hes, Hs).
  split; rewrite ?Hx.
  - done.
  - apply H.
  - intros n e. rewrite Hp, Hl, Het. apply H.
  - intros n. rewrite Hs. apply H.
  - intros n. rewrite Hp. apply H.
  - intros n m b. rewrite !Hb. apply H.
  - intros n b. rewrite Hb. intros Hn. rewrite (ly_cfg _ _ H n b Hn), Hs.
    apply Permutation_refl'. apply omap_ext_in. intros e _. by rewrite Het, Hb.
  - intros n b. rewrite Hb. apply H.
  - intros n b. rewrite Hb. intros Hn E. apply (ly_out _ _ H n b Hn). apply Permutation_nil_r.
    by rewrite <- Hs, E.
  - split; [rewrite Hb; apply H|done].
  - intros e. rewrite Hl, Het, Hb. unfold atSource, getNumberSuccEdges.
    rewrite Hes, Hb, (Permutation_length (Hs _)). apply H.
Qed.

End Layouts.

Section Consistent.
Context `{LS : !LLVMSpec L} `{LF : !LLVMFlow L} `{BS : !BallLarusOpsSpec B}.
Context (d0 : BLInstrumentationDag) (er : EdgeId) (rank : NodeId -> nat) (F : Fn).
Context (HH : Handed d0 er rank) (HM : Mirrors d0 er F).

Lemma unlinked_succ d1 n e : same_shape d0 d1 ->
  e ∈ succEdges (nd (unlinkPhony d1) n) <->
  e ∈ _edges d0 /\ getSource (ed d0 e) = n /\ phony_type (getType (ed d0 e)) = false.
Proof using HH BS.
  intros HS. pose proof (BallLarusDag_shape _ _ _ _ HS (hd_dag _ _ _ HH)) as HB.
  rewrite (ul_succ _ _ _ (handover_unlinked d0 er rank HH d1 HS)), (bl_succ _ _ _ HB), (ss_edges _ _ HS).
  unfold isPhony. destruct (ss_ed _ _ HS e) as [-> _ -> _ _ _].
  destruct (phony_type (getType (ed d0 e))); naive_solver.
Qed.

Lemma unlinked_pred d1 n e : same_shape d0 d1 ->
  e ∈ predEdges (nd (unlinkPhony d1) n) <->
  e ∈ _edges d0 /\ getTarget (ed d0 e) = n /\ phony_type (getType (ed d0 e)) = false.
Proof using HH BS.
  intros HS. pose proof (BallLarusDag_shape _ _ _ _ HS (hd_dag _ _ _ HH)) as HB.
  rewrite (ul_pred _ _ _ (handover_unlinked d0 er rank HH d1 HS)), (bl_pred _ _ _ HB), (ss_edges _ _ HS).
  unfold isPhony. destruct (ss_ed _ _ HS e) as [_ -> -> _ _ _].
  destruct (phony_type (getType (ed d0 e))); naive_solver.
Qed.

Lemma unlinked_ed d1 e : same_shape d0 d1 -> ed (unlinkPhony d1) e = ed d1 e.
Proof using HH BS.
  intros HS. unfold ed. by rewrite (ul_edgeStore _ _ _ (handover_unlinked d0 er rank HH d1 HS)).
Qed.

Lemma unlinked_linked d1 e : same_shape d0 d1 ->
  linked (unlinkPhony d1) e <-> e ∈ _edges d0 /\ phony_type (getType (ed d0 e)) = false.
Proof using HH BS.
  intros HS. unfold linked. rewrite unlinked_ed, unlinked_succ by done.
  rewrite (se_source _ _ (ss_ed _ _ HS e)). tauto.
Qed.

Lemma unlinked_block d1 n : same_shape d0 d1 -> getBlock (nd (unlinkPhony d1) n) = getBlock (nd d0 n).
Proof using HH BS.
  intros HS. destruct (ul_node _ _ _ (handover_unlinked d0 er rank HH d1 HS) n) as [-> _].
  apply (sn_block _ _ (ss_nd _ _ HS n)).
Qed.

Lemma marked_layout d1 : markDag d0 = Some d1 -> same_shape d0 d1 -> Layout (unlinkPhony d1) F.
Proof using HH HM BS.
  intros Hm HS. pose proof (mr_layout _ _ _ HM) as HL.
  pose proof (handover_fresh d0 er rank HH d1 F Hm (ly_valid _ _ HL)) as HF.
  assert (same_shape d0 d0) as S0 by done.
  pose proof (handover_unlinked d0 er rank HH d1 HS) as H1. pose proof (handover_unlinked d0 er rank HH d0 S0) as H0.
  apply (Layout_perm (unlinkPhony d0)); [apply HF| | | | | | |done].
  - by rewrite (ul_exit _ _ _ H1), (ul_exit _ _ _ H0), (ss_exit _ _ HS).
  - intros n. by rewrite !unlinked_block.
  - intros n. apply NoDup_Permutation; [apply H1|apply H0|]. intros e. by rewrite !unlinked_succ.
  - intros n. apply NoDup_Permutation; [apply H1|apply H0|]. intros e. by rewrite !unlinked_pred.
  - intros e. rewrite !unlinked_ed by done. destruct (ss_ed _ _ HS e) as [-> -> _ _ _ _]. done.
  - rewrite (ul_exit _ _ _ H0). apply (ul_stored _ _ _ H1).
    pose proof (hd_dag _ _ _ HH) as HB. rewrite <- (bl_er_source _ _ _ HB).
    destruct (marked_exists d0 er rank HH) as (d1' & Hm' & _ & HA). rewrite Hm in Hm'. injection Hm' as <-.
    apply (ua_stored _ _ HA), (hd_source _ _ _ HH), HB.
Qed.

(** *** Every node is on a path *)

Lemma er_not_cut e : e ∈ _edges d0 -> cut_type (getType (ed d0 e)) = true -> e <> er.
Proof using HH. intros _ Hc ->. by rewrite (bl_er_type _ _ _ (hd_dag _ _ _ HH)) in Hc. Qed.

Lemma phony_not_er e : phony_type (getType (ed d0 e)) = true -> e <> er /\ cut_type (getType (ed d0 e)) = false.
Proof using HH.
  intros Hp. split; [|by destruct (getType (ed d0 e))].
  intros ->. by rewrite (bl_er_type _ _ _ (hd_dag _ _ _ HH)) in Hp.
Qed.

Lemma exit_bare : getBlock (nd d0 (getExit d0)) = None.
Proof using HH HM BS.
  pose proof (ly_exit _ _ (mr_layout _ _ _ HM)) as [H _].
  by rewrite (ul_exit _ _ _ (handover_unlinked d0 er rank HH d0 ltac:(done))), unlinked_block in H.
Qed.

Lemma target_block_exit e : e ∈ _edges d0 ->
  getBlock (nd d0 (getTarget (ed d0 e))) <> None \/ getTarget (ed d0 e) = getExit d0.
Proof using HH HM BS.
  assert (forall e, e ∈ _edges d0 -> phony_type (getType (ed d0 e)) = false ->
    getBlock (nd d0 (getTarget (ed d0 e))) <> None \/ getTarget (ed d0 e) = getExit d0) as Hreal.
  { intros x Hx Hp. destruct (getBlock (nd d0 (getTarget (ed d0 x)))) eqn:E; [by left|right].
    destruct (ly_target _ _ (mr_layout _ _ _ HM) x) as [Ht _].
    - by apply unlinked_linked.
    - by rewrite unlinked_ed, unlinked_block.
    - by rewrite unlinked_ed, (ul_exit _ _ _ (handover_unlinked d0 er rank HH d0 ltac:(done))) in Ht. }
  intros He. destruct (phony_type (getType (ed d0 e))) eqn:Hp; [|by apply Hreal].
  destruct (mr_phony _ _ _ HM e He Hp) as (c & Hc & Hcc & Hce).
  destruct (bl_cut _ _ _ (hd_dag _ _ _ HH) c Hc Hcc) as (t & b & Et & Eb & _ & _ & _ & Tt & _ & _ & _ & Tb).
  destruct Hce as [Hce|Hce].
  - assert (t = e) as -> by congruence. rewrite Tt. apply Hreal; [done|]. by destruct (getType (ed d0 c)).
  - assert (b = e) as -> by congruence. by right.
Qed.

Lemma source_block e : e ∈ _edges d0 -> e <> er -> getBlock (nd d0 (getSource (ed d0 e))) <> None.
Proof using HH HM BS.
  intros He Hne. pose proof (mr_entry _ _ _ HM e He) as Hp. pose proof (hd_dag _ _ _ HH) as HB.
  destruct (predEdges (nd d0 (getSource (ed d0 e)))) as [|k l] eqn:E; [done|].
  assert (k ∈ predEdges (nd d0 (getSource (ed d0 e)))) as Hk by (rewrite E; by left).
  apply (bl_pred _ _ _ HB) in Hk as [Hk Ht]. destruct (target_block_exit k Hk) as [|Hx]; [by rewrite <- Ht|].
  destruct Hne. apply (exit_edge _ _ _ HB); congruence.
Qed.

Lemma from_root e : e ∈ _edges d0 -> e <> er -> exists p, dag_path d0 er (getRoot d0) p (getSource (ed d0 e)).
Proof using HH HM.
  pose proof (hd_dag _ _ _ HH) as HB.
  remember (length (_nodes d0) - rank (getSource (ed d0 e)))%nat as k eqn:Ek. revert e Ek.
  induction (lt_wf k) as [k _ IH]. intros e -> He Hne.
  destruct (predEdges (nd d0 (getSource (ed d0 e)))) as [|x l] eqn:E; [by apply (mr_entry _ _ _ HM) in E|].
  assert (x ∈ predEdges (nd d0 (getSource (ed d0 e)))) as Hx by (rewrite E; by left).
  apply (bl_pred _ _ _ HB) in Hx as [Hx Ht]. clear E.
  destruct (decide (x = er)) as [->|Hxe].
  { exists []. rewrite <- Ht, (bl_er_target _ _ _ HB). constructor. }
  destruct (cut_type (getType (ed d0 x))) eqn:Hc.
  - destruct (bl_cut _ _ _ HB x Hx Hc) as (t & b & _ & _ & Hti & Pt & St & Tt & _).
    destruct (phony_not_er t Pt) as [Hte Htc]. exists [t]. rewrite <- Ht, <- Tt, <- St. repeat constructor; done.
  - pose proof (bl_rank _ _ _ HB x Hx Hxe Hc) as Hr. rewrite Ht in Hr.
    pose proof (bl_rank_bound _ _ _ HB (getSource (ed d0 x))).
    destruct (IH (length (_nodes d0) - rank (getSource (ed d0 x)))%nat ltac:(lia) x eq_refl Hx Hxe) as [p Hp].
    exists (p ++ [x]). eapply dag_path_app; [exact Hp|]. rewrite <- Ht. by repeat constructor.
Qed.

Lemma to_exit e : e ∈ _edges d0 -> exists q, dag_path d0 er (getTarget (ed d0 e)) q (getExit d0).
Proof using HH HM BS.
  pose proof (hd_dag _ _ _ HH) as HB.
  remember (rank (getTarget (ed d0 e))) as k eqn:Ek. revert e Ek.
  induction (lt_wf k) as [k _ IH]. intros e -> He.
  destruct (target_block_exit e He) as [Hb| ->]; [|exists []; constructor].
  destruct (getBlock (nd d0 (getTarget (ed d0 e)))) as [b|] eqn:E; [clear Hb|done].
  pose proof (ly_out _ _ (mr_layout _ _ _ HM) (getTarget (ed d0 e)) b) as Ho. rewrite unlinked_block in Ho by done.
  specialize (Ho E). destruct (succEdges _) as [|x l] eqn:Es; [done|].
  assert (x ∈ succEdges (nd (unlinkPhony d0) (getTarget (ed d0 e)))) as Hx by (rewrite Es; by left).
  apply unlinked_succ in Hx as (Hx & Hs & Hp); [|done]. clear Es Ho.
  assert (x <> er) as Hxe.
  { intros ->. rewrite <- Hs, (bl_er_source _ _ _ HB), exit_bare in E. done. }
  destruct (cut_type (getType (ed d0 x))) eqn:Hc.
  - destruct (bl_cut _ _ _ HB x Hx Hc) as (t & c & _ & _ & _ & _ & _ & _ & Hci & Pc & Sc & Tc).
    destruct (phony_not_er c Pc) as [Hce Hcc]. exists [c]. rewrite <- Hs, <- Sc, <- Tc. repeat constructor; done.
  - pose proof (bl_rank _ _ _ HB x Hx Hxe Hc) as Hr. rewrite Hs in Hr.
    destruct (IH _ Hr x eq_refl Hx) as [q Hq]. exists (x :: q). rewrite <- Hs. by constructor.
Qed.

(** *** The stage at a node *)

Lemma pathsTo_sound d fuel x y p : (forall n e, e ∈ succEdges (nd d n) -> e ∈ _edges d /\ getSource (ed d e) = n) ->
  p ∈ pathsTo d er fuel x y -> dag_path d er x p y.
Proof using.
  intros HS. revert x p. induction fuel as [|fuel IH]; intros x p; cbn [pathsTo]; rewrite elem_of_app.
  all: intros [Hp|Hp]; [case_decide; [|by apply not_elem_of_nil in Hp];
                        apply list_elem_of_singleton in Hp as ->; subst; constructor|].
  - by apply not_elem_of_nil in Hp.
  - apply list_elem_of_bind in Hp as (e & Hp & He). apply list_elem_of_fmap in Hp as (q & -> & Hq).
    apply list_elem_of_filter in He as [[Hne Hc] He]. apply HS in He as [He Hs].
    constructor; try done. by apply IH.
Qed.

Context (d1 : BLInstrumentationDag) (HC : Counted d0 er d1).

Definition nodeStage (n : NodeId) : option stage :=
  p ← head (pathsTo d0 er (length (_nodes d0)) (getRoot d0) n); stages d1 Idle p.

(** Whichever way a path comes and goes on. *)
Lemma nodeStage_path n p q : dag_path d0 er (getRoot d0) p n -> dag_path d0 er n q (getExit d0) ->
  exists s, nodeStage n = Some s /\ stages d1 Idle p = Some s /\ stages d1 s q = Some Done.
Proof using HH HC.
  intros Hp Hq. pose proof (hd_dag _ _ _ HH) as HB.
  assert (forall p, dag_path d0 er (getRoot d0) p n ->
    exists s, stages d1 Idle p = Some s /\ stages d1 s q = Some Done) as Hst.
  { intros p' Hp'. pose proof (counted_stages _ _ _ _ HC (dag_path_app _ _ _ _ _ _ _ Hp' Hq)) as H.
    rewrite stages_app in H. destruct (stages d1 Idle p') as [s|]; [by exists s|done]. }
  destruct (Hst p Hp) as (s & Es & Ed). exists s. split_and!; try done.
  assert (p ∈ pathsTo d0 er (length (_nodes d0)) (getRoot d0) n) as Hin.
  { eapply pathsTo_complete; [done|done|]. etransitivity; [by eapply dag_path_length|apply (bl_rank_bound _ _ _ HB)]. }
  unfold nodeStage. destruct (pathsTo _ _ _ _ _) as [|p' l] eqn:E; [by apply not_elem_of_nil in Hin|].
  assert (dag_path d0 er (getRoot d0) p' n) as Hp'.
  { apply (pathsTo_sound d0 (length (_nodes d0))); [intros; by apply (bl_succ _ _ _ HB)|]. rewrite E. by left. }
  destruct (Hst p' Hp') as (s' & Es' & Ed'). simpl. rewrite Es'. f_equal. by eapply stages_inj.
Qed.

(** The label of a node; nothing is under way at the exit. *)
Definition label (n : NodeId) : bool :=
  bool_decide (getBlock (nd d0 n) <> None) && bool_decide (nodeStage n = Some Running).

Lemma label_stage n s : getBlock (nd d0 n) <> None -> nodeStage n = Some s -> label n = bool_decide (s = Running).
Proof using.
  intros Hb Hs. unfold label. rewrite bool_decide_true, Hs by done. simpl. apply bool_decide_ext. naive_solver.
Qed.

(** An edge of the DAG steps from the stage of its source to that of its target. *)
Lemma edge_stages e : e ∈ _edges d0 -> e <> er -> cut_type (getType (ed d0 e)) = false ->
  exists s s', nodeStage (getSource (ed d0 e)) = Some s /\ nodeStage (getTarget (ed d0 e)) = Some s' /\
    stageStep (ed d1 e) s = Some s'.
Proof using HH HM HC BS.
  intros He Hne Hc. destruct (from_root e He Hne) as [p Hp]. destruct (to_exit e He) as [q Hq].
  assert (dag_path d0 er (getSource (ed d0 e)) [e] (getTarget (ed d0 e))) as H1 by (by repeat constructor).
  destruct (nodeStage_path (getSource (ed d0 e)) p (e :: q) Hp) as (s & E1 & E2 & _); [by constructor|].
  destruct (nodeStage_path (getTarget (ed d0 e)) (p ++ [e]) q) as (s' & E3 & E4 & _); [by eapply dag_path_app|done|].
  exists s, s'. split_and!; try done. rewrite stages_app, E2 in E4. cbn [mbind option_bind] in E4.
  rewrite stages_cons in E4. destruct (stageStep (ed d1 e) s); [|done]. exact E4.
Qed.

Lemma root_stage : nodeStage (getRoot d0) = Some Idle.
Proof using HH HM HC BS.
  pose proof (hd_dag _ _ _ HH) as HB. destruct (to_exit er (bl_er_edge _ _ _ HB)) as [q Hq].
  rewrite (bl_er_target _ _ _ HB) in Hq. destruct (nodeStage_path _ [] q (dag_path_nil _ _ _) Hq) as (s & E & [= <-] & _).
  done.
Qed.

(** *** The labels are consistent *)

Context (HS : same_shape d0 d1) (HK : Cleared d0 er d1).

(** What a step says of the marks. *)
Lemma step_after e s s' : cut_type (getType (ed d1 e)) = false -> stageStep (ed d1 e) s = Some s' ->
  after d1 e (bool_decide (s = Running)) = bool_decide (s' = Running) /\
  (isInitialization (ed d1 e) = false -> getIncrement (ed d1 e) <> 0 -> s = Running) /\
  (isCounterIncrement (ed d1 e) = true -> isInitialization (ed d1 e) = true \/ s = Running).
Proof using.
  intros Hc. unfold after. rewrite Hc. unfold stageStep.
  destruct s, (isInitialization (ed d1 e)), (isCounterIncrement (ed d1 e)); simpl; try case_decide;
    intros [= <-]; rewrite ?bool_decide_true, ?bool_decide_false by done; split_and!; auto; done.
Qed.

(** A cut edge: its phony edges carry the marks. *)
Lemma cut_marks e : e ∈ _edges d0 -> cut_type (getType (ed d0 e)) = true ->
  CutMarks d1 e /\ (getBlock (nd d0 (getTarget (ed d0 e))) <> None -> forall b, label (getTarget (ed d0 e)) = after d1 e b).
Proof using HH HM HC HS HK BS.
  intros He Hc. pose proof (hd_dag _ _ _ HH) as HB.
  destruct (cl_cut _ _ _ HK e He Hc (mr_weight _ _ _ HM e He Hc)) as (C1 & C2 & C3).
  destruct (bl_cut _ _ _ HB e He Hc) as (t & b & Et & Eb & Hti & Pt & St & Tt & Hbi & Pb & Sb & Tb).
  destruct (phony_not_er t Pt) as [Hte Htc], (phony_not_er b Pb) as [Hbe Hbc].
  pose proof (ct_top _ _ _ HC t Hti Htc St) as Htop. rewrite Tt in Htop. specialize (Htop (cut_target_preds _ _ _ HB e He Hc)).
  pose proof (ct_bottom _ _ _ HC b Hbi Hbc Tb) as Hbot. rewrite Sb in Hbot.
  specialize (Hbot (cut_source_succs _ _ _ HB e He Hc)).
  destruct (ss_ed _ _ HS e) as [_ _ Ety _ Er Ex]. split.
  - split_and!; [done|done|done|]. exists t, b. rewrite Er, Ex, (ss_edges _ _ HS). done.
  - intros Hb r. unfold after. rewrite Ety, Hc, Er, Et.
    destruct (edge_stages t Hti Hte Htc) as (s & s' & E1 & E2 & E3). rewrite St, root_stage in E1. injection E1 as <-.
    rewrite Tt in E2. rewrite (label_stage _ _ Hb E2). unfold stageStep in E3. rewrite Htop in E3.
    injection E3 as <-. destruct (isCounterIncrement (ed d1 t)); [by rewrite bool_decide_false|by rewrite bool_decide_true].
Qed.

(** An edge of the DAG. *)
Lemma plain_edge e : e ∈ _edges d0 -> e <> er -> cut_type (getType (ed d0 e)) = false ->
  exists s, label (getSource (ed d0 e)) = bool_decide (s = Running) /\
    (getBlock (nd d0 (getTarget (ed d0 e))) <> None ->
       label (getTarget (ed d0 e)) = after d1 e (label (getSource (ed d0 e)))) /\
    (isInitialization (ed d1 e) = false -> getIncrement (ed d1 e) <> 0 -> s = Running) /\
    (isCounterIncrement (ed d1 e) = true -> isInitialization (ed d1 e) = true \/ s = Running).
Proof using HH HM HC HS BS.
  intros He Hne Hc. destruct (edge_stages e He Hne Hc) as (s & s' & E1 & E2 & E3).
  rewrite <- (se_type _ _ (ss_ed _ _ HS e)) in Hc. destruct (step_after e s s' Hc E3) as (A1 & A2 & A3).
  pose proof (label_stage _ _ (source_block e He Hne) E1) as Hl. exists s. split_and!; try done.
  intros Hb. by rewrite Hl, A1, (label_stage _ _ Hb E2).
Qed.

(** An initialisation rests where several real edges meet. *)
Lemma init_joins e : e ∈ _edges d0 -> phony_type (getType (ed d0 e)) = false -> cut_type (getType (ed d0 e)) = false ->
  isInitialization (ed d1 e) = true -> getBlock (nd d0 (getTarget (ed d0 e))) <> None ->
  (2 <= getNumberPredEdges (nd (unlinkPhony d1) (getTarget (ed d0 e))))%nat.
Proof using HH HM HS HK BS.
  intros He Hp Hc Hi Hb. pose proof (hd_dag _ _ _ HH) as HB. pose proof (cl_init _ _ _ HK e Hi) as Hst.
  unfold stopsInit in Hst. apply orb_true_iff in Hst as [Hst|Hst]; apply bool_decide_eq_true in Hst;
    [|rewrite Hst, exit_bare in Hb; done].
  unfold getNumberPredEdges in *.
  assert (exists x, x ∈ predEdges (nd d0 (getTarget (ed d0 e))) /\ x <> e) as (x & Hx & Hxe).
  { pose proof (bl_pred_nodup _ _ _ HB (getTarget (ed d0 e))) as Hd.
    destruct (predEdges (nd d0 (getTarget (ed d0 e)))) as [|a [|b l]]; simpl in Hst; [lia|lia|].
    destruct (decide (a = e)) as [->|]; [exists b|exists a]; split; try done; [right; by left| |by left].
    intros ->. apply NoDup_cons in Hd as [Hd _]. apply Hd. by left. }
  apply (bl_pred _ _ _ HB) in Hx as [Hx Ht].
  assert (forall k, k ∈ _edges d0 -> getTarget (ed d0 k) = getTarget (ed d0 e) -> phony_type (getType (ed d0 k)) = false ->
    k <> e -> (2 <= length (predEdges (nd (unlinkPhony d1) (getTarget (ed d0 e)))))%nat) as Htwo.
  { intros k Hk Hkt Hkp Hke. apply (two_members_length _ k e); [| |done]; by apply unlinked_pred. }
  destruct (phony_type (getType (ed d0 x))) eqn:Hxp; [|by apply (Htwo x)].
  destruct (mr_phony _ _ _ HM x Hx Hxp) as (c & Hci & Hcc & Hcx).
  destruct (bl_cut _ _ _ HB c Hci Hcc) as (t & b & Et & Eb & _ & _ & _ & Tt & _ & _ & _ & Tb).
  destruct Hcx as [Hcx|Hcx].
  - assert (t = x) as -> by congruence. apply (Htwo c); [done|congruence|by destruct (getType (ed d0 c))|congruence].
  - assert (b = x) as -> by congruence. rewrite <- Ht, Tb, exit_bare in Hb. done.
Qed.

Lemma marked_labels : Labelled (unlinkPhony d1) label.
Proof using HH HM HC HS HK BS.
  pose proof (hd_dag _ _ _ HH) as HB. destruct (cl_er _ _ _ HK) as (R1 & R2 & R3).
  assert (forall e, ed (unlinkPhony d1) e = ed d1 e) as Hed by (intros e; by apply unlinked_ed).
  assert (forall e a, after (unlinkPhony d1) e a = after d1 e a) as Haf.
  { intros e a. unfold after. rewrite Hed. destruct (cut_type _); [|done].
    destruct (getPhonyRoot _) as [t|]; [|done]. by rewrite Hed. }
  assert (forall e, getSource (ed d1 e) = getSource (ed d0 e)) as Es by (intros e; apply (ss_ed _ _ HS e)).
  assert (forall e, getTarget (ed d1 e) = getTarget (ed d0 e)) as Et by (intros e; apply (ss_ed _ _ HS e)).
  assert (forall e, getType (ed d1 e) = getType (ed d0 e)) as Ety by (intros e; apply (ss_ed _ _ HS e)).
  split; [intros n|intros e..]; rewrite ?unlinked_linked, ?unlinked_block, ?Haf, ?Hed, ?Es, ?Et, ?Ety by done.
  - intros Hb. unfold label. by rewrite bool_decide_false by (rewrite Hb; by intros []).
  - intros [He Hp] Hb. destruct (cut_type (getType (ed d0 e))) eqn:Hc; [by apply cut_marks|].
    destruct (decide (e = er)) as [->|Hne].
    + rewrite (bl_er_target _ _ _ HB) in Hb |- *. rewrite (label_stage _ _ Hb root_stage), bool_decide_false by done.
      rewrite (bl_er_source _ _ _ HB). unfold label. rewrite exit_bare, (bool_decide_false (None <> None)) by (intros []; done).
      unfold after. by rewrite Ety, Hc, R1, R2.
    + destruct (plain_edge e He Hne Hc) as (s & _ & H & _). by apply H.
  - intros [He Hp] Hc Hi Hn. destruct (decide (e = er)) as [->|Hne]; [done|].
    destruct (plain_edge e He Hne Hc) as (s & -> & _ & H & _). by rewrite bool_decide_true by auto.
  - intros [He Hp] Hc Hn. destruct (decide (e = er)) as [->|Hne]; [congruence|].
    destruct (plain_edge e He Hne Hc) as (s & -> & _ & _ & H). destruct (H Hn); [by left|right; by apply bool_decide_eq_true].
  - intros [He Hp] Hc Hi Hl Hb. pose proof (init_joins e He Hp Hc Hi Hb). lia.
  - intros [He Hp] Hc. destruct (cut_marks e He Hc) as [(C1 & C2 & C3 & t & b & HX) _]. unfold CutMarks.
    rewrite Hed, (ul_edges _ _ _ (handover_unlinked d0 er rank HH d1 HS)). split_and!; [done|done|done|].
    exists t, b. by rewrite !Hed.
Qed.

End Consistent.

(** ** What the insertion starts from *)

Section Handing.
Context `{LS : !LLVMSpec L} `{LF : !LLVMFlow L} `{BS : !BallLarusOpsSpec B}.
Context (d0 : BLInstrumentationDag) (er : EdgeId) (rank : NodeId -> nat) (F : Fn).
Context (HH : Handed d0 er rank) (HM : Mirrors d0 er F).
Context (d1 : BLInstrumentationDag) (Hm : markDag d0 = Some d1).

Lemma marked_shape : same_shape d0 d1 /\ unaffected d0 d1.
Proof using HH Hm.
  destruct (marked_exists d0 er rank HH) as (d1' & Hm' & HS & HA). rewrite Hm in Hm'. by injection Hm' as <-.
Qed.

Lemma marked_prepared : exists w, Prepared (unlinkPhony d1) F w er.
Proof using HH HM Hm BS.
  destruct marked_shape as [HS HA]. pose proof (hd_dag _ _ _ HH) as HB.
  pose proof (handover_unlinked d0 er rank HH d1 HS) as HU.
  destruct (markDag_counted d0 er rank HB (hd_unmarked _ _ _ HH)) as (d1' & Hm' & HC).
  rewrite Hm in Hm'. injection Hm' as <-.
  pose proof (markDag_cleared d0 er rank d1 HB (hd_unmarked _ _ _ HH) (mr_back _ _ _ HM) Hm) as HK.
  exists (label d0 er d1). split.
  - eapply handover_fresh; [done|done|]. apply (ly_valid _ _ (mr_layout _ _ _ HM)).
  - by eapply marked_layout.
  - by eapply marked_labels.
  - intros n. unfold blank. destruct (ul_node _ _ _ HU n) as (_ & -> & -> & ->).
    destruct (ua_numbers _ _ HA n) as (-> & -> & ->). apply (mr_blank _ _ _ HM).
  - apply HM.
  - destruct (handover_paths d0 er rank HH d1 Hm) as [-> _]. apply HH.
  - intros e. rewrite (ul_edges _ _ _ HU), (ss_edges _ _ HS). erewrite unlinked_ed by done.
    rewrite (se_type _ _ (ss_ed _ _ HS e)). apply HM.
  - erewrite unlinked_ed, unlinked_linked by done. rewrite (ul_exit _ _ _ HU), (ul_root _ _ _ HU).
    destruct (ss_ed _ _ HS er) as [-> -> _ _ _ _]. rewrite (ss_exit _ _ HS), (ss_root _ _ HS).
    split_and!; [apply HB|by rewrite (bl_er_type _ _ _ HB)|apply HB|apply HB].
  - rewrite (ul_root _ _ _ HU), (ss_root _ _ HS). erewrite unlinked_block by done. apply HM.
Qed.

(** The routes of the insertion's DAG are those of the function. *)
Lemma marked_routes x l y : linked_route (unlinkPhony d1) x l y <-> route d0 er x l y.
Proof using HH Hm BS.
  destruct marked_shape as [HS _]. pose proof (hd_dag _ _ _ HH) as HB.
  pose proof (handover_unlinked d0 er rank HH d1 HS) as HU.
  assert (getExit (unlinkPhony d1) = getExit d0) as Hx by (by rewrite (ul_exit _ _ _ HU), (ss_exit _ _ HS)).
  assert (forall e, getTarget (ed (unlinkPhony d1) e) = getTarget (ed d0 e)) as Et.
  { intros e. erewrite unlinked_ed by done. apply (ss_ed _ _ HS e). }
  split.
  - induction 1 as [|x e p y H1 H2 H3 H4 IH]; [constructor|]. eapply unlinked_succ in H1 as (He & Hs & Hp); try done.
    rewrite Hx in H3. rewrite Et in IH. constructor; try done. intros ->. apply H3. by rewrite <- Hs, (bl_er_source _ _ _ HB).
  - induction 1 as [|x e p y He Hne Hp Hs H IH]; [constructor|]. rewrite <- Et in IH. constructor; try done.
    + by eapply unlinked_succ.
    + erewrite unlinked_ed by done. by rewrite (se_source _ _ (ss_ed _ _ HS e)).
    + rewrite Hx, <- Hs. intros E. by apply Hne, (exit_edge _ _ _ HB).
Qed.

Lemma marked_blocks l : blocksOf (unlinkPhony d1) l = blocksOf d0 l.
Proof using HH Hm BS.
  destruct marked_shape as [HS _]. apply omap_ext_in. intros e _. cbv beta. erewrite unlinked_ed, unlinked_block by done.
  by rewrite (se_target _ _ (ss_ed _ _ HS e)).
Qed.

(** The marks keep their meaning when the phony edges are unlinked, and the
    closing edge has none. *)
Lemma marked_walk l r : BackEdgesClose d0 er -> walkExec (unlinkPhony d1) (er :: l) r = walkExec d1 l r.
Proof using HH Hm BS.
  intros HBk. destruct marked_shape as [HS _]. pose proof (hd_dag _ _ _ HH) as HB.
  assert (forall e, ed (unlinkPhony d1) e = ed d1 e) as Hed by (intros e; by eapply unlinked_ed).
  assert (forall e r, edgeExec (unlinkPhony d1) e r = edgeExec d1 e r) as He.
  { intros e r'. unfold edgeExec, cutExec. rewrite Hed. destruct (cut_type _); [|done].
    destruct (getPhonyRoot _) as [t|]; [|done]. destruct (getPhonyExit _) as [b|]; [|done].
    cbn [mbind option_bind]. by rewrite !Hed. }
  assert (forall l r, walkExec (unlinkPhony d1) l r = walkExec d1 l r) as Hw.
  { intros k. induction k as [|e k IH]; intros r'; [done|]. rewrite !walkExec_cons, He.
    destruct (edgeExec d1 e r') as [[r1 o1]|]; [|done]. cbn [mbind option_bind]. by rewrite IH. }
  rewrite Hw, walkExec_cons.
  destruct (markDag_cleared d0 er rank d1 HB (hd_unmarked _ _ _ HH) HBk Hm) as [(R1 & R2 & R3) _ _].
  unfold edgeExec. rewrite (se_type _ _ (ss_ed _ _ HS er)), (bl_er_type _ _ _ HB). simpl. unfold markExec.
  rewrite R1, R2, R3, decide_True by done. cbn [mbind option_bind]. by destruct (walkExec d1 l r) as [[]|].
Qed.

End Handing.
