(* ===== verification/Report.v ===== *)
(** * What the instrumented function reports

    The phases of [PathProfiler::runOnFunction] (src/PathLogging.cpp) put
    together: the marking phases put the numbers of the DAG's paths on its
    edges ([Marking]), what they leave is what the insertion starts from
    ([Labels]), and the inserted code does what the marks say ([Simulation]).
    So the instrumented function reports, along every complete path of its
    control-flow graph, the numbers of the DAG paths that it consists of. *)

From stdpp Require Import base numbers list gmap fin_sets.
From S2P Require Import Prelude Dag BallLarus Push Marking MarkFrame IR ListIR.
From S2P Require Import Instrument Execution Emitted Insertion Placement Emission Emit SplitStep.
From S2P Require Import Flow Simulation Pipeline Labels.

Local Open Scope Z_scope.

(** ** Deciding the hypotheses

    For functions of the instance [ListLLVM]. *)

(** A condition on all nodes: those stored, and the default one. *)
Definition allNodes (d : BLInstrumentationDag) (P : NodeId -> BLInstrumentationNode -> bool) : bool :=
  forallb (fun p => P p.1 p.2) (map_to_list (nodeStore d)).

Lemma allNodes_sound d P n : allNodes d P = true ->
  P n (nd d n) = true \/ (nodeStore d !! n = None /\ nd d n = newNode None).
Proof.
  intros H. unfold allNodes in H. rewrite forallb_forall in H. unfold nd. rewrite lookup_total_alt.
  destruct (nodeStore d !! n) as [x|] eqn:E; [left|by right].
  apply (H (n, x)), list_elem_of_In. by apply elem_of_map_to_list.
Qed.

Definition checkPlace (d : BLInstrumentationDag) (s : @Fn ListLLVM) (n : NodeId) (x : BLInstrumentationNode) : bool :=
  bool_decide (NoDup (succEdges x)) && bool_decide (NoDup (predEdges x)) &&
  bool_decide (Forall (fun e => e ∈ succEdges (nd d (getSource (ed d e))) /\ getTarget (ed d e) = n) (predEdges x)) &&
  match getBlock x with
  | None => true
  | Some b =>
      bool_decide (successors s b = omap (fun e => getBlock (nd d (getTarget (ed d e)))) (succEdges x)) &&
      bool_decide (succEdges x <> []) &&
      match last (insts s b) with
      | Some t => isOriginal (inst s t) && negb (isPHI (inst s t))
      | None => false
      end &&
      allNodes d (fun m y => bool_decide (getBlock y = Some b -> m = n))
  end.

Definition checkLinkedEdge (d : BLInstrumentationDag) (e : EdgeId) : bool :=
  negb (bool_decide (e ∈ succEdges (nd d (getSource (ed d e))))) ||
  bool_decide (e ∈ predEdges (nd d (getTarget (ed d e)))) &&
  (bool_decide (getBlock (nd d (getTarget (ed d e))) <> None) ||
     bool_decide (getTarget (ed d e) = getExit d) && atSource d e).

Definition checkLayout (d : BLInstrumentationDag) (s : @Fn ListLLVM) : bool :=
  checkLinked d && allNodes d (checkPlace d s) && forallb (checkLinkedEdge d) (_edges d) &&
  bool_decide (getBlock (nd d (getExit d)) = None) && bool_decide (is_Some (nodeStore d !! getExit d)).

Lemma checkLayout_sound d s : ListValid s -> checkLayout d s = true -> Layout d (s : @Fn ListLLVM).
Proof.
  intros HV H. apply andb_true_iff in H as [[[[HL HN]%andb_true_iff HE]%andb_true_iff Hx]%andb_true_iff Hs].
  apply checkLinked_sound in HL. apply bool_decide_eq_true in Hx, Hs. rewrite forallb_forall in HE.
  assert (forall n, checkPlace d s n (nd d n) = true \/ nd d n = newNode None) as Hn.
  { intros n. destruct (allNodes_sound d _ n HN) as [|[_ ?]]; auto. }
  assert (forall e, linked d e -> e ∈ predEdges (nd d (getTarget (ed d e))) /\
    (getBlock (nd d (getTarget (ed d e))) = None -> getTarget (ed d e) = getExit d /\ atSource d e = true)) as He.
  { intros e Hl. assert (checkLinkedEdge d e = true) as H.
    { apply HE, list_elem_of_In. by apply (lk_succ _ HL) in Hl as [? _]. }
    unfold checkLinkedEdge in H. rewrite (bool_decide_true _ Hl) in H. apply andb_true_iff in H as [H1 H2].
    apply bool_decide_eq_true in H1. split; [done|]. intros Hb.
    rewrite bool_decide_false in H2 by (rewrite Hb; by intros []).
    apply andb_true_iff in H2 as [H2 H3]. by apply bool_decide_eq_true in H2. }
  assert (forall n b, getBlock (nd d n) = Some b ->
    successors s b = omap (fun e => getBlock (nd d (getTarget (ed d e)))) (succEdges (nd d n)) /\
    succEdges (nd d n) <> [] /\
    match last (insts s b) with Some t => isOriginal (inst s t) && negb (isPHI (inst s t)) | None => false end = true /\
    allNodes d (fun m y => bool_decide (getBlock y = Some b -> m = n)) = true) as Hb.
  { intros n b Hb. destruct (Hn n) as [HP|E]; [|by rewrite E in Hb]. apply andb_true_iff in HP as [_ HP].
    rewrite Hb in HP. apply andb_true_iff in HP as [[[H1 H2]%andb_true_iff H3]%andb_true_iff H4].
    apply bool_decide_eq_true in H1, H2. done. }
  clear HN HE. split; try done.
  - intros n e. split.
    + intros Hp. destruct (Hn n) as [HP|E]; [|rewrite E in Hp; by apply not_elem_of_nil in Hp].
      apply andb_true_iff in HP as [[_ HP]%andb_true_iff _]. apply bool_decide_eq_true in HP.
      rewrite Forall_forall in HP. by apply HP.
    + intros [Hl <-]. by apply He.
  - intros n. destruct (Hn n) as [HP|E]; [|rewrite E; constructor].
    apply andb_true_iff in HP as [[[HP _]%andb_true_iff _]%andb_true_iff _]. by apply bool_decide_eq_true in HP.
  - intros n. destruct (Hn n) as [HP|E]; [|rewrite E; constructor].
    apply andb_true_iff in HP as [[[_ HP]%andb_true_iff _]%andb_true_iff _]. by apply bool_decide_eq_true in HP.
  - intros n m b H1 H2. destruct (Hb n b H1) as (_ & _ & _ & Hu). symmetry.
    destruct (allNodes_sound d _ m Hu) as [Hm|[_ E]]; [|by rewrite E in H2].
    apply bool_decide_eq_true in Hm. auto.
  - intros n b H1. destruct (Hb n b H1) as (H & _). by rewrite H.
  - intros n b H1. destruct (Hb n b H1) as (_ & _ & Hl & _). unfold LastOk.
    destruct (last (insts (s : @Fn ListLLVM) b)) as [t|]; [|done].
    apply andb_true_iff in Hl as [Ho Hp]. exists t. split_and!; [done|done|]. by apply negb_true_iff.
  - intros n b H1. by destruct (Hb n b H1) as (_ & H & _).
  - intros e Hl. by apply He.
Qed.

(** The conditions of [Mirrors] but for the cycles of backedges. *)
Definition checkHandedEdge (d : BLInstrumentationDag) (e : EdgeId) : bool :=
  (negb (cut_type (getType (ed d e))) || bool_decide (getWeight (ed d e) = 0)) &&
  (negb (phony_type (getType (ed d e))) ||
     bool_decide (Exists (fun c => cut_type (getType (ed d c)) = true /\
       (getPhonyRoot (ed d c) = Some e \/ getPhonyExit (ed d c) = Some e)) (_edges d))) &&
  bool_decide (getType (ed d e) <> CALLEDGE_PHONY) && bool_decide (predEdges (nd d (getSource (ed d e))) <> []).

Definition checkMirrors (d : BLInstrumentationDag) (s : @Fn ListLLVM) : bool :=
  checkLayout (unlinkPhony d) s && bool_decide (Forall (fun b => code s b = []) (map_to_list (blocks s)).*1) &&
  allNodes d (fun _ x => bool_decide (getStartingPathNumber x = None /\ getEndingPathNumber x = None /\
    getPathPHI x = None)) &&
  forallb (checkHandedEdge d) (_edges d) && bool_decide (is_Some (getBlock (nd d (getRoot d)))).

Lemma checkMirrors_sound d er s : ListValid s -> checkMirrors d s = true -> BackEdgesClose d er ->
  Mirrors d er (s : @Fn ListLLVM).
Proof.
  intros HV H HB. apply andb_true_iff in H as [[[[HL HC]%andb_true_iff HN]%andb_true_iff HE]%andb_true_iff HR].
  apply bool_decide_eq_true in HC, HR. rewrite forallb_forall in HE. rewrite Forall_forall in HC.
  assert (forall e, e ∈ _edges d -> checkHandedEdge d e = true) as He by (intros e Hin; by apply HE, list_elem_of_In).
  clear HE. split; try done; [by apply checkLayout_sound| | |intros e Hin..].
  - intros b. destruct (blocks s !! b) as [l|] eqn:E.
    + apply HC, list_elem_of_fmap. exists (b, l). split; [done|by apply elem_of_map_to_list].
    + unfold code. cbn [insts ListLLVM]. unfold blockInsts. by rewrite E.
  - intros n. destruct (allNodes_sound d _ n HN) as [H|[_ ->]]; [|done]. by apply bool_decide_eq_true in H.
  - intros Hc. specialize (He e Hin). apply andb_true_iff in He as [[[He _]%andb_true_iff _]%andb_true_iff _].
    rewrite Hc in He. by apply bool_decide_eq_true in He.
  - intros Hp. specialize (He e Hin). apply andb_true_iff in He as [[[_ He]%andb_true_iff _]%andb_true_iff _].
    rewrite Hp in He. apply bool_decide_eq_true, Exists_exists in He as (c & Hc & ? & ?). by exists c.
  - specialize (He e Hin). apply andb_true_iff in He as [[_ He]%andb_true_iff _]. by apply bool_decide_eq_true in He.
  - specialize (He e Hin). apply andb_true_iff in He as [_ He]. by apply bool_decide_eq_true in He.
Qed.

Lemma exampleLoop_mirrors : Mirrors exampleLoop 0%nat (exampleFn : @Fn ListLLVM).
Proof.
  apply checkMirrors_sound; [exact exampleFn_valid|by vm_compute|]. intros e He Ht.
  assert (Forall (fun e => getType (ed exampleLoop e) = BACKEDGE -> e = 5%nat) (_edges exampleLoop)) as H
    by (apply (bool_decide_unpack _); by vm_compute).
  rewrite Forall_forall in H. rewrite (H e He Ht). exists [3%nat].
  apply route_cons; [apply (bool_decide_unpack _); by vm_compute|done|done|done|apply route_nil].
Qed.

(** A route by its edges. *)
Fixpoint checkRoute (d : BLInstrumentationDag) (x : NodeId) (l : list EdgeId) (y : NodeId) : bool :=
  match l with
  | [] => bool_decide (x = y)
  | e :: l => bool_decide (e ∈ succEdges (nd d x) /\ getSource (ed d e) = x /\ x <> getExit d) &&
              checkRoute d (getTarget (ed d e)) l y
  end.

Lemma linked_of_list d x l y : checkRoute d x l y = true -> linked_route d x l y.
Proof.
  revert x. induction l as [|e l IH]; intros x H; simpl in H.
  - apply bool_decide_eq_true in H as ->. constructor.
  - apply andb_true_iff in H as [H1 H2]. apply bool_decide_eq_true in H1 as (? & ? & ?). constructor; auto.
Qed.

(** A complete path by its blocks. *)
Fixpoint checkPath `{L : LLVM} (s : Fn) (b : BlockId) (bs : list BlockId) : bool :=
  match bs with
  | [] => bool_decide (successors s b = [])
  | c :: bs => bool_decide (c ∈ successors s b) && checkPath s c bs
  end.

Lemma checkPath_sound `{L : LLVM} (s : Fn) b bs : checkPath s b bs = true -> complete_path s b bs.
Proof.
  revert b. induction bs as [|c bs IH]; intros b H; simpl in H; [by apply bool_decide_eq_true in H|].
  apply andb_true_iff in H as [H1 H2]. apply bool_decide_eq_true in H1. split; [done|auto].
Qed.

(** ** Theorems *)

(** C2: from a consistently marked DAG that mirrors the function, the
    insertion succeeds: no assert fails, no null pointer is followed, every
    insertion point is found.  And unless it printed a warning, the
    instrumented function reports exactly what the marks say: along every
    complete path of its control-flow graph (which is a route of the DAG but
    for blocks added by splits), and every route of the DAG is such a path. *)
Theorem insertion_implements_the_marks `{LS : !LLVMSpec L} `{LF : !LLVMFlow L} `{BS : !BallLarusOpsSpec B} d s w er :
  Prepared d s w er ->
  exists st, insertInstrumentation (2 * length (_edges d)) (MkPass d s []) = Ok st /\
    (warnings st = [] -> forall rb, getBlock (nd d (getRoot d)) = Some rb ->
      (forall bs, complete_path (fn st) rb bs ->
         exists l env out r, linked_route d (getRoot d) l (getExit d) /\
           filter (fun b => original s b = true) bs = blocksOf d l /\
           execBlocks (fn st) None (rb :: bs) (∅, []) = Some (env, out) /\
           walkExec d (er :: l) None = Some (r, out)) /\
      (forall l, linked_route d (getRoot d) l (getExit d) ->
         exists bs env out r, complete_path (fn st) rb bs /\
           filter (fun b => original s b = true) bs = blocksOf d l /\
           execBlocks (fn st) None (rb :: bs) (∅, []) = Some (env, out) /\
           walkExec d (er :: l) None = Some (r, out))).
Proof.
  intros HP. destruct (prepared_run d s w er HP) as (st & w' & Q & g & E & HR & HW & Hi).
  exists st. split; [done|]. intros Hwn rb Hrb. split.
  - intros bs. by eapply done_path.
  - intros l. by eapply done_route.
Qed.

(** The example, its DAG unlinked and marked. *)
Lemma exampleMarked_prepared : exists w, Prepared exampleMarked (exampleFn : @Fn ListLLVM) w 0%nat.
Proof.
  unfold exampleMarked. destruct (markDag exampleLoop) as [d1|] eqn:E; [|vm_compute in E; discriminate E].
  exact (marked_prepared exampleLoop 0%nat (rankOf exampleRank) exampleFn exampleLoop_handed exampleLoop_mirrors d1 E).
Qed.

Lemma insertion_implements_the_marks_witness :
  exists st, insertInstrumentation (2 * length (_edges exampleMarked))
               (MkPass exampleMarked (exampleFn : @Fn ListLLVM) []) = Ok st /\
    exists bs env out r, complete_path (fn st) 0%nat bs /\
      filter (fun b => original (exampleFn : @Fn ListLLVM) b = true) bs = [1; 2; 3; 1; 3; 4]%nat /\
      execBlocks (fn st) None (0%nat :: bs) (∅, []) = Some (env, out) /\
      walkExec exampleMarked [0; 1; 2; 4; 5; 3; 8; 9]%nat None = Some (r, out).
Proof.
  destruct exampleMarked_prepared as [w HP].
  destruct (insertion_implements_the_marks exampleMarked (exampleFn : @Fn ListLLVM) w 0%nat HP) as (st & E & H).
  exists st. split; [exact E|].
  assert (warnings st = []) as Hw.
  { assert (warnings (resultOr (MkPass exampleMarked (exampleFn : @Fn ListLLVM) []) (insertInstrumentation (2 * length (_edges exampleMarked))
               (MkPass exampleMarked (exampleFn : @Fn ListLLVM) []))) = []) as Hv by (by vm_compute).
    rewrite E in Hv. exact Hv. }
  destruct (H Hw 0%nat) as [_ Hr]; [by vm_compute|].
  apply (Hr [1; 2; 4; 5; 3; 8; 9]%nat). apply linked_of_list. vm_compute. reflexivity.
Defined.

(** ** The whole pass *)

(** [s] is what became of [F], entered at [rb]: its complete paths are those of
    [F] but for new blocks, and each reports the numbers of its DAG paths. *)
Definition ReportsPaths `{L : LLVM} (d : BLInstrumentationDag) (er : EdgeId) (F s : Fn) (rb : BlockId) : Prop :=
  (forall bs, complete_path s rb bs ->
     exists l env, route d er (getRoot d) l (getExit d) /\
       filter (fun b => original F b = true) bs = blocksOf d l /\
       execBlocks s None (rb :: bs) (∅, []) = Some (env, map (fun s => i32 (path_number d s)) (segments d [] l))) /\
  (forall l, route d er (getRoot d) l (getExit d) ->
     exists bs env, complete_path s rb bs /\
       filter (fun b => original F b = true) bs = blocksOf d l /\
       execBlocks s None (rb :: bs) (∅, []) = Some (env, map (fun s => i32 (path_number d s)) (segments d [] l))).

Section Pass.
Context `{LS : !LLVMSpec L} `{LF : !LLVMFlow L} `{BS : !BallLarusOpsSpec B}.
Context (d0 : BLInstrumentationDag) (er : EdgeId) (rank : NodeId -> nat) (F : Fn).
Context (HH : Handed d0 er rank) (HM : Mirrors d0 er F).

(** What the insertion makes of the marked DAG. *)
Lemma inserted_reports d1 : markDag d0 = Some d1 ->
  exists st, insertInstrumentation (2 * length (_edges (unlinkPhony d1))) (MkPass (unlinkPhony d1) F []) = Ok st /\
    (warnings st = [] -> forall rb, getBlock (nd d0 (getRoot d0)) = Some rb -> ReportsPaths d0 er F (fn st) rb).
Proof using HH HM LF BS.
  intros Hm. destruct (markDag_counted d0 er rank (hd_dag _ _ _ HH) (hd_unmarked _ _ _ HH)) as (d1' & Hm' & HC).
  rewrite Hm in Hm'. injection Hm' as <-.
  destruct (marked_prepared d0 er rank F HH HM d1 Hm) as [w HP].
  destruct (prepared_run _ F w er HP) as (st & w' & Q & g & E & HR & HW & Hi). exists st. split; [done|].
  intros Hwn rb Hrb. destruct (marked_shape d0 er rank HH d1 Hm) as [HS _].
  pose proof (handover_unlinked d0 er rank HH d1 HS) as HU.
  assert (getRoot (unlinkPhony d1) = getRoot d0) as Er by (by rewrite (ul_root _ _ _ HU), (ss_root _ _ HS)).
  assert (getExit (unlinkPhony d1) = getExit d0) as Ex by (by rewrite (ul_exit _ _ _ HU), (ss_exit _ _ HS)).
  assert (getBlock (nd (unlinkPhony d1) (getRoot (unlinkPhony d1))) = Some rb) as Hrb'.
  { rewrite Er. by erewrite unlinked_block. }
  assert (forall l r out, route d0 er (getRoot d0) l (getExit d0) -> walkExec (unlinkPhony d1) (er :: l) None = Some (r, out) ->
    out = map (fun s => i32 (path_number d0 s)) (segments d0 [] l)) as Hrep.
  { intros l r out Hl Hw. rewrite (marked_walk d0 er rank HH d1 Hm l None (mr_back _ _ _ HM)) in Hw.
    destruct (route_reports d0 er rank d1 l (hd_dag _ _ _ HH) HC Hl) as [Hw' _]. rewrite Hw in Hw'. by injection Hw' as -> ->. }
  split.
  - intros bs Hbs. destruct (done_path _ _ _ _ HP st w' Q g HR HW Hi Hwn rb bs Hrb' Hbs) as (l & env & out & r & Hl & Hf & He & Hw).
    rewrite Er, Ex, (marked_routes d0 er rank HH d1 Hm) in Hl. rewrite (marked_blocks d0 er rank HH d1 Hm) in Hf.
    exists l, env. rewrite <- (Hrep l r out Hl Hw). done.
  - intros l Hl. assert (linked_route (unlinkPhony d1) (getRoot (unlinkPhony d1)) l (getExit (unlinkPhony d1))) as Hl'
      by (rewrite Er, Ex; by apply (marked_routes d0 er rank HH d1 Hm)).
    destruct (done_route _ _ _ _ HP st w' Q g HR HW Hi Hwn rb l Hrb' Hl') as (bs & env & out & r & Hp & Hf & He & Hw).
    rewrite (marked_blocks d0 er rank HH d1 Hm) in Hf. exists bs, env. rewrite <- (Hrep l r out Hl Hw). done.
Qed.

Lemma pass_reports buildDag code arr ft c : buildDag F = d0 ->
  exists st, runOnFunction buildDag code arr ft c F =
      Ok (ft ++ [tableEntry code (dag st)], countFunction (dag st) c, st) /\
    (warnings st = [] -> forall rb, getBlock (nd d0 (getRoot d0)) = Some rb -> ReportsPaths d0 er F (fn st) rb).
Proof using HH HM LF BS.
  intros EF. destruct (marked_exists d0 er rank HH) as (d1 & Hm & _).
  destruct (inserted_reports d1 Hm) as (st & E & HR). exists st. split; [|done].
  unfold runOnFunction. rewrite EF, Hm. cbn [deref mbind result_bind].
  rewrite (stores_nothing d0 er rank HH arr d1 Hm), E. done.
Qed.

End Pass.

(** C1: on a function whose DAG LLVM built as documented, the pass succeeds.
    Unless it printed a warning, the instrumented function reports, along every
    complete path of its control-flow graph, exactly the [i32] numbers of the
    DAG paths that the path consists of, in order; and its complete paths, but
    for blocks added by splits, are those of the original function. *)
Theorem instrumented_function_reports_its_paths `{LS : !LLVMSpec L} `{LF : !LLVMFlow L} `{BS : !BallLarusOpsSpec B}
    buildDag code arr ft c (F : Fn) er rank :
  Handed (buildDag F) er rank -> Mirrors (buildDag F) er F ->
  exists ft' c' st, runOnFunction buildDag code arr ft c F = Ok (ft', c', st) /\
    (warnings st = [] -> forall rb, getBlock (nd (buildDag F) (getRoot (buildDag F))) = Some rb ->
      (forall bs, complete_path (fn st) rb bs ->
         exists l env, route (buildDag F) er (getRoot (buildDag F)) l (getExit (buildDag F)) /\
           filter (fun b => original F b = true) bs = blocksOf (buildDag F) l /\
           execBlocks (fn st) None (rb :: bs) (∅, []) =
             Some (env, map (fun s => i32 (path_number (buildDag F) s)) (segments (buildDag F) [] l))) /\
      (forall l, route (buildDag F) er (getRoot (buildDag F)) l (getExit (buildDag F)) ->
         exists bs env, complete_path (fn st) rb bs /\
           filter (fun b => original F b = true) bs = blocksOf (buildDag F) l /\
           execBlocks (fn st) None (rb :: bs) (∅, []) =
             Some (env, map (fun s => i32 (path_number (buildDag F) s)) (segments (buildDag F) [] l)))).
Proof.
  intros HH HM. destruct (pass_reports _ er rank F HH HM buildDag code arr ft c eq_refl) as (st & E & HR).
  eexists _, _, st. split; [exact E|exact HR].
Qed.

Lemma instrumented_function_reports_its_paths_witness :
  exists ft' c' st, runOnFunction (fun _ => exampleLoop) (fun _ => 2) (fun _ => 0%nat) [] (MkCounters 0 0)
                      (exampleFn : @Fn ListLLVM) = Ok (ft', c', st) /\
    exists bs env, complete_path (fn st) 0%nat bs /\
      filter (fun b => original (exampleFn : @Fn ListLLVM) b = true) bs = [1; 2; 3; 1; 3; 4]%nat /\
      execBlocks (fn st) None (0%nat :: bs) (∅, []) = Some (env, [0; 7]).
Proof.
  destruct (instrumented_function_reports_its_paths (fun _ => exampleLoop) (fun _ => 2) (fun _ => 0%nat) []
    (MkCounters 0 0) (exampleFn : @Fn ListLLVM) 0%nat (rankOf exampleRank) exampleLoop_handed exampleLoop_mirrors)
    as (ft' & c' & st & E & H).
  exists ft', c', st. split; [exact E|].
  assert (warnings st = []) as Hw.
  { assert (match runOnFunction (fun _ => exampleLoop) (fun _ => 2) (fun _ => 0%nat) [] (MkCounters 0 0)
              (exampleFn : @Fn ListLLVM) with Ok (_, _, st) => warnings st = [] | Err _ => True end) as Hv
      by (vm_compute; reflexivity).
    rewrite E in Hv. exact Hv. }
  destruct (H Hw 0%nat eq_refl) as [_ Hr].
  apply (Hr [1; 2; 4; 5; 3; 8; 9]%nat).
  repeat (apply route_cons; [apply (bool_decide_unpack _); by vm_compute|done|done|done|]). apply route_nil.
Defined.

(** C17: [runOnFunction] on a function whose DAG LLVM built as documented
    succeeds when that DAG mirrors the function.  Whatever the function, when it
    succeeds it has added one entry to the function table (hash storage, the
    number of paths, no array), counted the paths, kept the function's code
    and, unless it printed a warning, instrumented every edge that can be
    reached; and when it fails, an assertion has failed, a null pointer has
    been followed or an iterator has run past the end: the recursion depth is
    enough. *)
Theorem runOnFunction_spec `{LS : !LLVMSpec L} `{LF : !LLVMFlow L} `{BS : !BallLarusOpsSpec B}
    buildDag code arr ft c (F : Fn) er rank :
  Handed (buildDag F) er rank -> valid F ->
  (Mirrors (buildDag F) er F -> isOk (runOnFunction buildDag code arr ft c F) = true) /\
  match runOnFunction buildDag code arr ft c F with
  | Ok (ft', c', st) =>
      ft' = ft ++ [MkEntry (ConstantInt (i32 (code ProfilingHash)))
                           (ConstantInt (i32 (getNumberOfPaths (buildDag F)))) None] /\
      c' = countFunction (buildDag F) c /\ extends F (fn st) /\
      (warnings st = [] -> forall e, reached (dag st) er e -> hasInstrumentation (ed (dag st) e) = true)
  | Err x => x = AssertFailed \/ x = NullPointer \/ x = PastTheEnd
  end.
Proof.
  intros HH Hv. split.
  - intros HM. by destruct (pass_reports _ er rank F HH HM buildDag code arr ft c eq_refl) as (st & -> & _).
  - pose proof (runOnFunction_handed _ er rank HH buildDag code arr ft c F eq_refl Hv) as H.
    destruct (runOnFunction _ _ _ _ _ F) as [[[ft' c'] st]|[]]; auto. done.
Qed.

Lemma runOnFunction_spec_witness :
  match runOnFunction (L := ListLLVM) (fun _ => exampleLoop) (fun _ => 2) (fun _ => 0%nat) []
          (MkCounters 0 0) exampleFn with
  | Ok (ft', c', st) =>
      ft' = [MkEntry (ConstantInt 2) (ConstantInt 8) None] /\ c' = MkCounters 8 8 /\
      extends (exampleFn : @Fn ListLLVM) (fn st) /\
      (warnings st = [] ->
       forall e, reached (dag st) 0%nat e -> hasInstrumentation (ed (dag st) e) = true)
  | Err x => False
  end.
Proof.
  destruct (runOnFunction_spec (L := ListLLVM) (LS := ListLLVM_spec) (fun _ => exampleLoop) (fun _ => 2) (fun _ => 0%nat) []
    (MkCounters 0 0) exampleFn 0%nat (rankOf exampleRank) exampleLoop_handed exampleFn_valid) as [Hok H].
  specialize (Hok exampleLoop_mirrors). destruct (runOnFunction _ _ _ _ _ _) as [[[ft' c'] st]|x]; [|discriminate Hok].
  exact H.
Defined.

(** *** The example's result *)

Abbreviation exampleResult := (runOnFunction (fun _ => exampleLoop) (fun _ => 2) (fun _ => 0%nat) [] (MkCounters 0 0) (exampleFn : @Fn ListLLVM)).

Definition exampleOut : list functionEntry * counters * PassState :=
  resultOr ([], MkCounters 0 0, MkPass exampleLoop (exampleFn : @Fn ListLLVM) []) exampleResult.

Lemma exampleOut_eq : exampleResult = Ok (exampleOut.1.1, exampleOut.1.2, exampleOut.2).
Proof. rewrite (isOk_eq ([], MkCounters 0 0, MkPass exampleLoop (exampleFn : @Fn ListLLVM) []) exampleResult) by (by vm_compute).
  unfold exampleOut. by destruct (resultOr _ _) as [[? ?] ?]. Qed.
