(* ===== verification/ProfileCalls.v ===== *)
(** * Calls into a profiling runtime

    [InsertProfilingInitCall], [IncrementCounterInBlock] and
    [InsertProfilingShutdownCall] of src/PathLogging.cpp: helpers from LLVM's
    own profilers, which this pass keeps but reaches only from code under #if 0.
    They work on instructions with their operands, on argument types and on one
    global of the module, so the data here is finer than that of [IR]: a
    function is its argument types and its blocks, each a list of numbered
    instructions.  The operations on them that LLVM's manual documents
    (setArgOperand, replaceAllUsesWith, getFirstInsertionPt) are written out;
    which cast converts one type to another is LLVM's choice. *)

From stdpp Require Import base numbers list strings sets.
From S2P Require Import Prelude IR.

Local Open Scope Z_scope.

(** ** Functions *)

Inductive type : Set := IntegerTy (bits : Z) | PointerTo (t : type) | OtherTy (n : nat).

#[export] Instance type_eq_dec : EqDecision type.
Proof. solve_decision. Defined.

Definition Int32Ty : type := IntegerTy 32.
Definition Int8PtrTy : type := PointerTo (IntegerTy 8).

Inductive value : Set :=
  | NullValue (t : type)
  | Int32 (n : Z)
  | ElementPtr (array : nat) (indices : list Z)     (* a constant getelementptr *)
  | Argument (n : nat)
  | Result (i : nat).

#[export] Instance value_eq_dec : EqDecision value.
Proof. solve_decision. Defined.

Inductive instruction : Set :=
  | Phi (operands : list value)
  | Alloca (size : value)
  | Call (callee : string) (args : list value)
  | Cast (opcode : Z) (v : value) (t : type)
  | Load (p : value)
  | Add (a b : value)
  | Store (v p : value)
  | Other (operands : list value).

Definition block : Set := list (nat * instruction).

Record function : Set := MkFunction { arg_types : list type; entry : block; others : list block }.

Definition isAlloca (i : nat * instruction) : bool := match i.2 with Alloca _ => true | _ => false end.
Definition isPhi (i : nat * instruction) : bool := match i.2 with Phi _ => true | _ => false end.

Definition operands (i : instruction) : list value :=
  match i with
  | Phi l | Call _ l | Other l => l
  | Alloca v | Cast _ v _ | Load v => [v]
  | Add a b | Store a b => [a; b]
  end.

Definition map_operands (f : value -> value) (i : instruction) : instruction :=
  match i with
  | Phi l => Phi (map f l)
  | Call c l => Call c (map f l)
  | Other l => Other (map f l)
  | Alloca v => Alloca (f v)
  | Cast o v t => Cast o (f v) t
  | Load v => Load (f v)
  | Add a b => Add (f a) (f b)
  | Store a b => Store (f a) (f b)
  end.

(** [new] before the instruction numbered [pos]. *)
Fixpoint insert_before (pos : nat) (new : nat * instruction) (b : block) : block :=
  match b with
  | [] => []
  | i :: b => if decide (i.1 = pos) then new :: i :: b else i :: insert_before pos new b
  end.

Definition on_entry (f : block -> block) (F : function) : function :=
  MkFunction (arg_types F) (f (entry F)) (others F).

Definition on_blocks (f : block -> block) (F : function) : function :=
  MkFunction (arg_types F) (f (entry F)) (map f (others F)).

Definition replace (a b : value) (v : value) : value := if decide (v = a) then b else v.

Definition replaceAllUsesWith (a b : value) : function -> function :=
  on_blocks (map (fun i => (i.1, map_operands (replace a b) i.2))).

Definition used (v : value) (F : function) : bool :=
  existsb (existsb (fun i => bool_decide (v ∈ operands i.2))) (entry F :: others F).

Definition setArgOperand (call k : nat) (v : value) : function -> function :=
  on_entry (map (fun i =>
    match i.2 with
    | Call c args => if decide (i.1 = call) then (i.1, Call c (<[k := v]> args)) else i
    | _ => i
    end)).

(** ** [InsertProfilingInitCall] *)

Section InitCall.
Context (getCastOpcode : type -> bool -> type -> bool -> Z).

(** The iterator after the leading allocas; [None]: the end of the block. *)
Fixpoint after_allocas (b : block) : option nat :=
  match b with
  | [] => None
  | i :: b => if isAlloca i then after_allocas b else Some i.1
  end.

(** The [switch] on the number of arguments, from [case 2] on: argv. *)
Definition pass_argv (call new : nat) (F : function) : function :=
  let ArgVTy := PointerTo Int8PtrTy in
  match arg_types F !! 1%nat with
  | None => F
  | Some t =>
      if decide (t = ArgVTy) then setArgOperand call 1 (Argument 1) F
      else
        let cast := Cast (getCastOpcode t false ArgVTy false) (Argument 1) ArgVTy in
        setArgOperand call 1 (Result new) (on_entry (insert_before call (new, cast)) F)
  end.

(** From [case 1] on: argc.  [pos] is the insertion point, behind the call. *)
Definition pass_argc (call pos new1 new2 : nat) (F : function) : function :=
  match arg_types F !! 0%nat with
  | None => F
  | Some t =>
      if decide (t = Int32Ty) then
        setArgOperand call 0 (Argument 0) (replaceAllUsesWith (Argument 0) (Result call) F)
      else
        let F :=
          if used (Argument 0) F then
            let cast := Cast (getCastOpcode Int32Ty true t true) (Result call) t in
            replaceAllUsesWith (Argument 0) (Result new1) (on_entry (insert_before pos (new1, cast)) F)
          else F in
        let cast := Cast (getCastOpcode t true Int32Ty true) (Argument 0) Int32Ty in
        setArgOperand call 0 (Result new2) (on_entry (insert_before call (new2, cast)) F)
  end.

(** [array]: the array passed and the number of its elements, if there is one;
    [UIntPtr] the type of the pointer to it; [new] the numbers for the four
    instructions that may be created. *)
Definition InsertProfilingInitCall (F : function) (FnName : string) (array : option (nat * Z))
    (UIntPtr : type) (new : nat * nat * nat * nat) : result function :=
  let '(call, argv, argc, argc') := new in
  match after_allocas (entry F) with
  | None => Err PastTheEnd
  | Some pos =>
      let array_args :=
        match array with
        | Some (a, n) => [ElementPtr a [0; 0]; Int32 (i32 n)]
        | None => [NullValue UIntPtr; Int32 0]
        end in
      let InitCall := Call FnName ([NullValue Int32Ty; NullValue (PointerTo Int8PtrTy)] ++ array_args) in
      let F := on_entry (insert_before pos (call, InitCall)) F in
      Ok (pass_argc call pos argc argc' (pass_argv call argv F))
  end.

End InitCall.

(** ** [IncrementCounterInBlock] *)

(** The iterator after leading PHI nodes: LLVM's [getFirstInsertionPt]. *)
Fixpoint first_insertion (b : block) : block :=
  match b with
  | [] => []
  | i :: b' => if isPhi i then first_insertion b' else b
  end.

(** The block, its terminator last; [new] numbers the three instructions. *)
Definition IncrementCounterInBlock (BB : block) (CounterNum : Z) (CounterArray : nat) (beginning : bool)
    (new : nat * nat * nat) : result block :=
  let '(load, add, store) := new in
  let InsertPos := if beginning then first_insertion BB else match last BB with Some t => [t] | None => [] end in
  match after_allocas InsertPos with
  | None => Err PastTheEnd
  | Some pos =>
      let ElementPtr := ElementPtr CounterArray [0; u32 CounterNum] in
      let BB := insert_before pos (load, Load ElementPtr) BB in
      let BB := insert_before pos (add, Add (Result load) (Int32 1)) BB in
      Ok (insert_before pos (store, Store (Result add) ElementPtr) BB)
  end.

(** ** [InsertProfilingShutdownCall] *)

(** The initializer of llvm.global_dtors: elements (priority and destructor),
    or something that is not a [ConstantArray]. *)
Inductive initializer : Set :=
  | ConstantArray (elements : list (Z * nat))
  | OtherInitializer.

(** [ConstantArray::get] asserts that there are as many elements as the array
    type says, and the type made here says one. *)
Definition InsertProfilingShutdownCall (Callee : nat) (GlobalDtors : option initializer)
    : result initializer :=
  let dtors := match GlobalDtors with Some (ConstantArray l) => l | _ => [] end in
  let dtors := dtors ++ [(65535, Callee)] in
  _ ← assert (length dtors =? 1)%nat;
  Ok (ConstantArray dtors).

(** ** What they do *)

(** The module had no destructors: otherwise the assertion fails. *)
Lemma InsertProfilingShutdownCall_spec Callee GlobalDtors :
  InsertProfilingShutdownCall Callee GlobalDtors =
    match GlobalDtors with
    | Some (ConstantArray (_ :: _)) => Err AssertFailed
    | _ => Ok (ConstantArray [(65535, Callee)])
    end.
Proof.
  unfold InsertProfilingShutdownCall. destruct GlobalDtors as [[[|d l]|]|]; try done.
  cbn [app length]. rewrite length_app. cbn [length].
  by rewrite (proj2 (Nat.eqb_neq (S (length l + 1)) 1)) by lia.
Qed.

Lemma insert_before_at pos new l1 i l2 : pos ∉ l1.*1 ->
  insert_before pos new (l1 ++ (pos, i) :: l2) = l1 ++ new :: (pos, i) :: l2.
Proof.
  induction l1 as [|j l1 IH]; intros H; cbn [app insert_before fmap list_fmap fst] in *;
    [by rewrite decide_True|].
  apply not_elem_of_cons in H as [H1 H2]. rewrite decide_False by done. by rewrite IH.
Qed.

Lemma after_allocas_app l1 i l2 : Forall (fun j => isAlloca j = true) l1 -> isAlloca i = false ->
  after_allocas (l1 ++ i :: l2) = Some i.1.
Proof. intros H Hi. induction H as [|j l1 Hj H IH]; cbn [app after_allocas]; [by rewrite Hi|by rewrite Hj]. Qed.

Lemma first_insertion_app l1 l2 : Forall (fun j => isPhi j = true) l1 ->
  match l2 with [] => True | i :: _ => isPhi i = false end -> first_insertion (l1 ++ l2) = l2.
Proof.
  intros H Hi. induction H as [|j l1 Hj H IH]; cbn [app first_insertion].
  - destruct l2; [done|]. cbn [first_insertion]. by rewrite Hi.
  - by rewrite Hj.
Qed.

(** The increment goes behind the PHI nodes and allocas of the block, or before
    its terminator, as one piece, and nothing else changes. *)
Lemma IncrementCounterInBlock_spec phis allocas pos i rest n array load add store :
  Forall (fun j => isPhi j = true) phis -> Forall (fun j => isAlloca j = true) allocas ->
  Forall (fun j => isPhi j = false) (allocas ++ [(pos, i)]) -> isAlloca (pos, i) = false ->
  NoDup ((phis ++ allocas ++ (pos, i) :: rest).*1 ++ [load; add; store]) ->
  IncrementCounterInBlock (phis ++ allocas ++ (pos, i) :: rest) n array true (load, add, store) =
    let p := ElementPtr array [0; u32 n] in
    Ok (phis ++ allocas ++ (load, Load p) :: (add, Add (Result load) (Int32 1)) ::
        (store, Store (Result add) p) :: (pos, i) :: rest).
Proof.
  intros Hp Ha Hn Hi Hd. unfold IncrementCounterInBlock.
  rewrite first_insertion_app; [|done|].
  2:{ destruct allocas as [|j l]; cbn [app] in *; by inversion Hn. }
  rewrite after_allocas_app by done. cbn [fst]. rewrite fmap_app, <- app_assoc in Hd.
  assert (pos ∉ (phis ++ allocas).*1 /\ pos <> load /\ pos <> add) as (H1 & H2 & H3).
  { rewrite fmap_app, fmap_cons, <- !app_assoc in Hd. cbn [fst] in Hd. rewrite fmap_app.
    rewrite !NoDup_app, !NoDup_cons in Hd. set_solver. }
  rewrite !(app_assoc phis). rewrite insert_before_at by done.
  set (i1 := (load, _)). set (i2 := (add, _)). set (i3 := (store, _)).
  replace ((phis ++ allocas) ++ i1 :: (pos, i) :: rest) with (((phis ++ allocas) ++ [i1]) ++ (pos, i) :: rest)
    by (by rewrite <- app_assoc).
  rewrite insert_before_at by (rewrite fmap_app; set_solver).
  replace (((phis ++ allocas) ++ [i1]) ++ i2 :: (pos, i) :: rest)
    with (((phis ++ allocas) ++ [i1; i2]) ++ (pos, i) :: rest) by (by rewrite <- !app_assoc).
  rewrite insert_before_at by (rewrite fmap_app; set_solver). cbv zeta. by rewrite <- !app_assoc.
Qed.

Lemma setArgOperand_here call k v tys l1 f args l2 bs : call ∉ l1.*1 -> call ∉ l2.*1 ->
  setArgOperand call k v (MkFunction tys (l1 ++ (call, Call f args) :: l2) bs) =
    MkFunction tys (l1 ++ (call, Call f (<[k := v]> args)) :: l2) bs.
Proof.
  intros H1 H2. unfold setArgOperand, on_entry. cbn [arg_types entry others]. f_equal.
  set (g := fun i : nat * instruction => _).
  assert (forall l, call ∉ l.*1 -> map g l = l) as Hg.
  { intros l. induction l as [|[j x] l IH]; intros Hl; cbn [map fmap list_fmap fst] in *; [done|].
    apply not_elem_of_cons in Hl as [Hj Hl]. rewrite IH by done. f_equal. unfold g. cbn [fst snd].
    destruct x; try done. by rewrite decide_False. }
  rewrite map_app. cbn [map]. rewrite !Hg by done. do 2 f_equal. unfold g. cbn [fst snd]. by rewrite decide_True.
Qed.

(** Replacing the uses of a value in a block. *)
Definition renamed (a b : value) (l : block) : block :=
  map (fun i => (i.1, map_operands (replace a b) i.2)) l.

Lemma renamed_ids a b l : (renamed a b l).*1 = l.*1.
Proof. unfold renamed. induction l as [|i l IH]; cbn; [done|]. by rewrite IH. Qed.

(** On a [main] with the usual arguments the call goes behind the allocas of the
    entry block and gets both arguments; whatever looked at argc looks at the
    call's result from then on, the call itself apart. *)
Lemma InsertProfilingInitCall_spec cast allocas pos i rest bs FnName a n t call n1 n2 n3 :
  Forall (fun j => isAlloca j = true) allocas -> isAlloca (pos, i) = false ->
  call ∉ (allocas ++ (pos, i) :: rest).*1 -> pos ∉ allocas.*1 ->
  let tys := [Int32Ty; PointerTo Int8PtrTy] in
  let r := renamed (Argument 0) (Result call) in
  InsertProfilingInitCall cast (MkFunction tys (allocas ++ (pos, i) :: rest) bs) FnName (Some (a, n)) t
      (call, n1, n2, n3) =
    Ok (MkFunction tys
          (r allocas ++ (call, Call FnName [Argument 0; Argument 1; ElementPtr a [0; 0]; Int32 (i32 n)]) ::
           r ((pos, i) :: rest))
          (map r bs)).
Proof.
  intros Ha Hi Hc Hp tys r. unfold InsertProfilingInitCall. cbn [entry]. rewrite after_allocas_app by done.
  cbn [fst]. rewrite fmap_app in Hc. apply not_elem_of_app in Hc as [Hc1 Hc2].
  unfold on_entry at 1. cbn [arg_types entry others]. rewrite insert_before_at by done. cbn [app].
  unfold pass_argv. cbn [arg_types]. rewrite (eq_refl : tys !! 1%nat = Some (PointerTo Int8PtrTy)), decide_True by done.
  rewrite setArgOperand_here by done. cbn [list_insert insert].
  unfold pass_argc. cbn [arg_types]. rewrite (eq_refl : tys !! 0%nat = Some Int32Ty), decide_True by done.
  unfold replaceAllUsesWith, on_blocks. cbn [arg_types entry others]. fold (renamed (Argument 0) (Result call)).
  rewrite map_app. cbn [map fst snd map_operands]. 
  change (map _ allocas) with (r allocas).
  change ((pos, map_operands (replace (Argument 0) (Result call)) i) :: map _ rest) with (r ((pos, i) :: rest)).
  rewrite setArgOperand_here by (unfold r; by rewrite renamed_ids). reflexivity.
Qed.

(** So an alloca among them whose size is argc uses the call's result before
    the call. *)
Lemma alloca_before_its_size call allocas j :
  (j, Alloca (Argument 0)) ∈ allocas -> (j, Alloca (Result call)) ∈ renamed (Argument 0) (Result call) allocas.
Proof.
  intros H. unfold renamed. apply list_elem_of_fmap. exists (j, Alloca (Argument 0)). split; [|done].
  cbn [fst snd map_operands]. unfold replace. by rewrite decide_True.
Qed.
