(* ===== verification/WellFormed.v ===== *)
(** * PHI nodes of the instrumented function

    What the LLVM verifier asks of the PHI nodes [preparePHI] creates and
    [pushValueIntoPHI] fills (src/PathLogging.cpp): a PHI node has one entry
    for each edge into its block, and no other instruction of the pass comes
    before it.  This follows from the invariant of the insertion ([Emission])
    and holds whether or not an edge had to be given up. *)

From stdpp Require Import base numbers list gmap fin_sets.
From S2P Require Import Prelude Dag BallLarus Push Marking MarkFrame IR ListIR.
From S2P Require Import Instrument Execution Emitted Insertion Placement Emission Emit SplitStep.
From S2P Require Import Flow Simulation Pipeline Labels Report.

Local Open Scope Z_scope.

(** Not PHI nodes. *)
Definition phi_free `{L : LLVM} (s : Fn) (l : list InstId) : Prop :=
  Forall (fun i => isPHI (inst s i) = false) l.

(** The verifier's condition on block [b]. *)
Definition PhisFit `{L : LLVM} (s : Fn) (b : BlockId) : Prop :=
  forall p l, p ∈ insts s b -> inst s p = PHINode l ->
    l.*2 ≡ₚ predecessors s b /\ exists rest, code s b = p :: rest /\ phi_free s rest.

Section WellFormed.
Context `{LS : !LLVMSpec L} `{LF : !LLVMFlow L} `{BS : !BallLarusOpsSpec B}.

Lemma callsCode_phi_free s V c : callsCode s V c -> isPHI (inst s c) = false.
Proof. by intros (v & _ & ->). Qed.

Lemma addsCode_phi_free s inc S l V : addsCode s inc S l V -> phi_free s l.
Proof.
  intros [(_ & -> & _)|(_ & v & i & _ & -> & E & _)]; [constructor|].
  constructor; [by rewrite E|constructor].
Qed.

Lemma edgeCode_phi_free s d e S l V : edgeCode s d e S l V -> phi_free s l.
Proof.
  unfold edgeCode. destruct (cut_type _).
  - intros (top & bottom & _ & _ & _ & _ & l0 & V1 & c & HA & Hc & H).
    apply addsCode_phi_free in HA. apply callsCode_phi_free in Hc.
    destruct (isCounterIncrement (ed d top)).
    + destruct H as (c2 & Hc2%callsCode_phi_free & -> & _). apply Forall_app. split; [done|by repeat constructor].
    + destruct H as [-> _]. apply Forall_app. split; [done|by repeat constructor].
  - intros (l0 & V0 & H0 & H1).
    assert (phi_free s l0) as HA.
    { destruct (isInitialization (ed d e)); [destruct H0 as [-> _]; constructor|by eapply addsCode_phi_free]. }
    destruct (isCounterIncrement (ed d e)); [|by destruct H1 as [-> _]].
    destruct H1 as (c & Hc%callsCode_phi_free & -> & _). apply Forall_app. split; [done|by repeat constructor].
Qed.

(** *** The two parts of a node's code *)

Section Inv.
Context (d : BLInstrumentationDag) (s : Fn) (w : NodeId -> bool) (Q : gset EdgeId) (g : Ghost).
Context (HI : Inv d s w Q g).

Lemma post_phi_free n b : getBlock (nd d n) = Some b -> phi_free s (g_post g n).
Proof using HI.
  intros Hb. destruct (set_exists_dec Q (fun e => getSource (ed d e) = n /\ atSource d e = true))
    as [(e & He & <- & Ha)|HN].
  - pose proof (iv_edge _ _ _ _ _ HI e He) as HE. unfold EdgeEmitted in HE. rewrite Ha in HE.
    destruct HE as [HE _]. by eapply edgeCode_phi_free.
  - destruct (no_stay _ _ _ _ _ _ _ (iv_node _ _ _ _ _ HI n b Hb) HN) as (-> & _). constructor.
Qed.

Lemma pre_phi_free n b : getBlock (nd d n) = Some b -> entered d Q n ->
  (getNumberPredEdges (nd d n) <= 1)%nat -> phi_free s (g_pre g n).
Proof using HI.
  intros Hb (e & He & <-) Hp. pose proof (iv_edge _ _ _ _ _ HI e He) as HE. unfold EdgeEmitted in HE.
  destruct (atSource d e).
  - destruct HE as [_ HE]. specialize (HE ltac:(congruence)). unfold Enters in HE.
    rewrite decide_True in HE by done. destruct HE as [-> _]. constructor.
  - destruct HE as (_ & HE & _). by eapply edgeCode_phi_free.
Qed.

(** A PHI node of the pass opens its block's code and fits it. *)
Lemma inv_phi n b p l : getBlock (nd d n) = Some b -> p ∈ insts s b -> inst s p = PHINode l ->
  g_pre g n = [p] /\ PhiFor s b p l.
Proof using HI.
  intros Hb Hp Hl. pose proof (iv_node _ _ _ _ _ HI n b Hb) as HN.
  assert (p ∈ g_pre g n ++ g_post g n) as Hc.
  { rewrite <- (no_code _ _ _ _ _ _ _ HN). apply list_elem_of_filter. by rewrite Hl. }
  assert (forall k, phi_free s k -> p ∉ k) as Hfree.
  { intros k Hk Hin. unfold phi_free in Hk. rewrite Forall_forall in Hk. specialize (Hk p Hin). by rewrite Hl in Hk. }
  apply elem_of_app in Hc as [Hc|Hc]; [|by destruct (Hfree _ (post_phi_free n b Hb))].
  destruct (entered_dec d Q n) as [He|He].
  2:{ destruct (no_blank _ _ _ _ _ _ _ HN He) as [_ Eg]. unfold g_pre in Hc. rewrite Eg in Hc.
      by apply not_elem_of_nil in Hc. }
  destruct (decide (getNumberPredEdges (nd d n) <= 1)%nat) as [Hn|Hn];
    [by destruct (Hfree _ (pre_phi_free n b Hb He Hn))|].
  pose proof (no_join _ _ _ _ _ _ _ HN He ltac:(lia)) as HJ. destruct (w n).
  - destruct HJ as (q & k & _ & Eq & _ & HP). rewrite Eq in Hc |- *. apply list_elem_of_singleton in Hc as <-.
    split; [done|]. assert (k = l) as -> by (destruct HP; congruence). done.
  - destruct HJ as [_ Eq]. rewrite Eq in Hc. by apply not_elem_of_nil in Hc.
Qed.

Lemma inv_phis_fit n b : getBlock (nd d n) = Some b -> PhisFit s b.
Proof using HI LF.
  intros Hb p l Hp Hl. destruct (inv_phi n b p l Hb Hp Hl) as [Ep [_ HC]]. split.
  - apply (Permutation_count_occ Nat.eq_dec). intros c. rewrite HC.
    symmetry. apply pred_count, HI.
  - exists (g_post g n). rewrite (no_code _ _ _ _ _ _ _ (iv_node _ _ _ _ _ HI n b Hb)), Ep.
    split; [done|]. by eapply post_phi_free.
Qed.

End Inv.

End WellFormed.

(** C39: the pass leaves well-formed PHI nodes.  In every block of the
    instrumented function's DAG, blocks added by splits included, a PHI node
    created by the pass has exactly one entry for each edge into the block,
    it is the first instruction of the pass in its block, and there is no
    second one; and this holds even when an edge could not be split and a
    warning was printed. *)
Theorem phi_nodes_fit_their_blocks `{LS : !LLVMSpec L} `{LF : !LLVMFlow L} `{BS : !BallLarusOpsSpec B}
    buildDag code arr ft c (F : Fn) er rank :
  Handed (buildDag F) er rank -> Mirrors (buildDag F) er F ->
  exists ft' c' st, runOnFunction buildDag code arr ft c F = Ok (ft', c', st) /\
    forall n b, getBlock (nd (dag st) n) = Some b -> PhisFit (fn st) b.
Proof.
  intros HH HM. destruct (marked_exists _ er rank HH) as (d1 & Hm & _).
  destruct (marked_prepared _ er rank F HH HM d1 Hm) as [w HP].
  destruct (prepared_run _ F w er HP) as (st & w' & Q & g & E & HR & _).
  do 2 eexists. exists st. split.
  - unfold runOnFunction. rewrite Hm. cbn [deref mbind result_bind].
    rewrite (stores_nothing _ er rank HH arr d1 Hm), E. reflexivity.
  - intros n b Hb. eapply inv_phis_fit; [apply HR|done].
Qed.

Lemma Ok_third {A B C} (a a' : A) (b b' : B) (c c' : C) : Ok (a, b, c) = Ok (a', b', c') -> c = c'.
Proof. congruence. Qed.

(** In the example two of the blocks get a PHI node. *)
Lemma phi_nodes_fit_their_blocks_witness :
  PhisFit (fn exampleOut.2) 1%nat /\ PhisFit (fn exampleOut.2) 3%nat /\
  map (fun b => map (inst (fn exampleOut.2)) (code (fn exampleOut.2) b)) [1; 3]%nat =
    [[PHINode [(ConstantInt 0, 0%nat); (ConstantInt 4, 5%nat)]];
     [PHINode [(Instruction 109%nat, 2%nat); (Instruction 114%nat, 6%nat)]]].
Proof.
  destruct (phi_nodes_fit_their_blocks (fun _ => exampleLoop) (fun _ => 2) (fun _ => 0%nat) []
    (MkCounters 0 0) (exampleFn : @Fn ListLLVM) 0%nat (rankOf exampleRank) exampleLoop_handed exampleLoop_mirrors)
    as (ft' & c' & st & E & H).
  pose proof (Ok_third _ _ _ _ _ _ (eq_trans (eq_sym exampleOut_eq) E)) as Est.
  assert (map (fun n => getBlock (nd (dag exampleOut.2) n)) [1; 3]%nat = [Some 1; Some 3]%nat) as Hb
    by (vm_compute; reflexivity).
  rewrite Est in Hb. injection Hb as Hb1 Hb3. split; [rewrite Est; exact (H _ _ Hb1)|].
  split; [rewrite Est; exact (H _ _ Hb3)|]. vm_compute. reflexivity.
Defined.
