(* ===== verification/WholeModule.v ===== *)
(** * The pass on a whole module

    [PathProfiler::runOnModule] (src/PathLogging.cpp) over functions whose DAGs
    LLVM built as documented: the run succeeds, and every function it leaves
    reports its paths ([Report]) and has well-formed PHI nodes ([WellFormed]). *)

From stdpp Require Import base numbers list gmap fin_sets.
From S2P Require Import Prelude Dag BallLarus Push Marking MarkFrame IR ListIR.
From S2P Require Import Instrument Execution Emitted Insertion Placement Emission Emit SplitStep.
From S2P Require Import Flow Simulation Pipeline Labels Report WellFormed.

Local Open Scope Z_scope.

Section WholeModule.
Context `{LS : !LLVMSpec L} `{LF : !LLVMFlow L} `{BS : !BallLarusOpsSpec B}.
Context (buildDag : Fn -> BLInstrumentationDag) (code : ProfilingType -> Z) (arr : Z -> GlobalId).

(** LLVM built the function's DAG as documented, entered by [er]. *)
Definition Documented (s : Fn) (er : EdgeId) : Prop :=
  (exists rank, Handed (buildDag s) er rank) /\ Mirrors (buildDag s) er s.

(** [F'] is what [F] is to become: a function that reports the paths of [F]'s
    DAG, entered at the block [rb] of its root. *)
Definition reporting (F F' : ModuleFunction) : Prop :=
  match F, F' with
  | None, None => True
  | Some s, Some s' => exists er rb, Documented s er /\
      getBlock (nd (buildDag s) (getRoot (buildDag s))) = Some rb /\ ReportsPaths (buildDag s) er s s' rb
  | _, _ => False
  end.

Lemma runOnModule_reports M m : Forall (fun F => forall s, F = Some s -> exists er, Documented s er) M ->
  exists m' fs ws, foldR (runOnModuleFunction buildDag code arr) m M = Ok m' /\
    functions m' = functions m ++ fs /\ moduleWarnings m' = moduleWarnings m ++ ws /\
    Forall2 (fun F F' => is_Some F <-> is_Some F') M fs /\ (ws = [] -> Forall2 reporting M fs).
Proof using LF BS.
  intros HM. revert m. induction HM as [|F M HF HM IH]; intros m; cbn [foldR].
  { exists m, [], []. rewrite !app_nil_r. split_and!; done. }
  destruct F as [s|]; cbn [runOnModuleFunction].
  - destruct (HF s eq_refl) as (er & [rank HH] & HMi).
    destruct (pass_reports _ er rank s HH HMi buildDag code arr (ftInit m) (pathCounters m) eq_refl)
      as (st & -> & HR). cbn [mbind result_bind].
    match goal with |- context [foldR ?f ?x M] => destruct (IH x) as (m' & fs & ws & -> & E1 & E2 & E3 & E4) end.
    simpl in E1, E2. exists m', (Some (fn st) :: fs), (warnings st ++ ws).
    rewrite E1, E2, <- !app_assoc. split_and!; try done.
    + constructor; [|done]. split; by eexists.
    + intros [Hw Hws]%app_eq_nil. constructor; [|by apply E4].
      destruct (mr_root _ _ _ HMi) as [rb Hrb]. exists er, rb. split; [by split; [exists rank|]|]. split; [done|].
      by apply HR.
  - cbn [mbind result_bind].
    match goal with |- context [foldR ?f ?x M] => destruct (IH x) as (m' & fs & ws & -> & E1 & E2 & E3 & E4) end.
    simpl in E1, E2. exists m', (None :: fs), ws. rewrite E1, E2, <- app_assoc.
    split_and!; try done; [by constructor|]. intros Hws. constructor; [done|by apply E4].
Qed.

End WholeModule.

(** C40: on a module every body of which has a DAG as documented [runOnModule]
    succeeds, keeps declarations and bodies in their places, and unless it
    printed a warning leaves in the place of every body a function that
    reports, along each of its complete paths, exactly the numbers of the DAG
    paths the path consists of. *)
Theorem module_reports_its_paths `{LS : !LLVMSpec L} `{LF : !LLVMFlow L} `{BS : !BallLarusOpsSpec B}
    buildDag code arr c (M : list ModuleFunction) :
  Forall (fun F => forall s, F = Some s -> exists er, Documented buildDag s er) M ->
  exists m, runOnModule buildDag code arr c M = Ok m /\
    Forall2 (fun F F' => is_Some F <-> is_Some F') M (functions m) /\
    (moduleWarnings m = [] -> Forall2 (reporting buildDag) M (functions m)).
Proof.
  intros HM. destruct (runOnModule_reports buildDag code arr M (MkModule [] [] c 0 []) HM)
    as (m & fs & ws & E & E1 & E2 & E3 & E4). simpl in E1, E2. exists m. by rewrite E1, E2.
Qed.

(** A declaration and the example twice. *)
Definition exampleModule : list (@ModuleFunction ListLLVM) := [None; Some exampleFn; Some exampleFn].

Lemma module_reports_its_paths_witness :
  exists m, runOnModule (fun _ => exampleLoop) (fun _ => 2) (fun _ => 0%nat) (MkCounters 0 0) exampleModule = Ok m /\
    moduleWarnings m = [] /\ Forall2 (reporting (fun _ => exampleLoop)) exampleModule (functions m).
Proof.
  destruct (module_reports_its_paths (fun _ => exampleLoop) (fun _ => 2) (fun _ => 0%nat) (MkCounters 0 0)
    exampleModule) as (m & E & _ & H).
  - constructor; [intros s; discriminate|].
    do 2 (constructor; [intros s [= <-]; exists 0%nat; split;
      [exists (rankOf exampleRank); exact exampleLoop_handed|exact exampleLoop_mirrors]|]). constructor.
  - exists m. split; [exact E|].
    assert (moduleWarnings m = []) as Hw.
    { assert (match runOnModule (fun _ => exampleLoop) (fun _ => 2) (fun _ => 0%nat) (MkCounters 0 0) exampleModule with
              | Ok m => moduleWarnings m = [] | Err _ => True end) as Hv by (vm_compute; reflexivity).
      rewrite E in Hv. exact Hv. }
    split; [exact Hw|exact (H Hw)].
Defined.
