(* ===== verification/I386.v ===== *)
(** * Registers and memory of the i386

    What the programs with assembly in them share: src/vdso_monkeypatch.c
    ([Vdso]) and the instrumented strlen of src/libc-libio-iofputs.c and
    src/libc-sysdeps-i386-i586-strlen.S ([Strlen]); the records of the
    path-logging runtime ([PathRuntime]) are little-endian words too.  Memory is
    a finite map from addresses to bytes. *)

From stdpp Require Import base numbers list gmap.
From S2P Require Import Prelude.

Local Open Scope Z_scope.

Inductive reg : Set := EAX | ECX | EDX | EBX | ESP | EBP | ESI | EDI.

#[export] Instance reg_eq_dec : EqDecision reg.
Proof. solve_decision. Defined.

(** Little-endian words. *)
Fixpoint le_bytes (n : nat) (z : Z) : list Z :=
  match n with O => [] | S n => z mod 256 :: le_bytes n (z / 256) end.

Fixpoint le_value (l : list Z) : Z :=
  match l with [] => 0 | b :: l => b + 256 * le_value l end.

(** Memory as bytes. *)
Fixpoint write_bytes (a : Z) (l : list Z) (m : gmap Z Z) : gmap Z Z :=
  match l with [] => m | b :: l => write_bytes (a + 1) l (<[a := b]> m) end.

Fixpoint read_bytes (a : Z) (n : nat) (m : gmap Z Z) : option (list Z) :=
  match n with
  | O => Some []
  | S n => b ← m !! a; l ← read_bytes (a + 1) n m; Some (b :: l)
  end.

(** A 32-bit load and store. *)
Definition load32 (a : Z) (m : gmap Z Z) : option Z := le_value <$> read_bytes a 4 m.

Definition store32 (a v : Z) (m : gmap Z Z) : gmap Z Z := write_bytes a (le_bytes 4 v) m.

(** ** Lemmas *)

Lemma u32_id z : 0 <= z < 2 ^ 32 -> u32 z = z.
Proof. apply Z.mod_small. Qed.

Lemma le_bytes_length n z : length (le_bytes n z) = n.
Proof. revert z. induction n; intros z; simpl; auto. Qed.

Lemma le_value_bytes n z : 0 <= z < 256 ^ Z.of_nat n -> le_value (le_bytes n z) = z.
Proof.
  revert z. induction n as [|n IH]; intros z Hz; cbn [le_bytes le_value]; [simpl in Hz; lia|].
  rewrite Nat2Z.inj_succ, Z.pow_succ_r in Hz by lia. rewrite IH.
  - pose proof (Z.div_mod z 256 ltac:(lia)). lia.
  - pose proof (Z.div_pos z 256 ltac:(lia) ltac:(lia)). split; [lia|].
    apply Z.div_lt_upper_bound; lia.
Qed.

Lemma write_bytes_other l a b m : b < a \/ a + Z.of_nat (length l) <= b ->
  write_bytes a l m !! b = m !! b.
Proof.
  revert a m. induction l as [|x l IH]; intros a m H; cbn [write_bytes]; [done|].
  cbn [length] in H. rewrite IH by lia. by rewrite lookup_insert_ne by lia.
Qed.

Lemma read_write_bytes l a m : read_bytes a (length l) (write_bytes a l m) = Some l.
Proof.
  revert a m. induction l as [|x l IH]; intros a m; cbn [length read_bytes write_bytes]; [done|].
  rewrite write_bytes_other by lia. rewrite lookup_insert_eq. cbn. by rewrite IH.
Qed.

Lemma read_bytes_app n k a m l : read_bytes a (n + k) m = Some l ->
  read_bytes a n m = Some (take n l) /\ read_bytes (a + Z.of_nat n) k m = Some (drop n l).
Proof.
  revert a l. induction n as [|n IH]; intros a l; cbn [Nat.add read_bytes take drop].
  - rewrite Z.add_0_r. intros ->. by rewrite take_0.
  - destruct (m !! a) as [b|]; cbn; [|done].
    destruct (read_bytes (a + 1) (n + k) m) as [l'|] eqn:E; cbn; [|done]. intros [= <-].
    apply IH in E as [E1 E2]. rewrite E1. cbn. split; [done|].
    by replace (a + Z.of_nat (S n)) with (a + 1 + Z.of_nat n) by lia.
Qed.

Lemma read_bytes_agree n a m m' : (forall b, a <= b < a + Z.of_nat n -> m' !! b = m !! b) ->
  read_bytes a n m' = read_bytes a n m.
Proof.
  revert a. induction n as [|n IH]; intros a H; cbn [read_bytes]; [done|].
  rewrite H by lia. destruct (m !! a); cbn; [|done]. by rewrite IH by (intros; apply H; lia).
Qed.

Lemma load_store_eq a v m : 0 <= v < 2 ^ 32 -> load32 a (store32 a v m) = Some v.
Proof.
  intros Hv. unfold load32, store32. rewrite (read_write_bytes (le_bytes 4 v)). cbn [fmap option_fmap option_map].
  by rewrite le_value_bytes.
Qed.

Lemma store32_other a v b m : b < a \/ a + 4 <= b -> store32 a v m !! b = m !! b.
Proof. intros H. apply write_bytes_other. rewrite le_bytes_length. lia. Qed.

Lemma load_store_ne a v b m : b + 4 <= a \/ a + 4 <= b -> load32 b (store32 a v m) = load32 b m.
Proof.
  intros H. unfold load32. f_equal. apply read_bytes_agree. intros c Hc. apply store32_other. lia.
Qed.
