(* ===== verification/PathRuntime.v ===== *)
(** * The path-logging runtime

    src/path_logging.c: the per-thread record buffers behind
    [llvm_increment_path_count], their initialisation, flushing and disposal
    at thread exit, process exit and fork.

    [mmap] is the operating system's: a parameter that yields an unused
    address or fails ([None], [MAP_FAILED], which the code does not test and
    then dereferences).  pthread keys, [pthread_once], [atexit] and
    [pthread_atfork] are modelled by the state they keep. *)

From stdpp Require Import base numbers list gmap.
From S2P Require Import Prelude I386.

Local Open Scope Z_scope.

Definition Tid := nat.
Definition BufId := nat.

(** ** Page arithmetic and sizes *)

Definition PAGE_SIZE : Z := 4096.
Definition PAGE_MASK : Z := Z.lnot (PAGE_SIZE - 1).

(** On a [size_t] of 32 bits: both operations of the sum wrap around, and the
    mask, an [int], is converted. *)
Definition PAGE_ALIGN (x : Z) : Z := Z.land (u32 (u32 (x + PAGE_SIZE) - 1)) (u32 PAGE_MASK).

Definition PATH_RECORD_BUFFER_SIZE : Z := Z.shiftl 1 5.

(** ** Data *)

Record path_record : Set := MkRecord {
  fn : Z;        (* [void*] *)
  path : Z       (* [int32_t] *)
}.

Record path_records : Set := MkRecords {
  recs : list path_record;     (* [PATH_RECORD_BUFFER_SIZE] slots *)
  len : Z;                     (* [ssize_t len : 30] *)
  finished : Z                 (* [ssize_t finished : 1], never used *)
}.

(** A fresh anonymous mapping is zero-filled. *)
Definition zeroed : path_records :=
  MkRecords (replicate (Z.to_nat PATH_RECORD_BUFFER_SIZE) (MkRecord 0 0)) 0 0.

(** The process: [pthread_once] state, registered handlers, the thread-local
    [record_buffer] ([None]: [NULL]) and key value of every thread, the mapped
    buffers, and the writes issued to [RR_MAGIC_SAVE_DATA_FD]: by whom, of which
    records.  What the kernel makes of a write is [kept], below. *)
Record process : Set := MkProcess {
  init_process_once : bool;
  key_created : bool;
  atfork_child : bool;
  atexit_registered : bool;
  record_buffer : gmap Tid BufId;
  finish_buffer_key : gmap Tid BufId;
  memory : gmap BufId path_records;
  saved : list (Tid * list path_record)
}.

Definition process_start : process := MkProcess false false false false ∅ ∅ ∅ [].

(** ** Operations *)

(** [syscall(SYS_write, RR_MAGIC_SAVE_DATA_FD, ...)] of whole records is
    issued.  Its result has no influence: the caller does not look at it. *)
Definition sys_write (t : Tid) (l : list path_record) (p : process) : process :=
  MkProcess (init_process_once p) (key_created p) (atfork_child p) (atexit_registered p)
    (record_buffer p) (finish_buffer_key p) (memory p) (saved p ++ [(t, l)]).

Definition set_memory (m : gmap BufId path_records) (p : process) : process :=
  MkProcess (init_process_once p) (key_created p) (atfork_child p) (atexit_registered p)
    (record_buffer p) (finish_buffer_key p) m (saved p).

Definition set_len (n : Z) (b : path_records) : path_records :=
  MkRecords (recs b) n (finished b).

(** Writes the first [len] records out and resets [len], whatever came of the
    write; [None]: the buffer is not mapped. *)
Definition flush_buffer (t : Tid) (buf : BufId) (p : process) : option process :=
  b ← memory p !! buf;
  let p := sys_write t (take (Z.to_nat (len b)) (recs b)) p in
  Some (set_memory (<[buf := set_len 0 b]> (memory p)) p).

(** Clears the key and the pointer, then unmaps the old buffer (unmapping
    [NULL] has no effect on any buffer). *)
Definition drop_buffer (t : Tid) (p : process) : process :=
  MkProcess (init_process_once p) (key_created p) (atfork_child p) (atexit_registered p)
    (delete t (record_buffer p)) (delete t (finish_buffer_key p))
    (match record_buffer p !! t with Some b => delete b (memory p) | None => memory p end)
    (saved p).

Definition finish_buffer (t : Tid) (pbuf : BufId) (p : process) : option process :=
  p ← flush_buffer t pbuf p;
  Some (drop_buffer t p).

Definition finish_main_thread_buffer_hack (t : Tid) (p : process) : option process :=
  match record_buffer p !! t with
  | Some buf => finish_buffer t buf p
  | None => Some p
  end.

(** Registers the fork handler, the key with its destructor, the exit handler. *)
Definition init_process (p : process) : process :=
  MkProcess (init_process_once p) true true true (record_buffer p) (finish_buffer_key p)
    (memory p) (saved p).

Definition pthread_once_init (p : process) : process :=
  if init_process_once p then p
  else
    let p := init_process p in
    MkProcess true (key_created p) (atfork_child p) (atexit_registered p)
      (record_buffer p) (finish_buffer_key p) (memory p) (saved p).

Section Runtime.
Context (mmap : gmap BufId path_records -> option BufId).

Definition ensure_thread_init (t : Tid) (p : process) : option (BufId * process) :=
  match record_buffer p !! t with
  | Some buf => Some (buf, p)
  | None =>
      let p := pthread_once_init p in
      buf ← mmap (memory p);
      Some (buf,
        MkProcess (init_process_once p) (key_created p) (atfork_child p) (atexit_registered p)
          (<[t := buf]> (record_buffer p)) (<[t := buf]> (finish_buffer_key p))
          (<[buf := zeroed]> (memory p)) (saved p))
  end.

(** [recs[len++] = {fn, path}]; [None]: a slot outside the array. *)
Definition push_record (r : path_record) (b : path_records) : option path_records :=
  if decide (0 <= len b < Z.of_nat (length (recs b)))
  then Some (MkRecords (<[Z.to_nat (len b) := r]> (recs b)) (len b + 1) (finished b))
  else None.

Definition llvm_increment_path_count (t : Tid) (f : Z) (pth : Z) (p : process) : option process :=
  '(buf, p) ← ensure_thread_init t p;
  b ← memory p !! buf;
  b ← push_record (MkRecord f pth) b;
  let p := set_memory (<[buf := b]> (memory p)) p in
  if decide (PATH_RECORD_BUFFER_SIZE = len b) then flush_buffer t buf p else Some p.

Definition llvm_decrement_path_count (t : Tid) (f : Z) (pth : Z) (p : process) : option process :=
  Some p.

(** ** When the handlers run *)

(** Thread exit: a thread with a non-[NULL] key value has it cleared and the
    destructor called with it. *)
Definition thread_exit (t : Tid) (p : process) : option process :=
  if key_created p then
    match finish_buffer_key p !! t with
    | Some buf =>
        finish_buffer t buf
          (MkProcess (init_process_once p) (key_created p) (atfork_child p) (atexit_registered p)
             (record_buffer p) (delete t (finish_buffer_key p)) (memory p) (saved p))
    | None => Some p
    end
  else Some p.

(** [exit] called by thread [t]. *)
Definition process_exit (t : Tid) (p : process) : option process :=
  if atexit_registered p then finish_main_thread_buffer_hack t p else Some p.

(** The child of a [fork] by thread [t]: a copy of the memory with only [t]
    running; the child handler drops the inherited buffer.  [saved] of the
    child starts empty: it is what the child itself writes. *)
Definition fork_child (t : Tid) (p : process) : process :=
  let only (m : gmap Tid BufId) : gmap Tid BufId :=
    match m !! t with Some b => {[t := b]} | None => ∅ end in
  let c := MkProcess (init_process_once p) (key_created p) (atfork_child p) (atexit_registered p)
             (only (record_buffer p)) (only (finish_buffer_key p)) (memory p) [] in
  if atfork_child c then drop_buffer t c else c.

(** ** Executions *)

Inductive event : Set :=
  | Increment (t : Tid) (f : Z) (pth : Z)
  | Decrement (t : Tid) (f : Z) (pth : Z)
  | ThreadExit (t : Tid).

Definition step (p : process) (e : event) : option process :=
  match e with
  | Increment t f pth => llvm_increment_path_count t f pth p
  | Decrement t f pth => llvm_decrement_path_count t f pth p
  | ThreadExit t => thread_exit t p
  end.

Definition run (p : process) (l : list event) : option process := foldM step p l.
End Runtime.

(** *** What the kernel keeps *)

(** [sizeof(struct path_record)] and [sizeof(struct path_records)]: a pointer
    and an [int32_t]; the array and one word of bit fields. *)
Definition sizeof_path_record : Z := 4 + 4.
Definition sizeof_path_records : Z := PATH_RECORD_BUFFER_SIZE * sizeof_path_record + 4.

(** The length passed to [mmap] and to [munmap]. *)
Definition mapping_length : Z := PAGE_ALIGN sizeof_path_records.

Definition record_bytes (r : path_record) : list Z := le_bytes 4 (u32 (fn r)) ++ le_bytes 4 (u32 (path r)).

Definition records_bytes (l : list path_record) : list Z := concat (map record_bytes l).

(** [answer k] is the result of the [k]th write: how many of its bytes the
    kernel has taken, or a negative error. *)
Fixpoint kept (answer : nat -> Z) (k : nat) (writes : list (Tid * list path_record)) : list (Tid * list Z) :=
  match writes with
  | [] => []
  | (t, l) :: writes => (t, take (Z.to_nat (answer k)) (records_bytes l)) :: kept answer (S k) writes
  end.

(** The bytes kept of thread [t]. *)
Definition kept_of (t : Tid) (answer : nat -> Z) (p : process) : list Z :=
  concat (map snd (filter (fun w => w.1 = t) (kept answer 0 (saved p)))).

(** What thread [t] has written, and what it still holds. *)
Definition saved_of (t : Tid) (p : process) : list path_record :=
  concat (map snd (filter (fun w => w.1 = t) (saved p))).

Definition pending (t : Tid) (p : process) : list path_record :=
  match record_buffer p !! t with
  | Some buf => match memory p !! buf with
                | Some b => take (Z.to_nat (len b)) (recs b)
                | None => []
                end
  | None => []
  end.

(** The records thread [t] was asked to log. *)
Fixpoint logged (t : Tid) (l : list event) : list path_record :=
  match l with
  | [] => []
  | Increment t' f pth :: l => (if decide (t' = t) then [MkRecord f pth] else []) ++ logged t l
  | _ :: l => logged t l
  end.

(** ** Invariant *)

Record wf (p : process) : Prop := {
  wf_key t : finish_buffer_key p !! t = record_buffer p !! t;
  wf_mapped t b : record_buffer p !! t = Some b -> is_Some (memory p !! b);
  wf_inj t t' b : record_buffer p !! t = Some b -> record_buffer p !! t' = Some b -> t = t';
  wf_buf b x : memory p !! b = Some x ->
    Z.of_nat (length (recs x)) = PATH_RECORD_BUFFER_SIZE /\ 0 <= len x < PATH_RECORD_BUFFER_SIZE;
  wf_once : if init_process_once p
            then key_created p = true /\ atfork_child p = true /\ atexit_registered p = true
            else record_buffer p = ∅
}.

(** No buffer is mapped that no thread owns. *)
Definition no_leak (p : process) : Prop :=
  forall b, is_Some (memory p !! b) -> exists t, record_buffer p !! t = Some b.

Class MmapSpec (mmap : gmap BufId path_records -> option BufId) : Prop := {
  mmap_fresh m b : mmap m = Some b -> m !! b = None
}.

Lemma process_start_wf : wf process_start /\ no_leak process_start.
Proof.
  split; [split; try done; intros *; by rewrite ?lookup_empty|].
  intros b [x Hx]. unfold memory, process_start in Hx.
  by rewrite lookup_empty in Hx.
Qed.

Lemma wf_registered p t b : wf p -> record_buffer p !! t = Some b ->
  key_created p = true /\ atexit_registered p = true /\ init_process_once p = true.
Proof.
  intros Hp Hb. pose proof (wf_once _ Hp) as Ho. destruct (init_process_once p); [tauto|].
  rewrite Ho, lookup_empty in Hb. done.
Qed.

(** Everything thread [t] has logged so far, in order. *)
Definition history (t : Tid) (p : process) : list path_record := saved_of t p ++ pending t p.

Lemma saved_of_ext t p p' : saved p' = saved p -> saved_of t p' = saved_of t p.
Proof. unfold saved_of. by intros ->. Qed.

Lemma saved_of_write t t' l p :
  saved_of t (sys_write t' l p) = saved_of t p ++ if decide (t' = t) then l else [].
Proof.
  unfold saved_of, sys_write. simpl. rewrite filter_app, map_app, concat_app. f_equal.
  rewrite filter_cons. simpl. case_decide; simpl; by rewrite ?app_nil_r.
Qed.

Lemma pthread_once_init_spec p : wf p ->
  let p' := pthread_once_init p in
  wf p' /\ init_process_once p' = true /\ record_buffer p' = record_buffer p /\
  memory p' = memory p /\ saved p' = saved p.
Proof.
  intros Hp. unfold pthread_once_init. destruct (init_process_once p) eqn:E; [done|]. simpl.
  split_and!; try done. destruct Hp. by split.
Qed.

Section Effects.
Context (mmap : gmap BufId path_records -> option BufId) `{Hm : !MmapSpec mmap}.

(** Afterwards the thread owns a mapped buffer, and no record moved. *)
Lemma ensure_thread_init_spec t p buf p' : wf p -> ensure_thread_init mmap t p = Some (buf, p') ->
  wf p' /\ record_buffer p' !! t = Some buf /\ saved p' = saved p /\
  (forall t', pending t' p' = pending t' p) /\ (no_leak p -> no_leak p').
Proof using Hm.
  intros Hp. unfold ensure_thread_init. destruct (record_buffer p !! t) as [b|] eqn:Eb.
  { intros [= -> ->]. done. }
  destruct (pthread_once_init_spec p Hp) as (Hp1 & Ho & Er & Em & Es).
  set (p1 := pthread_once_init p) in *. rewrite Em.
  destruct (mmap (memory p)) as [b|] eqn:Emm; [|done]. intros [= -> <-].
  apply mmap_fresh in Emm.
  assert (forall t' b', record_buffer p1 !! t' = Some b' -> b' <> buf) as Hne.
  { intros t' b' Hb' ->. destruct (wf_mapped _ Hp1 t' buf Hb') as [x Hx].
    rewrite Em in Hx. congruence. }
  split_and!; simpl; try done.
  - split; simpl.
    + intros t'. rewrite !lookup_insert. case_decide; [done|]. apply (wf_key _ Hp1).
    + intros t' b' Hb'. rewrite lookup_insert in Hb'. rewrite lookup_insert.
      repeat case_decide; simplify_eq; try by eauto.
      rewrite <- Em. by eapply wf_mapped.
    + intros t1 t2 b'. rewrite !lookup_insert. repeat case_decide; intros H1 H2; simplify_eq; try done.
      * by apply Hne in H2.
      * by apply Hne in H1.
      * by eapply (wf_inj _ Hp1).
    + intros b' x. rewrite lookup_insert. case_decide; intros Hx; simplify_eq; [done|].
      rewrite <- Em in Hx. by eapply wf_buf.
    + rewrite Ho. pose proof (wf_once _ Hp1) as H. by rewrite Ho in H.
  - by rewrite lookup_insert_eq.
  - intros t'. unfold pending. simpl. rewrite lookup_insert. case_decide as Ht; subst.
    + rewrite lookup_insert_eq, Eb. done.
    + rewrite <- Er. destruct (record_buffer p1 !! t') as [b'|] eqn:Eb'; [|done].
      rewrite lookup_insert_ne; [done|]. apply Hne in Eb'. congruence.
  - intros Hl b' [x Hx]. simpl in *. rewrite lookup_insert in Hx. case_decide; subst.
    + exists t. by rewrite lookup_insert_eq.
    + destruct (Hl b' ltac:(by eauto)) as (t' & Ht'). exists t'.
      rewrite lookup_insert_ne; [by rewrite Er|congruence].
Qed.

Lemma push_record_spec r b b' : Z.of_nat (length (recs b)) = PATH_RECORD_BUFFER_SIZE ->
  push_record r b = Some b' ->
  Z.of_nat (length (recs b')) = PATH_RECORD_BUFFER_SIZE /\ len b' = len b + 1 /\ 0 <= len b /\
  take (Z.to_nat (len b')) (recs b') = take (Z.to_nat (len b)) (recs b) ++ [r].
Proof using.
  intros Hl. unfold push_record. case_decide as Hr; [|done]. intros [= <-]. simpl.
  rewrite length_insert. split_and!; try done; try lia.
  replace (Z.to_nat (len b + 1)) with (S (Z.to_nat (len b))) by lia.
  rewrite (take_S_r _ _ r).
  - by rewrite take_insert_ge by lia.
  - apply list_lookup_insert_eq. lia.
Qed.

(** Changing the contents of a thread's own buffer. *)
Lemma set_buffer_spec t buf x p : wf p -> record_buffer p !! t = Some buf ->
  Z.of_nat (length (recs x)) = PATH_RECORD_BUFFER_SIZE -> 0 <= len x < PATH_RECORD_BUFFER_SIZE ->
  let p' := set_memory (<[buf := x]> (memory p)) p in
  wf p' /\ pending t p' = take (Z.to_nat (len x)) (recs x) /\
  (forall t', t' <> t -> pending t' p' = pending t' p) /\ (no_leak p -> no_leak p').
Proof using.
  intros Hp Hb Hx Hl p'. split_and!.
  - destruct Hp as [K M I B O]. split; simpl; try done.
    + intros t' b' Hb'. rewrite lookup_insert. case_decide; [by eauto|by eapply M].
    + intros b' y. rewrite lookup_insert. case_decide; intros E; simplify_eq; [done|by eapply B].
  - unfold pending, p'. simpl. by rewrite Hb, lookup_insert_eq.
  - intros t' Ht. unfold pending, p'. simpl.
    destruct (record_buffer p !! t') as [b'|] eqn:Eb'; [|done].
    rewrite lookup_insert_ne; [done|]. intros ->. apply Ht. by eapply (wf_inj _ Hp).
  - intros HL b' [y Hy]. unfold p' in *. simpl in *. rewrite lookup_insert in Hy.
    case_decide; simplify_eq; [by eauto|]. by apply HL.
Qed.

Lemma wf_write t l p : wf p -> wf (sys_write t l p).
Proof using. intros []. by split. Qed.

(** Flushing a thread's buffer [x] writes its records and empties it. *)
Lemma flush_buffer_eq t buf x p :
  flush_buffer t buf (set_memory (<[buf := x]> (memory p)) p) =
    Some (sys_write t (take (Z.to_nat (len x)) (recs x))
            (set_memory (<[buf := set_len 0 x]> (memory p)) p)).
Proof using.
  unfold flush_buffer. simpl. rewrite lookup_insert_eq. simpl. by rewrite insert_insert_eq.
Qed.

(** Storing a record in a thread's own buffer, and flushing it when full. *)
Lemma store_spec t buf b b' r p p' : wf p -> record_buffer p !! t = Some buf ->
  memory p !! buf = Some b -> push_record r b = Some b' ->
  (let p1 := set_memory (<[buf := b']> (memory p)) p in
   if decide (PATH_RECORD_BUFFER_SIZE = len b') then flush_buffer t buf p1 else Some p1) = Some p' ->
  wf p' /\ (no_leak p -> no_leak p') /\
  history t p' = history t p ++ [r] /\
  (forall t', t' <> t -> saved_of t' p' = saved_of t' p /\ pending t' p' = pending t' p) /\
  (saved p' = saved p \/
   exists l, saved p' = saved p ++ [(t, l)] /\ Z.of_nat (length l) = PATH_RECORD_BUFFER_SIZE).
Proof using.
  intros Hp Hb Eb Ep. destruct (wf_buf _ Hp buf b Eb) as [Hlen Hrange].
  destruct (push_record_spec _ b b' Hlen Ep) as (Hlen' & Hl' & H0 & Htake).
  assert (pending t p = take (Z.to_nat (len b)) (recs b)) as Epend
    by (unfold pending; by rewrite Hb, Eb).
  cbn zeta. unfold history. case_decide as Hfull.
  - rewrite flush_buffer_eq. intros [= <-].
    destruct (set_buffer_spec t buf (set_len 0 b') p Hp Hb Hlen' ltac:(simpl; rewrite Hfull; lia))
      as (Hw & Hpt & Hpo & HL).
    set (q := set_memory _ p) in *. split_and!; [by apply wf_write|done| | |].
    + rewrite saved_of_write, decide_True by done. change (pending t (sys_write t ?l q)) with (pending t q).
      rewrite Hpt, (saved_of_ext t p q), Htake, Epend by done. simpl. by rewrite app_nil_r, app_assoc.
    + intros t' Ht. rewrite saved_of_write, decide_False, app_nil_r by congruence.
      split; [done|by apply Hpo].
    + right. eexists. split; [done|]. rewrite length_take. lia.
  - intros [= <-].
    destruct (set_buffer_spec t buf b' p Hp Hb Hlen' ltac:(lia)) as (Hw & Hpt & Hpo & HL).
    split_and!; [done|done| | |by left].
    + rewrite Hpt, Htake, Epend. by rewrite app_assoc.
    + intros t' Ht. split; [done|by apply Hpo].
Qed.

(** Logging adds one record to the thread's history and touches no other
    thread; buffered records leave only through a full flush. *)
Lemma increment_spec t f pth p p' : wf p -> llvm_increment_path_count mmap t f pth p = Some p' ->
  wf p' /\ (no_leak p -> no_leak p') /\
  history t p' = history t p ++ [MkRecord f pth] /\
  (forall t', t' <> t -> saved_of t' p' = saved_of t' p /\ pending t' p' = pending t' p) /\
  (saved p' = saved p \/
   exists l, saved p' = saved p ++ [(t, l)] /\ Z.of_nat (length l) = PATH_RECORD_BUFFER_SIZE).
Proof using Hm.
  intros Hp. unfold llvm_increment_path_count.
  destruct (ensure_thread_init mmap t p) as [[buf p1]|] eqn:E; [|done]. simpl.
  destruct (ensure_thread_init_spec t p buf p1 Hp E) as (Hp1 & Hb & Hs & Hpend & HL).
  destruct (memory p1 !! buf) as [b|] eqn:Eb; [|done]. simpl.
  destruct (push_record _ b) as [b'|] eqn:Ep; [|done]. simpl. intros H.
  destruct (store_spec t buf b b' (MkRecord f pth) p1 p') as (? & ? & Hh & Ho & Hsv); try done.
  unfold history in *. rewrite (saved_of_ext t p p1), Hpend in Hh by done.
  rewrite <- Hs. split_and!; auto.
  intros t' Ht. destruct (Ho t' Ht) as [-> ->]. by rewrite (saved_of_ext t' p p1), Hpend.
Qed.

(** The process after the owner of [buf] disposed of it. *)
Lemma finish_buffer_eq t buf b p : record_buffer p !! t = Some buf -> memory p !! buf = Some b ->
  finish_buffer t buf p =
    Some (MkProcess (init_process_once p) (key_created p) (atfork_child p) (atexit_registered p)
            (delete t (record_buffer p)) (delete t (finish_buffer_key p)) (delete buf (memory p))
            (saved p ++ [(t, take (Z.to_nat (len b)) (recs b))])).
Proof using.
  intros Hb Eb. unfold finish_buffer, flush_buffer. rewrite Eb. simpl. unfold drop_buffer. simpl.
  by rewrite Hb, delete_insert_eq.
Qed.

(** Disposal by the owner: everything it logged is written, its buffer is
    unmapped, the other threads keep theirs. *)
Lemma finish_buffer_spec t buf p : wf p -> record_buffer p !! t = Some buf ->
  exists p', finish_buffer t buf p = Some p' /\ wf p' /\ (no_leak p -> no_leak p') /\
    saved_of t p' = history t p /\ record_buffer p' !! t = None /\ memory p' = delete buf (memory p) /\
    (forall t', t' <> t -> saved_of t' p' = saved_of t' p /\ pending t' p' = pending t' p) /\
    (exists l, saved p' = saved p ++ [(t, l)] /\ Z.of_nat (length l) < PATH_RECORD_BUFFER_SIZE).
Proof using.
  intros Hp Hb. destruct (wf_mapped _ Hp t buf Hb) as [b Eb].
  destruct (wf_buf _ Hp buf b Eb) as [Hlen Hrange].
  rewrite (finish_buffer_eq t buf b) by done. eexists; split; [done|].
  assert (forall t' b', t' <> t -> record_buffer p !! t' = Some b' -> buf <> b') as Hne.
  { intros t' b' Ht Hb' <-. apply Ht. by eapply (wf_inj _ Hp). }
  set (p' := MkProcess _ _ _ _ _ _ _ _). split_and!.
  - split; simpl.
    + intros t'. rewrite !lookup_delete. case_decide; [done|]. apply (wf_key _ Hp).
    + intros t' b' Hb'. rewrite lookup_delete in Hb'. case_decide; [done|].
      rewrite lookup_delete_ne; [by eapply wf_mapped|]. by eapply Hne.
    + intros t1 t2 b'. rewrite !lookup_delete. repeat case_decide; try done. apply (wf_inj _ Hp).
    + intros b' x. rewrite lookup_delete. case_decide; [done|]. apply (wf_buf _ Hp).
    + pose proof (wf_once _ Hp) as Ho. destruct (init_process_once p); [done|].
      by rewrite Ho, delete_empty.
  - intros HL b' [x Hx]. simpl in *. rewrite lookup_delete in Hx. case_decide; [done|].
    destruct (HL b' ltac:(by eauto)) as [t' Ht']. exists t'.
    rewrite lookup_delete_ne; [done|]. intros ->. congruence.
  - unfold history, pending. rewrite Hb, Eb.
    change (saved_of t p') with (saved_of t (sys_write t (take (Z.to_nat (len b)) (recs b)) p)).
    by rewrite saved_of_write, decide_True.
  - apply lookup_delete_eq.
  - done.
  - intros t' Ht. split.
    + change (saved_of t' p') with (saved_of t' (sys_write t (take (Z.to_nat (len b)) (recs b)) p)).
      by rewrite saved_of_write, decide_False, app_nil_r by congruence.
    + unfold pending. simpl. rewrite lookup_delete_ne by congruence.
      destruct (record_buffer p !! t') as [b'|] eqn:Eb'; [|done].
      rewrite lookup_delete_ne; [done|]. by eapply Hne.
  - eexists. split; [done|]. rewrite length_take. lia.
Qed.

Lemma pending_none t p : record_buffer p !! t = None -> pending t p = [].
Proof using. unfold pending. by intros ->. Qed.

(** The destructor of the key does exactly [finish_buffer] on the thread's
    own buffer, or nothing if the thread has none. *)
Lemma thread_exit_eq t p : wf p ->
  thread_exit t p = match record_buffer p !! t with
                    | Some buf => finish_buffer t buf p
                    | None => Some p
                    end.
Proof using.
  intros Hp. unfold thread_exit. rewrite (wf_key _ Hp).
  destruct (record_buffer p !! t) as [buf|] eqn:Hb; [|by destruct (key_created p)].
  destruct (wf_registered p t buf Hp Hb) as (Hk & _). rewrite Hk.
  destruct (wf_mapped _ Hp t buf Hb) as [b Eb].
  rewrite !(finish_buffer_eq t buf b) by done. simpl. by rewrite delete_delete_eq, Hk.
Qed.

Lemma thread_exit_spec t p : wf p ->
  exists p', thread_exit t p = Some p' /\ wf p' /\ (no_leak p -> no_leak p') /\
    saved_of t p' = history t p /\ record_buffer p' !! t = None /\
    memory p' = match record_buffer p !! t with Some buf => delete buf (memory p) | None => memory p end /\
    (forall t', t' <> t -> saved_of t' p' = saved_of t' p /\ pending t' p' = pending t' p) /\
    (saved p' = saved p \/
     exists l, saved p' = saved p ++ [(t, l)] /\ Z.of_nat (length l) < PATH_RECORD_BUFFER_SIZE).
Proof using.
  intros Hp. rewrite thread_exit_eq by done. destruct (record_buffer p !! t) as [buf|] eqn:Hb.
  - destruct (finish_buffer_spec t buf p Hp Hb) as (p' & E & ? & ? & ? & ? & ? & ? & ?).
    exists p'. split_and!; auto.
  - exists p. unfold history. rewrite pending_none, app_nil_r by done. split_and!; auto.
Qed.
End Effects.

(** ** Whole executions *)

Section Executions.
Context (mmap : gmap BufId path_records -> option BufId) `{Hm : !MmapSpec mmap}.

Lemma history_split t p p' : saved_of t p' = saved_of t p /\ pending t p' = pending t p ->
  history t p' = history t p.
Proof using. unfold history. by intros [-> ->]. Qed.

(** Every step extends the histories by exactly what it logs. *)
Lemma step_history p e p' : wf p -> step mmap p e = Some p' ->
  wf p' /\ (no_leak p -> no_leak p') /\ forall t, history t p' = history t p ++ logged t [e].
Proof using Hm.
  intros Hp. destruct e as [t f pth|t f pth|t]; simpl.
  - intros E. destruct (increment_spec mmap t f pth p p' Hp E) as (Hw & HL & Hh & Ho & _).
    split_and!; [done|done|]. intros t'. rewrite app_nil_r. case_decide; subst; [done|].
    rewrite app_nil_r. apply history_split, Ho. congruence.
  - intros [= <-]. split_and!; try done. intros t'. by rewrite app_nil_r.
  - intros E. destruct (thread_exit_spec t p Hp) as (p2 & E2 & Hw & HL & Hs & Hn & _ & Ho & _).
    rewrite E in E2. simplify_eq. split_and!; [done|done|]. intros t'. rewrite app_nil_r.
    destruct (decide (t' = t)) as [->|Hne]; [|by apply history_split, Ho].
    unfold history at 1. by rewrite pending_none, app_nil_r.
Qed.

Lemma logged_app t l1 l2 : logged t (l1 ++ l2) = logged t l1 ++ logged t l2.
Proof using.
  induction l1 as [|[] l1 IH]; simpl; try done. rewrite IH. by rewrite app_assoc.
Qed.

Lemma run_history p l p' : wf p -> run mmap p l = Some p' ->
  wf p' /\ (no_leak p -> no_leak p') /\ forall t, history t p' = history t p ++ logged t l.
Proof using Hm.
  intros Hp. unfold run.
  apply (foldM_ind _ (fun pre x => wf x /\ (no_leak p -> no_leak x) /\
                                   forall t, history t x = history t p ++ logged t pre)).
  - split_and!; try done. intros t. by rewrite app_nil_r.
  - intros pre e post x x' _ (Hw & HL & Hh) E.
    destruct (step_history x e x' Hw E) as (Hw' & HL' & Hh').
    split_and!; [done|auto|]. intros t. by rewrite Hh', Hh, logged_app, app_assoc.
Qed.

(** With memory always available no step gets stuck. *)
Lemma step_total p e : (forall m, is_Some (mmap m)) -> wf p -> is_Some (step mmap p e).
Proof using Hm.
  intros Htot Hp. destruct e as [t f pth|t f pth|t]; simpl; [|by eauto|].
  - unfold llvm_increment_path_count.
    assert (exists buf p1, ensure_thread_init mmap t p = Some (buf, p1)) as (buf & p1 & E).
    { unfold ensure_thread_init. destruct (record_buffer p !! t); [by eauto|].
      destruct (Htot (memory (pthread_once_init p))) as [b ->]. simpl. by eauto. }
    rewrite E. simpl. destruct (ensure_thread_init_spec mmap t p buf p1 Hp E) as (Hp1 & Hb & _).
    destruct (wf_mapped _ Hp1 t buf Hb) as [b Eb]. rewrite Eb. simpl.
    destruct (wf_buf _ Hp1 buf b Eb) as [Hlen Hrange].
    unfold push_record. rewrite decide_True by lia. simpl. case_decide; [|by eauto].
    rewrite flush_buffer_eq. by eauto.
  - destruct (thread_exit_spec t p Hp) as (p' & -> & _). by eauto.
Qed.

Lemma run_total p0 l : (forall m, is_Some (mmap m)) -> wf p0 -> exists p, run mmap p0 l = Some p.
Proof using Hm.
  intros Htot Hp0. destruct (foldM_is_Some (step mmap) wf l p0) as (p & E & _); [done| |by eauto].
  intros e x _ Hx. destruct (step_total x e Htot Hx) as [x' E]. exists x'. split; [done|].
  by apply (step_history x e x').
Qed.
End Executions.

(** ** Fork *)

Lemma only_delete (m : gmap Tid BufId) t :
  delete t (match m !! t with Some b => {[t := b]} | None => ∅ end) = (∅ : gmap Tid BufId).
Proof. destruct (m !! t); [apply delete_singleton_eq|apply delete_empty]. Qed.

Lemma fork_child_empty t p : wf p ->
  record_buffer (fork_child t p) = ∅ /\ finish_buffer_key (fork_child t p) = ∅ /\
  saved (fork_child t p) = [] /\
  (forall b x, memory (fork_child t p) !! b = Some x -> memory p !! b = Some x).
Proof.
  intros Hp. unfold fork_child. simpl. pose proof (wf_once _ Hp) as Ho.
  destruct (atfork_child p) eqn:Ea.
  - unfold drop_buffer. simpl. rewrite !only_delete. split_and!; try done.
    intros b x Hx. repeat case_match; try done; rewrite lookup_delete in Hx; by case_decide.
  - destruct (init_process_once p); [naive_solver|]. simpl.
    rewrite (wf_key _ Hp), Ho, lookup_empty. by split_and!.
Qed.

Lemma fork_child_wf t p : wf p -> wf (fork_child t p).
Proof.
  intros Hp. destruct (fork_child_empty t p Hp) as (Er & Ek & _ & Em). split.
  - intros t'. by rewrite Er, Ek.
  - intros t' b. by rewrite Er, lookup_empty.
  - intros t1 t2 b. by rewrite Er, lookup_empty.
  - intros b x Hx. apply (wf_buf _ Hp b). by apply Em.
  - assert (init_process_once (fork_child t p) = init_process_once p /\
            key_created (fork_child t p) = key_created p /\
            atfork_child (fork_child t p) = atfork_child p /\
            atexit_registered (fork_child t p) = atexit_registered p) as (-> & -> & -> & ->)
      by (unfold fork_child; simpl; by destruct (atfork_child p)).
    pose proof (wf_once _ Hp) as Ho. by destruct (init_process_once p).
Qed.

(** ** Properties *)

(** A first-fit allocator, for concrete runs. *)
Definition mmap_first (m : gmap BufId path_records) : option BufId := Some (fresh (dom m)).

#[export] Instance mmap_first_spec : MmapSpec mmap_first.
Proof. split. intros m b [= <-]. apply not_elem_of_dom, is_fresh. Qed.

(** C9: as long as memory can be mapped, any sequence of logging calls and
    thread exits runs without touching an unmapped buffer or a slot outside
    the array, and at every point each thread's writes followed by what its
    buffer holds are exactly the records it was asked to log, in order; less
    than one buffer is held back, and no buffer is mapped that no thread owns. *)
Theorem runtime_logs_every_record mmap (Hm : MmapSpec mmap) l :
  (forall m, is_Some (mmap m)) ->
  exists p, run mmap process_start l = Some p /\ wf p /\ no_leak p /\
    forall t, saved_of t p ++ pending t p = logged t l /\
      Z.of_nat (length (pending t p)) < PATH_RECORD_BUFFER_SIZE.
Proof.
  intros Htot. destruct process_start_wf as [Hw0 HL0].
  destruct (run_total mmap process_start l Htot Hw0) as [p E]. exists p.
  destruct (run_history mmap process_start l p Hw0 E) as (Hw & HL & Hh).
  split_and!; auto. intros t. split.
  - exact (Hh t).
  - unfold pending. destruct (record_buffer p !! t) as [b|]; [|done].
    destruct (memory p !! b) as [x|] eqn:Eb; [|done].
    destruct (wf_buf _ Hw b x Eb). rewrite length_take. lia.
Qed.

Lemma runtime_logs_every_record_witness :
  exists p, run mmap_first process_start
      [Increment 0%nat 16 3; Increment 1%nat 16 5; ThreadExit 1%nat; Increment 0%nat 32 4] = Some p /\
    saved_of 1%nat p ++ pending 1%nat p = [MkRecord 16 5] /\
    saved_of 0%nat p ++ pending 0%nat p = [MkRecord 16 3; MkRecord 32 4].
Proof.
  destruct (runtime_logs_every_record mmap_first mmap_first_spec
      [Increment 0%nat 16 3; Increment 1%nat 16 5; ThreadExit 1%nat; Increment 0%nat 32 4]) as (p & E & _ & _ & H).
  - intros m. by eexists.
  - exists p. split; [exact E|]. split; [exact (proj1 (H 1%nat))|exact (proj1 (H 0%nat))].
Defined.

(** C10: when a thread exits, everything it ever logged has been written, once
    and in order; its buffer, if it has one, is unmapped, and no other memory
    is, so that after any run no buffer is mapped that no thread owns; no other
    thread's records move. *)
Theorem thread_exit_saves_everything mmap (Hm : MmapSpec mmap) l p t :
  run mmap process_start l = Some p ->
  exists p', thread_exit t p = Some p' /\ saved_of t p' = logged t l /\
    record_buffer p' !! t = None /\
    memory p' = match record_buffer p !! t with Some buf => delete buf (memory p) | None => memory p end /\
    no_leak p' /\
    forall t', t' <> t -> saved_of t' p' = saved_of t' p /\ pending t' p' = pending t' p.
Proof.
  intros E. destruct process_start_wf as [Hw0 HL0].
  destruct (run_history mmap process_start l p Hw0 E) as (Hw & HL & Hh).
  destruct (thread_exit_spec t p Hw) as (p' & Ex & _ & HL' & Hs & Hn & Hmem & Ho & _).
  exists p'. split_and!; auto. rewrite Hs. exact (Hh t).
Qed.

Lemma thread_exit_saves_everything_witness :
  exists p p', run mmap_first process_start [Increment 0%nat 16 3; Increment 7%nat 16 5; Increment 0%nat 8 1] = Some p /\
    thread_exit 0%nat p = Some p' /\ saved_of 0%nat p' = [MkRecord 16 3; MkRecord 8 1] /\
    size (memory p) = 2%nat /\ size (memory p') = 1%nat.
Proof.
  set (p := default process_start (run mmap_first process_start
    [Increment 0%nat 16 3; Increment 7%nat 16 5; Increment 0%nat 8 1])).
  assert (run mmap_first process_start [Increment 0%nat 16 3; Increment 7%nat 16 5; Increment 0%nat 8 1] = Some p)
    as E by (vm_compute; reflexivity).
  destruct (thread_exit_saves_everything mmap_first mmap_first_spec _ p 0%nat E) as (p' & Ex & Hs & _ & Hmem & _).
  exists p, p'. split; [exact E|]. split; [exact Ex|]. split; [exact Hs|]. split; [vm_compute; reflexivity|].
  rewrite Hmem. vm_compute. reflexivity.
Defined.

(** C11: after a fork the child holds nothing of its parent's records: whatever
    the forking thread then logs in the child is all the child ever writes or
    holds for it. *)
Theorem fork_child_starts_clean mmap (Hm : MmapSpec mmap) l p t l' c :
  run mmap process_start l = Some p ->
  run mmap (fork_child t p) l' = Some c ->
  forall t', saved_of t' c ++ pending t' c = logged t' l'.
Proof.
  intros E E' t'. destruct process_start_wf as [Hw0 _].
  destruct (run_history mmap process_start l p Hw0 E) as (Hw & _ & _).
  destruct (run_history mmap (fork_child t p) l' c (fork_child_wf t p Hw) E') as (_ & _ & Hh).
  destruct (fork_child_empty t p Hw) as (Er & _ & Es & _).
  assert (history t' (fork_child t p) = []) as H0.
  { unfold history, saved_of. rewrite Es, pending_none; [done|]. by rewrite Er, lookup_empty. }
  specialize (Hh t'). rewrite H0 in Hh. exact Hh.
Qed.

Lemma fork_child_starts_clean_witness :
  exists p c, run mmap_first process_start [Increment 0%nat 16 3; Increment 1%nat 16 5] = Some p /\
    run mmap_first (fork_child 0%nat p) [Increment 0%nat 8 9] = Some c /\
    saved_of 0%nat c ++ pending 0%nat c = [MkRecord 8 9].
Proof.
  destruct (run_total mmap_first process_start [Increment 0%nat 16 3; Increment 1%nat 16 5])
    as [p E]; [intros m; by eexists|apply process_start_wf|].
  destruct (run_total mmap_first (fork_child 0%nat p) [Increment 0%nat 8 9]) as [c E'].
  - intros m. by eexists.
  - apply fork_child_wf. eapply (run_history mmap_first); [apply process_start_wf|exact E].
  - exists p, c. split; [exact E|]. split; [exact E'|].
    exact (fork_child_starts_clean mmap_first mmap_first_spec _ p 0%nat _ c E E' 0%nat).
Defined.

(** *** The writes *)

Lemma kept_app answer k l1 l2 :
  kept answer k (l1 ++ l2) = kept answer k l1 ++ kept answer (k + length l1) l2.
Proof.
  revert k. induction l1 as [|[t l] l1 IH]; intros k; cbn [app kept length]; [by rewrite Nat.add_0_r|].
  by rewrite IH, Nat.add_succ_r.
Qed.

(** When every write is taken whole, the bytes kept of a thread are those of the
    records it has written. *)
Lemma kept_whole t answer p :
  (forall k w, saved p !! k = Some w -> answer k = Z.of_nat (length (records_bytes w.2))) ->
  kept_of t answer p = records_bytes (saved_of t p).
Proof.
  intros H. unfold kept_of, saved_of.
  assert (forall k l, (forall i w, l !! i = Some w -> answer (k + i)%nat = Z.of_nat (length (records_bytes w.2))) ->
    concat (map snd (filter (fun w => w.1 = t) (kept answer k l))) =
    records_bytes (concat (map snd (filter (fun w => w.1 = t) l)))) as Hl; [|by apply (Hl 0%nat)].
  intros k l. revert k. induction l as [|[t' r] l IH]; intros k Hk; cbn [kept]; [done|].
  rewrite !filter_cons. cbn [fst]. pose proof (Hk 0%nat (t', r) eq_refl) as H0. rewrite Nat.add_0_r in H0.
  assert (forall i w, l !! i = Some w -> answer (S k + i)%nat = Z.of_nat (length (records_bytes w.2))) as Hk'
    by (intros i w Hi; rewrite <- (Hk (S i) w Hi); f_equal; lia).
  case_decide; [|by apply IH]. cbn [map snd concat]. rewrite IH by done. rewrite H0, Nat2Z.id, firstn_all.
  unfold records_bytes. by rewrite map_app, concat_app.
Qed.

(** A write the kernel refuses loses its records: the buffer is emptied all the
    same, and nothing of them has been kept. *)
Lemma refused_write_loses_records t buf b p answer : memory p !! buf = Some b ->
  answer (length (saved p)) <= 0 ->
  exists p', flush_buffer t buf p = Some p' /\ memory p' !! buf = Some (set_len 0 b) /\
    forall t', kept_of t' answer p' = kept_of t' answer p.
Proof.
  intros Eb Ha. unfold flush_buffer. rewrite Eb. eexists. split; [done|]. split; [apply lookup_insert_eq|].
  intros t'. unfold kept_of. cbn [set_memory sys_write saved]. rewrite kept_app. cbn [kept Nat.add].
  rewrite filter_app, map_app, concat_app. replace (Z.to_nat (answer (length (saved p)))) with 0%nat by lia.
  rewrite take_0, filter_cons. case_decide; cbn; by rewrite app_nil_r.
Qed.

(** *** The mapping *)

#[local] Ltac Zify.zify_post_hook ::= Z.div_mod_to_equations.

(** C12: on 32-bit lengths [PAGE_ALIGN] rounds up to the next multiple of the
    page size as long as there is one that fits, which is up to the start of
    the last page; beyond, the sum wraps around and the result is 0.  The
    length the runtime maps and unmaps is one page, and holds the records. *)
Theorem PAGE_ALIGN_spec x : 0 <= x < 2 ^ 32 ->
  PAGE_ALIGN x mod PAGE_SIZE = 0 /\
  (x <= 2 ^ 32 - PAGE_SIZE -> x <= PAGE_ALIGN x < x + PAGE_SIZE /\ PAGE_ALIGN x < 2 ^ 32) /\
  (2 ^ 32 - PAGE_SIZE < x -> PAGE_ALIGN x = 0) /\
  mapping_length = PAGE_SIZE /\ sizeof_path_records <= mapping_length.
Proof.
  intros Hx. assert (PAGE_ALIGN x = (x + 4095) mod 2 ^ 32 / 4096 * 4096) as E.
  { unfold PAGE_ALIGN, PAGE_MASK, PAGE_SIZE, u32, wrapU. rewrite Zminus_mod_idemp_l.
    replace (x + 4096 - 1) with (x + 4095) by lia. set (y := (x + 4095) mod 2 ^ 32).
    assert (0 <= y < 2 ^ 32) as Hy by (apply Z.mod_pos_bound; lia).
    transitivity (Z.ldiff y (Z.ones 12)); [|by rewrite Z.ldiff_ones_r, Z.shiftl_mul_pow2, Z.shiftr_div_pow2 by lia].
    rewrite <- (Z.mod_small y (2 ^ 32)) at 2 by done. rewrite <- !Z.land_ones by lia.
    change (Z.land (Z.lnot (4096 - 1)) (Z.ones 32)) with (Z.land (Z.ones 32) (Z.lnot (Z.ones 12))).
    rewrite Z.land_assoc. by rewrite Z.ldiff_land. }
  rewrite E. unfold PAGE_SIZE. split; [apply Z_mod_mult|].
  split; [intros H; rewrite Z.mod_small by lia; lia|].
  split; [intros H; rewrite <- (Z.mod_add _ (-1)), Z.mod_small by lia; lia|]. split; by vm_compute.
Qed.

Lemma PAGE_ALIGN_spec_witness : PAGE_ALIGN 260 = 4096 /\ 260 <= PAGE_ALIGN 260 < 260 + PAGE_SIZE /\
  PAGE_ALIGN (2 ^ 32 - 1) = 0.
Proof.
  split; [by vm_compute|]. split.
  - apply (PAGE_ALIGN_spec 260); [lia|]. by vm_compute.
  - apply (PAGE_ALIGN_spec (2 ^ 32 - 1)); [lia|]. by vm_compute.
Defined.
