(* ===== verification/Profile.v ===== *)
(** * What a run leaves in the log

    The instrumented function and the runtime together.  The calls that the
    pass inserts (src/PathLogging.cpp) are calls of [llvm_increment_path_count]
    with the function's address (src/path_logging.c): a run along any complete
    path appends to the thread's log the records of the DAG paths that the run
    consists of, and the log tells which run it was. *)

From stdpp Require Import base numbers list gmap fin_sets.
From S2P Require Import PathRuntime.
From S2P Require Import Prelude Dag BallLarus Marking IR ListIR Instrument Execution Emitted.
From S2P Require Import Insertion Emission Simulation Pipeline Labels Report.

Local Open Scope Z_scope.

(** The runtime calls a thread makes when the function at address [f] reports
    the numbers [out]. *)
Definition calls (t : Tid) (f : Z) (out : list Z) : list event := map (Increment t f) out.

Lemma logged_calls t t' f out :
  logged t' (calls t f out) = if decide (t = t') then map (MkRecord f) out else [].
Proof. induction out as [|z out IH]; simpl; [by case_decide|]. rewrite IH. by case_decide. Qed.

(** The records of a route. *)
Definition records (d : BLInstrumentationDag) (f : Z) (l : list EdgeId) : list path_record :=
  map (fun s => MkRecord f (i32 (path_number d s))) (segments d [] l).

(** What is reported tells the route. *)
Lemma reports_tell_the_route d er rank l1 l2 :
  BallLarusDag d er rank -> Numbered d er -> OwnTops d -> getNumberOfPaths d <= 2 ^ 32 ->
  route d er (getRoot d) l1 (getExit d) -> route d er (getRoot d) l2 (getExit d) ->
  map (fun s => i32 (path_number d s)) (segments d [] l1) = map (fun s => i32 (path_number d s)) (segments d [] l2) ->
  l1 = l2.
Proof.
  intros HB HN HO Hb H1 H2 E. apply (segments_inj d er rank [] (getRoot d) l1 l2 (getExit d)); try done.
  eapply numbers_identify; try done; eapply segments_paths; try done; constructor.
Qed.

(** *** The example *)

(** Once round the loop and out; block 5 splits the backedge, block 6 the edge
    past the conditional. *)
Lemma exampleOut_path : complete_path (Instrument.fn exampleOut.2) 0%nat [1; 2; 3; 5; 1; 6; 3; 4]%nat.
Proof. apply checkPath_sound. by vm_compute. Qed.

Lemma exampleLoop_numbered : Numbered exampleLoop 0%nat.
Proof. apply (checkNumbered_sound exampleLoop 0%nat (rankOf exampleRank) exampleLoop_dag). by vm_compute. Qed.

Lemma exampleLoop_tops : OwnTops exampleLoop.
Proof.
  assert (Forall (fun e => cut_type (getType (ed exampleLoop e)) = true -> e = 5%nat) (_edges exampleLoop)) as H
    by (apply (bool_decide_unpack _); by vm_compute).
  rewrite Forall_forall in H. intros e e' t He He' Hc Hc' _ _. by rewrite (H e He Hc), (H e' He' Hc').
Qed.

(** C5: when the pass printed no warning, a run of the instrumented function is
    logged: whatever the state of the process, the calls along any complete
    path succeed as long as memory can be mapped, and append to the thread's
    log (the writes it has issued and what its buffer holds) exactly the
    records of the run's DAG paths, in order; other threads' logs stay as they
    are. *)
Theorem runs_are_logged `{LS : !LLVMSpec L} `{LF : !LLVMFlow L} `{BS : !BallLarusOpsSpec B}
    buildDag code arr ft c (F : Fn) er rank ft' c' st rb bs mmap t f p :
  Handed (buildDag F) er rank -> Mirrors (buildDag F) er F ->
  runOnFunction buildDag code arr ft c F = Ok (ft', c', st) -> warnings st = [] ->
  getBlock (nd (buildDag F) (getRoot (buildDag F))) = Some rb -> complete_path (Instrument.fn st) rb bs ->
  MmapSpec mmap -> (forall m, is_Some (mmap m)) -> wf p ->
  exists l env out p', route (buildDag F) er (getRoot (buildDag F)) l (getExit (buildDag F)) /\
    filter (fun b => original F b = true) bs = blocksOf (buildDag F) l /\
    execBlocks (Instrument.fn st) None (rb :: bs) (∅, []) = Some (env, out) /\
    PathRuntime.run mmap p (calls t f out) = Some p' /\ wf p' /\
    history t p' = history t p ++ records (buildDag F) f l /\
    forall t', t' <> t -> history t' p' = history t' p.
Proof.
  intros HH HM E Hw Hrb Hbs Hmm Htot Hp.
  destruct (pass_reports _ er rank F HH HM buildDag code arr ft c eq_refl) as (st' & E' & HR).
  rewrite E in E'. injection E' as -> -> <-. destruct (HR Hw rb Hrb) as [H _].
  destruct (H bs Hbs) as (l & env & Hl & Hf & He).
  destruct (run_total mmap p (calls t f (map (fun s => i32 (path_number (buildDag F) s)) (segments (buildDag F) [] l))) Htot Hp)
    as [p' Ep].
  destruct (run_history mmap p _ p' Hp Ep) as (Hp' & _ & Hh).
  eexists l, env, _, p'. split_and!; [exact Hl|exact Hf|exact He|exact Ep|exact Hp'| |].
  - rewrite Hh, logged_calls, decide_True by done. unfold records. by rewrite map_map.
  - intros t' Ht. rewrite Hh, logged_calls, decide_False by done. by rewrite app_nil_r.
Qed.

Lemma runs_are_logged_witness :
  exists l env out p', PathRuntime.run mmap_first process_start (calls 3%nat 4096 out) = Some p' /\
    filter (fun b => original (exampleFn : @Fn ListLLVM) b = true) [1; 2; 3; 5; 1; 6; 3; 4]%nat = blocksOf exampleLoop l /\
    execBlocks (Instrument.fn exampleOut.2) None [0; 1; 2; 3; 5; 1; 6; 3; 4]%nat (∅, []) = Some (env, out) /\
    history 3%nat p' = records exampleLoop 4096 l.
Proof.
  destruct (runs_are_logged (fun _ => exampleLoop) (fun _ => 2) (fun _ => 0%nat) [] (MkCounters 0 0)
    (exampleFn : @Fn ListLLVM) 0%nat (rankOf exampleRank) exampleOut.1.1 exampleOut.1.2 exampleOut.2 0%nat
    [1; 2; 3; 5; 1; 6; 3; 4]%nat mmap_first 3%nat 4096 process_start exampleLoop_handed exampleLoop_mirrors
    exampleOut_eq ltac:(vm_compute; reflexivity) eq_refl exampleOut_path mmap_first_spec)
    as (l & env & out & p' & _ & Hf & He & Ep & _ & Hh & _).
  - intros m. by eexists.
  - exact (proj1 process_start_wf).
  - exists l, env, out, p'. split; [exact Ep|]. split; [exact Hf|]. split; [exact He|exact Hh].
Defined.

(** C6: the log identifies the run: when the pass printed no warning, LLVM
    numbered the paths as Ball and Larus prescribe, the path numbers fit in 32
    bits and every backedge has a top phony edge of its own, two complete runs
    of the instrumented function that make the same calls went through the
    same blocks of the original function. *)
Theorem log_identifies_the_run `{LS : !LLVMSpec L} `{LF : !LLVMFlow L} `{BS : !BallLarusOpsSpec B}
    buildDag code arr ft c (F : Fn) er rank ft' c' st rb bs1 bs2 env1 env2 out :
  Handed (buildDag F) er rank -> Mirrors (buildDag F) er F ->
  Numbered (buildDag F) er -> OwnTops (buildDag F) -> getNumberOfPaths (buildDag F) <= 2 ^ 32 ->
  runOnFunction buildDag code arr ft c F = Ok (ft', c', st) -> warnings st = [] ->
  getBlock (nd (buildDag F) (getRoot (buildDag F))) = Some rb ->
  complete_path (Instrument.fn st) rb bs1 -> complete_path (Instrument.fn st) rb bs2 ->
  execBlocks (Instrument.fn st) None (rb :: bs1) (∅, []) = Some (env1, out) ->
  execBlocks (Instrument.fn st) None (rb :: bs2) (∅, []) = Some (env2, out) ->
  filter (fun b => original F b = true) bs1 = filter (fun b => original F b = true) bs2.
Proof.
  intros HH HM HN HO Hb E Hw Hrb H1 H2 E1 E2.
  destruct (pass_reports _ er rank F HH HM buildDag code arr ft c eq_refl) as (st' & E' & HR).
  rewrite E in E'. injection E' as -> -> <-. destruct (HR Hw rb Hrb) as [H _].
  destruct (H bs1 H1) as (l1 & e1 & R1 & F1 & X1), (H bs2 H2) as (l2 & e2 & R2 & F2 & X2).
  rewrite F1, F2. f_equal. rewrite E1 in X1. rewrite E2 in X2. injection X1 as _ X1. injection X2 as _ X2.
  eapply reports_tell_the_route; try done; [apply HH|]. congruence.
Qed.

(** Twice round the loop and once make different calls. *)
Lemma exampleOut_once : complete_path (Instrument.fn exampleOut.2) 0%nat [1; 6; 3; 4]%nat.
Proof. apply checkPath_sound. by vm_compute. Qed.

Lemma log_identifies_the_run_witness :
  (exists env, execBlocks (Instrument.fn exampleOut.2) None [0; 1; 2; 3; 5; 1; 6; 3; 4]%nat (∅, []) = Some (env, [0; 7])) /\
  (exists env out, execBlocks (Instrument.fn exampleOut.2) None [0; 1; 6; 3; 4]%nat (∅, []) = Some (env, out) /\
     out <> [0; 7]).
Proof.
  destruct (execBlocks (Instrument.fn exampleOut.2) None [0; 1; 2; 3; 5; 1; 6; 3; 4]%nat (∅, [])) as [[env1 out]|] eqn:E1;
    [|vm_compute in E1; discriminate E1].
  assert (out = [0; 7]) as -> by (vm_compute in E1; injection E1 as _ <-; reflexivity).
  split; [by exists env1|].
  destruct (execBlocks (Instrument.fn exampleOut.2) None [0; 1; 6; 3; 4]%nat (∅, [])) as [[env2 out]|] eqn:E2;
    [|vm_compute in E2; discriminate E2].
  exists env2, out. split; [reflexivity|]. intros ->.
  pose proof (log_identifies_the_run (fun _ => exampleLoop) (fun _ => 2) (fun _ => 0%nat) [] (MkCounters 0 0)
    (exampleFn : @Fn ListLLVM) 0%nat (rankOf exampleRank) exampleOut.1.1 exampleOut.1.2 exampleOut.2 0%nat
    [1; 2; 3; 5; 1; 6; 3; 4]%nat [1; 6; 3; 4]%nat env1 env2 [0; 7] exampleLoop_handed exampleLoop_mirrors
    exampleLoop_numbered exampleLoop_tops ltac:(vm_compute; discriminate) exampleOut_eq ltac:(vm_compute; reflexivity)
    eq_refl exampleOut_path exampleOut_once E1 E2) as H.
  vm_compute in H. discriminate H.
Defined.
