(* ===== verification/Strtoul.v ===== *)
(** * Numbers on the command line

    [strtoul(s, NULL, 0)] of the C library, which src/status2text.c and
    src/strfutexcmd.c apply to their arguments, and the formats %lu and %lx
    they and their users write numbers with.  Text is a list of bytes. *)

From stdpp Require Import base numbers list.
From S2P Require Import Prelude.

Local Open Scope Z_scope.

(** [unsigned long] of the 32-bit programs. *)
Definition ULONG_MAX : Z := 2 ^ 32 - 1.

Definition isspace (c : Z) : bool := (c =? 32) || ((9 <=? c) && (c <=? 13)).

(** The value of a digit or letter. *)
Definition digit_of (c : Z) : option Z :=
  if (48 <=? c) && (c <=? 57) then Some (c - 48)
  else if (97 <=? c) && (c <=? 122) then Some (c - 97 + 10)
  else if (65 <=? c) && (c <=? 90) then Some (c - 65 + 10)
  else None.

Definition is_digit (base c : Z) : bool :=
  match digit_of c with Some d => d <? base | None => false end.

(** The longest prefix of digits, as a number without bound. *)
Fixpoint digits_value (base acc : Z) (s : list Z) : Z :=
  match s with
  | [] => acc
  | c :: s => if is_digit base c then digits_value base (acc * base + default 0 (digit_of c)) s else acc
  end.

Fixpoint skip_space (s : list Z) : list Z :=
  match s with
  | c :: s' => if isspace c then skip_space s' else s
  | [] => []
  end.

Definition sign (s : list Z) : bool * list Z :=
  match s with
  | c :: s' => if c =? 45 then (true, s') else if c =? 43 then (false, s') else (false, s)
  | [] => (false, [])
  end.

(** The base a number is written in: 0x and a hexadecimal digit, 0, or none of
    them. *)
Definition base_of (s : list Z) : Z * list Z :=
  match s with
  | [] => (10, [])
  | c :: s' =>
      if negb (c =? 48) then (10, s)
      else
        match s' with
        | x :: d :: _ =>
            if ((x =? 120) || (x =? 88)) && is_digit 16 d then (16, drop 2 s) else (8, s)
        | _ => (8, s)
        end
  end.

Definition strtoul (s : list Z) : Z :=
  let '(negative, s) := sign (skip_space s) in
  let '(base, s) := base_of s in
  let v := digits_value base 0 s in
  if ULONG_MAX <? v then ULONG_MAX else if negative : bool then u32 (- v) else v.

(** ** Writing *)

Definition digit (d : Z) : Z := if d <? 10 then 48 + d else 97 + (d - 10).

(** The digits of [n], the last one first. *)
Fixpoint digits_rev (fuel : nat) (base n : Z) : list Z :=
  match fuel with
  | O => []
  | S fuel => digit (n mod base) :: (if n / base =? 0 then [] else digits_rev fuel base (n / base))
  end.

(** 32 digits are enough for 32 bits in any base. *)
Definition format_lu (n : Z) : list Z := rev (digits_rev 32 10 n).
Definition format_lx (n : Z) : list Z := rev (digits_rev 32 16 n).

(** ** Reading what was written *)

Lemma digit_spec base d : 0 <= d < base -> base <= 16 ->
  is_digit base (digit d) = true /\ digit_of (digit d) = Some d /\
  isspace (digit d) = false /\ digit d <> 45 /\ digit d <> 43 /\ (digit d = 48 <-> d = 0).
Proof.
  intros Hd Hb. unfold is_digit. assert (digit_of (digit d) = Some d) as E.
  { unfold digit_of, digit. destruct (Z.ltb_spec d 10).
    - assert ((48 <=? 48 + d) && (48 + d <=? 57) = true) as -> by lia. f_equal. lia.
    - assert ((48 <=? 97 + (d - 10)) && (97 + (d - 10) <=? 57) = false) as -> by lia.
      assert ((97 <=? 97 + (d - 10)) && (97 + (d - 10) <=? 122) = true) as -> by lia. f_equal. lia. }
  rewrite E. unfold digit, isspace. destruct (Z.ltb_spec d 10); split_and!; try done; lia.
Qed.

(** Numbers read digit by digit, a last digit at a time. *)
Lemma digits_value_app base acc s c : 0 < base -> Forall (fun c => is_digit base c = true) s ->
  digits_value base acc (s ++ [c]) =
    if is_digit base c then digits_value base acc s * base + default 0 (digit_of c) else digits_value base acc s.
Proof.
  intros Hb Hs. revert acc. induction Hs as [|x s Hx Hs IH]; intros acc; cbn [app digits_value]; [done|].
  by rewrite Hx, IH.
Qed.

Lemma digits_rev_digits fuel base n : 0 < base <= 16 -> 0 <= n ->
  Forall (fun c => is_digit base c = true) (digits_rev fuel base n).
Proof.
  intros Hb. revert n. induction fuel as [|fuel IH]; intros n Hn; cbn [digits_rev]; [constructor|].
  pose proof (Z.mod_pos_bound n base ltac:(lia)). constructor; [by destruct (digit_spec base (n mod base)); [lia..|]|].
  destruct (_ =? 0); [constructor|]. apply IH. apply Z.div_pos; lia.
Qed.

Lemma digits_value_rev fuel base n : 1 < base <= 16 -> 0 <= n < base ^ Z.of_nat fuel -> (0 < fuel)%nat ->
  digits_value base 0 (rev (digits_rev fuel base n)) = n.
Proof.
  intros Hb. revert n. induction fuel as [|fuel IH]; intros n Hn Hf; [lia|]. cbn [digits_rev rev].
  pose proof (Z.mod_pos_bound n base ltac:(lia)). pose proof (Z.div_mod n base ltac:(lia)).
  destruct (digit_spec base (n mod base)) as (E1 & E2 & _); [done|lia|].
  destruct (Z.eqb_spec (n / base) 0) as [E|E].
  - cbn [rev app digits_value]. rewrite E1, E2. cbn. lia.
  - rewrite digits_value_app, E1, E2; [|lia|].
    2:{ apply Forall_rev. apply digits_rev_digits; [lia|]. apply Z.div_pos; lia. }
    rewrite Nat2Z.inj_succ, Z.pow_succ_r in Hn by lia.
    rewrite IH; [cbn; lia| |].
    + split; [apply Z.div_pos; lia|]. apply Z.div_lt_upper_bound; lia.
    + destruct fuel; [|lia]. cbn in Hn. exfalso. apply E. apply Z.div_small. lia.
Qed.

(** The first digit of a number is not zero, unless the number is. *)
Lemma first_digit fuel base n : 1 < base <= 16 -> 0 <= n < base ^ Z.of_nat fuel -> (0 < fuel)%nat ->
  exists d s, rev (digits_rev fuel base n) = digit d :: s /\ 0 <= d < base /\ (n <> 0 -> d <> 0) /\ (n = 0 -> d = 0 /\ s = []).
Proof.
  intros Hb. revert n. induction fuel as [|fuel IH]; intros n Hn Hf; [lia|]. cbn [digits_rev rev].
  pose proof (Z.mod_pos_bound n base ltac:(lia)). pose proof (Z.div_mod n base ltac:(lia)).
  destruct (Z.eqb_spec (n / base) 0) as [E|E].
  - exists (n mod base), []. rewrite E in *. cbn [rev app]. split_and!; try done; try lia. split; [lia|done].
  - rewrite Nat2Z.inj_succ, Z.pow_succ_r in Hn by lia.
    assert (0 < fuel)%nat by (destruct fuel; [|lia]; cbn in Hn; exfalso; apply E, Z.div_small; lia).
    destruct (IH (n / base)) as (d & s & -> & Hd & Hnz & _); [|done|].
    { split; [apply Z.div_pos; lia|]. apply Z.div_lt_upper_bound; lia. }
    exists d, (s ++ [digit (n mod base)]). split_and!; [done|lia|lia|auto|].
    intros ->. rewrite Z.div_0_l in E by lia. done.
Qed.

(** What is written with %lu reads back, and so does what is written with
    0x%lx. *)
Lemma strtoul_format n : 0 <= n <= ULONG_MAX ->
  strtoul (format_lu n) = n /\ strtoul ([48; 120] ++ format_lx n) = n.
Proof.
  unfold ULONG_MAX. intros Hn.
  assert (n < 10 ^ Z.of_nat 32) by (etransitivity; [apply Z.lt_succ_r; apply Hn|done]).
  assert (n < 16 ^ Z.of_nat 32) by (etransitivity; [apply Z.lt_succ_r; apply Hn|done]).
  assert (ULONG_MAX <? n = false) as Hle by (unfold ULONG_MAX; lia). split.
  - unfold strtoul, format_lu. destruct (first_digit 32 10 n) as (d & s & E & Hd & Hnz & Hz); [lia|lia|lia|].
    pose proof (digits_value_rev 32 10 n ltac:(lia) ltac:(lia) ltac:(lia)) as Hv. rewrite E in *.
    destruct (digit_spec 10 d Hd ltac:(lia)) as (_ & _ & Hs & H45 & H43 & H48).
    cbn [skip_space]. rewrite Hs. cbn [sign]. rewrite (proj2 (Z.eqb_neq _ _) H45), (proj2 (Z.eqb_neq _ _) H43).
    cbn [base_of]. destruct (Z.eq_dec n 0) as [->|Hne]; [destruct (Hz eq_refl) as [-> ->]; done|].
    rewrite (proj2 (Z.eqb_neq (digit d) 48)) by tauto. cbn [negb]. by rewrite Hv, Hle.
  - unfold strtoul, format_lx. destruct (first_digit 32 16 n) as (d & s & E & Hd & _); [lia|lia|lia|].
    pose proof (digits_value_rev 32 16 n ltac:(lia) ltac:(lia) ltac:(lia)) as Hv. rewrite E in *.
    destruct (digit_spec 16 d Hd ltac:(lia)) as (H16 & _).
    cbn [app skip_space isspace sign base_of Z.eqb Z.leb Z.compare Pos.eqb Pos.compare Pos.compare_cont orb andb negb drop].
    rewrite H16. cbn [andb drop]. by rewrite Hv, Hle.
Qed.
