(* ===== verification/WaitStatus.v ===== *)
(** * Decoding wait statuses

    The status words [waitpid] returns, as the tools read them:
    src/status2text.c prints them, [dump_status] of src/notify_desched.c,
    src/rpc_syscall.c and src/sysemu.c (the same function three times) reports
    them and says whether the child is still there, and [PTRACE_EVENT] of
    src/status2text.c and src/regtrace.c extracts the ptrace event.  The [W*]
    macros are the C library's, on a 32-bit [int]. *)

From stdpp Require Import base numbers list strings pretty.
From S2P Require Import Prelude Strtoul.

Local Open Scope Z_scope.

(** ** <sys/wait.h> *)

Definition WTERMSIG (s : Z) : Z := Z.land s 0x7f.
Definition WEXITSTATUS (s : Z) : Z := Z.shiftr (Z.land s 0xff00) 8.
Definition WSTOPSIG (s : Z) : Z := WEXITSTATUS s.
Definition WIFEXITED (s : Z) : bool := WTERMSIG s =? 0.
Definition WIFSIGNALED (s : Z) : bool := (0 <? WTERMSIG s) && (WTERMSIG s <? 0x7f).
Definition WIFSTOPPED (s : Z) : bool := Z.land s 0xff =? 0x7f.
Definition WIFCONTINUED (s : Z) : bool := s =? 0xffff.
Definition WCOREDUMP (s : Z) : bool := negb (Z.land s 0x80 =? 0).

(** ** The tools' code *)

Definition PTRACE_EVENT (s : Z) : Z := Z.shiftr (Z.land 0xFF0000 s) 16.

(** What status2text.c prints for one argument, after the hexadecimal echo. *)
Inductive report : Set :=
  | ExitedWithCode (code : Z)
  | TerminatedBySignal (sig : Z) (dumpedCore : bool)
  | StoppedBySignal (sig : Z) (ptraceEvent : option Z)
  | ResumedBySIGCONT
  | UnknownStatus.

#[export] Instance report_eq_dec : EqDecision report.
Proof. solve_decision. Defined.

Definition status2text (status : Z) : report :=
  if WIFEXITED status then ExitedWithCode (WEXITSTATUS status)
  else if WIFSIGNALED status then TerminatedBySignal (WTERMSIG status) (WCOREDUMP status)
  else if WIFSTOPPED status then
    let ptrace_event := PTRACE_EVENT status in
    StoppedBySignal (WSTOPSIG status) (if ptrace_event =? 0 then None else Some ptrace_event)
  else if WIFCONTINUED status then ResumedBySIGCONT
  else UnknownStatus.

(** The line itself. *)
Definition report_text (r : report) : string :=
  match r with
  | ExitedWithCode c => "exited with code " +:+ pretty c
  | TerminatedBySignal s core =>
      "terminated by signal " +:+ pretty s +:+ (if core then " (dumped core)" else "")
  | StoppedBySignal s ev =>
      "stopped by signal " +:+ pretty s +:+
      match ev with Some e => " (ptrace event " +:+ pretty e +:+ ")" | None => "" end
  | ResumedBySIGCONT => "resumed by SIGCONT"
  | UnknownStatus => "unknown status"
  end.

(** [main] of status2text.c: the usage, or for each argument the status echoed
    with %lx and what is said of it; and the exit code. *)
Inductive printed : Set :=
  | Usage (exe : list Z)
  | Line (status : list Z) (r : report).

Definition main (argv : list (list Z)) : list printed * Z :=
  if decide (length argv < 2)%nat then ([Usage (default [] (head argv))], 1)
  else
    (map (fun arg => let status := strtoul arg in Line ([48; 120] ++ format_lx status) (status2text status))
       (tail argv), 0).

(** The echo of a status is itself an argument for the same status. *)
Lemma main_echoes exe s l : Forall (fun s => 0 <= s <= ULONG_MAX) (s :: l) ->
  main (exe :: map (fun s => [48; 120] ++ format_lx s) (s :: l)) =
    (map (fun s => Line ([48; 120] ++ format_lx s) (status2text s)) (s :: l), 0).
Proof.
  intros Hl. unfold main. rewrite decide_False by (cbn; lia). cbn [tail]. rewrite map_map. f_equal.
  apply map_ext_Forall. eapply Forall_impl; [exact Hl|]. intros x Hx. cbv beta zeta.
  by rewrite (proj2 (strtoul_format x Hx)).
Qed.

(** The message of [dump_status], and its result: 1 while there is a child. *)
Inductive dumped : Set :=
  | DumpStopped (sig : Z)
  | DumpContinued
  | DumpExited (code : Z)
  | DumpTerminated (sig : Z)
  | DumpRunning.

#[export] Instance dumped_eq_dec : EqDecision dumped.
Proof. solve_decision. Defined.

Definition dump_status (status : Z) : dumped * Z :=
  if WIFSTOPPED status then (DumpStopped (WSTOPSIG status), 1)
  else if WIFCONTINUED status then (DumpContinued, 1)
  else if WIFEXITED status then (DumpExited (WEXITSTATUS status), 0)
  else if WIFSIGNALED status then (DumpTerminated (WTERMSIG status), 0)
  else (DumpRunning, 1).

(** ** The kernel's encoding

    What [wait] stores for each event (the inverse of the macros). *)

Definition exit_status (code : Z) : Z := Z.shiftl code 8.
Definition signal_status (sig : Z) (core : bool) : Z := sig + (if core then 0x80 else 0).
Definition stop_status (sig event : Z) : Z := Z.shiftl event 16 + Z.shiftl sig 8 + 0x7f.
Definition continued_status : Z := 0xffff.

(** ** Arithmetic of the masks *)

Lemma land_ones_mod s n : 0 <= n -> Z.land s (2 ^ n - 1) = s mod 2 ^ n.
Proof. intros Hn. rewrite <- Z.land_ones by done. by rewrite Z.ones_equiv, Z.sub_1_r. Qed.

Lemma WTERMSIG_mod s : WTERMSIG s = s mod 128.
Proof. apply (land_ones_mod s 7). lia. Qed.

Lemma low_byte_mod s : Z.land s 0xff = s mod 256.
Proof. apply (land_ones_mod s 8). lia. Qed.

(** A byte field at bit [k]. *)
Lemma byte_field s k : 0 <= k -> Z.shiftr (Z.land s (Z.shiftl 255 k)) k = s / 2 ^ k mod 256.
Proof.
  intros Hk. rewrite Z.shiftr_land, (Z.shiftr_shiftl_l 255 k k) by lia.
  rewrite Z.sub_diag. cbn [Z.shiftl]. rewrite Z.shiftr_div_pow2 by done. apply low_byte_mod.
Qed.

Lemma WEXITSTATUS_div s : WEXITSTATUS s = s / 256 mod 256.
Proof. apply (byte_field s 8). lia. Qed.

Lemma PTRACE_EVENT_div s : PTRACE_EVENT s = s / 65536 mod 256.
Proof. unfold PTRACE_EVENT. rewrite Z.land_comm. apply (byte_field s 16). lia. Qed.

Lemma WCOREDUMP_div s : WCOREDUMP s = negb (s / 128 mod 2 =? 0).
Proof.
  unfold WCOREDUMP.
  assert (Z.land s 0x80 = 128 * (s / 128 mod 2)) as ->.
  { transitivity (Z.land s (Z.shiftl 1 7)); [done|].
    transitivity (s / 2 ^ 7 mod 2 ^ 1 * 2 ^ 7); [|rewrite Z.mul_comm; done].
    rewrite <- (land_ones_mod (s / 2 ^ 7) 1), <- (Z.shiftr_div_pow2 s 7),
      <- (Z.shiftl_mul_pow2 _ 7) by lia.
    change (2 ^ 1 - 1) with 1.
    apply Z.bits_inj'. intros n Hn. rewrite Z.land_spec, !Z.shiftl_spec by done.
    destruct (Z.ltb_spec n 7).
    - rewrite !(Z.testbit_neg_r _ (n - 7)) by lia. by rewrite andb_false_r.
    - rewrite Z.land_spec, Z.shiftr_spec by lia. by replace (n - 7 + 7) with n by lia. }
  pose proof (Z.mod_pos_bound (s / 128) 2 ltac:(lia)). f_equal.
  destruct (Z.eqb_spec (128 * (s / 128 mod 2)) 0), (Z.eqb_spec (s / 128 mod 2) 0); lia.
Qed.

(** The macros as arithmetic. *)
Lemma macros s :
  WIFEXITED s = (s mod 128 =? 0) /\
  WIFSIGNALED s = ((0 <? s mod 128) && (s mod 128 <? 127)) /\
  WIFSTOPPED s = (s mod 256 =? 127).
Proof. unfold WIFEXITED, WIFSIGNALED, WIFSTOPPED. by rewrite WTERMSIG_mod, low_byte_mod. Qed.

#[local] Ltac Zify.zify_post_hook ::= Z.div_mod_to_equations.

Ltac decide_tests :=
  repeat match goal with
  | |- context [?a =? ?b] => destruct (Z.eqb_spec a b); try lia
  | |- context [?a <? ?b] => destruct (Z.ltb_spec a b); try lia
  end.

(** A stop without an event, as the macros see it. *)
Lemma plain_stop sig : 0 <= sig < 256 ->
  PTRACE_EVENT (stop_status sig 0) = 0 /\ WSTOPSIG (stop_status sig 0) = sig /\
  WIFEXITED (stop_status sig 0) = false /\ WIFSIGNALED (stop_status sig 0) = false /\
  WIFSTOPPED (stop_status sig 0) = true.
Proof.
  intros Hs. unfold stop_status. rewrite !Z.shiftl_mul_pow2 by lia.
  change (2 ^ 8) with 256. change (2 ^ 16) with 65536. set (st := 0 * 65536 + sig * 256 + 127).
  destruct (macros st) as (-> & -> & ->). unfold WSTOPSIG. rewrite WEXITSTATUS_div, PTRACE_EVENT_div.
  assert (st mod 128 = 127 /\ st mod 256 = 127 /\ st / 256 mod 256 = sig /\ st / 65536 mod 256 = 0)
    as (-> & -> & -> & ->) by (unfold st; split_and!; lia). done.
Qed.

(** A stop, with or without an event. *)
Lemma stop_read_back sig event : 0 < sig < 256 -> 0 <= event < 256 ->
  status2text (stop_status sig event) = StoppedBySignal sig (if event =? 0 then None else Some event).
Proof.
  intros Hs He. unfold status2text, stop_status.
  rewrite !Z.shiftl_mul_pow2 by lia. change (2 ^ 8) with 256. change (2 ^ 16) with 65536.
  set (st := event * 65536 + sig * 256 + 127).
  assert (st mod 128 = 127 /\ st mod 256 = 127 /\ st / 256 mod 256 = sig /\ st / 65536 mod 256 = event)
    as (E1 & E2 & E3 & E4) by (unfold st; split_and!; lia).
  destruct (macros st) as (-> & -> & ->). unfold WSTOPSIG. rewrite WEXITSTATUS_div, PTRACE_EVENT_div.
  by rewrite E1, E2, E3, E4.
Qed.

(** C21: status2text reads back every status the kernel stores: exit codes,
    terminating signals with or without a core, stops by a signal with or
    without a ptrace event, those of system calls marked by bit 7 of the
    signal (PTRACE_O_TRACESYSGOOD) included, and the one word for a process
    that has been continued. *)
Theorem status2text_reads_back code sig stopsig event core :
  0 <= code < 256 -> 0 < sig < 127 -> 0 < stopsig < 256 -> 0 <= event < 256 ->
  status2text (exit_status code) = ExitedWithCode code /\
  status2text (signal_status sig core) = TerminatedBySignal sig core /\
  status2text (stop_status stopsig event) =
    StoppedBySignal stopsig (if event =? 0 then None else Some event) /\
  status2text continued_status = ResumedBySIGCONT.
Proof.
  intros Hc Hs Ht He. split_and!; [| |by apply stop_read_back|done].
  - unfold status2text, exit_status. rewrite !Z.shiftl_mul_pow2 by lia. change (2 ^ 8) with 256.
    destruct (macros (code * 256)) as (-> & _). rewrite WEXITSTATUS_div.
    decide_tests; f_equal; lia.
  - unfold status2text, signal_status. set (st := sig + (if core then 128 else 0)).
    assert (st mod 128 = sig /\ st / 128 mod 2 = if core then 1 else 0) as [E1 E2]
      by (unfold st; destruct core; split; lia).
    destruct (macros st) as (-> & -> & _). rewrite WTERMSIG_mod, WCOREDUMP_div, E1, E2.
    rewrite (proj2 (Z.eqb_neq sig 0)), (proj2 (Z.ltb_lt 0 sig)), (proj2 (Z.ltb_lt sig 127)) by lia.
    by destruct core.
Qed.

(** A system call stop is by SIGTRAP with bit 7 set. *)
Lemma status2text_reads_back_witness :
  status2text (exit_status 3) = ExitedWithCode 3 /\
  status2text (signal_status 11 true) = TerminatedBySignal 11 true /\
  status2text (stop_status 5 3) = StoppedBySignal 5 (Some 3) /\
  status2text (stop_status (Z.lor 5 0x80) 0) = StoppedBySignal 133 None /\
  status2text 0xffff = ResumedBySIGCONT.
Proof.
  destruct (status2text_reads_back 3 11 5 3 true) as (H1 & H2 & H3 & H4); [lia|lia|lia|lia|].
  destruct (status2text_reads_back 3 11 (Z.lor 5 0x80) 0 true) as (_ & _ & H5 & _); [lia|lia|by vm_compute|lia|].
  split; [exact H1|]. split; [exact H2|]. split; [exact H3|]. split; [exact H5|exact H4].
Defined.

(** For every status word whatever, [dump_status] and status2text agree
    on its class although they test in different orders, and [dump_status]
    answers 0 exactly when the process is gone. *)
Theorem dump_status_agrees s :
  dump_status s =
  match status2text s with
  | ExitedWithCode c => (DumpExited c, 0)
  | TerminatedBySignal sig _ => (DumpTerminated sig, 0)
  | StoppedBySignal sig _ => (DumpStopped sig, 1)
  | ResumedBySIGCONT => (DumpContinued, 1)
  | UnknownStatus => (DumpRunning, 1)
  end.
Proof.
  unfold dump_status, status2text. destruct (macros s) as (-> & -> & ->). unfold WIFCONTINUED.
  pose proof (Z.mod_pos_bound s 128 ltac:(lia)).
  decide_tests; simpl; done.
Qed.
