(* ===== verification/RegTrace.v ===== *)
(** * The register tracer

    [trace] of src/regtrace.c: a ptrace loop that follows a tracee through its
    seccomp events and system calls.  The kernel is represented by the
    sequence of statuses [waitpid] returns; what ptrace documents of them is
    the predicate [kernel_ok].  Register dumps are reduced to whether they are
    labelled as entering or exiting. *)

From stdpp Require Import base numbers list strings.
From S2P Require Import Prelude WaitStatus.

Local Open Scope Z_scope.

Definition SIGTRAP : Z := 5.
Definition SIGSTOP : Z := 19.
Definition SYSCALL_PSEUDOSIG : Z := Z.lor 0x80 SIGTRAP.
Definition PTRACE_EVENT_EXEC : Z := 4.

Definition use_filter : bool := true.

Inductive tracer_state : Set := TRAPPING_SECCOMP | ENTERING_SYSCALL | EXITING_SYSCALL.

#[export] Instance tracer_state_eq_dec : EqDecision tracer_state.
Proof. solve_decision. Defined.

Definition start_state : tracer_state := if use_filter then TRAPPING_SECCOMP else ENTERING_SYSCALL.

(** The ptrace requests that let the tracee run. *)
Inductive request : Set :=
  | PTRACE_CONT
  | PTRACE_SYSCALL
  | PTRACE_SINGLESTEP (sig : Z).

(** The request at the top of the loop. *)
Definition resume (state : tracer_state) : request :=
  if decide (TRAPPING_SECCOMP = state) then PTRACE_CONT else PTRACE_SYSCALL.

(** The rest of the loop's body, on the status that came back: what to do,
    the extra request issued before going round, the dump printed. *)
Inductive outcome : Set :=
  | Next (state : tracer_state) (extra : list request) (dump : list bool)
  | Return (code : Z)
  | AssertFails.

Definition on_status (state : tracer_state) (status : Z) : outcome :=
  let event := PTRACE_EVENT status in
  if negb (event =? 0) then
    Next (if PTRACE_EVENT_EXEC =? event then EXITING_SYSCALL else ENTERING_SYSCALL) [] []
  else if WIFEXITED status then Return (WEXITSTATUS status)
  else if WIFSIGNALED status then Return (WTERMSIG status)
  else if negb (WIFSTOPPED status) then AssertFails
  else
    let sig := WSTOPSIG status in
    if negb (sig =? SYSCALL_PSEUDOSIG) && negb (sig =? SIGTRAP) then
      Next state [PTRACE_SINGLESTEP sig] []
    else
      let dump := [bool_decide (ENTERING_SYSCALL = state)] in
      if sig =? SYSCALL_PSEUDOSIG then
        match state with
        | TRAPPING_SECCOMP => AssertFails
        | ENTERING_SYSCALL => Next EXITING_SYSCALL [] dump
        | EXITING_SYSCALL => Next start_state [] dump
        end
      else Next state [] dump.

(** A run over the statuses the kernel delivers: what happened, with the
    requests issued and the dumps printed. *)
Inductive run_end : Set :=
  | Waiting (state : tracer_state)
  | Returned (code : Z) (unread : list Z)
  | Aborted.

Record run : Set := MkRun { requests : list request; dumps : list bool; ended : run_end }.

Fixpoint trace_loop (state : tracer_state) (statuses : list Z) : run :=
  match statuses with
  | [] => MkRun [resume state] [] (Waiting state)
  | status :: rest =>
      match on_status state status with
      | Next state' extra dump =>
          let r := trace_loop state' rest in
          MkRun (resume state :: extra ++ requests r) (dump ++ dumps r) (ended r)
      | Return code => MkRun [resume state] [] (Returned code rest)
      | AssertFails => MkRun [resume state] [] Aborted
      end
  end.

(** The first stop must be the tracee's own SIGSTOP. *)
Definition trace (first : Z) (statuses : list Z) : run :=
  if WIFSTOPPED first && (SIGSTOP =? WSTOPSIG first) then trace_loop start_state statuses
  else MkRun [] [] Aborted.

(** ** The tracee *)

(** What the child of [main] does before it becomes the program traced. *)
Inductive tracee_step : Set :=
  | TraceMe
  | KillSelf (sig : Z)
  | SetEnv (name value : string)
  | ExecVP (args : list string)
  | Fatal (msg : string)
  | Abort_.

(** [execs] says whether [execvp] replaces the program. *)
Definition tracee (execs : bool) (argv : list string) : list tracee_step :=
  [TraceMe; KillSelf SIGSTOP] ++
  (if use_filter then [SetEnv "LD_PRELOAD" "libtraceseccomp.so"] else []) ++
  ExecVP (tail argv) :: (if execs then [] else [Fatal "Failed to exec tracee"; Abort_]).

(** [main], by what [fork] returns. *)
Definition main (fork : Z) (execs : bool) (argv : list string) (first : Z) (statuses : list Z)
    : list tracee_step + run :=
  if 0 =? fork then inl (tracee execs argv) else inr (trace first statuses).

(** The tracee stops by SIGSTOP before anything else, which is the stop [trace]
    wants first; a filter is preloaded exactly when the tracer starts by waiting
    for seccomp events. *)
Lemma tracee_first execs argv : exists steps, tracee execs argv = TraceMe :: KillSelf SIGSTOP :: steps /\
  (SetEnv "LD_PRELOAD" "libtraceseccomp.so" ∈ steps <-> start_state = TRAPPING_SECCOMP).
Proof. eexists. split; [reflexivity|]. split; [done|]. intros _. apply list_elem_of_here. Qed.

(** ** What ptrace documents *)

(** A status without [WCONTINUED] is an exit, a termination or a stop; the
    marked SIGTRAP of a system call is delivered only to [PTRACE_SYSCALL]. *)
Definition documented (req : request) (status : Z) : Prop :=
  (WIFEXITED status || WIFSIGNALED status || WIFSTOPPED status = true) /\
  (WIFSTOPPED status = true -> WSTOPSIG status = SYSCALL_PSEUDOSIG -> req = PTRACE_SYSCALL).

Fixpoint kernel_ok (state : tracer_state) (statuses : list Z) : Prop :=
  match statuses with
  | [] => True
  | status :: rest =>
      documented (resume state) status /\
      match on_status state status with
      | Next state' _ _ => kernel_ok state' rest
      | _ => True
      end
  end.

(** The process is gone. *)
Definition terminal (status : Z) : bool :=
  (PTRACE_EVENT status =? 0) && (WIFEXITED status || WIFSIGNALED status).

Definition exit_code (status : Z) : Z :=
  if WIFEXITED status then WEXITSTATUS status else WTERMSIG status.

Arguments on_status : simpl never.
Arguments documented : simpl never.

(** ** Its behaviour *)

Lemma on_status_terminal state status : terminal status = true ->
  on_status state status = Return (exit_code status).
Proof.
  intros [He Ht]%andb_true_iff. unfold on_status, exit_code. rewrite He. simpl.
  destruct (WIFEXITED status); [done|]. simpl in Ht. by rewrite Ht.
Qed.

Lemma on_status_live state status : documented (resume state) status -> terminal status = false ->
  exists state' extra dump, on_status state status = Next state' extra dump.
Proof.
  intros [Hd Hs] Ht. unfold on_status, terminal in *.
  destruct (PTRACE_EVENT status =? 0); simpl in *; [|by do 3 eexists].
  apply orb_false_iff in Ht as [E1 E2]. rewrite E1, E2 in Hd |- *. simpl in Hd. rewrite Hd. simpl.
  destruct (WSTOPSIG status =? SYSCALL_PSEUDOSIG) eqn:E; simpl.
  - apply Z.eqb_eq in E. specialize (Hs Hd E). destruct state; [done| |]; by do 3 eexists.
  - destruct (WSTOPSIG status =? SIGTRAP); by do 3 eexists.
Qed.

Lemma trace_loop_live state statuses :
  kernel_ok state statuses -> Forall (fun s => terminal s = false) statuses ->
  exists state', ended (trace_loop state statuses) = Waiting state'.
Proof.
  revert state. induction statuses as [|s rest IH]; intros state; cbn [trace_loop kernel_ok]; [eauto|].
  intros [Hd Hk] [Hs Hr]%Forall_cons.
  destruct (on_status_live state s Hd Hs) as (state' & extra & dump & E). rewrite E in Hk |- *.
  apply IH; done.
Qed.

(** C23: on every sequence of statuses the kernel may deliver, no assertion of
    the loop fails; the tracer returns at the first exit or termination, with
    the exit code or the signal, reads nothing after it, and until then keeps
    waiting. *)
Theorem trace_returns_exit_code live last rest :
  kernel_ok start_state (live ++ last :: rest) ->
  Forall (fun s => terminal s = false) live -> terminal last = true ->
  ended (trace_loop start_state (live ++ last :: rest)) = Returned (exit_code last) rest /\
  exists state, ended (trace_loop start_state live) = Waiting state.
Proof.
  generalize start_state. intros state Hk Hl Ht. revert state Hk.
  induction Hl as [|s live Hs Hl IH]; intros state Hk; cbn [trace_loop kernel_ok app] in *.
  - rewrite (on_status_terminal state last Ht). eauto.
  - destruct Hk as [Hd Hk].
    destruct (on_status_live state s Hd Hs) as (state' & extra & dump & E). rewrite E in Hk |- *.
    cbn [ended]. by apply IH.
Qed.

(** A stop of the tracee: SIGTRAP with the ptrace event, a system-call stop,
    and a signal. *)
Definition seccomp_stop : Z := stop_status SIGTRAP 7.
Definition syscall_stop : Z := stop_status SYSCALL_PSEUDOSIG 0.

Lemma trace_returns_exit_code_witness :
  ended (trace_loop start_state [seccomp_stop; syscall_stop; syscall_stop; exit_status 3]) =
    Returned 3 [].
Proof.
  destruct (trace_returns_exit_code [seccomp_stop; syscall_stop; syscall_stop] (exit_status 3) [])
    as [H _].
  - simpl. unfold documented. vm_compute. repeat split; done || discriminate.
  - apply (bool_decide_unpack _). by vm_compute.
  - reflexivity.
  - exact H.
Defined.

(** C24: each seccomp event is followed by exactly one dump labelled entering
    and one labelled exiting, and the tracer is back at letting the tracee run
    to the next event; a stop by an ordinary signal issues a second resume
    request ([PTRACE_SINGLESTEP]) without waiting in between. *)
Theorem trace_follows_a_syscall sig rest :
  0 <= sig < 256 -> sig <> SYSCALL_PSEUDOSIG -> sig <> SIGTRAP ->
  (let r := trace_loop TRAPPING_SECCOMP rest in
   trace_loop TRAPPING_SECCOMP ([seccomp_stop; syscall_stop; syscall_stop] ++ rest) =
     MkRun (PTRACE_CONT :: PTRACE_SYSCALL :: PTRACE_SYSCALL :: requests r)
           (true :: false :: dumps r) (ended r)) /\
  forall state, let r := trace_loop state rest in
    trace_loop state (stop_status sig 0 :: rest) =
      MkRun (resume state :: PTRACE_SINGLESTEP sig :: requests r) (dumps r) (ended r).
Proof.
  intros Hs H1 H2. split; [done|]. intros state. cbn [trace_loop].
  assert (on_status state (stop_status sig 0) = Next state [PTRACE_SINGLESTEP sig] []) as ->; [|done].
  assert (PTRACE_EVENT (stop_status sig 0) = 0 /\ WSTOPSIG (stop_status sig 0) = sig /\
    WIFEXITED (stop_status sig 0) = false /\ WIFSIGNALED (stop_status sig 0) = false /\
    WIFSTOPPED (stop_status sig 0) = true) as (E1 & E2 & E3 & E4 & E5) by by apply plain_stop.
  unfold on_status. rewrite E1, E2, E3, E4, E5. simpl.
  by rewrite (proj2 (Z.eqb_neq _ _) H1), (proj2 (Z.eqb_neq _ _) H2).
Qed.

Lemma trace_follows_a_syscall_witness :
  dumps (trace_loop TRAPPING_SECCOMP [seccomp_stop; syscall_stop; syscall_stop]) = [true; false] /\
  requests (trace_loop TRAPPING_SECCOMP [stop_status 10 0]) =
    [PTRACE_CONT; PTRACE_SINGLESTEP 10; PTRACE_CONT].
Proof.
  destruct (trace_follows_a_syscall 10 []) as [H1 H2]; [lia|done|done|]. cbv zeta in H1, H2.
  split; [exact (f_equal dumps H1)|exact (f_equal requests (H2 TRAPPING_SECCOMP))].
Defined.
