(* ===== verification/Ptrace.v ===== *)
(** * ptrace, as a tracer sees it

    The interface between the tracers of src/rpc_syscall.c and src/sysemu.c and
    the kernel.  The ptrace calls and [waitpid] are the kernel's: they are the
    operations of the class [Ptrace], and what ptrace(2) documents of them is
    the class [PtraceDocumented], against which theorems about the child are
    proved.  The section [Machine] has an instance of both, a child that
    executes a given piece of code.  What the tracers have in common, their
    local variables and their calls, is here too. *)

From stdpp Require Import base numbers list sets.
From S2P Require Import Prelude WaitStatus RegTrace.

Local Open Scope Z_scope.

(** ** <sys/user.h> *)

(** [struct user_regs_struct] on i386; the fields are [long]. *)
Record user_regs : Set := MkRegs {
  ebx : Z; ecx : Z; edx : Z; esi : Z; edi : Z; ebp : Z; eax : Z;
  xds : Z; xes : Z; xfs : Z; xgs : Z; orig_eax : Z; eip : Z; xcs : Z;
  eflags : Z; esp : Z; xss : Z
}.

#[export] Instance user_regs_eq_dec : EqDecision user_regs.
Proof. solve_decision. Defined.

(** The assignments the code and the kernel make. *)
Definition set_eax (v : Z) (r : user_regs) : user_regs :=
  MkRegs (ebx r) (ecx r) (edx r) (esi r) (edi r) (ebp r) v (xds r) (xes r) (xfs r) (xgs r)
    (orig_eax r) (eip r) (xcs r) (eflags r) (esp r) (xss r).

Definition set_orig_eax (v : Z) (r : user_regs) : user_regs :=
  MkRegs (ebx r) (ecx r) (edx r) (esi r) (edi r) (ebp r) (eax r) (xds r) (xes r) (xfs r) (xgs r)
    v (eip r) (xcs r) (eflags r) (esp r) (xss r).

Definition set_eip (v : Z) (r : user_regs) : user_regs :=
  MkRegs (ebx r) (ecx r) (edx r) (esi r) (edi r) (ebp r) (eax r) (xds r) (xes r) (xfs r) (xgs r)
    (orig_eax r) v (xcs r) (eflags r) (esp r) (xss r).

Definition set_args (b c d : Z) (r : user_regs) : user_regs :=
  MkRegs b c d (esi r) (edi r) (ebp r) (eax r) (xds r) (xes r) (xfs r) (xgs r)
    (orig_eax r) (eip r) (xcs r) (eflags r) (esp r) (xss r).

Definition ENOSYS : Z := 38.

(** ** The kernel's operations

    What a failing [ptrace] resume does is nothing, and the code ignores its
    result; [None] is a failing [PTRACE_GETREGS] or [waitpid], which leave the
    variable they were given alone. *)
Class Ptrace (K : Type) : Type := {
  ptrace_cont : K -> K;
  ptrace_syscall : K -> K;
  ptrace_sysemu : K -> K;
  ptrace_sysemu_singlestep : K -> K;
  ptrace_getregs : K -> option user_regs;
  ptrace_setregs : user_regs -> K -> K;
  waitpid : K -> K * option Z
}.

(** ** A tracer's state

    The child as the kernel has it, the two local variables that [ptrace] and
    [waitpid] write through pointers, and the lines printed. *)
Record state (K M : Type) : Type := MkState {
  kern : K;
  status : Z;
  regs : user_regs;
  printed : list M
}.
Arguments MkState {K M}.
Arguments kern {K M}.
Arguments status {K M}.
Arguments regs {K M}.
Arguments printed {K M}.

Section Calls.
Context {K M : Type} `{Ptrace K}.

Abbreviation st := (state K M).

Definition on_kern (f : K -> K) (s : st) : st := MkState (f (kern s)) (status s) (regs s) (printed s).

Definition wait (s : st) : st :=
  let '(k, answer) := waitpid (kern s) in
  MkState k (default (status s) answer) (regs s) (printed s).

Definition getregs (s : st) : st :=
  MkState (kern s) (status s) (default (regs s) (ptrace_getregs (kern s))) (printed s).

Definition set_regs (r : user_regs) (s : st) : st := MkState (kern s) (status s) r (printed s).

Definition print (m : M) (s : st) : st :=
  MkState (kern s) (status s) (regs s) (printed s ++ [m]).

(** [ptrace(PTRACE_SYSCALL)] and the [waitpid] after it. *)
Definition advance (s : st) : st := wait (on_kern ptrace_syscall s).

End Calls.

(** ** What ptrace documents *)

(** A system call: its number and its six arguments. *)
Definition call : Set := Z * list Z.

(** The call a stop at a system call's entry is about. *)
Definition entered (r : user_regs) : call := (orig_eax r, [ebx r; ecx r; edx r; esi r; edi r; ebp r]).

(** Where a traced child is. *)
Inductive place : Set :=
  | BeforeSIGSTOP | AtSIGSTOP
  | AtEntry | AtExit          (* of a system call *)
  | Emulated                  (* at the entry of a call that will not be performed *)
  | Stepped                   (* after a single step *)
  | Gone.

#[export] Instance place_eq_dec : EqDecision place.
Proof. solve_decision. Defined.

Record tracee : Set := MkTracee {
  at_ : place;
  registers : user_regs;
  performed : list call      (* the system calls it has performed, oldest first *)
}.

(** The registers at the entry of the system call made by the two-byte
    instruction at [eip]. *)
Definition enter (r : user_regs) : user_regs := set_eax (- ENOSYS) (set_orig_eax (eax r) (set_eip (eip r + 2) r)).

(** Where PTRACE_SYSEMU leaves a call of the child unperformed, if it makes one. *)
Definition emulating (p : place) : bool :=
  match p with BeforeSIGSTOP | AtEntry => false | _ => true end.

(** The status of a stop at a system call without PTRACE_O_TRACESYSGOOD. *)
Definition syscall_stop : Z := stop_status SIGTRAP 0.

(** The state after [ptrace(PTRACE_SYSCALL)] and [waitpid]. *)
Definition next_stop {K} `{Ptrace K} (k : K) : K * option Z := waitpid (ptrace_syscall k).

(** Observed through [view], the kernel behaves as documented on calls that
    return; [int80] says where the child's system call instructions are, and
    [answer] what the kernel answers to a call after those performed. *)
Class PtraceDocumented (K : Type) `{Ptrace K} (int80 : Z -> bool) (returns : call -> bool)
    (answer : list call -> call -> Z) : Type := {
  view : K -> tracee;
  (** PTRACE_CONT fails on a child that is not stopped. *)
  cont_running k : at_ (view k) = BeforeSIGSTOP -> view (ptrace_cont k) = view k;
  (** The first stop is the SIGSTOP the child raises. *)
  wait_running k : at_ (view k) = BeforeSIGSTOP ->
    at_ (view (waitpid k).1) = AtSIGSTOP /\ (waitpid k).2 = Some (stop_status SIGSTOP 0);
  (** From the entry of a call that returns the child gets to its exit, with
      the answer in [eax]. *)
  next_entry k : at_ (view k) = AtEntry -> returns (entered (registers (view k))) = true ->
    view (next_stop k).1 =
      MkTracee AtExit
        (set_eax (answer (performed (view k)) (entered (registers (view k)))) (registers (view k)))
        (performed (view k) ++ [entered (registers (view k))]) /\
    (next_stop k).2 = Some syscall_stop;
  (** From an exit it executes from [eip] on, and stops at the entry of the
      next call. *)
  next_exit k : at_ (view k) = AtExit -> int80 (eip (registers (view k))) = true ->
    view (next_stop k).1 = MkTracee AtEntry (enter (registers (view k))) (performed (view k)) /\
    (next_stop k).2 = Some syscall_stop;
  (** A stopped child's registers can be read and written. *)
  getregs_stopped k : at_ (view k) <> BeforeSIGSTOP -> at_ (view k) <> Gone ->
    ptrace_getregs k = Some (registers (view k));
  setregs_stopped k r : at_ (view k) = AtExit ->
    view (ptrace_setregs r k) = MkTracee AtExit r (performed (view k));
  (** Under PTRACE_SYSEMU the child runs to the entry of its next call, which
      is not performed, or to its end; PTRACE_SYSEMU_SINGLESTEP may stop
      earlier.  On a child that is gone both fail. *)
  sysemu_next k : emulating (at_ (view k)) = true ->
    emulating (at_ (view (waitpid (ptrace_sysemu k)).1)) = true /\
    performed (view (waitpid (ptrace_sysemu k)).1) = performed (view k);
  sysemu_singlestep_next k : emulating (at_ (view k)) = true ->
    emulating (at_ (view (waitpid (ptrace_sysemu_singlestep k)).1)) = true /\
    performed (view (waitpid (ptrace_sysemu_singlestep k)).1) = performed (view k)
}.

(** ** A machine

    A child that has nothing but the system call instructions at the addresses
    [int80], one after the other, and exits when there is no further one. *)

Section Machine.
Variables (int80 : Z -> bool) (returns : call -> bool) (answer : list call -> call -> Z).

(** [event]: the status [waitpid] has to report. *)
Record machine : Type := MkMachine { child : tracee; event : option Z }.

(** One system call instruction, not stopping. *)
Definition call_through (t : tracee) : tracee :=
  let r := enter (registers t) in
  MkTracee (at_ t) (set_eax (answer (performed t) (entered r)) r) (performed t ++ [entered r]).

Fixpoint run_free (fuel : nat) (t : tracee) : tracee :=
  match fuel with
  | O => t
  | S fuel => if int80 (eip (registers t)) then run_free fuel (call_through t) else t
  end.

Definition gone (t : tracee) : machine :=
  MkMachine (MkTracee Gone (registers t) (performed t)) (Some (exit_status 0)).

Definition finish_call (t : tracee) : tracee :=
  MkTracee AtExit (set_eax (answer (performed t) (entered (registers t))) (registers t))
    (performed t ++ [entered (registers t)]).

Definition machine_cont (m : machine) : machine :=
  match at_ (child m) with
  | BeforeSIGSTOP | Gone => m
  | AtSIGSTOP | AtExit | Emulated | Stepped => gone (run_free 100 (child m))
  | AtEntry => gone (run_free 100 (finish_call (child m)))
  end.

Definition machine_syscall (m : machine) : machine :=
  let t := child m in
  match at_ t with
  | BeforeSIGSTOP | Gone => m
  | AtSIGSTOP | AtExit | Emulated | Stepped =>
      if int80 (eip (registers t))
      then MkMachine (MkTracee AtEntry (enter (registers t)) (performed t)) (Some syscall_stop)
      else gone t
  | AtEntry => MkMachine (finish_call t) (Some syscall_stop)
  end.

(** To the next call, which is not performed; every instruction is one. *)
Definition emulate (t : tracee) : machine :=
  if int80 (eip (registers t))
  then MkMachine (MkTracee Emulated (enter (registers t)) (performed t)) (Some syscall_stop)
  else gone t.

Definition machine_sysemu (m : machine) : machine :=
  match at_ (child m) with
  | BeforeSIGSTOP | Gone => m
  | AtEntry => emulate (finish_call (child m))
  | _ => emulate (child m)
  end.

Definition machine_getregs (m : machine) : option user_regs :=
  match at_ (child m) with
  | BeforeSIGSTOP | Gone => None
  | _ => Some (registers (child m))
  end.

Definition machine_setregs (r : user_regs) (m : machine) : machine :=
  match at_ (child m) with
  | BeforeSIGSTOP | Gone => m
  | p => MkMachine (MkTracee p r (performed (child m))) (event m)
  end.

Definition machine_waitpid (m : machine) : machine * option Z :=
  match at_ (child m) with
  | BeforeSIGSTOP =>
      (MkMachine (MkTracee AtSIGSTOP (registers (child m)) (performed (child m))) None,
       Some (stop_status SIGSTOP 0))
  | _ => (MkMachine (child m) None, event m)
  end.

#[export] Instance machine_ptrace : Ptrace machine :=
  { ptrace_cont := machine_cont; ptrace_syscall := machine_syscall;
    ptrace_sysemu := machine_sysemu; ptrace_sysemu_singlestep := machine_sysemu;
    ptrace_getregs := machine_getregs; ptrace_setregs := machine_setregs;
    waitpid := machine_waitpid }.

#[export] Program Instance machine_documented : PtraceDocumented machine int80 returns answer :=
  { view := child }.
Next Obligation. intros [[[] r l] e]; done. Qed.
Next Obligation. intros [[[] r l] e]; done. Qed.
Next Obligation. intros [[[] r l] e]; done. Qed.
Next Obligation.
  intros [[[] r l] e]; try done. intros _ Hi. unfold next_stop. cbn in *.
  unfold machine_syscall. cbn. by rewrite Hi.
Qed.
Next Obligation. intros [[[] r l] e]; done. Qed.
Next Obligation. intros [[[] r l] e] r'; done. Qed.
Next Obligation.
  intros [[[] r l] e]; try done; intros _; cbn; unfold machine_sysemu, emulate; cbn; by destruct (int80 _).
Qed.
Next Obligation.
  intros [[[] r l] e]; try done; intros _; cbn; unfold machine_sysemu, emulate; cbn; by destruct (int80 _).
Qed.

End Machine.
