(* ===== verification/Rpc.v ===== *)
(** * Remote system calls through ptrace

    src/rpc_syscall.c: [parent] traces a child that asks for a system call by
    entering one of number [SYS_rpc], which no kernel has; the parent then makes
    the child perform [write] five times by setting its registers at the stop
    after that call, restores them and lets the child go on.

    The kernel is the interface of [Ptrace].  The child's own code, inline
    assembly between library calls, is represented by where its [int $0x80]
    instructions are. *)

From stdpp Require Import base numbers list sets.
From S2P Require Import Prelude WaitStatus RegTrace Ptrace.

Local Open Scope Z_scope.

(** ** <syscall.h>, <unistd.h> *)

Definition SYS_rpc : Z := -42.
Definition SYS_write : Z := 4.
Definition STDOUT_FILENO : Z := 1.

(** ** The child *)

(** Its steps: library calls, and the two [int $0x80] with what the asm
    statements load into the registers; the second one loads nothing. *)
Inductive child_step : Set :=
  | PrintsRequest (str len : Z)
  | TraceMe
  | RaisesSIGSTOP
  | Int80 (load : user_regs -> user_regs)
  | PrintsAnswer                         (* child got %d from rpc(write) *)
  | ReturnsZero.

(** The string's three characters. *)
Definition len : Z := 3.

Definition rpc_registers (str : Z) (r : user_regs) : user_regs :=
  set_args SYS_write str len (set_eax SYS_rpc r).

(** [str] is the address of the local array. *)
Definition child (str : Z) : list child_step :=
  [PrintsRequest str len; TraceMe; RaisesSIGSTOP;
   Int80 (rpc_registers str); Int80 id;
   PrintsAnswer; ReturnsZero].

(** ** [parent] *)

(** The lines printed. *)
Inductive message : Set :=
  | ChildRequestsRpc (syscallno str len : Z)
  | AdvanceToRpcExit
  | SettingRet (ip : Z)
  | EnteringArtificialSyscall
  | FinishingSyscall
  | RestoringRegs
  | ChildAtSyscall (nr : Z)
  | Status (d : dumped).

Section Parent.
Context {K : Type} `{Ptrace K}.

Abbreviation st := (state K message).

(** [dump_status], its result left aside. *)
Definition dump (s : st) : st := print (Status (dump_status (status s)).1) s.

(** The body of the loop: one artificial call.  [str] is a pointer and [len]
    an [int]; the first assignments to [callregs] precede PTRACE_SETREGS, that
    of [eip] follows it. *)
Definition artificial_call (str len : Z) (callregs : user_regs) (s : st) : user_regs * st :=
  let callregs := set_args STDOUT_FILENO (i32 str) len (set_eax SYS_write callregs) in
  let s := on_kern (ptrace_setregs callregs) s in
  let callregs := set_eip (eip (regs s)) callregs in
  let s := dump (advance (print EnteringArtificialSyscall s)) in
  let s := dump (advance (print FinishingSyscall s)) in
  (callregs, s).

(** [for (j = 0; j < 5; ++j)]: [n] rounds are left. *)
Fixpoint call_loop (n : nat) (str len : Z) (callregs : user_regs) (s : st) : st :=
  match n with
  | O => s
  | S n =>
      let '(callregs, s) := artificial_call str len callregs s in
      call_loop n str len callregs s
  end.

(** The body of the [if]: [s] is stopped at the entry of the rpc call. *)
Definition serve_rpc (s : st) : st :=
  let syscallno := i32 (ebx (regs s)) in
  let str := u32 (ecx (regs s)) in
  let len := i32 (edx (regs s)) in
  let s := print AdvanceToRpcExit (print (ChildRequestsRpc syscallno str len) s) in
  let s := getregs (dump (advance s)) in
  let s := set_regs (set_eax 0 (regs s)) s in
  let s := print (SettingRet (u32 (eip (regs s)))) s in
  let s := call_loop 5 str len (regs s) s in
  let s := on_kern (ptrace_setregs (regs s)) (print RestoringRegs s) in
  advance (advance s).

(** Up to the loop that lets the child run to its end. *)
Definition up_to_rpc (s : st) : st :=
  getregs (dump (advance (wait (on_kern ptrace_cont s)))).

Definition before_loop (s : st) : st :=
  let s := up_to_rpc s in
  if decide (SYS_rpc = orig_eax (regs s)) then serve_rpc s else s.

(** The [do ... while]: [None] when [fuel] rounds do not end it. *)
Fixpoint run_to_end (fuel : nat) (s : st) : option st :=
  match fuel with
  | O => None
  | S fuel =>
      let s := getregs (advance s) in
      let s := print (ChildAtSyscall (orig_eax (regs s))) s in
      if (dump_status (status s)).2 =? 0 then Some (dump s) else run_to_end fuel (dump s)
  end.

Definition parent (fuel : nat) (s : st) : option st := run_to_end fuel (before_loop s).

End Parent.

(** ** The stops of [parent] *)

Section Documented.
Context {K : Type} `{Ptrace K} {int80 : Z -> bool} {returns : call -> bool}
  {answer : list call -> call -> Z} `{!PtraceDocumented K int80 returns answer}.

Abbreviation tracee_of s := (view (kern s)).

(** The child after a whole system call made from an exit stop. *)
Definition called (t : tracee) : tracee :=
  let r := enter (registers t) in
  MkTracee AtExit (set_eax (answer (performed t) (entered r)) r) (performed t ++ [entered r]).

Lemma advance_entry (s : state K message) :
  at_ (tracee_of s) = AtEntry -> returns (entered (registers (tracee_of s))) = true ->
  exists k, advance s = MkState k syscall_stop (regs s) (printed s) /\
    view k = MkTracee AtExit
      (set_eax (answer (performed (tracee_of s)) (entered (registers (tracee_of s)))) (registers (tracee_of s)))
      (performed (tracee_of s) ++ [entered (registers (tracee_of s))]).
Proof.
  intros Ha Hr. destruct (next_entry (kern s) Ha Hr) as [Hv Hs]. exists (next_stop (kern s)).1.
  split; [|done]. unfold advance, wait, on_kern, next_stop in *. cbn [kern status regs printed].
  destruct (waitpid (ptrace_syscall (kern s))) as [k o]. cbn in Hs |- *. by subst o.
Qed.

Lemma advance_exit (s : state K message) :
  at_ (tracee_of s) = AtExit -> int80 (eip (registers (tracee_of s))) = true ->
  exists k, advance s = MkState k syscall_stop (regs s) (printed s) /\
    view k = MkTracee AtEntry (enter (registers (tracee_of s))) (performed (tracee_of s)).
Proof.
  intros Ha Hr. destruct (next_exit (kern s) Ha Hr) as [Hv Hs]. exists (next_stop (kern s)).1.
  split; [|done]. unfold advance, wait, on_kern, next_stop in *. cbn [kern status regs printed].
  destruct (waitpid (ptrace_syscall (kern s))) as [k o]. cbn in Hs |- *. by subst o.
Qed.

(** An artificial call: the registers written, a call made with them. *)
Definition prepared (str len : Z) (r : user_regs) : user_regs :=
  set_args STDOUT_FILENO (i32 str) len (set_eax SYS_write r).

Definition call_messages : list message :=
  [EnteringArtificialSyscall; Status (DumpStopped SIGTRAP);
   FinishingSyscall; Status (DumpStopped SIGTRAP)].

Lemma artificial_call_spec str len callregs (s : state K message) :
  at_ (tracee_of s) = AtExit -> int80 (eip callregs) = true ->
  returns (entered (enter (prepared str len callregs))) = true ->
  exists k, artificial_call str len callregs s =
      (set_eip (eip (regs s)) (prepared str len callregs),
       MkState k syscall_stop (regs s) (printed s ++ call_messages)) /\
    view k = called (MkTracee AtExit (prepared str len callregs) (performed (tracee_of s))).
Proof.
  intros Ha Hi Hr. unfold artificial_call, prepared in *.
  set (cr := set_args _ _ _ _) in *.
  pose proof (setregs_stopped (kern s) cr Ha) as Hset.
  destruct (advance_exit (print EnteringArtificialSyscall (on_kern (ptrace_setregs cr) s)))
    as (k1 & E1 & V1).
  { cbn. by rewrite Hset. }
  { cbn. rewrite Hset. done. }
  cbn in E1, V1. rewrite Hset in V1. cbn in V1.
  destruct (advance_entry (print FinishingSyscall (dump (MkState k1 syscall_stop (regs s)
    (printed s ++ [EnteringArtificialSyscall]))))) as (k2 & E2 & V2).
  { cbn. by rewrite V1. }
  { cbn. rewrite V1. done. }
  cbn in V2. rewrite V1 in V2. exists k2. split; [|exact V2].
  cbn. rewrite E1. cbn in E2 |- *. rewrite E2.
  unfold dump, print, call_messages. cbn [kern status regs printed]. rewrite <- !app_assoc. reflexivity.
Qed.

(** The loop: [callregs] stays what the first round prepares. *)
Lemma call_loop_spec n str len R : forall callregs (s : state K message),
  prepared str len callregs = prepared str len R -> eip callregs = eip R -> eip (regs s) = eip R ->
  at_ (tracee_of s) = AtExit -> int80 (eip R) = true ->
  returns (entered (enter (prepared str len R))) = true ->
  exists k status', call_loop n str len callregs s =
      MkState k status' (regs s) (printed s ++ concat (replicate n call_messages)) /\
    at_ (view k) = AtExit /\
    performed (view k) =
      performed (tracee_of s) ++ replicate n (entered (enter (prepared str len R))).
Proof.
  induction n as [|n IH]; intros callregs s Hp He Hs Ha Hi Hr; cbn [call_loop replicate concat].
  { exists (kern s), (status s). rewrite !app_nil_r. by destruct s. }
  destruct (artificial_call_spec str len callregs s) as (k & -> & V); [done|by rewrite He|by rewrite Hp|].
  rewrite Hp in V |- *.
  edestruct (IH (set_eip (eip (regs s)) (prepared str len R)) (MkState k syscall_stop (regs s) (printed s ++ call_messages)))
    as (k' & status' & E & Ha' & V'); cbn [kern regs]; try done.
  { by rewrite Hs. }
  { by rewrite V. }
  exists k', status'. rewrite E. cbn [printed regs kern] in *. rewrite <- app_assoc.
  split; [done|]. split; [done|]. rewrite V', V. cbn [called performed registers].
  by rewrite <- app_assoc.
Qed.

(** What the parent prints while it serves a call. *)
Definition rpc_messages (r : user_regs) : list message :=
  [ChildRequestsRpc (i32 (ebx r)) (u32 (ecx r)) (i32 (edx r)); AdvanceToRpcExit;
   Status (DumpStopped SIGTRAP); SettingRet (u32 (eip r))] ++
  concat (replicate 5 call_messages) ++ [RestoringRegs].

(** The artificial call the loop makes for a request with registers [r]. *)
Definition artificial (r : user_regs) : call :=
  (SYS_write, [STDOUT_FILENO; ecx r; edx r; esi r; edi r; ebp r]).

Lemma i32_u32 z : i32 (u32 z) = i32 z.
Proof. unfold i32, u32, wrapS, wrapU. f_equal. by rewrite Zplus_mod_idemp_l. Qed.

(** The stop at the child's first [int $0x80], as the parent reads it: the test
    for an rpc succeeds, and what is asked for is a [write] of the string. *)
Lemma child_request str r :
  let at_stop := enter (rpc_registers str r) in
  orig_eax at_stop = SYS_rpc /\
  (i32 (ebx at_stop), u32 (ecx at_stop), i32 (edx at_stop)) = (SYS_write, u32 str, len) /\
  (artificial at_stop).1 = SYS_write /\ take 3 (artificial at_stop).2 = [STDOUT_FILENO; str; len].
Proof. done. Qed.

Lemma entered_prepared r v : i32 (ecx r) = ecx r ->
  entered (enter (prepared (u32 (ecx r)) (edx r) (set_eax v r))) = artificial r.
Proof. intros Hc. unfold prepared. by rewrite i32_u32, Hc. Qed.

(** The end of [serve_rpc]: the registers restored, then a whole call. *)
Lemma restore_spec (s : state K message) :
  at_ (tracee_of s) = AtExit -> int80 (eip (regs s)) = true ->
  returns (entered (enter (regs s))) = true ->
  exists k, advance (advance (on_kern (ptrace_setregs (regs s)) (print RestoringRegs s))) =
      MkState k syscall_stop (regs s) (printed s ++ [RestoringRegs]) /\
    view k = called (MkTracee AtExit (regs s) (performed (tracee_of s))).
Proof.
  intros Ha Hi Hr. pose proof (setregs_stopped (kern s) (regs s) Ha) as Hset.
  destruct (advance_exit (on_kern (ptrace_setregs (regs s)) (print RestoringRegs s))) as (k1 & E1 & V1).
  { cbn. by rewrite Hset. }
  { cbn. rewrite Hset. done. }
  cbn in E1, V1. rewrite Hset in V1. cbn in V1. rewrite E1.
  destruct (advance_entry (MkState k1 syscall_stop (regs s) (printed s ++ [RestoringRegs]))) as (k2 & E2 & V2).
  { cbn. by rewrite V1. }
  { cbn. rewrite V1. done. }
  exists k2. split; [exact E2|]. cbn in V2. by rewrite V1 in V2.
Qed.

(** The registers of a child stopped at the exit of a call the kernel does not
    have, with the return value the parent gives it. *)
Lemma serve_rpc_spec (s : state K message) r :
  tracee_of s = MkTracee AtEntry r (performed (tracee_of s)) -> regs s = r ->
  i32 (ecx r) = ecx r -> i32 (edx r) = edx r -> int80 (eip r) = true ->
  returns (entered r) = true -> returns (artificial r) = true ->
  returns (entered (enter (set_eax 0 r))) = true ->
  exists k, serve_rpc s = MkState k syscall_stop (set_eax 0 r) (printed s ++ rpc_messages r) /\
    view k = called (MkTracee AtExit (set_eax 0 r)
      (performed (tracee_of s) ++ [entered r] ++ replicate 5 (artificial r))).
Proof.
  intros Hv Hs Hc Hd Hi R1 R2 R3. unfold serve_rpc. rewrite Hs, Hd.
  set (m1 := print AdvanceToRpcExit _).
  destruct (advance_entry m1) as (k1 & E1 & V1); [cbn; by rewrite Hv|cbn; by rewrite Hv|].
  cbn [m1 print kern regs printed] in E1, V1. rewrite Hv in V1. cbn in V1. rewrite E1.
  assert (ptrace_getregs k1 = Some (registers (view k1))) as G
    by (apply getregs_stopped; rewrite V1; done).
  unfold dump, getregs, set_regs, print. cbn [kern status regs printed]. rewrite G, V1.
  cbn [registers default from_option id]. set (v := answer _ _) in *.
  change (set_eax 0 (set_eax v r)) with (set_eax 0 r).
  set (m2 := MkState _ _ _ _).
  destruct (call_loop_spec 5 (u32 (ecx r)) (edx r) (set_eax 0 r) (set_eax 0 r) m2)
    as (k2 & st2 & E2 & A2 & V2); try done.
  { cbn. by rewrite V1. }
  { by rewrite entered_prepared. }
  rewrite E2. cbn [regs]. rewrite entered_prepared in V2 by done.
  destruct (restore_spec (MkState k2 st2 (set_eax 0 r) (printed m2 ++ concat (replicate 5 call_messages))))
    as (k3 & E3 & V3); try done.
  exists k3. split.
  - etransitivity; [exact E3|]. cbn [printed regs m2]. unfold rpc_messages. rewrite Hd, <- !app_assoc.
    reflexivity.
  - cbn [kern regs] in V3. rewrite V3. do 2 f_equal. rewrite V2. cbn [m2 kern]. rewrite V1.
    cbn [performed]. by rewrite <- app_assoc.
Qed.

(** The stop [up_to_rpc] leaves the child at: the one after its SIGSTOP. *)
Definition asked (s : state K message) : K * option Z := next_stop (waitpid (ptrace_cont (kern s))).1.

Lemma up_to_rpc_spec (s : state K message) :
  at_ (tracee_of s) = BeforeSIGSTOP -> at_ (view (asked s).1) = AtEntry ->
  (asked s).2 = Some syscall_stop ->
  up_to_rpc s = MkState (asked s).1 syscall_stop (registers (view (asked s).1))
    (printed s ++ [Status (DumpStopped SIGTRAP)]).
Proof.
  intros Hb He Hs. unfold asked, up_to_rpc, getregs, dump, print, advance, wait, on_kern, next_stop in *.
  cbn [kern status regs printed]. destruct (waitpid (ptrace_cont (kern s))) as [k1 o1] eqn:E1.
  cbn [fst kern status regs printed] in *. destruct (waitpid (ptrace_syscall k1)) as [k2 o2].
  cbn in *. subst o2. by rewrite getregs_stopped by (rewrite He; done).
Qed.

(** C37: a child that, let go after its SIGSTOP, asks for a remote call is
    made to perform [write] to the standard output five times, each with the
    pointer and the length it asked for and its other registers as they are;
    then its registers are those it had at the return of its own call, with 0
    as the result, except that the next instruction, the stub call, has been
    executed with that 0 as its number and has left its answer in [eax]. *)
Theorem rpc_is_served (s : state K message) r :
  at_ (tracee_of s) = BeforeSIGSTOP ->
  at_ (view (asked s).1) = AtEntry -> (asked s).2 = Some syscall_stop ->
  registers (view (asked s).1) = r -> orig_eax r = SYS_rpc ->
  i32 (ecx r) = ecx r -> i32 (edx r) = edx r -> int80 (eip r) = true ->
  (forall nr args, nr ∈ [SYS_rpc; SYS_write; 0] -> returns (nr, args) = true) ->
  let calls := performed (view (asked s).1) ++ [entered r] ++ replicate 5 (artificial r) in
  let stub := (0, (entered r).2) in
  tracee_of (before_loop s) =
    MkTracee AtExit
      (set_eip (eip r + 2) (set_orig_eax 0 (set_eax (answer calls stub) r))) (calls ++ [stub]) /\
  printed (before_loop s) = printed s ++ [Status (DumpStopped SIGTRAP)] ++ rpc_messages r.
Proof.
  intros Hb He Hs Hr Ho Hc Hd Hi Hret calls stub. unfold before_loop.
  rewrite up_to_rpc_spec by done. cbn [regs]. rewrite Hr, Ho, decide_True by done.
  destruct (serve_rpc_spec (MkState (asked s).1 syscall_stop r (printed s ++ [Status (DumpStopped SIGTRAP)])) r)
    as (k & -> & V); try done; cbn [kern].
  - destruct (view (asked s).1); cbn in *; by subst.
  - apply Hret. rewrite Ho. set_solver.
  - apply Hret. set_solver.
  - apply Hret. set_solver.
  - cbn [kern printed] in V |- *. rewrite V, <- app_assoc. done.
Qed.

End Documented.

(** ** The end of [parent] *)

Section End_.
Context {K : Type} `{Ptrace K}.

(** [main], by what [fork] returns. *)
Definition main (fuel : nat) (fork str : Z) (s : state K message) : list child_step + option (state K message) :=
  if 0 =? fork then inl (child str) else inr (parent fuel s).

(** Two states a further stop does not tell apart. *)
Definition same_child (s s' : state K message) : Prop := kern s = kern s' /\ status s = status s'.

Lemma same_advance s s' : same_child s s' -> same_child (advance s) (advance s').
Proof.
  intros [Hk Hs]. unfold advance, wait, on_kern. cbn [kern status regs printed]. rewrite Hk, Hs.
  by destruct (waitpid _).
Qed.

Lemma same_iter n s s' : same_child s s' -> same_child (Nat.iter n advance s) (Nat.iter n advance s').
Proof. intros Hs. induction n as [|n IH]; [done|]. by apply same_advance. Qed.

(** The child is there after the [n]th resumption. *)
Definition alive_after (n : nat) (s : state K message) : bool :=
  negb ((dump_status (status (Nat.iter n advance s))).2 =? 0).

Lemma alive_same n s s' : same_child s s' -> alive_after n s = alive_after n s'.
Proof. intros Hs. destruct (same_iter n s s' Hs) as [_ E]. unfold alive_after. by rewrite E. Qed.

(** One round, up to what it prints. *)
Lemma run_to_end_round fuel s : exists s', same_child s' (advance s) /\
  run_to_end (S fuel) s = if alive_after 1 s then run_to_end fuel s' else Some s'.
Proof.
  eexists. cbn [run_to_end]. unfold alive_after. cbn [Nat.iter].
  assert (status (print (ChildAtSyscall (orig_eax (regs (getregs (advance s))))) (getregs (advance s)))
    = status (advance s)) as -> by done.
  destruct (_ =? 0); (split; [|reflexivity]); done.
Qed.

Lemma run_to_end_ends n : forall fuel s,
  (forall i, (0 < i <= n)%nat -> alive_after i s = true) -> alive_after (S n) s = false ->
  match run_to_end fuel s with
  | Some s' => (n < fuel)%nat /\ same_child s' (Nat.iter (S n) advance s)
  | None => (fuel <= n)%nat
  end.
Proof.
  induction n as [|n IH]; intros fuel s Hl Hd; (destruct fuel as [|fuel]; [cbn; lia|]);
    destruct (run_to_end_round fuel s) as (s' & Hs & ->).
  - rewrite Hd. split; [lia|done].
  - rewrite Hl by lia. specialize (IH fuel s').
    assert (forall i, alive_after i s' = alive_after (S i) s) as Hshift.
    { intros i. rewrite (alive_same i s' (advance s) Hs). unfold alive_after.
      by rewrite Nat.iter_succ_r. }
    specialize (IH ltac:(intros i Hi; rewrite Hshift; apply Hl; lia) ltac:(by rewrite Hshift)).
    destruct (run_to_end fuel s') as [s''|]; [|lia]. destruct IH as [Hf [Hk He]]. split; [lia|].
    destruct (same_iter (S n) s' (advance s) Hs) as [Hk' He'].
    rewrite (Nat.iter_succ_r (S n)). split; congruence.
Qed.

(** C38: whatever the kernel answers, [parent] returns exactly when a status
    says that the child is gone: it resumes the child until the first such
    status after the rpc, no less and no more, and with fewer rounds it has
    not returned.  A status from before the loop counts, since a [waitpid]
    that fails leaves it in place. *)
Theorem parent_returns_when_child_ends fuel n (s : state K message) :
  (forall i, (0 < i <= n)%nat -> alive_after i (before_loop s) = true) ->
  alive_after (S n) (before_loop s) = false ->
  ((n < fuel)%nat -> exists s', parent fuel s = Some s' /\
    kern s' = kern (Nat.iter (S n) advance (before_loop s))) /\
  ((fuel <= n)%nat -> parent fuel s = None).
Proof.
  intros Hl Hd. pose proof (run_to_end_ends n fuel _ Hl Hd) as Hrun. unfold parent.
  destruct (run_to_end fuel (before_loop s)) as [s'|]; split; intros Hf; try lia; [|done].
  exists s'. by destruct Hrun as [_ [-> _]].
Qed.

End End_.

(** ** A child and its parent *)

Module Example_.

(** Two system call instructions, at 100 and at 102; [ecx] and [edx] are the
    string and its length. *)
Definition int80 (a : Z) : bool := bool_decide (a ∈ [100; 102]).
Definition answer (_ : list call) (c : call) : Z :=
  if c.1 =? SYS_write then nth 2 c.2 0 else if c.1 =? 0 then -4 else - ENOSYS.

Definition child_regs : user_regs :=
  MkRegs SYS_write 4096 3 7 8 9 SYS_rpc 0 0 0 0 0 100 0 0 5000 0.

Definition start (p : place) : state machine message :=
  MkState (MkMachine (MkTracee p child_regs []) (if decide (p = AtSIGSTOP) then Some (stop_status SIGSTOP 0) else None))
    0 (set_orig_eax 0 child_regs) [].

#[export] Instance kernel : Ptrace machine := machine_ptrace int80 answer.
#[export] Instance documented : PtraceDocumented machine int80 (fun _ => true) answer :=
  machine_documented int80 (fun _ => true) answer.

(** When the child has stopped before the parent's first request, that request
    lets it go: it runs to its end untraced and nothing is written for it. *)
Lemma parent_can_miss_the_rpc : exists s', parent 1 (start AtSIGSTOP) = Some s' /\
  at_ (Ptrace.child (kern s')) = Gone /\ map fst (performed (Ptrace.child (kern s'))) = [SYS_rpc; - ENOSYS].
Proof. eexists. split; [vm_compute; reflexivity|]. by vm_compute. Qed.

End Example_.

Import (hints) Example_.

Lemma rpc_is_served_witness :
  let write := (SYS_write, [1; 4096; 3; 7; 8; 9]) in
  exists t, view (kern (before_loop (Example_.start BeforeSIGSTOP))) = t /\
    performed t =
      [(SYS_rpc, [4; 4096; 3; 7; 8; 9]); write; write; write; write; write; (0, [4; 4096; 3; 7; 8; 9])] /\
    eax (registers t) = -4.
Proof.
  intros write. eexists. split.
  - apply (rpc_is_served (Example_.start BeforeSIGSTOP) (MkRegs 4 4096 3 7 8 9 (-38) 0 0 0 0 (-42) 102 0 0 5000 0));
      first [by intros nr args Hn | vm_compute; reflexivity].
  - split; vm_compute; reflexivity.
Defined.

Lemma parent_returns_when_child_ends_witness :
  exists s', @parent machine Example_.kernel 1 (Example_.start BeforeSIGSTOP) = Some s'.
Proof.
  destruct (@parent_returns_when_child_ends machine Example_.kernel 1 0 (Example_.start BeforeSIGSTOP))
    as [Hret _]; [lia|vm_compute; reflexivity|].
  destruct (Hret ltac:(lia)) as (s' & E & _). by exists s'.
Defined.
