(* ===== verification/Sysemu.v ===== *)
(** * A child whose system calls are not performed

    [parent] of src/sysemu.c lets its child go from one system call to the next
    with PTRACE_SYSEMU, and prints where it is.  The kernel is the interface of
    [Ptrace]; the command [dump_status] runs for a stopped child only reads
    /proc.  [child] makes two system calls for the parent to see. *)

From stdpp Require Import base numbers list sets strings pretty.
From S2P Require Import Prelude WaitStatus RegTrace Ptrace.

Local Open Scope Z_scope.

(** ** The child *)

(** The library calls of [child]. *)
Inductive child_call : Set :=
  | TraceMe
  | Raise (sig : Z)
  | GetTimeOfDay
  | ClockGetTime (clock : Z)
  | Return (code : Z).

Definition CLOCK_MONOTONIC : Z := 1.

Definition child : list child_call :=
  [TraceMe; Raise SIGSTOP; GetTimeOfDay; ClockGetTime CLOCK_MONOTONIC; Return 0].

(** ** The parent *)

(** What [dump_status] does: a line, and for a stopped child a command. *)
Inductive effect : Set :=
  | Printf (p : Z) (d : dumped)
  | System (cmd : string).

(** [cmd] is as long as PATH_MAX. *)
Definition PATH_MAX : nat := 4096.

Definition snprintf (size : nat) (text : string) : string := String.substring 0 (size - 1) text.

Definition dump_status (p status : Z) : list effect * Z :=
  if WIFSTOPPED status then
    let cmd := snprintf PATH_MAX ("cat /proc/" +:+ pretty p +:+ "/syscall") in
    ([Printf p (DumpStopped (WSTOPSIG status)); System cmd], 1)
  else if WIFCONTINUED status then ([Printf p DumpContinued], 1)
  else if WIFEXITED status then ([Printf p (DumpExited (WEXITSTATUS status))], 0)
  else if WIFSIGNALED status then ([Printf p (DumpTerminated (WTERMSIG status))], 0)
  else ([Printf p DumpRunning], 1).

(** It is the function of the other tools but for the command. *)
Lemma dump_status_same p status : exists cmds,
  dump_status p status = (Printf p (WaitStatus.dump_status status).1 :: map System cmds,
    (WaitStatus.dump_status status).2) /\
  (cmds = [] <-> WIFSTOPPED status = false).
Proof.
  unfold dump_status, WaitStatus.dump_status. set (cmd := snprintf _ _).
  destruct (WIFSTOPPED status); [by exists [cmd]|].
  by destruct (WIFCONTINUED status), (WIFEXITED status), (WIFSIGNALED status); exists [].
Qed.

(** The lines printed. *)
Inductive line : Set :=
  | StatusLine (d : dumped)
  | OrigEax (nr : Z)
  | IpOrigEax (ip nr : Z).

Section Parent.
Context {K : Type} `{Ptrace K}.

Abbreviation st := (state K line).

(** [dump_status], its result and its command left aside, and PTRACE_GETREGS. *)
Definition look (s : st) : st := getregs (print (StatusLine (WaitStatus.dump_status (status s)).1) s).

Definition print_orig_eax (s : st) : st := print (OrigEax (orig_eax (regs s))) s.
Definition print_ip (s : st) : st := print (IpOrigEax (u32 (eip (regs s))) (orig_eax (regs s))) s.

Definition parent (s : st) : st :=
  let s := print_orig_eax (look (wait s)) in
  let s := print_orig_eax (look (wait (on_kern ptrace_sysemu s))) in
  let s := print_ip (look (wait (on_kern ptrace_sysemu s))) in
  let s := print_ip (look (wait (on_kern ptrace_sysemu_singlestep s))) in
  print_orig_eax (look (wait (on_kern ptrace_sysemu s))).

(** [main], by what [fork] returns. *)
Definition main (fork : Z) (s : st) : list child_call + st :=
  if 0 =? fork then inl child else inr (parent s).

End Parent.

Section Documented.
Context {K : Type} `{Ptrace K} {int80 : Z -> bool} {returns : call -> bool}
  {answer : list call -> call -> Z} `{!PtraceDocumented K int80 returns answer}.

(** The child has performed what it had performed in [k], and a resumption by
    PTRACE_SYSEMU keeps it so. *)
Definition held (k : K) (s : state K line) : Prop :=
  emulating (at_ (view (kern s))) = true /\ performed (view (kern s)) = performed (view k).

Lemma wait_kern (s : state K line) : kern (wait s) = (waitpid (kern s)).1.
Proof. unfold wait. by destruct (waitpid (kern s)). Qed.

Lemma held_sysemu k s : held k s -> held k (wait (on_kern ptrace_sysemu s)).
Proof.
  intros [He Hp]. unfold held. rewrite wait_kern. cbn [on_kern kern].
  destruct (sysemu_next (kern s) He) as [H1 H2]. by rewrite H2.
Qed.

Lemma held_singlestep k s : held k s -> held k (wait (on_kern ptrace_sysemu_singlestep s)).
Proof.
  intros [He Hp]. unfold held. rewrite wait_kern. cbn [on_kern kern].
  destruct (sysemu_singlestep_next (kern s) He) as [H1 H2]. by rewrite H2.
Qed.

Lemma held_look k s : held k s -> held k (look s).
Proof. done. Qed.

(** How much is printed. *)
Lemma wait_printed (s : state K line) f : length (printed (wait (on_kern f s))) = length (printed s).
Proof. unfold wait. by destruct (waitpid (kern (on_kern f s))). Qed.

Lemma look_printed (s : state K line) : length (printed (look s)) = S (length (printed s)).
Proof. unfold look, getregs, print. cbn [printed]. rewrite length_app. simpl. lia. Qed.

Lemma print_printed m (s : state K line) : length (printed (print m s)) = S (length (printed s)).
Proof. unfold print. cbn [printed]. rewrite length_app. simpl. lia. Qed.

(** After the SIGSTOP it raises the child performs no system call as long
    as [parent] runs, whatever code the child has and however often it exits
    early; the parent prints five statuses and five positions. *)
Lemma no_call_is_performed (s : state K line) : at_ (view (kern s)) = BeforeSIGSTOP ->
  performed (view (kern (parent s))) = performed (view (waitpid (kern s)).1) /\
  emulating (at_ (view (kern (parent s)))) = true /\
  length (printed (parent s)) = (length (printed s) + 10)%nat.
Proof.
  intros Hb. split; [|split].
  3:{ unfold parent, print_orig_eax, print_ip.
      repeat (rewrite print_printed || rewrite look_printed || rewrite wait_printed).
      unfold wait. destruct (waitpid (kern s)). simpl. lia. }
  all: assert (held (waitpid (kern s)).1 (parent s)) as [H1 H2]; [|done].
  all: apply held_sysemu, held_singlestep, held_sysemu, held_sysemu;
    change (held (waitpid (kern s)).1 (wait s)); split; rewrite wait_kern; [|done];
    by destruct (wait_running (kern s) Hb) as [-> _].
Qed.

End Documented.

(** ** A child at four system calls, one after the other *)

Module Example_.

Definition int80 (a : Z) : bool := bool_decide (a ∈ [100; 102; 104; 106]).
Definition answer (_ : list call) (_ : call) : Z := 0.

#[export] Instance kernel : Ptrace machine := machine_ptrace int80 answer.
#[export] Instance documented : PtraceDocumented machine int80 (fun _ => true) answer :=
  machine_documented int80 (fun _ => true) answer.

Definition start : state machine line :=
  MkState (MkMachine (MkTracee BeforeSIGSTOP (MkRegs 0 0 0 0 0 0 78 0 0 0 0 0 100 0 0 0 0) []) None) 0
    (MkRegs 0 0 0 0 0 0 0 0 0 0 0 0 0 0 0 0 0) [].

End Example_.

Import (hints) Example_.

Example no_call_is_performed_example : performed (view (kern (parent Example_.start))) = [].
Proof.
  assert (at_ (view (kern Example_.start)) = BeforeSIGSTOP) as Hb by reflexivity.
  rewrite (proj1 (no_call_is_performed Example_.start Hb)). vm_compute. reflexivity.
Qed.
