(* ===== verification/Futex.v ===== *)
(** * Naming futex commands

    src/strfutexcmd.c: the command's name from its low bits, and the two flag
    bits.  The constants are those of <linux/futex.h>; a command is an
    [unsigned long] of 32 bits (the tool is built for i386). *)

From stdpp Require Import base numbers list strings sets.
From S2P Require Import Prelude Strtoul.

Local Open Scope string_scope.
Local Open Scope Z_scope.

Definition FUTEX_PRIVATE_FLAG : Z := 128.
Definition FUTEX_CLOCK_REALTIME : Z := 256.
Definition FUTEX_CMD_MASK : Z := Z.lnot (Z.lor FUTEX_PRIVATE_FLAG FUTEX_CLOCK_REALTIME).

(** FUTEX_WAIT, FUTEX_WAKE, ... in the order of their values. *)
Definition strfutex (cmd : Z) : string :=
  match cmd with
  | 0 => "WAIT"
  | 1 => "WAKE"
  | 2 => "FD"
  | 3 => "REQUEUE"
  | 4 => "CMP_REQUEUE"
  | 5 => "WAKE_OP"
  | 6 => "LOCK_PI"
  | 7 => "UNLOCK_PI"
  | 8 => "TRYLOCK_PI"
  | 9 => "WAIT_BITSET"
  | 10 => "WAKE_BITSET"
  | 11 => "WAIT_REQUEUE_PI"
  | 12 => "CMP_REQUEUE_PI"
  | _ => "???"
  end.

(** One line of output: ["0x%lx = %s%s%s\n"]. *)
Record futex_line : Set := MkLine {
  fl_cmd : Z;
  fl_name : string;
  fl_private : string;
  fl_clock_realtime : string
}.

Definition describe (cmd : Z) : futex_line :=
  let private := Z.land cmd FUTEX_PRIVATE_FLAG in
  let clock_realtime := Z.land cmd FUTEX_CLOCK_REALTIME in
  MkLine cmd (strfutex (Z.land cmd FUTEX_CMD_MASK))
    (if private =? 0 then "" else " (private)")
    (if clock_realtime =? 0 then "" else " (clock_realtime)").

Definition strfutexcmd (args : list Z) : list futex_line := map describe args.

(** [main] on its arguments as they are typed. *)
Definition main (argv : list (list Z)) : list futex_line := strfutexcmd (map strtoul (tail argv)).

(** ** Properties *)

(** Commands typed in either notation the output uses. *)
Lemma main_reads exe (typed : list (Z * bool)) : Forall (fun p : Z * bool => 0 <= p.1 <= ULONG_MAX) typed ->
  main (exe :: map (fun p : Z * bool => if p.2 then ([48; 120] ++ format_lx p.1)%list else format_lu p.1) typed) =
    map (fun p : Z * bool => describe p.1) typed.
Proof.
  intros Ht. unfold main, strfutexcmd. cbn [tail]. rewrite !map_map. apply map_ext_Forall.
  eapply Forall_impl; [exact Ht|]. intros [n []] Hn; f_equal; by apply strtoul_format.
Qed.

(** The argument [op | private | clock_realtime] of the futex system call. *)
Definition futex_cmd (op : Z) (private clock_realtime : bool) : Z :=
  Z.lor op (Z.lor (if private then FUTEX_PRIVATE_FLAG else 0)
                  (if clock_realtime then FUTEX_CLOCK_REALTIME else 0)).

Lemma small_cases (P : Z -> Prop) n : (forall k : nat, (k < n)%nat -> P (Z.of_nat k)) ->
  forall z, 0 <= z < Z.of_nat n -> P z.
Proof. intros H z Hz. rewrite <- (Z2Nat.id z) by lia. apply H. lia. Qed.

(** C25: the two flag bits are reported independently of the command and do
    not disturb its name, and the thirteen names are distinct and known. *)
Theorem describe_decodes op p c :
  0 <= op < 13 ->
  describe (futex_cmd op p c) =
    MkLine (futex_cmd op p c) (strfutex op) (if p then " (private)" else "")
           (if c then " (clock_realtime)" else "") /\
  strfutex op <> "???" /\
  forall op', 0 <= op' < 13 -> strfutex op = strfutex op' -> op = op'.
Proof.
  intros Hop. revert op Hop.
  assert (forall op, op ∈ [0; 1; 2; 3; 4; 5; 6; 7; 8; 9; 10; 11; 12] ->
    describe (futex_cmd op p c) =
      MkLine (futex_cmd op p c) (strfutex op) (if p then " (private)" else "")
             (if c then " (clock_realtime)" else "") /\ strfutex op <> "???") as H1.
  { apply Forall_forall. destruct p, c; repeat (constructor; [split; [reflexivity|discriminate]|]); constructor. }
  assert (Forall (fun a => Forall (fun b => strfutex a = strfutex b -> a = b)
    [0; 1; 2; 3; 4; 5; 6; 7; 8; 9; 10; 11; 12]) [0; 1; 2; 3; 4; 5; 6; 7; 8; 9; 10; 11; 12]) as H2
    by (apply (bool_decide_unpack _); by vm_compute).
  assert (forall z, 0 <= z < 13 -> z ∈ [0; 1; 2; 3; 4; 5; 6; 7; 8; 9; 10; 11; 12]) as H3.
  { apply (small_cases _ 13). intros k Hk. do 13 (destruct k as [|k]; [set_solver|]). lia. }
  intros op Hop. split_and!; try by apply H1, H3.
  intros op' Hop'. rewrite Forall_forall in H2. specialize (H2 op (H3 op Hop)).
  rewrite Forall_forall in H2. apply H2. auto.
Qed.

Lemma describe_decodes_witness :
  describe (futex_cmd 9 true true) = MkLine 393 "WAIT_BITSET" " (private)" " (clock_realtime)".
Proof. destruct (describe_decodes 9 true true) as [H _]; [lia|]. exact H. Defined.
