(* ===== verification/Watchpoint.v ===== *)
(** * Debug registers

    src/watchpoint.c: the layout of the debug control register ([struct
    DebugControl], bit fields allocated from bit 0 upwards as on i386),
    [watch], which arms data watchpoint 0 of a task, [main], which arms one in a
    child and in the thread the child starts, and what that child does. *)

From stdpp Require Import base numbers list sets.
From S2P Require Import Prelude WaitStatus RegTrace.

Local Open Scope Z_scope.

Inductive WatchType : Set := TRAP_EXEC | TRAP_WRITE | TRAP_READWRITE.
Inductive WatchBytes : Set := BYTES_1 | BYTES_2 | BYTES_4 | BYTES_8.

Definition type_code (t : WatchType) : Z :=
  match t with TRAP_EXEC => 0x00 | TRAP_WRITE => 0x01 | TRAP_READWRITE => 0x03 end.

Definition bytes_code (b : WatchBytes) : Z :=
  match b with BYTES_1 => 0x00 | BYTES_2 => 0x01 | BYTES_4 => 0x03 | BYTES_8 => 0x02 end.

(** The fields of [struct DebugControl], each with its width. *)
Record DebugControl : Set := MkControl {
  dr0_local : Z; dr0_global : Z; dr1_local : Z; dr1_global : Z;
  dr2_local : Z; dr2_global : Z; dr3_local : Z; dr3_global : Z;
  ignored : Z;
  dr0_type : Z; dr0_len : Z; dr1_type : Z; dr1_len : Z;
  dr2_type : Z; dr2_len : Z; dr3_type : Z; dr3_len : Z
}.

Definition fields (c : DebugControl) : list (Z * Z) :=
  [(1, dr0_local c); (1, dr0_global c); (1, dr1_local c); (1, dr1_global c);
   (1, dr2_local c); (1, dr2_global c); (1, dr3_local c); (1, dr3_global c);
   (8, ignored c);
   (2, dr0_type c); (2, dr0_len c); (2, dr1_type c); (2, dr1_len c);
   (2, dr2_type c); (2, dr2_len c); (2, dr3_type c); (2, dr3_len c)].

(** The word a sequence of bit fields makes up, low field first. *)
Fixpoint pack (l : list (Z * Z)) : Z :=
  match l with
  | [] => 0
  | (w, v) :: l => Z.lor (Z.land v (Z.ones w)) (Z.shiftl (pack l) w)
  end.

Definition zero_control : DebugControl := MkControl 0 0 0 0 0 0 0 0 0 0 0 0 0 0 0 0 0.

(** Writes of debug registers of a task ([PTRACE_POKEUSER]). *)
Inductive poke : Set := Poke (tid : Z) (debugreg : nat) (value : Z).

(** [watch]: the pokes attempted, in order; [accepts] says whether the kernel
    accepts one.  [false]: a poke was refused and the program exits. *)
Fixpoint poke_all (accepts : poke -> bool) (l : list poke) : list poke * bool :=
  match l with
  | [] => ([], true)
  | p :: l =>
      if accepts p then let '(ps, ok) := poke_all accepts l in (p :: ps, ok) else ([p], false)
  end.

Definition watch (accepts : poke -> bool) (tid addr : Z) (what : WatchType) (len : WatchBytes)
    : list poke * bool :=
  let ctl := MkControl 1 0 0 0 0 0 0 0 0 (type_code what) (bytes_code len) 0 0 0 0 0 0 in
  poke_all accepts [Poke tid 6 0; Poke tid 0 addr; Poke tid 7 (pack (fields ctl))].

(** ** The child *)

(** The two functions whose accesses to [mut] are to be noticed. *)
Inductive access : Set := read_mut | write_mut (x : Z).

(** The value of [mut] after an access, and the result of [read_mut]. *)
Definition perform (a : access) (mut : Z) : Z * option Z :=
  match a with read_mut => (mut, Some mut) | write_mut x => (x, None) end.

Inductive child_action : Set :=
  | TraceMe
  | KillSelf (sig : Z)
  | Access (a : access)
  | CreateThread                         (* running [thread] *)
  | JoinThread
  | Exit (code : Z).

Definition thread : list child_action := [Access read_mut; Access (write_mut 24)].

(** [traceme]: what [ptrace(PTRACE_TRACEME)] returns. *)
Definition child (traceme : Z) : list child_action :=
  TraceMe ::
  (if negb (traceme =? 0) then [Exit 1]
   else [KillSelf SIGSTOP; Access read_mut; Access (write_mut 42); CreateThread; JoinThread; Exit 0]).

(** The accesses a data breakpoint of a type stops after (Intel's manual,
    section on debug registers). *)
Definition traps (what : WatchType) (a : access) : bool :=
  match what, a with
  | TRAP_EXEC, _ | TRAP_WRITE, read_mut => false
  | TRAP_WRITE, write_mut _ | TRAP_READWRITE, _ => true
  end.

Fixpoint first_trap (what : WatchType) (l : list child_action) : option access :=
  match l with
  | [] => None
  | Access a :: l => if traps what a then Some a else first_trap what l
  | _ :: l => first_trap what l
  end.

(** ** [main] *)

(** What the kernel answers: the task and the status of the four stops whose
    answer is looked at, the new thread, the instruction pointers at the two
    hits, and whether a poke is accepted. *)
Record answers : Type := MkAnswers {
  first_stop : Z * Z;
  write_stop : Z * Z;
  clone_stop : Z * Z;
  access_stop : Z * Z;
  new_thread : Z;
  write_ip : Z;
  access_ip : Z;
  accepts_poke : poke -> bool
}.

(** The requests [main] makes, pokes apart. *)
Inductive ptrace_op : Set :=
  | SetOptions (tid : Z)
  | PokeUser (p : poke)
  | ResumeSyscall (tid : Z)
  | ResumeCont (tid : Z)
  | GetRegs (tid : Z)
  | GetEventMsg (tid : Z).

(** A statement of [main], and how it ends. *)
Inductive statement : Type :=
  | Do (op : ptrace_op)
  | Assert (b : bool)
  | Watch (tid : Z) (what : WatchType).

Inductive ending : Set := ReturnsZero | AssertionFails | ExitsOne.

Definition stopped_by (c sig : Z) (answer : Z * Z) : bool :=
  (c =? answer.1) && WIFSTOPPED answer.2 && (sig =? WSTOPSIG answer.2).

(** From the first [waitpid] on; [c] is the child, [addr] the address of
    [mut], [read_fn] and [write_fn] those of the two functions.  Pointers are
    compared as addresses. *)
Definition main (a : answers) (c addr read_fn write_fn : Z) : list statement :=
  let t := new_thread a in
  [Assert (stopped_by c SIGSTOP (first_stop a));
   Do (SetOptions c);
   Watch c TRAP_WRITE;
   Do (ResumeSyscall c);
   Assert (stopped_by c SIGTRAP (write_stop a));
   Do (GetRegs c);
   Assert ((read_fn <? write_fn) && (write_fn <=? write_ip a));
   Do (ResumeCont c);
   Assert ((c =? (clone_stop a).1) && (0x3057f =? (clone_stop a).2));
   Do (GetEventMsg c);
   Watch c TRAP_READWRITE;
   Watch t TRAP_READWRITE;
   Do (ResumeCont c);
   Do (ResumeCont t);
   Assert (stopped_by t SIGTRAP (access_stop a));
   Do (GetRegs t);
   Assert ((read_fn <=? access_ip a) && (read_fn <? write_fn))].

(** [main] from the [fork] on, by what it returns. *)
Definition main_from_fork (a : answers) (fork traceme addr read_fn write_fn : Z) : list child_action + list statement :=
  if 0 =? fork then inl (child traceme) else inr (main a fork addr read_fn write_fn).

(** The requests made, in order. *)
Fixpoint execute (a : answers) (addr : Z) (l : list statement) : list ptrace_op * ending :=
  match l with
  | [] => ([], ReturnsZero)
  | Do op :: l => let '(ops, e) := execute a addr l in (op :: ops, e)
  | Assert b :: l => if b then execute a addr l else ([], AssertionFails)
  | Watch tid what :: l =>
      let '(pokes, ok) := watch (accepts_poke a) tid addr what BYTES_4 in
      if ok then let '(ops, e) := execute a addr l in (map PokeUser pokes ++ ops, e)
      else (map PokeUser pokes, ExitsOne)
  end.

(** ** Properties *)

Lemma pack_low w v l : 0 <= w -> Z.land (pack ((w, v) :: l)) (Z.ones w) = Z.land v (Z.ones w).
Proof.
  intros Hw. simpl. rewrite Z.land_lor_distr_l, <- Z.land_assoc, Z.land_diag.
  replace (Z.land (Z.shiftl (pack l) w) (Z.ones w)) with 0; [by rewrite Z.lor_0_r|].
  symmetry. apply Z.bits_inj'. intros n Hn. rewrite Z.land_spec, Z.bits_0.
  destruct (Z.ltb_spec n w).
  - by rewrite Z.shiftl_spec_low.
  - by rewrite Z.ones_spec_high, andb_false_r by lia.
Qed.

Lemma pack_high w v l : 0 <= w -> Z.shiftr (pack ((w, v) :: l)) w = pack l.
Proof.
  intros Hw. simpl. rewrite Z.shiftr_lor, Z.shiftr_shiftl_l, Z.sub_diag by lia.
  replace (Z.shiftr (Z.land v (Z.ones w)) w) with 0; [done|].
  symmetry. apply Z.bits_inj'. intros n Hn. rewrite Z.shiftr_spec, Z.land_spec, Z.bits_0 by done.
  by rewrite Z.ones_spec_high, andb_false_r by lia.
Qed.

(** A packed word fits the sum of its widths. *)
Fixpoint total (l : list (Z * Z)) : Z :=
  match l with [] => 0 | (w, _) :: l => w + total l end.

Lemma total_nonneg l : Forall (fun p => 0 <= p.1) l -> 0 <= total l.
Proof. induction 1 as [|[w v] l Hw Hl IH]; simpl in *; lia. Qed.

Lemma pack_bound l : Forall (fun p => 0 <= p.1) l -> 0 <= pack l < 2 ^ total l.
Proof.
  induction 1 as [|[w v] l Hw Hl IH]; [by vm_compute|]. pose proof (total_nonneg l Hl) as Ht.
  change (total ((w, v) :: l)) with (w + total l).
  pose proof (pack_low w v l Hw) as E1. pose proof (pack_high w v l Hw) as E2.
  rewrite Z.land_ones in E1 by done. rewrite Z.land_ones in E1 by done.
  rewrite Z.shiftr_div_pow2 in E2 by done. simpl in Hw.
  rewrite Z.pow_add_r by lia. set (x := pack ((w, v) :: l)) in *.
  pose proof (Z.div_mod x (2 ^ w) ltac:(lia)). pose proof (Z.mod_pos_bound x (2 ^ w) ltac:(lia)). nia.
Qed.

(** A field is found at the sum of the widths before it. *)
Lemma pack_after l1 l2 : Forall (fun p => 0 <= p.1) l1 -> Z.shiftr (pack (l1 ++ l2)) (total l1) = pack l2.
Proof.
  induction 1 as [|[w v] l1 Hw Hl IH]; [by rewrite Z.shiftr_0_r|]. cbn [app].
  change (total ((w, v) :: l1)) with (w + total l1).
  rewrite <- Z.shiftr_shiftr, pack_high by (done || by apply total_nonneg). done.
Qed.

(** *** The processor's register *)

(** [width] bits of a register from bit [pos] on. *)
Definition bits (z pos width : Z) : Z := Z.shiftr z pos mod 2 ^ width.

(** The fields the struct has for each of the four breakpoints: local and
    global enable; condition and length. *)
Definition enables (c : DebugControl) : list (Z * Z) :=
  [(dr0_local c, dr0_global c); (dr1_local c, dr1_global c); (dr2_local c, dr2_global c); (dr3_local c, dr3_global c)].

Definition conditions (c : DebugControl) : list (Z * Z) :=
  [(dr0_type c, dr0_len c); (dr1_type c, dr1_len c); (dr2_type c, dr2_len c); (dr3_type c, dr3_len c)].

(** The length a LEN field of the register stands for. *)
Definition LEN_bytes (len : Z) : Z :=
  if len =? 0 then 1 else if len =? 1 then 2 else if len =? 2 then 8 else 4.

Lemma field_at l1 w v l2 : Forall (fun p => 0 <= p.1) l1 -> 0 <= w ->
  bits (pack (l1 ++ (w, v) :: l2)) (total l1) w = v mod 2 ^ w.
Proof.
  intros Hl Hw. unfold bits. rewrite pack_after by done. rewrite <- !Z.land_ones by done. by apply pack_low.
Qed.

(** The field with [k] fields before it. *)
Ltac at_field c k :=
  let l := eval cbv [fields take] in (take k (fields c)) in
  etransitivity; [apply (field_at l); [by repeat constructor|done]|reflexivity].

(** C26: the struct is the debug control register of the processor.  Whatever
    the fields hold, its word has L[n] and G[n] in bits 2n and 2n+1, R/W[n] in
    the two bits from 16+4n and LEN[n] in the two from 18+4n, each cut to its
    width, for each breakpoint n; it fits 32 bits.  So what [watch] writes
    there enables breakpoint 0 only, locally, with the condition asked for (00
    for execution, 01 for writes, 11 for reads and writes) and the length
    asked for. *)
Theorem DebugControl_is_DR7 c :
  let dr7 := pack (fields c) in
  (forall n l g, enables c !! n = Some (l, g) ->
     bits dr7 (2 * Z.of_nat n) 1 = l mod 2 /\ bits dr7 (2 * Z.of_nat n + 1) 1 = g mod 2) /\
  bits dr7 8 8 = ignored c mod 256 /\
  (forall n t s, conditions c !! n = Some (t, s) ->
     bits dr7 (16 + 4 * Z.of_nat n) 2 = t mod 4 /\ bits dr7 (18 + 4 * Z.of_nat n) 2 = s mod 4) /\
  0 <= dr7 < 2 ^ 32 /\
  (forall tid addr what len, exists w, (watch (fun _ => true) tid addr what len).1 =
       [Poke tid 6 0; Poke tid 0 addr; Poke tid 7 w] /\
     bits w 0 16 = 1 /\ bits w 20 12 = 0 /\
     bits w 16 2 = match what with TRAP_EXEC => 0 | TRAP_WRITE => 1 | TRAP_READWRITE => 3 end /\
     LEN_bytes (bits w 18 2) = match len with BYTES_1 => 1 | BYTES_2 => 2 | BYTES_4 => 4 | BYTES_8 => 8 end).
Proof.
  intros dr7. split_and!.
  - intros [|[|[|[|n]]]] l g; intros [= <- <-]; split;
      [at_field c 0%nat|at_field c 1%nat|at_field c 2%nat|at_field c 3%nat
      |at_field c 4%nat|at_field c 5%nat|at_field c 6%nat|at_field c 7%nat].
  - at_field c 8%nat.
  - intros [|[|[|[|n]]]] t s; intros [= <- <-]; split;
      [at_field c 9%nat|at_field c 10%nat|at_field c 11%nat|at_field c 12%nat
      |at_field c 13%nat|at_field c 14%nat|at_field c 15%nat|at_field c 16%nat].
  - apply (pack_bound (fields c)). by repeat constructor.
  - apply (pack_bound (fields c)). by repeat constructor.
  - intros tid addr what len. eexists. split; [reflexivity|]. by destruct what, len.
Qed.

(** Fields wider than their place are cut. *)
Lemma DebugControl_is_DR7_witness :
  let dr7 := pack (fields (MkControl 1 0 0 0 3 0 0 0 0 1 3 0 0 0 0 7 2)) in
  bits dr7 4 1 = 1 /\ bits dr7 18 2 = 3 /\ bits dr7 28 2 = 3 /\ bits dr7 30 2 = 2.
Proof.
  destruct (DebugControl_is_DR7 (MkControl 1 0 0 0 3 0 0 0 0 1 3 0 0 0 0 7 2)) as (H1 & _ & H2 & _).
  split; [exact (proj1 (H1 2%nat 3 0 eq_refl))|]. split; [exact (proj2 (H2 0%nat 1 3 eq_refl))|].
  split; [exact (proj1 (H2 3%nat 7 2 eq_refl))|exact (proj2 (H2 3%nat 7 2 eq_refl))].
Defined.

(** [watch] arms exactly watchpoint 0, locally: it clears the status,
    sets the address, then the control word, whose enable bits select debug
    register 0 alone and whose type and length are the ones asked for.  When
    the kernel refuses a write nothing further is written. *)
Lemma watch_arms_register_0 accepts tid addr what len :
  let ctl := Z.lor 1 (Z.lor (Z.shiftl (type_code what) 16) (Z.shiftl (bytes_code len) 18)) in
  (accepts (Poke tid 6 0) && accepts (Poke tid 0 addr) && accepts (Poke tid 7 ctl) = true ->
   watch accepts tid addr what len = ([Poke tid 6 0; Poke tid 0 addr; Poke tid 7 ctl], true)) /\
  (accepts (Poke tid 6 0) = true -> accepts (Poke tid 0 addr) = false ->
   watch accepts tid addr what len = ([Poke tid 6 0; Poke tid 0 addr], false)).
Proof.
  intros ctl. assert (watch accepts tid addr what len =
    poke_all accepts [Poke tid 6 0; Poke tid 0 addr; Poke tid 7 ctl]) as -> by (by destruct what, len).
  cbn [poke_all]. split.
  - intros [[-> ->]%andb_true_iff ->]%andb_true_iff. done.
  - by intros -> ->.
Qed.

(** The pokes of a successful [watch]. *)
Definition arming (tid addr : Z) (what : WatchType) : list ptrace_op :=
  map PokeUser (watch (fun _ => true) tid addr what BYTES_4).1.

Lemma watch_cases accepts tid addr what :
  watch accepts tid addr what BYTES_4 = watch (fun _ => true) tid addr what BYTES_4 /\
    (watch accepts tid addr what BYTES_4).2 = true \/
  (watch accepts tid addr what BYTES_4).2 = false /\
    Forall (fun p => match p with Poke t _ _ => t = tid end) (watch accepts tid addr what BYTES_4).1.
Proof.
  unfold watch. set (ctl := pack _). cbn [poke_all].
  destruct (accepts (Poke tid 6 0)); [|right; by repeat constructor].
  destruct (accepts (Poke tid 0 addr)); [|right; by repeat constructor].
  destruct (accepts (Poke tid 7 ctl)); [by left|right; by repeat constructor].
Qed.

(** Every resumption of a task comes after its watchpoint has been armed;
    [past] are the requests made before. *)
Definition resumes (op : ptrace_op) (tid : Z) : Prop := op = ResumeSyscall tid \/ op = ResumeCont tid.

Fixpoint resumes_armed (addr : Z) (past ops : list ptrace_op) : Prop :=
  match ops with
  | [] => True
  | op :: ops =>
      (forall tid, resumes op tid -> exists what, arming tid addr what ⊆ past) /\
      resumes_armed addr (past ++ [op]) ops
  end.

Lemma resumes_armed_app addr past l1 l2 :
  resumes_armed addr past (l1 ++ l2) <-> resumes_armed addr past l1 /\ resumes_armed addr (past ++ l1) l2.
Proof.
  revert past. induction l1 as [|op l1 IH]; intros past; simpl; [rewrite app_nil_r; tauto|].
  rewrite IH, <- app_assoc. simpl. tauto.
Qed.

Lemma pokes_armed addr past (l : list poke) : resumes_armed addr past (map PokeUser l).
Proof. revert past. induction l as [|p l IH]; intros past; simpl; [done|]. split; [by intros tid [|]|done]. Qed.

(** What a statement needs of the requests before it. *)
Definition statement_ok (addr : Z) (past : list ptrace_op) (x : statement) : Prop :=
  match x with
  | Do op => forall tid, resumes op tid -> exists what, arming tid addr what ⊆ past
  | _ => True
  end.

Definition issues (addr : Z) (x : statement) : list ptrace_op :=
  match x with Do op => [op] | Assert _ => [] | Watch tid what => arming tid addr what end.

Fixpoint statements_ok (addr : Z) (past : list ptrace_op) (l : list statement) : Prop :=
  match l with
  | [] => True
  | x :: l => statement_ok addr past x /\ statements_ok addr (past ++ issues addr x) l
  end.

Lemma execute_armed a addr l : forall past, statements_ok addr past l ->
  resumes_armed addr past (execute a addr l).1.
Proof.
  induction l as [|x l IH]; intros past Hl; [done|]. destruct Hl as [Hx Hl]. specialize (IH _ Hl).
  destruct x as [op|[]|tid what]; cbn [execute issues statement_ok] in *.
  - destruct (execute a addr l). by split.
  - by rewrite app_nil_r in IH.
  - done.
  - destruct (watch_cases (accepts_poke a) tid addr what) as [[E Eok]|[Eok _]].
    + rewrite (surjective_pairing (watch _ _ _ _ _)), Eok, E. destruct (execute a addr l) as [ops e].
      apply resumes_armed_app. split; [apply pokes_armed|exact IH].
    + rewrite (surjective_pairing (watch _ _ _ _ _)), Eok. apply pokes_armed.
Qed.

(** With every assertion true and every poke accepted nothing ends it early. *)
Lemma execute_ends a addr l : Forall (fun x => match x with Assert b => b = true | _ => True end) l ->
  (forall p, accepts_poke a p = true) -> (execute a addr l).2 = ReturnsZero.
Proof.
  intros Hl Hp. induction Hl as [|x l Hx Hl IH]; [done|]. destruct x as [op|b|tid what]; cbn [execute].
  - by destruct (execute a addr l).
  - by rewrite Hx.
  - unfold watch. set (ctl := pack _). cbn [poke_all]. rewrite !Hp. by destruct (execute a addr l).
Qed.

(** C27: whatever the kernel answers, [main] lets no task run whose watchpoint
    on [mut] it has not armed; and when the child stops by SIGSTOP, hits the
    watchpoint inside [write_mut], reports the clone, the new thread hits its
    watchpoint, and every debug register can be written, all asserts hold and
    [main] returns 0, provided the compiler has placed [read_mut] before
    [write_mut]. *)
Theorem main_arms_before_resuming a c addr read_fn write_fn :
  resumes_armed addr [] (execute a addr (main a c addr read_fn write_fn)).1 /\
  (first_stop a = (c, stop_status SIGSTOP 0) -> write_stop a = (c, stop_status SIGTRAP 0) ->
   clone_stop a = (c, stop_status SIGTRAP 3) -> access_stop a = (new_thread a, stop_status SIGTRAP 0) ->
   read_fn < write_fn <= write_ip a -> read_fn <= access_ip a -> (forall p, accepts_poke a p = true) ->
   (execute a addr (main a c addr read_fn write_fn)).2 = ReturnsZero).
Proof.
  split.
  - apply execute_armed. cbn [main statements_ok statement_ok issues app].
    repeat split; intros tid [E|E]; try discriminate E; injection E as <-;
      (exists TRAP_WRITE; set_solver) || (exists TRAP_READWRITE; set_solver).
  - intros E1 E2 E3 E4 [Hf Hw] Hr Hp. apply execute_ends; [|done].
    assert (forall t sig, 0 <= sig < 256 -> stopped_by t sig (t, stop_status sig 0) = true) as Hstop.
    { intros t sig Hs. unfold stopped_by. cbn [fst snd]. destruct (plain_stop sig Hs) as (_ & -> & _ & _ & ->).
      by rewrite !Z.eqb_refl. }
    rewrite <- (Z.leb_le write_fn) in Hw. rewrite <- (Z.leb_le read_fn) in Hr. rewrite <- Z.ltb_lt in Hf.
    unfold main. rewrite E1, E2, E3, E4, !Hstop, Hf, Hw, Hr by done. cbn [fst snd]. rewrite Z.eqb_refl.
    by repeat constructor.
Qed.

(** *** The child under its parent *)

(** The function an access is in, and an instruction pointer inside it. *)
Definition function_of (read_fn write_fn : Z) (a : access) : Z :=
  match a with read_mut => read_fn | write_mut _ => write_fn end.

(** Armed for writes, the child stops in [write_mut] and not in the call of
    [read_mut] before it; armed for reads and writes, the thread stops in
    [read_mut], its first call. *)
Lemma child_stops : first_trap TRAP_WRITE (child 0) = Some (write_mut 42) /\
  first_trap TRAP_READWRITE thread = Some read_mut.
Proof. done. Qed.

(** So instruction pointers inside the functions that trap are where [main]
    wants them. *)
Lemma child_satisfies_main a read_fn write_fn w r :
  first_trap TRAP_WRITE (child 0) = Some w -> first_trap TRAP_READWRITE thread = Some r ->
  function_of read_fn write_fn w <= write_ip a -> function_of read_fn write_fn r <= access_ip a ->
  read_fn < write_fn ->
  (read_fn <? write_fn) && (write_fn <=? write_ip a) = true /\
  (read_fn <=? access_ip a) && (read_fn <? write_fn) = true.
Proof. intros [= <-] [= <-] Hw Hr Hf. cbn [function_of] in *. lia. Qed.

(** Whether the child's PTRACE_TRACEME fails or not, it never comes back from
    [child] into [main]. *)
Lemma child_never_returns a traceme addr read_fn write_fn : exists l code,
  main_from_fork a 0 traceme addr read_fn write_fn = inl (l ++ [Exit code]).
Proof.
  unfold main_from_fork, child. cbn [Z.eqb]. destruct (negb (traceme =? 0)).
  - by exists [TraceMe], 1.
  - by exists [TraceMe; KillSelf SIGSTOP; Access read_mut; Access (write_mut 42); CreateThread; JoinThread], 0.
Qed.

(** The last value written: the thread's. *)
Lemma mut_at_the_end : foldl (fun mut x => match x with Access a => (perform a mut).1 | _ => mut end) 0
  (child 0 ++ thread) = 24.
Proof. done. Qed.

(** The addresses of a 32-bit executable, the thread the child's number plus one. *)
Definition exampleAnswers : answers :=
  MkAnswers (100, stop_status SIGSTOP 0) (100, stop_status SIGTRAP 0) (100, stop_status SIGTRAP 3)
    (101, stop_status SIGTRAP 0) 101 2070 2004 (fun _ => true).

Lemma main_arms_before_resuming_witness :
  (execute exampleAnswers 4096 (main exampleAnswers 100 4096 2000 2064)).2 = ReturnsZero.
Proof. apply (main_arms_before_resuming exampleAnswers 100 4096 2000 2064); done || lia. Defined.
