(* ===== verification/Seccomp.v ===== *)
(** * Seccomp filters

    src/seccomp-bpf.h: the macros a filter is put together from, as sequences
    of [struct sock_filter] in the classic BPF machine language, whose
    interpreter is [exec]; and src/seccomptrace.c, which installs the filter
    [TRACE_PROCESS] at the first call of [puts].  Numbers are those of i386. *)

From Stdlib Require Import Ascii.
From stdpp Require Import base numbers list strings.
From S2P Require Import Prelude.

Local Open Scope Z_scope.

(** ** The machine *)

Record sock_filter : Set := MkFilter { code : Z; jt : nat; jf : nat; k : Z }.

Definition BPF_STMT (code k : Z) : sock_filter := MkFilter code 0 0 k.
Definition BPF_JUMP (code k : Z) (jt jf : nat) : sock_filter := MkFilter code jt jf k.

(** [BPF_LD+BPF_W+BPF_ABS], [BPF_JMP+BPF_JEQ+BPF_K], [BPF_RET+BPF_K]. *)
Definition LD_W_ABS : Z := 0x00 + 0x00 + 0x20.
Definition JMP_JEQ_K : Z := 0x05 + 0x10 + 0x00.
Definition RET_K : Z := 0x06 + 0x00.

Definition SECCOMP_RET_KILL : Z := 0x00000000.
Definition SECCOMP_RET_ALLOW : Z := 0x7fff0000.
Definition SECCOMP_RET_TRACE : Z := 0x7ff00000.

Record seccomp_data : Set := MkData {
  nr : Z;                       (* int *)
  arch : Z;                     (* __u32 *)
  instruction_pointer : Z;      (* __u64 *)
  sc_args : list Z              (* __u64[6] *)
}.

(** The structure as little-endian 32-bit words. *)
Definition halves (z : Z) : list Z := [u32 z; u32 (Z.shiftr z 32)].
Definition words (d : seccomp_data) : list Z :=
  u32 (nr d) :: u32 (arch d) :: halves (instruction_pointer d) ++ concat (map halves (sc_args d)).

(** [offsetof] in the structure. *)
Definition syscall_nr : Z := 0.
Definition inst_ptr : Z := 8.
Definition args (i : Z) : Z := 16 + 8 * i.

(** A word load: aligned and inside the structure. *)
Definition load (d : seccomp_data) (off : Z) : option Z :=
  if off mod 4 =? 0 then words d !! Z.to_nat (off / 4) else None.

(** Running a filter; [skip] instructions are jumped over first, [A] is the
    accumulator.  [None]: not a program the kernel accepts. *)
Fixpoint exec (prog : list sock_filter) (skip : nat) (A : Z) (d : seccomp_data) : option Z :=
  match prog with
  | [] => None
  | i :: rest =>
      match skip with
      | S skip => exec rest skip A d
      | O =>
          if code i =? LD_W_ABS then A ← load d (k i); exec rest 0 A d
          else if code i =? JMP_JEQ_K then exec rest (if A =? u32 (k i) then jt i else jf i) A d
          else if code i =? RET_K then Some (k i)
          else None
      end
  end.

(** ** The macros *)

Definition NR_socketcall : Z := 102.
Definition SYS_ACCEPT : Z := 5.
Definition SYS_RECV : Z := 10.

Definition EXAMINE_SYSCALL : list sock_filter := [BPF_STMT LD_W_ABS syscall_nr].

Definition KILL_PROCESS : list sock_filter := [BPF_STMT RET_K SECCOMP_RET_KILL].
Definition ALLOW_PROCESS : list sock_filter := [BPF_STMT RET_K SECCOMP_RET_ALLOW].
Definition TRACE_PROCESS : list sock_filter := [BPF_STMT RET_K SECCOMP_RET_TRACE].

Definition ALLOW_SYSCALLS_FROM_CALLSITE (callsite : Z) : list sock_filter :=
  [BPF_STMT LD_W_ABS inst_ptr; BPF_JUMP JMP_JEQ_K callsite 0 1] ++ ALLOW_PROCESS.

Definition ALLOW_SYSCALL (n : Z) : list sock_filter :=
  [BPF_JUMP JMP_JEQ_K n 0 1; BPF_STMT RET_K SECCOMP_RET_ALLOW].

Definition KILL_SYSCALL (n : Z) : list sock_filter :=
  [BPF_JUMP JMP_JEQ_K n 0 1; BPF_STMT RET_K SECCOMP_RET_KILL].

Definition TRACE_SYSCALL (n : Z) : list sock_filter :=
  [BPF_JUMP JMP_JEQ_K n 0 1; BPF_STMT RET_K SECCOMP_RET_TRACE].

Definition ALLOW_SOCKETCALL : list sock_filter :=
  [BPF_JUMP JMP_JEQ_K NR_socketcall 0 5;
   BPF_STMT LD_W_ABS (args 0);
   BPF_JUMP JMP_JEQ_K SYS_RECV 2 0;
   BPF_JUMP JMP_JEQ_K SYS_ACCEPT 1 0;
   BPF_STMT RET_K SECCOMP_RET_ALLOW;
   BPF_STMT RET_K SECCOMP_RET_TRACE].

(** ** seccomptrace.c *)

Definition newline : string := String "010"%char EmptyString.

(** What the preloaded library asks of the kernel. *)
Inductive syscall : Set :=
  | NoNewPrivs                           (* prctl(PR_SET_NO_NEW_PRIVS, 1) *)
  | SetSeccomp (prog : list sock_filter) (* prctl(PR_SET_SECCOMP, ...) *)
  | Write (text : string).               (* write(1, ...) *)

(** The static [installed], and whether the process still runs ([err] exits). *)
Record library : Set := MkLibrary { installed : bool; running : bool }.

Section Puts.
(** Whether a [prctl] succeeds. *)
Context (prctl : syscall -> bool).

Definition ensure_filter (s : library) : list syscall * library :=
  if installed s then ([], s)
  else if negb (prctl NoNewPrivs) then ([NoNewPrivs], MkLibrary (installed s) false)
  else if negb (prctl (SetSeccomp TRACE_PROCESS))
  then ([NoNewPrivs; SetSeccomp TRACE_PROCESS], MkLibrary (installed s) false)
  else ([NoNewPrivs; SetSeccomp TRACE_PROCESS; Write ("filter on" +:+ newline)],
        MkLibrary true (running s)).

Definition puts (text : string) (s : library) : list syscall * library :=
  let '(calls, s) := ensure_filter s in
  if running s then (calls ++ [Write text; Write newline], s) else (calls, s).

(** A program that prints lines. *)
Fixpoint puts_all (lines : list string) (s : library) : list syscall * library :=
  match lines with
  | [] => ([], s)
  | l :: lines =>
      if running s then
        let '(calls, s) := puts l s in
        let '(more, s) := puts_all lines s in (calls ++ more, s)
      else ([], s)
  end.

End Puts.

(** ** What a filter means *)

(** A filter as its author writes it: macros, then a default. *)
Inductive clause : Set :=
  | Examine
  | AllowFrom (callsite : Z)
  | Allow (n : Z)
  | Kill (n : Z)
  | Trace (n : Z)
  | AllowSocket.

Inductive default_action : Set := KillProcess | AllowProcess | TraceProcess.

Definition expand (c : clause) : list sock_filter :=
  match c with
  | Examine => EXAMINE_SYSCALL
  | AllowFrom a => ALLOW_SYSCALLS_FROM_CALLSITE a
  | Allow n => ALLOW_SYSCALL n
  | Kill n => KILL_SYSCALL n
  | Trace n => TRACE_SYSCALL n
  | AllowSocket => ALLOW_SOCKETCALL
  end.

Definition expand_default (a : default_action) : list sock_filter :=
  match a with
  | KillProcess => KILL_PROCESS | AllowProcess => ALLOW_PROCESS | TraceProcess => TRACE_PROCESS
  end.

Definition filter_of (cs : list clause) (a : default_action) : list sock_filter :=
  flat_map expand cs ++ expand_default a.

(** What a clause says of a system call on its own. *)
Definition verdict (c : clause) (d : seccomp_data) : option Z :=
  let op := u32 (default 0 (head (sc_args d))) in
  match c with
  | Examine => None
  | AllowFrom a => if u32 (instruction_pointer d) =? u32 a then Some SECCOMP_RET_ALLOW else None
  | Allow n => if u32 (nr d) =? u32 n then Some SECCOMP_RET_ALLOW else None
  | Kill n => if u32 (nr d) =? u32 n then Some SECCOMP_RET_KILL else None
  | Trace n => if u32 (nr d) =? u32 n then Some SECCOMP_RET_TRACE else None
  | AllowSocket =>
      if u32 (nr d) =? NR_socketcall
      then Some (if (op =? SYS_RECV) || (op =? SYS_ACCEPT) then SECCOMP_RET_TRACE
                 else SECCOMP_RET_ALLOW)
      else None
  end.

Definition default_verdict (a : default_action) : Z :=
  match a with
  | KillProcess => SECCOMP_RET_KILL
  | AllowProcess => SECCOMP_RET_ALLOW
  | TraceProcess => SECCOMP_RET_TRACE
  end.

(** The first clause with an opinion decides. *)
Fixpoint policy (cs : list clause) (a : default_action) (d : seccomp_data) : Z :=
  match cs with
  | [] => default_verdict a
  | c :: cs => match verdict c d with Some v => v | None => policy cs a d end
  end.

(** Clauses on the number come after an [EXAMINE_SYSCALL] with no
    [ALLOW_SYSCALLS_FROM_CALLSITE] in between. *)
Fixpoint examined (loaded : bool) (cs : list clause) : bool :=
  match cs with
  | [] => true
  | Examine :: cs => examined true cs
  | AllowFrom _ :: cs => examined false cs
  | _ :: cs => loaded && examined loaded cs
  end.

(** The structure the kernel fills in. *)
Definition data_ok (d : seccomp_data) : Prop := length (sc_args d) = 6%nat.

(** ** Filters implement their policies *)

Lemma load_nr d : load d syscall_nr = Some (u32 (nr d)).
Proof. done. Qed.

Lemma load_ip d : load d inst_ptr = Some (u32 (instruction_pointer d)).
Proof. done. Qed.

Lemma load_arg0 d : data_ok d -> load d (args 0) = Some (u32 (default 0 (head (sc_args d)))).
Proof. unfold data_ok. destruct d as [? ? ? [|a l]]; done. Qed.

Lemma exec_load off rest A d : exec (BPF_STMT LD_W_ABS off :: rest) 0 A d =
  (A ← load d off; exec rest 0 A d).
Proof. done. Qed.

Lemma exec_ret v rest A d : exec (BPF_STMT RET_K v :: rest) 0 A d = Some v.
Proof. done. Qed.

Lemma exec_jeq v t f rest A d : exec (BPF_JUMP JMP_JEQ_K v t f :: rest) 0 A d =
  exec rest (if A =? u32 v then t else f) A d.
Proof. done. Qed.

Lemma exec_skip i rest n A d : exec (i :: rest) (S n) A d = exec rest n A d.
Proof. done. Qed.

Ltac run_filter :=
  repeat first [rewrite exec_load | rewrite exec_ret | rewrite exec_jeq | rewrite exec_skip
               | rewrite load_nr | rewrite load_ip | rewrite load_arg0 by done
               | progress cbn [mbind option_bind app]].

(** A clause that tests the number of the call. *)
Ltac on_number d A :=
  destruct (Z.eqb_spec A (u32 (nr d))) as [->|]; [|done]; by destruct (_ =? _); run_filter.

(** One macro on a loaded accumulator: it decides, or falls through to the
    instruction after it. *)
Lemma exec_clause c rest A d : data_ok d ->
  exec (expand c ++ rest) 0 A d =
  match c with
  | Examine => exec rest 0 (u32 (nr d)) d
  | AllowFrom a => match verdict c d with
                   | Some v => Some v
                   | None => exec rest 0 (u32 (instruction_pointer d)) d end
  | _ => if A =? u32 (nr d)
         then match verdict c d with Some v => Some v | None => exec rest 0 A d end
         else exec (expand c ++ rest) 0 A d
  end.
Proof.
  intros Hd. destruct c; cbn [expand verdict]; unfold EXAMINE_SYSCALL, ALLOW_SYSCALLS_FROM_CALLSITE,
    ALLOW_SYSCALL, KILL_SYSCALL, TRACE_SYSCALL, ALLOW_SOCKETCALL, ALLOW_PROCESS; run_filter; try done.
  - by destruct (_ =? _); run_filter.
  - on_number d A.
  - on_number d A.
  - on_number d A.
  - destruct (Z.eqb_spec A (u32 (nr d))) as [->|]; [|done].
    change (u32 NR_socketcall) with NR_socketcall.
    destruct (u32 (nr d) =? NR_socketcall); run_filter; [|done].
    change (u32 SYS_RECV) with SYS_RECV.
    destruct (_ =? SYS_RECV); run_filter; [done|].
    change (u32 SYS_ACCEPT) with SYS_ACCEPT. by destruct (_ =? SYS_ACCEPT); run_filter.
Qed.

Lemma exec_default a A d : exec (expand_default a) 0 A d = Some (default_verdict a).
Proof. by destruct a. Qed.

Lemma exec_clauses cs a d : data_ok d -> forall loaded A,
  examined loaded cs = true -> (loaded = true -> A = u32 (nr d)) ->
  exec (flat_map expand cs ++ expand_default a) 0 A d = Some (policy cs a d).
Proof.
  intros Hd. induction cs as [|c cs IH]; intros loaded A Hx HA.
  { apply exec_default. }
  cbn [flat_map policy]. rewrite <- app_assoc, exec_clause by done.
  destruct c; cbn [examined] in Hx;
    try (apply andb_true_iff in Hx as [-> Hx]; rewrite (HA eq_refl), Z.eqb_refl).
  - cbn [verdict]. by apply (IH true).
  - destruct (verdict _ _); [done|]. by apply (IH false).
  - destruct (verdict _ _); [done|]. by apply (IH true).
  - destruct (verdict _ _); [done|]. by apply (IH true).
  - destruct (verdict _ _); [done|]. by apply (IH true).
  - destruct (verdict _ _); [done|]. by apply (IH true).
Qed.

(** C28: a filter written with the macros, in which the number is examined
    before it is tested, always returns, and returns what the first clause
    that applies to the call says: a jump of a macro never leaves it but to
    the instruction after it. *)
Theorem filters_implement_policies cs a d A :
  length (sc_args d) = 6%nat -> examined false cs = true ->
  exec (filter_of cs a) 0 A d = Some (policy cs a d).
Proof. intros Hd Hx. by apply (exec_clauses cs a d Hd false A). Qed.

Lemma filters_implement_policies_witness :
  let cs := [AllowFrom 4096; Examine; Kill 1; AllowSocket; Allow 4] in
  exec (filter_of cs TraceProcess) 0 0 (MkData 102 0 8192 [10; 0; 0; 0; 0; 0]) = Some SECCOMP_RET_TRACE.
Proof. apply (filters_implement_policies [AllowFrom 4096; Examine; Kill 1; AllowSocket; Allow 4] TraceProcess); reflexivity. Defined.

(** C29: without a second [EXAMINE_SYSCALL], what follows
    [ALLOW_SYSCALLS_FROM_CALLSITE] tests the caller's address instead of the
    number of the system call; and the callsite test itself looks at the low
    half of the address only. *)
Theorem callsite_clobbers_number callsite n d A :
  u32 (instruction_pointer d) <> u32 callsite ->
  exec (filter_of [Examine; AllowFrom callsite; Kill n] AllowProcess) 0 A d =
    Some (if u32 (instruction_pointer d) =? u32 n then SECCOMP_RET_KILL else SECCOMP_RET_ALLOW) /\
  verdict (AllowFrom callsite) d =
    verdict (AllowFrom callsite) (MkData (nr d) (arch d) (u32 (instruction_pointer d)) (sc_args d)).
Proof.
  intros Hc. split.
  - unfold filter_of. cbn [flat_map expand expand_default app].
    unfold EXAMINE_SYSCALL, ALLOW_SYSCALLS_FROM_CALLSITE, KILL_SYSCALL, ALLOW_PROCESS. run_filter.
    apply Z.eqb_neq in Hc as ->. run_filter. by destruct (_ =? _); run_filter.
  - cbn [verdict instruction_pointer]. unfold u32 at 3, wrapU. unfold u32 at 3, wrapU.
    by rewrite Z.mod_mod by lia.
Qed.

Lemma callsite_clobbers_number_witness :
  exec (filter_of [Examine; AllowFrom 4096; Kill 1] AllowProcess) 0 0 (MkData 1 0 8192 []) =
    Some SECCOMP_RET_ALLOW.
Proof. apply (callsite_clobbers_number 4096 1 (MkData 1 0 8192 []) 0). vm_compute. discriminate. Defined.

(** ** The preloaded library *)

Definition banner : list syscall :=
  [NoNewPrivs; SetSeccomp TRACE_PROCESS; Write ("filter on" +:+ newline)].

Definition line (text : string) : list syscall := [Write text; Write newline].

Lemma puts_all_installed prctl lines : puts_all prctl lines (MkLibrary true true) =
  (concat (map line lines), MkLibrary true true).
Proof. induction lines as [|l lines IH]; cbn; [done|]. by rewrite IH. Qed.

(** C30: whatever lines the program prints, the filter is installed exactly
    once, before the first byte is written and after the privileges are given
    up, and from then on every system call is traced; if the kernel refuses
    the filter the process exits and prints nothing. *)
Theorem filter_installed_once prctl text lines :
  (prctl NoNewPrivs = true -> prctl (SetSeccomp TRACE_PROCESS) = true ->
   puts_all prctl (text :: lines) (MkLibrary false true) =
     (banner ++ concat (map line (text :: lines)), MkLibrary true true) /\
   forall A d, exec TRACE_PROCESS 0 A d = Some SECCOMP_RET_TRACE) /\
  (prctl NoNewPrivs && prctl (SetSeccomp TRACE_PROCESS) = false ->
   running (puts_all prctl (text :: lines) (MkLibrary false true)).2 = false /\
   Forall (fun c => forall t, c <> Write t) (puts_all prctl (text :: lines) (MkLibrary false true)).1).
Proof.
  split.
  - intros E1 E2. split; [|done]. cbn [puts_all running]. unfold puts, ensure_filter.
    cbn [installed running]. rewrite E1, E2. cbn. by rewrite puts_all_installed.
  - intros E. cbn [puts_all running]. unfold puts, ensure_filter. cbn [installed running].
    destruct (prctl NoNewPrivs) eqn:E1; cbn in E |- *.
    + rewrite E. cbn. destruct lines; cbn; split; try done; by repeat constructor.
    + destruct lines; cbn; split; try done; by repeat constructor.
Qed.

Lemma filter_installed_once_witness :
  puts_all (fun _ => true) ["a"; "b"]%string (MkLibrary false true) =
    (banner ++ concat (map line ["a"; "b"]%string), MkLibrary true true).
Proof. by apply (filter_installed_once (fun _ => true) "a"%string ["b"%string]). Defined.
