(* ===== verification/Vdso.v ===== *)
(** * Patching the vdso

    src/vdso_monkeypatch.c: the check of the vdso's system call entry, the
    patch written over it, the trampoline it jumps to and the hook the
    trampoline calls, on a small model of the i386: registers, a stack of
    32-bit words, bytes of code.  The kernel and what the C compiler is free
    to choose are parameters. *)

From stdpp Require Import base numbers list gmap.
From S2P Require Import Prelude I386.

Local Open Scope Z_scope.

(** ** Code *)

Definition vsyscall_offset : Z := 0x414.

Definition vsyscall_impl : list Z :=
  [0x51; 0x52; 0x55; 0x89; 0xe5; 0x0f; 0x34; 0x90; 0x90; 0x90; 0x90; 0x90; 0x90; 0x90;
   0xcd; 0x80; 0x5d; 0x5a; 0x59; 0xc3].

Definition vsyscall_monkeypatch : list Z := [0x50; 0xb8; 0x00; 0x00; 0x00; 0x00; 0xff; 0xe0].

(** The packed structure laid over the template's bytes. *)
Definition vsyscall_hook_trampoline_addr (bytes : list Z) : Z := le_value (take 4 (drop 2 bytes)).

Definition set_trampoline_addr (addr : Z) (bytes : list Z) : list Z :=
  take 2 bytes ++ le_bytes 4 addr ++ drop 6 bytes.

(** [monkey_patch]; [None]: the assertion on the template fails. *)
Definition monkey_patch (trampoline vsyscall : Z) (m : gmap Z Z) : option (gmap Z Z) :=
  if vsyscall_hook_trampoline_addr vsyscall_monkeypatch =? 0 then
    Some (write_bytes vsyscall (set_trampoline_addr trampoline vsyscall_monkeypatch) m)
  else None.

(** What [verify_vsyscall_insns] finds; [Fault]: an unmapped byte. *)
Inductive verified : Set := AllMatch | Mismatch (i : nat) (expected actual : Z) | Fault.

Fixpoint verify_from (i : nat) (expected : list Z) (a : Z) (m : gmap Z Z) : verified :=
  match expected with
  | [] => AllMatch
  | e :: expected =>
      match m !! a with
      | None => Fault
      | Some b => if b =? e then verify_from (S i) expected (a + 1) m else Mismatch i e b
      end
  end.

Definition verify_vsyscall_insns (vsyscall : Z) (m : gmap Z Z) : verified :=
  verify_from 0 vsyscall_impl vsyscall m.

(** The address of the trampoline in position-independent code: [call] pushes
    the address of the helper label, [pop] takes it, and the distance of the two
    labels, which the assembler knows, is added. *)
Definition get_vsyscall_hook_trampoline (helper distance : Z) : Z := u32 (helper + distance).

Definition __kernel_vsyscall_addr (vdso_start_addr : Z) : Z := vdso_start_addr + vsyscall_offset.

(** Wherever the program is loaded. *)
Lemma trampoline_anywhere base helper trampoline :
  get_vsyscall_hook_trampoline (u32 (base + helper)) (trampoline - helper) = u32 (base + trampoline).
Proof.
  unfold get_vsyscall_hook_trampoline, u32, wrapU. rewrite Zplus_mod_idemp_l. f_equal. lia.
Qed.

(** [main]: [fatal] aborts on a mismatch; the results of [mprotect] are not
    looked at. *)
Definition main (vdso_start_addr trampoline : Z) (m : gmap Z Z) : verified * option (gmap Z Z) :=
  let vsyscall := __kernel_vsyscall_addr vdso_start_addr in
  match verify_vsyscall_insns vsyscall m with
  | AllMatch => (AllMatch, monkey_patch trampoline vsyscall m)
  | v => (v, None)
  end.

(** ** The processor *)

(** The instructions of the patch and of the trampoline. *)
Inductive insn : Set :=
  | Push (r : reg)
  | Pop (r : reg)
  | MovImm (imm : Z) (r : reg)
  | MovReg (src dst : reg)
  | AddImm (imm : Z) (r : reg)
  | JmpReg (r : reg)
  | CallReg (r : reg)
  | Ret.

(** Their lengths in bytes. *)
Definition size (i : insn) : Z :=
  match i with
  | Push _ | Pop _ | Ret => 1
  | MovReg _ _ | JmpReg _ | CallReg _ => 2
  | AddImm _ _ => 3
  | MovImm _ _ => 5
  end.

(** Register numbers in an opcode. *)
Definition reg_of (n : Z) : option reg :=
  [EAX; ECX; EDX; EBX; ESP; EBP; ESI; EDI] !! Z.to_nat n.

Definition decode (bytes : list Z) : option insn :=
  match bytes with
  | 0xc3 :: _ => Some Ret
  | 0xff :: 0xe0 :: _ => Some (JmpReg EAX)
  | b :: rest =>
      if (0x50 <=? b) && (b <? 0x58) then Push <$> reg_of (b - 0x50)
      else if (0x58 <=? b) && (b <? 0x60) then Pop <$> reg_of (b - 0x58)
      else if (0xb8 <=? b) && (b <? 0xc0) && (4 <=? Z.of_nat (length rest))
      then MovImm (le_value (take 4 rest)) <$> reg_of (b - 0xb8)
      else None
  | [] => None
  end.

(** Registers, stack and instruction pointer. *)
Record machine : Type := MkMachine { regs : reg -> Z; stack : gmap Z Z; eip : Z }.

Definition set_reg (r : reg) (v : Z) (f : reg -> Z) : reg -> Z :=
  fun r' => if decide (r' = r) then v else f r'.

Record syscall_info : Set := MkInfo { no : Z; info_args : list Z }.

(** The structure at an address. *)
Definition read_info (p : Z) (s : gmap Z Z) : option syscall_info :=
  n ← s !! p;
  l ← mapM (fun i => s !! (p + 4 * i)) [1; 2; 3; 4; 5; 6];
  Some (MkInfo n l).

(** The trampoline, as assembled at its address. *)
Definition vsyscall_hook_trampoline (vsyscall_hook : Z) : list insn :=
  [Pop EAX;
   Push EBP; Push EDI; Push ESI; Push EDX; Push ECX; Push EBX; Push EAX;
   MovReg ESP ECX; Push ECX;
   MovImm vsyscall_hook EAX; CallReg EAX;
   AddImm 8 ESP;
   Pop EBX; Pop ECX; Pop EDX; Pop ESI; Pop EDI; Pop EBP;
   Ret].

Fixpoint fetch_insn (base : Z) (l : list insn) (a : Z) : option insn :=
  match l with
  | [] => None
  | i :: l => if a =? base then Some i else fetch_insn (base + size i) l a
  end.

Section Machine.

(** The kernel: the result of a system call from its number and the six
    argument registers ([int $0x80]). *)
Context (kernel : Z -> list Z -> Z).

(** The compiled hook: the address it is at, the frame pointer while it makes
    the system call, what it leaves in the caller-saved registers, what it
    does to the stack below its argument. *)
Context (hook frame : Z) (ecx_after edx_after : Z) (scratch : Z -> gmap Z Z -> gmap Z Z).

(** Where the trampoline is. *)
Context (trampoline : Z).

Definition vsyscall_hook (call : syscall_info) : option Z :=
  a0 ← info_args call !! 0%nat; a1 ← info_args call !! 1%nat; a2 ← info_args call !! 2%nat;
  a3 ← info_args call !! 3%nat; a4 ← info_args call !! 4%nat;
  Some (kernel (no call) [a0; a1; a2; a3; a4; frame]).

(** The instruction at an address: the trampoline's, or decoded from the
    bytes of the vdso. *)
Definition fetch (code : gmap Z Z) (a : Z) : option insn :=
  match fetch_insn trampoline (vsyscall_hook_trampoline hook) a with
  | Some i => Some i
  | None =>
      bytes ← (match read_bytes a 5 code with Some l => Some l | None => read_bytes a 2 code end);
      decode bytes
  end.

Definition push (v : Z) (m : machine) : machine :=
  let sp := u32 (regs m ESP - 4) in
  MkMachine (set_reg ESP sp (regs m)) (<[sp := v]> (stack m)) (eip m).

Definition pop (m : machine) : option (Z * machine) :=
  v ← stack m !! regs m ESP;
  Some (v, MkMachine (set_reg ESP (u32 (regs m ESP + 4)) (regs m)) (stack m) (eip m)).

Definition goto (a : Z) (m : machine) : machine := MkMachine (regs m) (stack m) a.

Definition put (r : reg) (v : Z) (m : machine) : machine :=
  MkMachine (set_reg r v (regs m)) (stack m) (eip m).

(** A call of the hook, as the C calling convention has it: the argument is
    on top of the stack, the result is in eax, ebx, esi, edi, ebp and esp are
    kept, ecx and edx are not. *)
Definition call_hook (m : machine) : option machine :=
  p ← stack m !! regs m ESP;
  info ← read_info p (stack m);
  ret ← vsyscall_hook info;
  Some (MkMachine (set_reg EAX ret (set_reg ECX ecx_after (set_reg EDX edx_after (regs m))))
                  (scratch (regs m ESP) (stack m)) (eip m)).

(** One instruction, its successor's address being [next]. *)
Definition exec_insn (i : insn) (next : Z) (m : machine) : option machine :=
  let m := goto next m in
  match i with
  | Push r => Some (push (regs m r) m)
  | Pop r => '(v, m) ← pop m; Some (put r v m)
  | MovImm v r => Some (put r v m)
  | MovReg s r => Some (put r (regs m s) m)
  | AddImm v r => Some (put r (u32 (regs m r + v)) m)
  | JmpReg r => Some (goto (regs m r) m)
  | CallReg r => if regs m r =? hook then call_hook m else None
  | Ret => '(v, m) ← pop m; Some (goto v m)
  end.

Definition step (code : gmap Z Z) (m : machine) : option machine :=
  i ← fetch code (eip m); exec_insn i (eip m + size i) m.

Fixpoint run (n : nat) (code : gmap Z Z) (m : machine) : option machine :=
  match n with O => Some m | S n => m ← step code m; run n code m end.

End Machine.

(** ** Checking and patching *)

Lemma verify_from_spec expected : forall i a m,
  match verify_from i expected a m with
  | AllMatch => read_bytes a (length expected) m = Some expected
  | Mismatch j e b => exists k, j = (i + k)%nat /\ expected !! k = Some e /\
      m !! (a + Z.of_nat k) = Some b /\ e <> b /\
      read_bytes a k m = Some (take k expected)
  | Fault => exists k, (k < length expected)%nat /\ m !! (a + Z.of_nat k) = None
  end.
Proof.
  induction expected as [|e l IH]; intros i a m; cbn [verify_from]; [done|].
  destruct (m !! a) as [b|] eqn:Ea; cbn [length read_bytes].
  2:{ exists 0%nat. rewrite Z.add_0_r. split; [lia|done]. }
  rewrite Ea. cbn. destruct (Z.eqb_spec b e) as [->|Hne].
  - specialize (IH (S i) (a + 1) m). destruct (verify_from (S i) l (a + 1) m) as [|j e' b'|].
    + by rewrite IH.
    + destruct IH as (k & -> & H1 & H2 & H3 & H4). exists (S k). split_and!; [lia|done| |done|].
      * by replace (a + Z.of_nat (S k)) with (a + 1 + Z.of_nat k) by lia.
      * cbn. by rewrite Ea, H4.
    + destruct IH as (k & H1 & H2). exists (S k). split; [lia|].
      by replace (a + Z.of_nat (S k)) with (a + 1 + Z.of_nat k) by lia.
  - exists 0%nat. rewrite Z.add_0_r, Nat.add_0_r. done.
Qed.

Lemma template_bytes tr : set_trampoline_addr tr vsyscall_monkeypatch =
  [0x50; 0xb8] ++ le_bytes 4 tr ++ [0xff; 0xe0].
Proof. done. Qed.

(** C31: the program patches exactly when the twenty bytes it expects are
    there, and then writes exactly the eight bytes of the patch, the address
    of the trampoline among them; otherwise it writes nothing and reports the
    first byte that differs. *)
Theorem patches_only_what_it_expects start trampoline m :
  0 <= trampoline < 2 ^ 32 ->
  let v := start + vsyscall_offset in
  match main start trampoline m with
  | (AllMatch, Some m') =>
      read_bytes v 20 m = Some vsyscall_impl /\
      read_bytes v 8 m' = Some ([0x50; 0xb8] ++ le_bytes 4 trampoline ++ [0xff; 0xe0]) /\
      le_value (le_bytes 4 trampoline) = trampoline /\
      forall a, a < v \/ v + 8 <= a -> m' !! a = m !! a
  | (Mismatch i e b, None) =>
      vsyscall_impl !! i = Some e /\ m !! (v + Z.of_nat i) = Some b /\ e <> b /\
      read_bytes v i m = Some (take i vsyscall_impl)
  | (Fault, None) => exists k, (k < 20)%nat /\ m !! (v + Z.of_nat k) = None
  | _ => False
  end.
Proof.
  intros Ht v. unfold main, verify_vsyscall_insns, __kernel_vsyscall_addr. fold v.
  pose proof (verify_from_spec vsyscall_impl 0 v m) as H.
  destruct (verify_from 0 vsyscall_impl v m) as [|i e b|].
  - change (monkey_patch trampoline v m) with
      (Some (write_bytes v (set_trampoline_addr trampoline vsyscall_monkeypatch) m)).
    rewrite template_bytes. split_and!; [done| | |].
    + apply (read_write_bytes ([0x50; 0xb8] ++ le_bytes 4 trampoline ++ [0xff; 0xe0])).
    + by apply le_value_bytes.
    + intros a Ha. apply write_bytes_other. rewrite !length_app, le_bytes_length. simpl. lia.
  - by destruct H as (k & -> & H).
  - done.
Qed.

(** ** Running the patched entry *)

Definition straight (i : insn) : bool := match i with JmpReg _ | Ret => false | _ => true end.

Fixpoint code_size (l : list insn) : Z :=
  match l with [] => 0 | i :: l => size i + code_size l end.

Lemma size_pos i : 0 < size i.
Proof. destruct i; simpl; lia. Qed.

Lemma fetch_insn_at l1 i l2 base : fetch_insn base (l1 ++ i :: l2) (base + code_size l1) = Some i.
Proof.
  revert base. induction l1 as [|j l1 IH]; intros base; cbn [app fetch_insn code_size].
  - by rewrite Z.add_0_r, Z.eqb_refl.
  - assert (0 <= code_size l1) by (clear; induction l1 as [|x l IH]; simpl; [lia|pose proof (size_pos x); lia]).
    pose proof (size_pos j). rewrite (proj2 (Z.eqb_neq _ _)) by lia.
    replace (base + (size j + code_size l1)) with (base + size j + code_size l1) by lia. apply IH.
Qed.

Lemma fetch_insn_outside l base a : a < base \/ base + code_size l <= a -> fetch_insn base l a = None.
Proof.
  revert base. induction l as [|i l IH]; intros base H; cbn [fetch_insn code_size] in *; [done|].
  assert (0 <= code_size l) by (clear; induction l as [|x l IH]; simpl; [lia|pose proof (size_pos x); lia]).
  pose proof (size_pos i). rewrite (proj2 (Z.eqb_neq _ _)) by lia. apply IH. lia.
Qed.

Section Contract.
Context (kernel : Z -> list Z -> Z) (hook frame ecx_after edx_after : Z)
  (scratch : Z -> gmap Z Z -> gmap Z Z) (trampoline : Z).
(** The C compiler does not touch what is above the hook's argument. *)
Context (scratch_below : forall sp s a, sp < a -> scratch sp s !! a = s !! a).

Local Abbreviation exec1 := (exec_insn kernel hook frame ecx_after edx_after scratch).
Local Abbreviation step1 := (step kernel hook frame ecx_after edx_after scratch trampoline).
Local Abbreviation runs := (run kernel hook frame ecx_after edx_after scratch trampoline).

(** A straight piece of code as a function. *)
Definition exec_code : machine -> list insn -> option machine :=
  foldM (fun m i => exec1 i (eip m + size i) m).

Lemma run_step n code m i : fetch hook trampoline code (eip m) = Some i ->
  runs (S n) code m = (m ← exec1 i (eip m + size i) m; runs n code m).
Proof. intros Hf. cbn [run]. unfold step. by rewrite Hf. Qed.

Lemma exec_insn_next i next m m' : straight i = true -> exec1 i next m = Some m' -> eip m' = next.
Proof.
  destruct i; intros Hs; try discriminate Hs; cbn; unfold pop, call_hook, goto; cbn.
  all: repeat first
    [ case_match | progress cbn | destruct (_ !! _) | destruct (read_info _ _)
    | destruct (vsyscall_hook _ _ _) | by intros [= <-] | done ].
Qed.

Lemma run_insns code l1 : forall pre l2 m n, vsyscall_hook_trampoline hook = pre ++ l1 ++ l2 ->
  eip m = trampoline + code_size pre -> forallb straight l1 = true ->
  runs (length l1 + n) code m = (m ← exec_code m l1; runs n code m).
Proof.
  induction l1 as [|i l1 IH]; intros pre l2 m n Hl He Hs; cbn [length Nat.add]; [done|].
  cbn [forallb] in Hs. apply andb_true_iff in Hs as [Hi Hs].
  rewrite (run_step _ _ _ i).
  2:{ unfold fetch. rewrite He, Hl. cbn [app]. by rewrite fetch_insn_at. }
  unfold exec_code. cbn [foldM]. destruct (exec1 i (eip m + size i) m) as [m'|] eqn:E; cbn [mbind option_bind]; [|done].
  apply (IH (pre ++ [i]) l2); [by rewrite <- app_assoc| |done].
  rewrite (exec_insn_next _ _ _ _ Hi E), He.
  assert (forall l, code_size (pre ++ l) = code_size pre + code_size l) as -> by
    (clear; intros l; induction pre; simpl; lia).
  simpl. lia.
Qed.

(** Symbolic execution: register reads, stack reads, addresses in range. *)
Lemma set_reg_eq r v f : set_reg r v f r = v.
Proof. unfold set_reg. by rewrite decide_True. Qed.

Lemma set_reg_ne r r' v f : r' <> r -> set_reg r v f r' = f r'.
Proof. unfold set_reg. intros H. by rewrite decide_False. Qed.

Lemma lookup_insert_at (s : gmap Z Z) a b v : a = b -> <[a := v]> s !! b = Some v.
Proof. intros ->. apply lookup_insert_eq. Qed.

(** Machines that differ in the instruction pointer at most. *)
Lemma exec_code_app m l1 l2 : exec_code m (l1 ++ l2) = (m ← exec_code m l1; exec_code m l2).
Proof. apply foldM_app. Qed.

Lemma exec_code_cons i l m m1 : exec1 i (eip m + size i) m = Some m1 ->
  exec_code m (i :: l) = exec_code m1 l.
Proof. intros H. unfold exec_code. cbn [foldM]. by rewrite H. Qed.

Lemma exec_code_eip l : forall m m', forallb straight l = true -> exec_code m l = Some m' ->
  eip m' = eip m + code_size l.
Proof.
  induction l as [|i l IH]; intros m m' Hs; cbn [forallb code_size] in *.
  { intros [= <-]. lia. }
  apply andb_true_iff in Hs as [Hi Hs]. unfold exec_code. cbn [foldM].
  destruct (exec1 i (eip m + size i) m) as [m1|] eqn:E; cbn [mbind option_bind]; [|done].
  intros E'. rewrite (IH m1 m' Hs E'), (exec_insn_next _ _ _ _ Hi E). lia.
Qed.

Lemma push_all rs : forall m, 4 * Z.of_nat (length rs) <= regs m ESP < 2 ^ 32 -> ESP ∉ rs ->
  exists m', exec_code m (map Push rs) = Some m' /\
    regs m' ESP = regs m ESP - 4 * Z.of_nat (length rs) /\
    (forall r, r <> ESP -> regs m' r = regs m r) /\
    (forall k r, rs !! k = Some r -> stack m' !! (regs m ESP - 4 * Z.of_nat (S k)) = Some (regs m r)) /\
    (forall a, regs m ESP <= a -> stack m' !! a = stack m !! a).
Proof.
  induction rs as [|r rs IH]; intros m Hsp Hin; cbn [length map] in *.
  { exists m. split_and!; try done. lia. }
  apply not_elem_of_cons in Hin as [Hr Hin].
  set (m1 := push (regs m r) (goto (eip m + 1) m)).
  assert (regs m1 ESP = regs m ESP - 4) as E1 by (cbn; rewrite set_reg_eq; apply u32_id; lia).
  destruct (IH m1) as (m' & Hx & Hs & Hg & Hst & Hk); [rewrite E1; lia|done|].
  exists m'. split; [done|]. rewrite E1 in *.
  assert (stack m1 = <[regs m ESP - 4 := regs m r]> (stack m)) as Es by
    (cbn; by rewrite u32_id by lia).
  split; [lia|]. split; [|split].
  - intros x Hx'. rewrite Hg by done. cbn. by rewrite set_reg_ne.
  - intros [|k] x; cbn [lookup list_lookup].
    + intros [= <-]. rewrite Hk by lia. rewrite Es. apply lookup_insert_at. lia.
    + intros Hl. replace (regs m ESP - 4 * Z.of_nat (S (S k))) with
        (regs m ESP - 4 - 4 * Z.of_nat (S k)) by lia.
      rewrite (Hst k x Hl). cbn. rewrite set_reg_ne; [done|].
      intros ->. apply Hin. by apply list_elem_of_lookup_2 in Hl.
  - intros a Ha. rewrite Hk by lia. rewrite Es. by rewrite lookup_insert_ne by lia.
Qed.

Lemma pop_all rs : forall m vs, 0 <= regs m ESP -> regs m ESP + 4 * Z.of_nat (length rs) < 2 ^ 32 ->
  ESP ∉ rs -> NoDup rs -> length vs = length rs ->
  (forall k v, vs !! k = Some v -> stack m !! (regs m ESP + 4 * Z.of_nat k) = Some v) ->
  exists m', exec_code m (map Pop rs) = Some m' /\
    regs m' ESP = regs m ESP + 4 * Z.of_nat (length rs) /\
    (forall r, r <> ESP -> r ∉ rs -> regs m' r = regs m r) /\
    (forall k r v, rs !! k = Some r -> vs !! k = Some v -> regs m' r = v) /\
    stack m' = stack m.
Proof.
  induction rs as [|r rs IH]; intros m vs Hsp Hhi Hin Hnd Hl Hst; cbn [length map] in *.
  { exists m. split_and!; try done. lia. }
  apply not_elem_of_cons in Hin as [Hr Hin]. apply NoDup_cons in Hnd as [Hr' Hnd].
  destruct vs as [|v vs]; [done|]. injection Hl as Hl.
  pose proof (Hst 0%nat v eq_refl) as H0. rewrite Z.add_0_r in H0.
  set (m1 := put r v (MkMachine (set_reg ESP (u32 (regs m ESP + 4)) (regs m)) (stack m) (eip m + 1))).
  assert (exec1 (Pop r) (eip m + size (Pop r)) m = Some m1) as E0 by
    (unfold exec_insn, pop; cbn [goto regs stack]; by rewrite H0).
  assert (regs m1 ESP = regs m ESP + 4) as E1 by
    (cbn; rewrite set_reg_ne by done; rewrite set_reg_eq; apply u32_id; lia).
  destruct (IH m1 vs) as (m' & Hx & Hs & Hg & Hv & Hk); rewrite ?E1; try done; [lia|lia| |].
  { intros k x Hx. replace (regs m ESP + 4 + 4 * Z.of_nat k) with
      (regs m ESP + 4 * Z.of_nat (S k)) by lia. by apply Hst. }
  exists m'. unfold exec_code. cbn [foldM]. rewrite E0. split; [done|].
  split; [lia|]. split; [|split; [|done]].
  - intros x Hx1 Hx2%not_elem_of_cons. rewrite Hg by naive_solver. cbn.
    rewrite !set_reg_ne by naive_solver. done.
  - intros [|k] x w; cbn; [|apply Hv]. intros [= <-] [= <-]. rewrite Hg by done. cbn.
    by rewrite set_reg_eq.
Qed.

Lemma read_info_above p s s' : (forall a, p <= a -> s' !! a = s !! a) -> read_info p s' = read_info p s.
Proof. intros H. unfold read_info. cbn [mapM]. by rewrite !H by lia. Qed.

Lemma call_part m info ret : 4 <= regs m ESP -> regs m ESP + 4 < 2 ^ 32 ->
  read_info (regs m ESP) (stack m) = Some info -> vsyscall_hook kernel frame info = Some ret ->
  exists m', exec_code m [MovReg ESP ECX; Push ECX; MovImm hook EAX; CallReg EAX; AddImm 8 ESP] = Some m' /\
    regs m' ESP = regs m ESP + 4 /\ regs m' EAX = ret /\
    (forall r, r ∉ [EAX; ECX; EDX; ESP] -> regs m' r = regs m r) /\
    (forall a, regs m ESP <= a -> stack m' !! a = stack m !! a).
Proof.
  intros Hlo Hhi Hi Hr. destruct m as [rg s ip]. cbn [regs stack] in *. set (sp := rg ESP) in *.
  set (rg1 := set_reg EAX hook (set_reg ESP (sp - 4) (set_reg ECX sp rg))).
  set (s1 := <[sp - 4 := sp]> s).
  assert (read_info sp s1 = Some info) as Hi' by
    (rewrite <- Hi; apply read_info_above; intros a Ha; unfold s1; by rewrite lookup_insert_ne by lia).
  set (rg2 := set_reg EAX ret (set_reg ECX ecx_after (set_reg EDX edx_after rg1))).
  assert (rg2 ESP = sp - 4) as E2 by (unfold rg2, rg1; by rewrite !set_reg_ne, set_reg_eq by done).
  exists (MkMachine (set_reg ESP (sp + 4) rg2) (scratch (sp - 4) s1) (ip + 2 + 1 + 5 + 2 + 3)).
  split; [|cbn [regs stack]; split_and!].
  - rewrite (exec_code_cons _ _ _ (MkMachine (set_reg ECX sp rg) s (ip + 2))) by done.
    rewrite (exec_code_cons _ _ _ (MkMachine (set_reg ESP (sp - 4) (set_reg ECX sp rg)) s1 (ip + 2 + 1))).
    2:{ unfold exec_insn, push. cbn [regs stack eip goto]. rewrite set_reg_eq, set_reg_ne by done.
        by rewrite u32_id by lia. }
    rewrite (exec_code_cons _ _ _ (MkMachine rg1 s1 (ip + 2 + 1 + 5))) by done.
    rewrite (exec_code_cons _ _ _ (MkMachine rg2 (scratch (sp - 4) s1) (ip + 2 + 1 + 5 + 2))).
    2:{ unfold exec_insn. cbn [regs stack eip goto]. unfold rg1 at 1. rewrite set_reg_eq, Z.eqb_refl.
        unfold call_hook. cbn [regs stack eip goto]. change (rg1 ESP) with (sp - 4).
        assert (s1 !! (sp - 4) = Some sp) as -> by apply lookup_insert_eq. cbn [mbind option_bind]. rewrite Hi'. cbn [mbind option_bind].
        by rewrite Hr. }
    unfold exec_code. cbn [foldM mbind option_bind exec_insn]. unfold put, goto. cbn [regs stack eip size].
    rewrite E2, u32_id by lia. by replace (sp - 4 + 8) with (sp + 4) by lia.
  - by rewrite set_reg_eq.
  - done.
  - intros r Hn. assert (r <> EAX /\ r <> ECX /\ r <> EDX /\ r <> ESP) as (? & ? & ? & ?) by set_solver.
    unfold rg2, rg1. by rewrite !set_reg_ne.
  - intros a Ha. rewrite scratch_below by lia. unfold s1. by rewrite lookup_insert_ne by lia.
Qed.

(** The trampoline from its first instruction up to its [ret]: [sp] is the
    stack pointer at the call of the entry. *)
(** The first instructions: [eax] back from the stack, then everything saved. *)
Definition saved_values (m : machine) : list Z :=
  [regs m EBX; regs m ECX; regs m EDX; regs m ESI; regs m EDI; regs m EBP].

Lemma save_part m sp eax : 32 <= sp -> sp + 4 < 2 ^ 32 ->
  regs m ESP = sp - 4 -> stack m !! (sp - 4) = Some eax ->
  exists m', exec_code m (map Pop [EAX] ++ map Push [EBP; EDI; ESI; EDX; ECX; EBX; EAX]) = Some m' /\
    regs m' ESP = sp - 28 /\ read_info (regs m' ESP) (stack m') = Some (MkInfo eax (saved_values m)) /\
    (forall k v, saved_values m !! k = Some v -> stack m' !! (sp - 24 + 4 * Z.of_nat k) = Some v) /\
    (forall r, r <> EAX -> r <> ESP -> regs m' r = regs m r) /\
    (forall a, sp <= a -> stack m' !! a = stack m !! a).
Proof.
  intros Hlo Hhi Hesp Hs. rewrite exec_code_app.
  destruct (pop_all [EAX] m [eax]) as (m1 & -> & P1 & P2 & P3 & P4);
    [lia|cbn; lia|set_solver|repeat constructor; set_solver|done| |cbn [mbind option_bind]].
  { intros [|k] v; [|done]. cbn. intros [= <-]. by rewrite Hesp, Z.add_0_r. }
  cbn [length] in P1. replace (regs m ESP + 4 * Z.of_nat 1) with sp in P1 by lia.
  specialize (P3 0%nat EAX eax eq_refl eq_refl).
  destruct (push_all [EBP; EDI; ESI; EDX; ECX; EBX; EAX] m1) as (m2 & -> & Q1 & Q2 & Q3 & Q4);
    [cbn; lia|set_solver|].
  cbn [length] in Q1. rewrite P1 in *.
  assert (forall b k r, [EBP; EDI; ESI; EDX; ECX; EBX; EAX] !! k = Some r ->
    b = sp - 28 + 4 * (6 - Z.of_nat k) -> stack m2 !! b = Some (regs m1 r)) as Q.
  { intros b k r Hk ->. rewrite <- (Q3 k r Hk). f_equal. lia. }
  replace (sp - 4 * Z.of_nat 7) with (sp - 28) in Q1 by lia.
  assert (forall r, r <> EAX -> r <> ESP -> regs m1 r = regs m r) as P by (intros; apply P2; set_solver).
  exists m2. split; [done|]. split; [done|]. split; [|split; [|split]].
  - unfold read_info, saved_values. rewrite Q1, <- P3, <- !P by done. cbn [mapM].
    rewrite (Q (sp - 28) 6%nat EAX), (Q (sp - 28 + 4 * 1) 5%nat EBX), (Q (sp - 28 + 4 * 2) 4%nat ECX),
      (Q (sp - 28 + 4 * 3) 3%nat EDX), (Q (sp - 28 + 4 * 4) 2%nat ESI), (Q (sp - 28 + 4 * 5) 1%nat EDI),
      (Q (sp - 28 + 4 * 6) 0%nat EBP) by (done || lia). done.
  - intros k v Hk.
    destruct k as [|[|[|[|[|[|k]]]]]]; [..|done]; cbn in Hk; injection Hk as <-; rewrite <- P by done;
      [apply (Q _ 5%nat)|apply (Q _ 4%nat)|apply (Q _ 3%nat)|apply (Q _ 2%nat)|apply (Q _ 1%nat)|apply (Q _ 0%nat)];
      done || lia.
  - intros r H1 H2. rewrite Q2 by done. by apply P.
  - intros a Ha. by rewrite Q4, P4 by lia.
Qed.

Lemma trampoline_body m sp eax : 32 <= sp -> sp + 4 < 2 ^ 32 ->
  regs m ESP = sp - 4 -> stack m !! (sp - 4) = Some eax ->
  exists m', exec_code m (take 19 (vsyscall_hook_trampoline hook)) = Some m' /\
    regs m' ESP = sp /\
    regs m' EAX = kernel eax [regs m EBX; regs m ECX; regs m EDX; regs m ESI; regs m EDI; frame] /\
    (forall r, r <> EAX -> r <> ESP -> regs m' r = regs m r) /\
    forall a, sp <= a -> stack m' !! a = stack m !! a.
Proof.
  intros Hlo Hhi Hesp Hs.
  change (take 19 (vsyscall_hook_trampoline hook)) with
    ((map Pop [EAX] ++ map Push [EBP; EDI; ESI; EDX; ECX; EBX; EAX]) ++
     [MovReg ESP ECX; Push ECX; MovImm hook EAX; CallReg EAX; AddImm 8 ESP] ++
     map Pop [EBX; ECX; EDX; ESI; EDI; EBP]).
  rewrite exec_code_app. destruct (save_part m sp eax) as (m2 & -> & Q1 & Hi & Q & P & Q4); try done.
  cbn [mbind option_bind]. rewrite exec_code_app.
  edestruct (call_part m2) as (m3 & -> & R1 & R2 & R3 & R4); [lia|lia|exact Hi|done|cbn [mbind option_bind]].
  rewrite Q1 in *.
  destruct (pop_all [EBX; ECX; EDX; ESI; EDI; EBP] m3 (saved_values m)) as (m4 & -> & S1 & S2 & S3 & S4);
    [lia|cbn; lia|set_solver|apply (bool_decide_unpack _); by vm_compute|done| |].
  { rewrite R1. intros k v Hk. rewrite R4 by lia. rewrite <- (Q k v Hk). f_equal. lia. }
  exists m4. split; [done|]. cbn [length] in S1. split; [lia|]. split; [|split].
  - rewrite S2, R2 by set_solver. done.
  - intros r H1 H2. destruct r; try done;
      [by apply (S3 1%nat)|by apply (S3 2%nat)|by apply (S3 0%nat)|by apply (S3 5%nat)|by apply (S3 3%nat)|by apply (S3 4%nat)].
  - intros a Ha. rewrite S4, R4, Q4 by lia. done.
Qed.

(** From the first byte of the patch. *)
Lemma entry_runs code v rg s ret :
  fetch hook trampoline code v = Some (Push EAX) ->
  fetch hook trampoline code (v + 1) = Some (MovImm trampoline EAX) ->
  fetch hook trampoline code (v + 6) = Some (JmpReg EAX) ->
  32 <= rg ESP -> rg ESP + 4 < 2 ^ 32 -> s !! rg ESP = Some ret ->
  exists m, runs 23 code (MkMachine rg s v) = Some m /\
    eip m = ret /\ regs m ESP = rg ESP + 4 /\
    regs m EAX = kernel (rg EAX) [rg EBX; rg ECX; rg EDX; rg ESI; rg EDI; frame] /\
    (forall r, r <> EAX -> r <> ESP -> regs m r = rg r) /\
    forall a, rg ESP <= a -> stack m !! a = s !! a.
Proof.
  intros F1 F2 F3 Hlo Hhi Hret. set (sp := rg ESP) in *.
  set (rg1 := set_reg ESP (sp - 4) rg). set (s1 := <[sp - 4 := rg EAX]> s).
  rewrite (run_step _ code (MkMachine rg s v) _ F1).
  assert (exec1 (Push EAX) (eip (MkMachine rg s v) + size (Push EAX)) (MkMachine rg s v) =
    Some (MkMachine rg1 s1 (v + 1))) as ->.
  { unfold exec_insn, push. cbn [regs stack eip goto]. by rewrite u32_id by (unfold sp in *; lia). }
  cbn [mbind option_bind]. rewrite (run_step _ code (MkMachine rg1 s1 (v + 1)) _ F2). cbn [exec_insn mbind option_bind].
  unfold put, goto. cbn [regs stack eip size].
  replace (v + 1 + 5) with (v + 6) by lia. rewrite (run_step _ code (MkMachine _ s1 (v + 6)) _ F3).
  cbn [exec_insn mbind option_bind]. unfold goto. cbn [regs stack eip]. rewrite set_reg_eq.
  set (rg2 := set_reg EAX trampoline rg1).
  change 20%nat with (length (take 19 (vsyscall_hook_trampoline hook)) + 1)%nat.
  rewrite (run_insns _ (take 19 (vsyscall_hook_trampoline hook)) [] [Ret]) by (done || (cbn; lia)).
  destruct (trampoline_body (MkMachine rg2 s1 trampoline) sp (rg EAX)) as (m1 & E & H1 & H2 & H3 & H4);
    [done|done|done|apply lookup_insert_eq|]. cbn [regs stack] in *.
  assert (eip m1 = trampoline + code_size (take 19 (vsyscall_hook_trampoline hook))) as He.
  { by apply (exec_code_eip (take 19 (vsyscall_hook_trampoline hook))) in E. }
  rewrite E. cbn [mbind option_bind].
  rewrite (run_step _ _ _ Ret).
  2:{ unfold fetch. rewrite He. by rewrite (fetch_insn_at (take 19 (vsyscall_hook_trampoline hook)) Ret []). }
  assert (stack m1 !! sp = Some ret) as Hs.
  { rewrite H4 by lia. unfold s1. by rewrite lookup_insert_ne by lia. }
  cbn [exec_insn]. unfold pop. cbn [goto regs stack eip]. rewrite H1, Hs. cbn [mbind option_bind].
  eexists. split; [done|]. cbn [goto regs stack eip]. split_and!; [done| | | |].
  - rewrite set_reg_eq. apply u32_id. lia.
  - rewrite set_reg_ne by done. exact H2.
  - intros r Hr1 Hr2. rewrite set_reg_ne, H3 by done. unfold rg2, rg1. by rewrite !set_reg_ne.
  - intros a Ha. rewrite H4 by done. unfold s1. by rewrite lookup_insert_ne by lia.
Qed.

End Contract.

(** The patch's bytes, decoded. *)
Lemma patched_fetch hook trampoline v code :
  0 <= trampoline < 2 ^ 32 ->
  v + 8 <= trampoline \/ trampoline + code_size (vsyscall_hook_trampoline hook) <= v ->
  read_bytes v 8 code = Some ([0x50; 0xb8] ++ le_bytes 4 trampoline ++ [0xff; 0xe0]) ->
  fetch hook trampoline code v = Some (Push EAX) /\
  fetch hook trampoline code (v + 1) = Some (MovImm trampoline EAX) /\
  fetch hook trampoline code (v + 6) = Some (JmpReg EAX).
Proof.
  intros Ht Hd Hr.
  assert (forall a, v <= a < v + 8 ->
    fetch_insn trampoline (vsyscall_hook_trampoline hook) a = None) as Hout
    by (intros a Ha; apply fetch_insn_outside; lia).
  pose proof (le_value_bytes 4 trampoline Ht) as Hv. pose proof (le_bytes_length 4 trampoline) as Hl.
  destruct (le_bytes 4 trampoline) as [|b0 [|b1 [|b2 [|b3 [|]]]]]; try discriminate Hl.
  pose proof (read_bytes_app 5 3 v code _ Hr) as [R5 _].
  pose proof (read_bytes_app 1 7 v code _ Hr) as [_ R1]. apply (read_bytes_app 5 2) in R1 as [R1 _].
  pose proof (read_bytes_app 6 2 v code _ Hr) as [_ R6].
  cbn [take drop app] in R5, R1, R6. change (Z.of_nat 1) with 1 in R1. change (Z.of_nat 6) with 6 in R6.
  unfold fetch.
  split_and!; rewrite Hout by lia.
  - rewrite R5. done.
  - rewrite R1. cbn [mbind option_bind]. rewrite <- Hv. done.
  - destruct (read_bytes (v + 6) 5 code) as [l|] eqn:E.
    + apply (read_bytes_app 2 3) in E as [E _]. rewrite R6 in E. injection E as E.
      destruct l as [|x [|y l]]; try discriminate E. by injection E as <- <-.
    + by rewrite R6.
Qed.

(** C32: once the program has patched the vdso, a call of
    [__kernel_vsyscall] runs through the trampoline and the hook back to its
    caller, keeps its contract (every register but eax is what it was, the
    return address is popped, the caller's stack is untouched) and returns
    what the kernel answers for the number and the first five arguments; the
    sixth argument (ebp) is not passed on: the kernel sees the hook's own
    frame pointer in its place. *)
Theorem patched_vsyscall_contract kernel hook frame ecx_after edx_after scratch trampoline
    start m m' rg s ret :
  (forall sp s a, sp < a -> scratch sp s !! a = s !! a) ->
  0 <= trampoline < 2 ^ 32 ->
  (let v := start + vsyscall_offset in
   v + 8 <= trampoline \/ trampoline + code_size (vsyscall_hook_trampoline hook) <= v) ->
  main start trampoline m = (AllMatch, Some m') ->
  32 <= rg ESP -> rg ESP + 4 < 2 ^ 32 -> s !! rg ESP = Some ret ->
  exists n m1,
    run kernel hook frame ecx_after edx_after scratch trampoline n m'
        (MkMachine rg s (start + vsyscall_offset)) = Some m1 /\
    eip m1 = ret /\ regs m1 ESP = rg ESP + 4 /\
    regs m1 EAX = kernel (rg EAX) [rg EBX; rg ECX; rg EDX; rg ESI; rg EDI; frame] /\
    (forall r, r <> EAX -> r <> ESP -> regs m1 r = rg r) /\
    forall a, rg ESP <= a -> stack m1 !! a = s !! a.
Proof.
  intros Hsc Ht Hd Hm Hlo Hhi Hret. set (v := start + vsyscall_offset) in *.
  assert (m' = write_bytes v (set_trampoline_addr trampoline vsyscall_monkeypatch) m) as ->.
  { unfold main, __kernel_vsyscall_addr in Hm. fold v in Hm. destruct (verify_vsyscall_insns v m); try discriminate Hm.
    by injection Hm as <-. }
  rewrite template_bytes.
  destruct (patched_fetch hook trampoline v (write_bytes v ([0x50; 0xb8] ++ le_bytes 4 trampoline ++
    [0xff; 0xe0]) m)) as (F1 & F2 & F3); [done|done| |].
  { apply (read_write_bytes ([0x50; 0xb8] ++ le_bytes 4 trampoline ++ [0xff; 0xe0])). }
  exists 23%nat. by eapply entry_runs.
Qed.

(** A vdso with the expected code, a kernel that adds its arguments up. *)
Definition example_vdso : gmap Z Z := write_bytes (0xb7fff000 + vsyscall_offset) vsyscall_impl ∅.
Definition example_kernel (n : Z) (l : list Z) : Z := n + foldr Z.add 0 l.
Definition example_regs (r : reg) : Z :=
  match r with EAX => 4 | EBX => 1 | ECX => 20 | EDX => 300 | ESI => 4000 | EDI => 50000
             | EBP => 600000 | ESP => 4096 end.

Lemma patches_only_what_it_expects_witness :
  read_bytes (0xb7fff000 + vsyscall_offset) 20 example_vdso = Some vsyscall_impl.
Proof.
  pose proof (patches_only_what_it_expects 0xb7fff000 134513664 example_vdso ltac:(lia)) as H.
  assert (main 0xb7fff000 134513664 example_vdso = (AllMatch, Some (write_bytes (0xb7fff000 + vsyscall_offset)
    (set_trampoline_addr 134513664 vsyscall_monkeypatch) example_vdso))) as E.
  { unfold main, __kernel_vsyscall_addr. assert (verify_vsyscall_insns (0xb7fff000 + vsyscall_offset) example_vdso = AllMatch)
      as -> by (by vm_compute). reflexivity. }
  cbv zeta in H. rewrite E in H. apply H.
Defined.

Lemma patched_vsyscall_contract_witness :
  exists n m1,
    run example_kernel 134513920 77 0 0 (fun _ s => s) 134513664 n
        (write_bytes (0xb7fff000 + vsyscall_offset)
           (set_trampoline_addr 134513664 vsyscall_monkeypatch) example_vdso)
        (MkMachine example_regs {[4096 := 9]} (0xb7fff000 + vsyscall_offset)) = Some m1 /\
    eip m1 = 9 /\ regs m1 EAX = 54402 /\ regs m1 EBP = 600000.
Proof.
  destruct (patched_vsyscall_contract example_kernel 134513920 77 0 0 (fun _ s => s) 134513664
    0xb7fff000 example_vdso
    (write_bytes (0xb7fff000 + vsyscall_offset)
       (set_trampoline_addr 134513664 vsyscall_monkeypatch) example_vdso)
    example_regs {[4096 := 9]} 9) as (n & m1 & H1 & H2 & _ & H3 & H4 & _).
  - done.
  - lia.
  - right. vm_compute. discriminate.
  - unfold main, __kernel_vsyscall_addr. assert (verify_vsyscall_insns (0xb7fff000 + vsyscall_offset) example_vdso = AllMatch)
      as -> by (by vm_compute). reflexivity.
  - vm_compute. discriminate.
  - vm_compute. reflexivity.
  - apply lookup_singleton_Some. split; reflexivity.
  - exists n, m1. split; [exact H1|]. split; [exact H2|]. split; [exact H3|]. by apply H4.
Defined.
