(* ===== verification/Strlen.v ===== *)
(** * The instrumented strlen and fputs

    src/libc-sysdeps-i386-i586-strlen.S is glibc's strlen for the i586 with
    counters added, and src/libc-libio-iofputs.c an fputs that turns the
    counters on, by a magic number in edi, and shows them to a tracer as the
    registers of a getpid.  Here is the assembly of both, instruction by
    instruction, with the preprocessor symbols the files define (BB_INST and
    ZERO_TEST_INST), and without bounded pointers: ENTER, LEAVE and
    CHECK_BOUNDS are empty and LINKAGE is the return address.

    A machine is the eight registers, the flags the code looks at, and one
    memory of bytes for string and stack alike. *)

From stdpp Require Import base numbers list gmap.
From S2P Require Import Prelude I386.

Local Open Scope Z_scope.

(** ** The processor *)

Record regs : Set := MkRegs {
  eax : Z; ecx : Z; edx : Z; ebx : Z; esp : Z; ebp : Z; esi : Z; edi : Z
}.

Definition get (r : reg) (R : regs) : Z :=
  match r with
  | EAX => eax R | ECX => ecx R | EDX => edx R | EBX => ebx R
  | ESP => esp R | EBP => ebp R | ESI => esi R | EDI => edi R
  end.

Definition set (r : reg) (v : Z) (R : regs) : regs :=
  let '(MkRegs a c d b sp bp si di) := R in
  match r with
  | EAX => MkRegs v c d b sp bp si di | ECX => MkRegs a v d b sp bp si di
  | EDX => MkRegs a c v b sp bp si di | EBX => MkRegs a c d v sp bp si di
  | ESP => MkRegs a c d b v bp si di | EBP => MkRegs a c d b sp v si di
  | ESI => MkRegs a c d b sp bp v di | EDI => MkRegs a c d b sp bp si v
  end.

(** Carry, zero and parity. *)
Record flags : Set := MkFlags { cf : bool; zf : bool; pf : bool }.

Definition parity (v : Z) : bool := negb (foldr xorb false (map (Z.testbit v) [0; 1; 2; 3; 4; 5; 6; 7])).

(** The flags of an operation with result [v] and carry [c]. *)
Definition result_flags (c : bool) (v : Z) : flags := MkFlags c (v =? 0) (parity v).

(** [seen]: the registers at every [int $0x80], which a tracer can read. *)
Record machine : Type := MkMachine {
  rs : regs;
  fl : flags;
  mem : gmap Z Z;
  seen : list regs
}.

(** The pieces of code between labels, in the order of the files. *)
Inductive label : Set :=
  | strlen | strlen_instr | strlen_begin_impl | L0 | L1 | L3 | L2 | done_
  | strlen_wrapper
  | IO_fputs | after_strlen.

Inductive cond : Set := Z_ | NZ | NC | P_.

Inductive insn : Set :=
  | MovImm (imm : Z) (r : reg)
  | Mov (src dst : reg)
  | Load (off : Z) (base dst : reg)      (* movl off(base), dst *)
  | Push (r : reg)
  | PushImm (imm : Z)
  | Pop (r : reg)
  | AddImm (imm : Z) (r : reg)
  | SubImm (imm : Z) (r : reg)
  | Sub (src dst : reg)
  | SubMem (off : Z) (base dst : reg)
  | Inc (r : reg)
  | Dec (r : reg)
  | And (src dst : reg)
  | AndImm (imm : Z) (r : reg)
  | Xor (src dst : reg)
  | XorImm (imm : Z) (r : reg)
  | ShrImm (k : Z) (r : reg)
  | CmpImm (imm : Z) (r : reg)
  | CmpbDh (base : reg)                  (* cmpb %dh, (base) *)
  | CmpbCl (imm : Z)                     (* cmpb $imm, %cl *)
  | TestbCh                              (* testb %ch, %ch *)
  | J (c : cond) (l : label)
  | Jmp (l : label)
  | Call (l ret : label)
  | CallRest                             (* call _IO_fputs_rest *)
  | Int80
  | Ret.

Definition holds (c : cond) (f : flags) : bool :=
  match c with Z_ => zf f | NZ => negb (zf f) | NC => negb (cf f) | P_ => pf f end.

(** Bits 8 to 15. *)
Definition high_byte (v : Z) : Z := v / 256 mod 256.

(** What an instruction leads to. *)
Inductive outcome : Type :=
  | Next (m : machine)
  | Goto (l : label) (m : machine)
  | Return (a : Z) (m : machine)
  | Fault.

Section Processor.

(** The answer of the kernel to a system call, the address of each label that
    is returned to, and [_IO_fputs_rest], compiled: its result from [str] and
    [fp], and what it leaves in ecx, edx and the memory. *)
Context (kernel : list regs -> regs -> Z) (address : label -> Z)
  (rest : Z -> Z -> machine -> Z * Z * Z * gmap Z Z).

Definition put (r : reg) (v : Z) (f : flags) (m : machine) : machine :=
  MkMachine (set r v (rs m)) f (mem m) (seen m).

Definition push (v : Z) (m : machine) : machine :=
  let sp := u32 (esp (rs m) - 4) in
  MkMachine (set ESP sp (rs m)) (fl m) (store32 sp v (mem m)) (seen m).

Definition pop (m : machine) : option (Z * machine) :=
  v ← load32 (esp (rs m)) (mem m);
  Some (v, put ESP (u32 (esp (rs m) + 4)) (fl m) m).

(** A result that sets all flags, and a comparison. *)
Definition alu (r : reg) (c : bool) (v : Z) (m : machine) : outcome := Next (put r v (result_flags c v) m).

Definition compare (c : bool) (v : Z) (m : machine) : outcome :=
  Next (MkMachine (rs m) (result_flags c v) (mem m) (seen m)).

(** A load followed by [k]; an address that is not mapped is a fault. *)
Definition with_word (a : Z) (m : machine) (k : Z -> outcome) : outcome :=
  match load32 (u32 a) (mem m) with Some v => k v | None => Fault end.

(** [_IO_fputs_rest], called with its two arguments on the stack, keeps ebx,
    esi, edi, ebp and esp as the C calling convention has it. *)
Definition call_rest (m : machine) : outcome :=
  with_word (esp (rs m)) m (fun str => with_word (esp (rs m) + 4) m (fun fp =>
    let '(a, c, d, mem') := rest str fp m in
    Next (MkMachine (set EAX a (set ECX c (set EDX d (rs m)))) (fl m) mem' (seen m)))).

Definition exec1 (i : insn) (m : machine) : outcome :=
  let R r := get r (rs m) in
  match i with
  | MovImm v r => Next (put r v (fl m) m)
  | Mov s d => Next (put d (R s) (fl m) m)
  | Load off b d => with_word (R b + off) m (fun v => Next (put d v (fl m) m))
  | Push r => Next (push (R r) m)
  | PushImm v => Next (push v m)
  | Pop r => match pop m with Some (v, m) => Next (put r v (fl m) m) | None => Fault end
  | AddImm v r => alu r (2 ^ 32 <=? R r + v) (u32 (R r + v)) m
  | SubImm v r => alu r (R r <? v) (u32 (R r - v)) m
  | Sub s d => alu d (R d <? R s) (u32 (R d - R s)) m
  | SubMem off b d => with_word (R b + off) m (fun v => alu d (R d <? v) (u32 (R d - v)) m)
  | Inc r => alu r (cf (fl m)) (u32 (R r + 1)) m
  | Dec r => alu r (cf (fl m)) (u32 (R r - 1)) m
  | And s d => alu d false (Z.land (R d) (R s)) m
  | AndImm v r => alu r false (Z.land (R r) v) m
  | Xor s d => alu d false (Z.lxor (R d) (R s)) m
  | XorImm v r => alu r false (Z.lxor (R r) v) m
  | ShrImm k r => alu r (Z.testbit (R r) (k - 1)) (Z.shiftr (R r) k) m
  | CmpImm v r => compare (R r <? v) (u32 (R r - v)) m
  | CmpbDh b =>
      match mem m !! R b with
      | Some v => compare (v <? high_byte (edx (rs m))) ((v - high_byte (edx (rs m))) mod 256) m
      | None => Fault
      end
  | CmpbCl v => compare (ecx (rs m) mod 256 <? v) ((ecx (rs m) mod 256 - v) mod 256) m
  | TestbCh => compare false (high_byte (ecx (rs m))) m
  | J c l => if holds c (fl m) then Goto l m else Next m
  | Jmp l => Goto l m
  | Call l ret => Goto l (push (address ret) m)
  | CallRest => call_rest m
  | Int80 => Next (MkMachine (set EAX (kernel (seen m) (rs m)) (rs m)) (fl m) (mem m) (seen m ++ [rs m]))
  | Ret => match pop m with Some (a, m) => Return a m | None => Fault end
  end.

Fixpoint exec (l : list insn) (m : machine) : outcome :=
  match l with
  | [] => Next m
  | i :: l => match exec1 i m with Next m => exec l m | o => o end
  end.

(** ** strlen.S *)

Definition magic : Z := 0xfefefeff.
Definition not_magic : Z := 0x01010100.
Definition STR : Z := 4.

(** One of the four unrolled iterations, up to its last jump. *)
Definition iteration : list insn :=
  [Load 0 EAX ECX; AddImm 4 EAX;
   Sub ECX EDX; AddImm magic ECX;
   Dec EDX; J NC L3;
   Xor ECX EDX;
   AndImm not_magic EDX].

(** ** iofputs.c *)

Definition SYS_gettid : Z := 0xe0.
Definition SYS_getpid : Z := 0x14.

(** In C: a function that ends in a call with its own argument is compiled to
    a jump. *)
Definition strlen_wrapper_insns : list insn := [Jmp strlen].

(** Up to the call, and from the return on.  The offsets are from a stack
    pointer that is at the return address when the first instruction runs: the
    compiler adds a [ret] to the body and nothing before it. *)
Definition IO_fputs_insns : list insn :=
  [Push EBP; Mov ESP EBP;
   MovImm SYS_gettid EAX; Int80;
   Load 8 EBP EAX; Push EBX; Push ESI; Push EDI; Push EBP;
   Push EAX; MovImm 0xdeadd00d EDI; Call strlen_wrapper after_strlen].

Definition after_strlen_insns : list insn :=
  [AddImm 4 ESP;
   MovImm SYS_getpid EAX; Int80;
   Pop EBP; Pop EDI; Pop ESI; Pop EBX;
   Load 0xc EBP EAX; Push EAX; Load 8 EBP EAX; Push EAX;
   CallRest; AddImm 8 ESP;
   Pop EBP; Ret].

(** ** The code at each label *)

Definition code (l : label) : list insn :=
  match l with
  | strlen =>
      [Load STR ESP EAX;
       CmpImm 0xdeadd00d EDI; J Z_ strlen_instr;
       Push EBX; Push ESI; Push EDI; Push EBP;
       PushImm 0; Jmp strlen_begin_impl]
  | strlen_instr =>
      [Xor EBX EBX; Xor ESI ESI; Xor EDI EDI; Xor EBP EBP; PushImm 1]
  | strlen_begin_impl =>
      [MovImm 3 EDX; And EAX EDX; J Z_ L1; J P_ L0;
       CmpbDh EAX; J Z_ L2; Inc EAX;
       CmpbDh EAX; J Z_ L2; Inc EAX;
       XorImm 2 EDX; J Z_ L1]
  | L0 => [CmpbDh EAX; J Z_ L2; Inc EAX; Xor EDX EDX]
  | L1 =>
      iteration ++ [J NZ L3] ++ iteration ++ [J NZ L3] ++ iteration ++ [J NZ L3] ++
      iteration ++ [J Z_ L1]
  | L3 =>
      [SubImm 4 EAX; SubImm magic ECX;
       Inc EBX; CmpbCl 0; J Z_ L2;
       Inc ESI; Inc EAX; TestbCh; J Z_ L2;
       ShrImm 16 ECX; Inc EAX;
       Inc EDI; CmpbCl 0; J Z_ L2;
       Inc EBP; Inc EAX]
  | L2 =>
      [Pop EDX; CmpImm 1 EDX; J Z_ done_;
       Pop EBP; Pop EDI; Pop ESI; Pop EBX]
  | done_ => [SubMem STR ESP EAX; Ret]
  | strlen_wrapper => strlen_wrapper_insns
  | IO_fputs => IO_fputs_insns
  | after_strlen => after_strlen_insns
  end.

(** The label the code after a label's last instruction has. *)
Definition follows (l : label) : label :=
  match l with
  | strlen => strlen_instr
  | strlen_instr => strlen_begin_impl
  | strlen_begin_impl => L0
  | L0 => L1
  | L1 => L3
  | L3 => L2
  | _ => done_
  end.

Definition block (l : label) (m : machine) : outcome :=
  match exec (code l) m with Next m => Goto (follows l) m | o => o end.

(** How a run ends; [Running]: not within the fuel. *)
Inductive final : Type := Returned (a : Z) (m : machine) | Faulted | Running.

Fixpoint run (fuel : nat) (l : label) (m : machine) : final :=
  match fuel with
  | O => Running
  | S fuel =>
      match block l m with
      | Goto l m => run fuel l m
      | Return a m => if a =? address after_strlen then run fuel after_strlen m else Returned a m
      | _ => Faulted
      end
  end.

End Processor.

(** ** The reference *)

(** The number of bytes before the first NUL at [p]; [None]: there is none
    within [fuel] mapped bytes. *)
Fixpoint strlen_ref (fuel : nat) (p : Z) (m : gmap Z Z) : option Z :=
  match fuel with
  | O => None
  | S fuel => b ← m !! p; if b =? 0 then Some 0 else Z.succ <$> strlen_ref fuel (p + 1) m
  end.

(** The counters: which of the tests for a zero byte at L3 have been reached.
    There are none when the string ends before its first aligned word. *)
Definition counters (p len : Z) : Z * Z * Z * Z :=
  let k := (p + len) mod 4 in
  if negb (p mod 4 =? 0) && ((p + len) / 4 =? p / 4) then (0, 0, 0, 0)
  else (1, Z.b2z (1 <=? k), Z.b2z (2 <=? k), Z.b2z (3 <=? k)).

(** ** The string *)

(** Bytes from [p] on, the first NUL at [q], and the aligned word [q] is in
    mapped to its end. *)
Record string_at (m : gmap Z Z) (p q : Z) : Prop := {
  str_order : 0 <= p <= q;
  str_byte i : p <= i < 4 * (q / 4) + 4 -> exists b, m !! i = Some b /\ 0 <= b < 256;
  str_nonzero i : p <= i < q -> m !! i <> Some 0;
  str_nul : m !! q = Some 0;
  str_end : q + 4 < 2 ^ 32
}.

Lemma strlen_ref_spec fuel m : forall p len, strlen_ref fuel p m = Some len ->
  0 <= len /\ m !! (p + len) = Some 0 /\ (forall i, p <= i < p + len -> exists b, m !! i = Some b /\ b <> 0).
Proof.
  induction fuel as [|fuel IH]; intros p len; cbn [strlen_ref]; [done|].
  destruct (m !! p) as [b|] eqn:Ep; cbn [mbind option_bind]; [|done].
  destruct (Z.eqb_spec b 0) as [->|Hb].
  { intros [= <-]. rewrite Z.add_0_r. split_and!; [lia|done|lia]. }
  destruct (strlen_ref fuel (p + 1) m) as [n|] eqn:En; [|done]. intros [= <-].
  destruct (IH _ _ En) as (H0 & H1 & H2). split_and!; [lia| |].
  - by replace (p + Z.succ n) with (p + 1 + n) by lia.
  - intros i Hi. destruct (Z.eq_dec i p) as [->|]; [by exists b|]. apply H2. lia.
Qed.

(** Memory holds bytes, and the aligned words of the string are mapped: a page
    that has one byte of a word has all of it. *)
Definition readable (m : gmap Z Z) (p len : Z) : Prop :=
  (forall i v, m !! i = Some v -> 0 <= v < 256) /\
  (forall i, p + len < i < 4 * ((p + len) / 4) + 4 -> is_Some (m !! i)).

Lemma strlen_ref_string fuel m p len : strlen_ref fuel p m = Some len -> readable m p len ->
  0 <= p -> p + len + 4 < 2 ^ 32 -> string_at m p (p + len).
Proof.
  intros Hl [Hb Hw] Hp He. destruct (strlen_ref_spec _ _ _ _ Hl) as (H0 & Hn & Hs).
  split; [lia| | |done|done].
  - intros i Hi. assert (is_Some (m !! i)) as [v Hv]; [|exists v; eauto].
    destruct (Z.lt_trichotomy i (p + len)) as [Hlt|[->|Hgt]]; [|done|apply Hw; lia].
    destruct (Hs i) as (v & Hv & _); [lia|done].
  - intros i Hi. destruct (Hs i Hi) as (v & -> & Hv). congruence.
Qed.

(** *** Words *)

#[local] Ltac Zify.zify_post_hook ::= Z.div_mod_to_equations.

Definition byte (b : Z) : Prop := 0 <= b < 256.

Definition word (b0 b1 b2 b3 : Z) : Z := b0 + 256 * (b1 + 256 * (b2 + 256 * b3)).

Lemma word_load32 a m b0 b1 b2 b3 :
  m !! a = Some b0 -> m !! (a + 1) = Some b1 -> m !! (a + 2) = Some b2 -> m !! (a + 3) = Some b3 ->
  load32 a m = Some (word b0 b1 b2 b3).
Proof.
  intros H0 H1 H2 H3. unfold load32. cbn [read_bytes].
  replace (a + 1 + 1 + 1) with (a + 3) by lia. replace (a + 1 + 1) with (a + 2) by lia.
  rewrite H0, H1, H2, H3. cbn. unfold word. f_equal. lia.
Qed.

(** The hole bits of the magic word. *)
Lemma land_holes x : Z.land x not_magic = 0 <->
  Z.testbit x 8 = false /\ Z.testbit x 16 = false /\ Z.testbit x 24 = false.
Proof.
  split.
  - intros H. split_and!; [pose proof (Z.land_spec x not_magic 8) as E|pose proof (Z.land_spec x not_magic 16) as E
      |pose proof (Z.land_spec x not_magic 24) as E]; rewrite H, Z.bits_0, andb_true_r in E; done.
  - intros (H8 & H16 & H24). apply Z.bits_inj_0. intros n. rewrite Z.land_spec.
    destruct (Z.ltb_spec n 0); [by rewrite Z.testbit_neg_r|].
    destruct (Z.ltb_spec n 25); [|rewrite (Z.bits_above_log2 not_magic n), andb_false_r; [done|done|cbn; lia]].
    assert (n = 8 \/ n = 16 \/ n = 24 \/ Z.testbit not_magic n = false) as [->|[->|[->|E]]].
    { replace n with (Z.of_nat (Z.to_nat n)) by lia. assert (Z.to_nat n < 25)%nat by lia.
      generalize dependent (Z.to_nat n). intros k Hk. do 25 (destruct k as [|k]; [cbn; auto|]). lia. }
    + by rewrite H8.
    + by rewrite H16.
    + by rewrite H24.
    + by rewrite E, andb_false_r.
Qed.

Lemma testbit_mod z k : 0 <= k -> Z.testbit z k = (z / 2 ^ k mod 2 =? 1).
Proof.
  intros Hk. rewrite Z.testbit_odd, Z.shiftr_div_pow2 by done. rewrite Zmod_odd. by destruct (Z.odd _) eqn:?.
Qed.

(** Bit [k] of the sum and of the complement differ exactly by the carry into it. *)
Lemma hole_bit w k : 0 <= k ->
  Z.testbit (Z.lxor (u32 (w + magic)) (2 ^ 32 - 1 - w)) k =
  negb (eqb (u32 (w + magic) / 2 ^ k mod 2 =? 1) ((2 ^ 32 - 1 - w) / 2 ^ k mod 2 =? 1)).
Proof. intros Hk. rewrite Z.lxor_spec, !testbit_mod by done. by repeat destruct (_ =? 1). Qed.

(** The test of an iteration fails exactly on the words without a zero byte. *)
Lemma iteration_exact b0 b1 b2 b3 : byte b0 -> byte b1 -> byte b2 -> byte b3 ->
  let w := word b0 b1 b2 b3 in
  (2 ^ 32 <= w + magic /\ Z.land (Z.lxor (u32 (w + magic)) (2 ^ 32 - 1 - w)) not_magic = 0) <->
  (b0 <> 0 /\ b1 <> 0 /\ b2 <> 0 /\ b3 <> 0).
Proof.
  intros H0 H1 H2 H3 w. unfold byte in *. rewrite land_holes, !hole_bit by lia.
  assert (forall x y : bool, negb (eqb x y) = false <-> x = y) as Hb by (by intros [] []).
  rewrite !Hb. clear Hb.
  assert (forall x y, (x mod 2 =? 1) = (y mod 2 =? 1) <-> x mod 2 = y mod 2) as Hm.
  { intros x y. destruct (Z.eqb_spec (x mod 2) 1), (Z.eqb_spec (y mod 2) 1); (split; [intros E|intros E]); try done; lia. }
  rewrite !Hm. clear Hm. unfold u32, wrapU, magic, w, word. 
  change (2 ^ 8) with 256. change (2 ^ 16) with 65536. change (2 ^ 24) with 16777216. change (2 ^ 32) with 4294967296.
  lia.
Qed.

(** ** The code of strlen *)

Section Strlen.
Context (kernel : list regs -> regs -> Z) (address : label -> Z)
  (rest : Z -> Z -> machine -> Z * Z * Z * gmap Z Z).

Local Abbreviation exec := (exec kernel address rest).
Local Abbreviation block := (block kernel address rest).
Local Abbreviation run := (run kernel address rest).

Lemma exec_app l1 l2 m : exec (l1 ++ l2) m = match exec l1 m with Next m => exec l2 m | o => o end.
Proof.
  revert m. induction l1 as [|i l1 IH]; intros m; cbn [app Strlen.exec]; [done|].
  destruct (exec1 kernel address rest i m); done || apply IH.
Qed.

Lemma exec_cons i l m :
  exec (i :: l) m = match exec1 kernel address rest i m with Next m => exec l m | o => o end.
Proof. done. Qed.

(** Symbolic execution of the next instruction. *)
Ltac simpl_machine :=
  cbv beta iota zeta delta [exec1 get set put push pop alu compare holds rs fl mem seen
    eax ecx edx ebx esp ebp esi edi cf zf pf result_flags mbind option_bind negb high_byte].
Ltac step := rewrite exec_cons; simpl_machine.

(** The code of a block. *)
Ltac open_block :=
  unfold Strlen.block; cbn [code]; unfold strlen_wrapper_insns, IO_fputs_insns, after_strlen_insns.

Lemma with_word_load a v M R f tr k : 0 <= a < 2 ^ 32 -> load32 a M = Some v ->
  with_word a (MkMachine R f M tr) k = k v.
Proof. intros Ha Hv. unfold with_word. cbn [mem]. by rewrite u32_id, Hv. Qed.

Lemma exec_iteration a c b sp bp si di f M tr w :
  0 <= a -> a + 4 < 2 ^ 32 -> load32 a M = Some w -> 0 <= w < 2 ^ 32 ->
  let t := Z.land (Z.lxor (2 ^ 32 - 1 - w) (u32 (w + magic))) not_magic in
  exec iteration (MkMachine (MkRegs a c 0 b sp bp si di) f M tr) =
  if 2 ^ 32 <=? w + magic
  then Next (MkMachine (MkRegs (a + 4) (u32 (w + magic)) t b sp bp si di) (result_flags false t) M tr)
  else Goto L3 (MkMachine (MkRegs (a + 4) (u32 (w + magic)) (2 ^ 32 - 1 - w) b sp bp si di)
         (result_flags false (2 ^ 32 - 1 - w)) M tr).
Proof.
  intros Ha Ha' Hw Hr t. unfold iteration.
  step. rewrite (with_word_load _ w) by (rewrite ?Z.add_0_r; done || lia). do 5 step.
  rewrite (u32_id (a + 4)) by lia.
  assert (u32 (u32 (0 - w) - 1) = 2 ^ 32 - 1 - w) as -> by (unfold u32, wrapU; lia).
  destruct (2 ^ 32 <=? w + magic); [|reflexivity]. do 2 step. reflexivity.
Qed.

(** The word the loop is at. *)
Lemma word_of M p q a : string_at M p q -> p <= a <= q -> a mod 4 = 0 -> exists b0 b1 b2 b3,
  (byte b0 /\ byte b1 /\ byte b2 /\ byte b3) /\
  (M !! a = Some b0 /\ M !! (a + 1) = Some b1 /\ M !! (a + 2) = Some b2 /\ M !! (a + 3) = Some b3) /\
  load32 a M = Some (word b0 b1 b2 b3) /\ 0 <= word b0 b1 b2 b3 < 2 ^ 32.
Proof.
  intros Hs Ha H4. assert (a <= 4 * (q / 4)) by lia. pose proof (str_order _ _ _ Hs).
  destruct (str_byte _ _ _ Hs a) as (b0 & E0 & B0); [lia|].
  destruct (str_byte _ _ _ Hs (a + 1)) as (b1 & E1 & B1); [lia|].
  destruct (str_byte _ _ _ Hs (a + 2)) as (b2 & E2 & B2); [lia|].
  destruct (str_byte _ _ _ Hs (a + 3)) as (b3 & E3 & B3); [lia|].
  exists b0, b1, b2, b3. split_and!; try done. 
  - by apply word_load32.
  - unfold word. lia.
  - unfold word. lia.
Qed.

Lemma nul_in_word M p q a b0 b1 b2 b3 : string_at M p q -> p <= a <= q -> a mod 4 = 0 ->
  M !! a = Some b0 -> M !! (a + 1) = Some b1 -> M !! (a + 2) = Some b2 -> M !! (a + 3) = Some b3 ->
  (b0 <> 0 /\ b1 <> 0 /\ b2 <> 0 /\ b3 <> 0) <-> a + 4 <= q.
Proof.
  intros Hs Ha H4 E0 E1 E2 E3. pose proof (str_nul _ _ _ Hs) as Hn. split.
  - intros (N0 & N1 & N2 & N3). destruct (Z.le_gt_cases (a + 4) q) as [|Hlt]; [done|]. exfalso.
    assert (q = a \/ q = a + 1 \/ q = a + 2 \/ q = a + 3) as [->|[->|[->| ->]]] by lia; congruence.
  - intros Hq. pose proof (str_nonzero _ _ _ Hs) as Hnz.
    split_and!; intros ->; [apply (Hnz a)|apply (Hnz (a + 1))|apply (Hnz (a + 2))|apply (Hnz (a + 3))]; done || lia.
Qed.

(** Where the loop leaves: behind the word of the NUL, which is in ecx but for
    the magic. *)
Definition found (M : gmap Z Z) (q b sp bp si di : Z) (tr : list regs) (m : machine) : Prop :=
  exists w d f, load32 (4 * (q / 4)) M = Some w /\
    m = MkMachine (MkRegs (4 * (q / 4) + 4) (u32 (w + magic)) d b sp bp si di) f M tr.

(** An iteration: out of the loop at the word of the NUL, on to the next
    word before. *)
Lemma exec_word M p q a c b sp bp si di f tr : string_at M p q -> p <= a <= q -> a mod 4 = 0 ->
  let o := exec iteration (MkMachine (MkRegs a c 0 b sp bp si di) f M tr) in
  if q <? a + 4
  then exists m, found M q b sp bp si di tr m /\ (o = Goto L3 m \/ o = Next m /\ zf (fl m) = false)
  else exists c' f', o = Next (MkMachine (MkRegs (a + 4) c' 0 b sp bp si di) f' M tr) /\ zf f' = true.
Proof.
  intros Hs Ha H4 o. pose proof (str_order _ _ _ Hs). pose proof (str_end _ _ _ Hs).
  destruct (word_of _ _ _ _ Hs Ha H4) as (b0 & b1 & b2 & b3 & (B0 & B1 & B2 & B3) & (E0 & E1 & E2 & E3) & Hw & Hr).
  pose proof (iteration_exact b0 b1 b2 b3 B0 B1 B2 B3) as Hx. cbv zeta in Hx.
  rewrite (nul_in_word _ _ _ _ _ _ _ _ Hs Ha H4 E0 E1 E2 E3), Z.lxor_comm in Hx.
  set (w := word b0 b1 b2 b3) in *. pose proof (exec_iteration a c b sp bp si di f M tr w) as Ho. cbv zeta in Ho.
  fold o in Ho. rewrite Ho by (done || lia). clear Ho o.
  destruct (Z.ltb_spec q (a + 4)) as [Hq|Hq].
  - assert (4 * (q / 4) = a) as Ea by lia. unfold found. rewrite Ea.
    destruct (Z.leb_spec (2 ^ 32) (w + magic)) as [Hc|Hc]; eexists; (split; [by do 3 eexists|]); [right|by left].
    split; [done|]. apply Z.eqb_neq. intros E. assert (a + 4 <= q) by by apply Hx. lia.
  - apply Hx in Hq as [Hc E]. rewrite (proj2 (Z.leb_le _ _) Hc). rewrite E. by do 2 eexists.
Qed.

Lemma exec_word_nz l M p q a c b sp bp si di f tr : string_at M p q -> p <= a <= q -> a mod 4 = 0 ->
  let o := exec (iteration ++ [J NZ L3] ++ l) (MkMachine (MkRegs a c 0 b sp bp si di) f M tr) in
  if q <? a + 4 then exists m, found M q b sp bp si di tr m /\ o = Goto L3 m
  else exists c' f', o = exec l (MkMachine (MkRegs (a + 4) c' 0 b sp bp si di) f' M tr).
Proof.
  intros Hs Ha H4 o. pose proof (exec_word M p q a c b sp bp si di f tr Hs Ha H4) as H. cbv zeta in H.
  subst o. rewrite exec_app. destruct (q <? a + 4).
  - destruct H as (m & Hm & [->|[-> Hz]]); exists m; (split; [done|]); [done|].
    cbn [app]. rewrite exec_cons. cbn [exec1 holds fl]. by rewrite Hz.
  - destruct H as (c' & f' & -> & Hz). exists c', f'. cbn [app]. rewrite exec_cons. cbn [exec1 holds fl]. by rewrite Hz.
Qed.

(** The unrolled loop: sixteen bytes. *)
Lemma block_L1 M p q a c b sp bp si di f tr : string_at M p q -> p <= a <= q -> a mod 4 = 0 ->
  let o := block L1 (MkMachine (MkRegs a c 0 b sp bp si di) f M tr) in
  if q <? a + 16 then exists m, found M q b sp bp si di tr m /\ o = Goto L3 m
  else exists c' f', o = Goto L1 (MkMachine (MkRegs (a + 16) c' 0 b sp bp si di) f' M tr).
Proof.
  intros Hs Ha H4 o. subst o. unfold Strlen.block. cbn [code].
  pose proof (exec_word_nz (iteration ++ [J NZ L3] ++ iteration ++ [J NZ L3] ++ iteration ++ [J Z_ L1])
    M p q a c b sp bp si di f tr Hs Ha H4) as H1. cbv zeta in H1.
  destruct (Z.ltb_spec q (a + 4)) as [Hq1|Hq1].
  { destruct H1 as (m & Hm & ->). rewrite (proj2 (Z.ltb_lt q (a + 16))) by lia. by exists m. }
  destruct H1 as (c1 & f1 & ->).
  pose proof (exec_word_nz (iteration ++ [J NZ L3] ++ iteration ++ [J Z_ L1])
    M p q (a + 4) c1 b sp bp si di f1 tr Hs ltac:(lia) ltac:(lia)) as H2. cbv zeta in H2.
  destruct (Z.ltb_spec q (a + 4 + 4)) as [Hq2|Hq2].
  { destruct H2 as (m & Hm & ->). rewrite (proj2 (Z.ltb_lt q (a + 16))) by lia. by exists m. }
  destruct H2 as (c2 & f2 & ->).
  pose proof (exec_word_nz (iteration ++ [J Z_ L1])
    M p q (a + 4 + 4) c2 b sp bp si di f2 tr Hs ltac:(lia) ltac:(lia)) as H3. cbv zeta in H3.
  destruct (Z.ltb_spec q (a + 4 + 4 + 4)) as [Hq3|Hq3].
  { destruct H3 as (m & Hm & ->). rewrite (proj2 (Z.ltb_lt q (a + 16))) by lia. by exists m. }
  destruct H3 as (c3 & f3 & ->). rewrite exec_app.
  pose proof (exec_word M p q (a + 4 + 4 + 4) c3 b sp bp si di f3 tr Hs ltac:(lia) ltac:(lia)) as H5.
  cbv zeta in H5. replace (a + 4 + 4 + 4 + 4) with (a + 16) in H5 by lia.
  destruct (q <? a + 16).
  - destruct H5 as (m & Hm & [->|[-> Hz]]); exists m; (split; [done|]); [done|]. rewrite exec_cons. cbn [exec1 holds fl]. by rewrite Hz.
  - destruct H5 as (c4 & f4 & -> & Hz). exists c4, f4. rewrite exec_cons. cbn [exec1 holds fl]. by rewrite Hz.
Qed.

(** The loop ends at the word of the NUL. *)
Lemma loop_L1 M p q b sp bp si di tr : string_at M p q ->
  forall n a c f, p <= a <= q -> a mod 4 = 0 -> q - a < 16 * Z.of_nat (S n) ->
  exists m k, found M q b sp bp si di tr m /\ (k <= S n)%nat /\
    forall fuel, run (k + fuel) L1 (MkMachine (MkRegs a c 0 b sp bp si di) f M tr) = run fuel L3 m.
Proof.
  intros Hs n. induction n as [|n IH]; intros a c f Ha H4 Hn;
    pose proof (block_L1 M p q a c b sp bp si di f tr Hs Ha H4) as H; cbv zeta in H;
    destruct (Z.ltb_spec q (a + 16)) as [Hq|Hq]; try lia.
  1,2: destruct H as (m & Hm & E); exists m, 1%nat; split; [done|]; split; [lia|]; intros fuel;
    cbn [Nat.add Strlen.run]; by rewrite E.
  destruct H as (c' & f' & E). destruct (IH (a + 16) c' f') as (m & k & Hm & Hk & Hr); [lia|lia|lia|].
  exists m, (S k). split; [done|]. split; [lia|]. intros fuel. cbn [Nat.add Strlen.run]. rewrite E. apply Hr.
Qed.

(** *** Which byte it is *)

(** A counter counted up when the NUL is the [i]th byte of its word or later. *)
Definition bump (i q v : Z) : Z := if i <=? q mod 4 then u32 (v + 1) else v.

Lemma word_bytes b0 b1 b2 b3 : byte b0 -> byte b1 -> byte b2 -> byte b3 ->
  let w := word b0 b1 b2 b3 in
  (w mod 256 - 0) mod 256 = b0 /\ w / 256 mod 256 = b1 /\ (Z.shiftr w 16 mod 256 - 0) mod 256 = b2.
Proof.
  intros H0 H1 H2 H3 w. rewrite Z.shiftr_div_pow2 by lia. change (2 ^ 16) with 65536.
  unfold byte, w, word in *. lia.
Qed.

(** A byte not after the NUL: it is zero or the NUL comes later. *)
Lemma nul_or_later M p q i v : string_at M p q -> p <= i <= q -> M !! i = Some v ->
  if v =? 0 then q = i else i + 1 <= q.
Proof.
  intros Hs Hi Hv. destruct (Z.eqb_spec v 0) as [->|Hne].
  - destruct (Z.eq_dec q i); [done|]. exfalso. by apply (str_nonzero _ _ _ Hs i); [lia|].
  - destruct (Z.eq_dec q i) as [<-|]; [|lia]. pose proof (str_nul _ _ _ Hs). congruence.
Qed.

Ltac compare_bytes :=
  repeat match goal with |- context [?a <=? ?b] => destruct (Z.leb_spec a b); try lia end.

Lemma block_L3 M p q b sp bp si di tr m : string_at M p q -> p <= 4 * (q / 4) ->
  found M q b sp bp si di tr m -> exists c d f,
  block L3 m = Goto L2 (MkMachine (MkRegs q c d (bump 0 q b) sp (bump 3 q bp) (bump 1 q si) (bump 2 q di)) f M tr).
Proof.
  intros Hs Hp (w & d & f & Hw & ->). pose proof (str_order _ _ _ Hs). pose proof (str_end _ _ _ Hs).
  set (A := 4 * (q / 4)) in *. assert (p <= A <= q) as HA by lia. assert (A mod 4 = 0) as H4 by lia.
  destruct (word_of _ _ _ _ Hs HA H4) as (b0 & b1 & b2 & b3 & (B0 & B1 & B2 & B3) & (E0 & E1 & E2 & E3) & Hw' & Hr).
  rewrite Hw in Hw'. injection Hw' as ->.
  pose proof (word_bytes b0 b1 b2 b3 B0 B1 B2 B3) as (W0 & W1 & W2). cbv zeta in W0, W1, W2.
  set (w := word b0 b1 b2 b3) in *.
  unfold Strlen.block. cbn [code]. do 3 step.
  replace (u32 (A + 4 - 4)) with A by (rewrite u32_id; lia).
  assert (u32 (u32 (w + magic) - magic) = w) as -> by (unfold u32, wrapU, magic; lia).
  do 2 step. rewrite W0. unfold bump. assert (q mod 4 = q - A) as -> by lia.
  pose proof (nul_or_later _ _ _ A b0 Hs ltac:(lia) E0) as Q0.
  destruct (b0 =? 0); [do 3 eexists; compare_bytes; rewrite Q0; reflexivity|].
  do 4 step. rewrite W1. rewrite (u32_id (A + 1)) by lia.
  pose proof (nul_or_later _ _ _ (A + 1) b1 Hs ltac:(lia) E1) as Q1.
  destruct (b1 =? 0); [do 3 eexists; compare_bytes; rewrite Q1; reflexivity|].
  do 5 step. rewrite W2. rewrite (u32_id (A + 1 + 1)) by lia.
  pose proof (nul_or_later _ _ _ (A + 2) b2 Hs ltac:(lia) E2) as Q2.
  destruct (b2 =? 0); [do 3 eexists; compare_bytes; rewrite Q2, <- Z.add_assoc; reflexivity|].
  do 2 step. rewrite (u32_id (A + 1 + 1 + 1)) by lia.
  assert (A + 1 + 1 + 1 = q) as -> by lia. do 3 eexists. compare_bytes. reflexivity.
Qed.

(** *** The return *)

(** Control goes back to the address on the stack. *)
Definition returned (fuel : nat) (a : Z) (m : machine) : final :=
  if a =? address after_strlen then run fuel after_strlen m else Returned a m.

(** The words the stack has from [a] on. *)
Fixpoint stack_at (a : Z) (l : list Z) (M : gmap Z Z) : Prop :=
  match l with [] => True | v :: l => load32 a M = Some v /\ stack_at (a + 4) l M end.

Lemma run_done q p ret c d b sp bp si di f M tr :
  0 <= sp -> sp + 4 < 2 ^ 32 -> 0 <= p <= q -> q < 2 ^ 32 -> stack_at sp [ret; p] M -> exists f', forall fuel,
  run (S fuel) done_ (MkMachine (MkRegs q c d b sp bp si di) f M tr) =
  returned fuel ret (MkMachine (MkRegs (q - p) c d b (sp + 4) bp si di) f' M tr).
Proof.
  intros H0 H1 Hp Hq (Hr & Hs & _). eexists. intros fuel. cbn [Strlen.run]. unfold Strlen.block. cbn [code].
  step. rewrite (with_word_load _ p) by (done || unfold STR; lia). step. rewrite Hr. simpl_machine.
  rewrite !u32_id by lia. done.
Qed.

(** The instrumented call keeps the counters, the plain one restores the
    registers. *)
Lemma run_L2_instr q p ret c d b sp bp si di f M tr :
  0 <= sp -> sp + 8 < 2 ^ 32 -> 0 <= p <= q -> q < 2 ^ 32 -> stack_at sp [1; ret; p] M -> exists c' d' f', forall fuel,
  run (2 + fuel) L2 (MkMachine (MkRegs q c d b sp bp si di) f M tr) =
  returned fuel ret (MkMachine (MkRegs (q - p) c' d' b (sp + 8) bp si di) f' M tr).
Proof.
  intros H0 H1 Hp Hq (Hone & Hs).
  destruct (run_done q p ret c 1 b (sp + 4) bp si di (result_flags (1 <? 1) (u32 (1 - 1))) M tr) as (f' & E); try done; try lia.
  do 3 eexists. intros fuel. replace (sp + 8) with (sp + 4 + 4) by lia.
  cbn [Nat.add]. rewrite <- E. cbn [Strlen.run]. unfold Strlen.block at 1. cbn [code].
  step. rewrite Hone. simpl_machine. do 2 step. cbn [Z.eqb Z.sub Z.add Z.opp Z.pos_sub u32 wrapU].
  by rewrite (u32_id (sp + 4)) by lia.
Qed.

Lemma run_L2_plain q p ret c d b sp bp si di f M tr b0 bp0 si0 di0 :
  0 <= sp -> sp + 24 < 2 ^ 32 -> 0 <= p <= q -> q < 2 ^ 32 ->
  stack_at sp [0; bp0; di0; si0; b0; ret; p] M -> exists c' d' f', forall fuel,
  run (2 + fuel) L2 (MkMachine (MkRegs q c d b sp bp si di) f M tr) =
  returned fuel ret (MkMachine (MkRegs (q - p) c' d' b0 (sp + 24) bp0 si0 di0) f' M tr).
Proof.
  intros H0 H1 Hp Hq (Hzero & Hbp & Hdi & Hsi & Hb & Hs).
  destruct (run_done q p ret c 0 b0 (sp + 4 + 4 + 4 + 4 + 4) bp0 si0 di0
    (result_flags (0 <? 1) (u32 (0 - 1))) M tr) as (f' & E); try done; try lia.
  do 3 eexists. intros fuel. replace (sp + 24) with (sp + 4 + 4 + 4 + 4 + 4 + 4) by lia.
  cbn [Nat.add]. rewrite <- E. cbn [Strlen.run]. unfold Strlen.block at 1. cbn [code]. step. rewrite Hzero. simpl_machine. rewrite (u32_id (sp + 4)) by lia. do 2 step.
  change (u32 (0 - 1) =? 0) with false. simpl_machine.
  step. rewrite Hbp. simpl_machine. rewrite (u32_id (sp + 4 + 4)) by lia.
  step. rewrite Hdi. simpl_machine. rewrite (u32_id (sp + 4 + 4 + 4)) by lia.
  step. rewrite Hsi. simpl_machine. rewrite (u32_id (sp + 4 + 4 + 4 + 4)) by lia.
  step. rewrite Hb. simpl_machine. rewrite (u32_id (sp + 4 + 4 + 4 + 4 + 4)) by lia.
  done.
Qed.

(** *** The head of the string *)

(** [k] blocks lead from one label to another. *)
Definition leads (k : nat) (l : label) (m : machine) (l' : label) (m' : machine) : Prop :=
  forall fuel, run (k + fuel) l m = run fuel l' m'.

Lemma leads_refl l m : leads 0 l m l m.
Proof. done. Qed.

Lemma leads_trans k k' l m l' m' l'' m'' :
  leads k l m l' m' -> leads k' l' m' l'' m'' -> leads (k + k') l m l'' m''.
Proof. intros H H' fuel. by rewrite <- Nat.add_assoc, H, H'. Qed.

Lemma leads_block k l m l' m' l'' m'' :
  block l m = Goto l' m' -> leads k l' m' l'' m'' -> leads (S k) l m l'' m''.
Proof. intros E H fuel. cbn [Nat.add Strlen.run]. rewrite E. apply H. Qed.

Lemma from_L1 M p q a c b sp bp si di f tr : string_at M p q -> p <= a <= q -> a mod 4 = 0 ->
  exists k c' d' f', (k <= Z.to_nat ((q - a) / 16) + 2)%nat /\
    leads k L1 (MkMachine (MkRegs a c 0 b sp bp si di) f M tr)
      L2 (MkMachine (MkRegs q c' d' (bump 0 q b) sp (bump 3 q bp) (bump 1 q si) (bump 2 q di)) f' M tr).
Proof.
  intros Hs Ha H4.
  destruct (loop_L1 M p q b sp bp si di tr Hs (Z.to_nat ((q - a) / 16)) a c f Ha H4) as (m & k & Hm & Hk & Hr); [lia|].
  destruct (block_L3 M p q b sp bp si di tr m Hs ltac:(lia) Hm) as (c' & d' & f' & E).
  exists (k + 1)%nat, c', d', f'. split; [lia|]. eapply leads_trans; [exact Hr|].
  eapply leads_block; [exact E|apply leads_refl].
Qed.

(** The string ends before its first aligned word. *)
Definition in_head (p q : Z) : bool := negb (p mod 4 =? 0) && (q / 4 =? p / 4).

Definition bumped (i p q v : Z) : Z := if in_head p q then v else bump i q v.

(** A test of one byte before the first aligned word. *)
Lemma test_byte l a c d b sp bp si di f M tr v :
  M !! a = Some v -> byte v -> high_byte d = 0 -> 0 <= a -> a + 1 < 2 ^ 32 -> exists f',
  exec (CmpbDh EAX :: J Z_ L2 :: Inc EAX :: l) (MkMachine (MkRegs a c d b sp bp si di) f M tr) =
  if v =? 0 then Goto L2 (MkMachine (MkRegs a c d b sp bp si di) f' M tr)
  else exec l (MkMachine (MkRegs (a + 1) c d b sp bp si di) f' M tr).
Proof.
  intros Hv Hb Hd Ha Ha'. step. rewrite Hv. fold (high_byte d). rewrite Hd, Z.sub_0_r, Z.mod_small by done.
  step. destruct (v =? 0); [by eexists|]. step. rewrite u32_id by lia. by eexists.
Qed.

(** The machine at L2. *)
Definition arrived (M : gmap Z Z) (p q b sp bp si di : Z) (tr : list regs) (m : machine) : Prop :=
  exists c d f, m = MkMachine (MkRegs q c d (bumped 0 p q b) sp (bumped 3 p q bp) (bumped 1 p q si)
    (bumped 2 p q di)) f M tr.

Lemma arrived_head M p b sp bp si di tr q c d f : in_head p q = true ->
  arrived M p q b sp bp si di tr (MkMachine (MkRegs q c d b sp bp si di) f M tr).
Proof. intros H. exists c, d, f. unfold bumped. by rewrite H. Qed.

Lemma arrive_L1 M p q a c b sp bp si di f tr : string_at M p q -> p <= a <= q -> a mod 4 = 0 -> a < p + 4 ->
  exists k m, (k <= Z.to_nat ((q - p) / 16) + 2)%nat /\ arrived M p q b sp bp si di tr m /\
    leads k L1 (MkMachine (MkRegs a c 0 b sp bp si di) f M tr) L2 m.
Proof.
  intros Hs Ha H4 Hp. destruct (from_L1 M p q a c b sp bp si di f tr Hs Ha H4) as (k & c' & d' & f' & Hk & Hl).
  exists k. eexists. split; [lia|]. split; [|exact Hl]. exists c', d', f'. unfold bumped.
  assert (in_head p q = false) as ->; [|done]. unfold in_head. apply andb_false_iff.
  destruct (Z.eqb_spec (p mod 4) 0); [by left|]. right. apply Z.eqb_neq. lia.
Qed.

Lemma arrive_L0 M p q a c d b sp bp si di f tr : string_at M p q -> p <= a <= q -> a mod 4 = 3 ->
  a / 4 = p / 4 -> p mod 4 <> 0 -> high_byte d = 0 ->
  exists k m, (k <= Z.to_nat ((q - p) / 16) + 3)%nat /\ arrived M p q b sp bp si di tr m /\
    leads k L0 (MkMachine (MkRegs a c d b sp bp si di) f M tr) L2 m.
Proof.
  intros Hs Ha H3 Hd4 Hp Hd. pose proof (str_order _ _ _ Hs). pose proof (str_end _ _ _ Hs).
  destruct (str_byte _ _ _ Hs a) as (v & Hv & Hb); [lia|].
  pose proof (nul_or_later _ _ _ a v Hs Ha Hv) as Hq.
  destruct (test_byte [Xor EDX EDX] a c d b sp bp si di f M tr v Hv Hb Hd) as (f' & E); [lia|lia|].
  destruct (v =? 0).
  - subst q. exists 1%nat. eexists. split; [lia|]. split.
    2:{ eapply leads_block; [|apply leads_refl]. unfold Strlen.block. cbn [code]. by rewrite E. }
    apply arrived_head. unfold in_head. rewrite (proj2 (Z.eqb_neq _ _) Hp). by apply Z.eqb_eq.
  - destruct (arrive_L1 M p q (a + 1) c b sp bp si di (result_flags false 0) tr Hs) as (k & m & Hk & Hm & Hl); [lia|lia|lia|].
    exists (S k), m. split; [lia|]. split; [done|]. eapply leads_block; [|exact Hl].
    unfold Strlen.block. cbn [code]. rewrite E. step. rewrite Z.lxor_nilpotent. done.
Qed.

(** The two tests of an address that is not three bytes into its word. *)
Lemma two_tests M p q c d b sp bp si di f tr : string_at M p q -> 0 < p mod 4 < 3 -> d = p mod 4 ->
  exists k l m m', (k <= Z.to_nat ((q - p) / 16) + 3)%nat /\ arrived M p q b sp bp si di tr m /\
    match exec [CmpbDh EAX; J Z_ L2; Inc EAX; CmpbDh EAX; J Z_ L2; Inc EAX; XorImm 2 EDX; J Z_ L1]
            (MkMachine (MkRegs p c d b sp bp si di) f M tr) with
    | Next m => Goto L0 m | o => o end = Goto l m' /\ leads k l m' L2 m.
Proof.
  intros Hs Hp ->. pose proof (str_order _ _ _ Hs). pose proof (str_end _ _ _ Hs).
  assert (high_byte (p mod 4) = 0) as Hd by (unfold high_byte; lia).
  assert (forall x, x / 4 = p / 4 -> q = x -> in_head p q = true) as Hh.
  { intros x Hx ->. unfold in_head. rewrite (proj2 (Z.eqb_neq (p mod 4) 0)) by lia. by apply Z.eqb_eq. }
  destruct (str_byte _ _ _ Hs p) as (v & Hv & Hb); [lia|].
  pose proof (nul_or_later _ _ _ p v Hs ltac:(lia) Hv) as Hq.
  edestruct (test_byte [CmpbDh EAX; J Z_ L2; Inc EAX; XorImm 2 EDX; J Z_ L1] p c) as (f1 & ->); [exact Hv|done|done|lia|lia|].
  destruct (v =? 0).
  { subst q. exists 0%nat. do 3 eexists. split; [lia|]. split; [|by split; [|apply leads_refl]].
    apply arrived_head. apply (Hh p); lia. }
  destruct (str_byte _ _ _ Hs (p + 1)) as (v' & Hv' & Hb'); [lia|].
  pose proof (nul_or_later _ _ _ (p + 1) v' Hs ltac:(lia) Hv') as Hq'.
  edestruct (test_byte [XorImm 2 EDX; J Z_ L1] (p + 1) c) as (f2 & ->); [exact Hv'|done|done|lia|lia|].
  destruct (v' =? 0).
  { subst q. exists 0%nat. do 3 eexists. split; [lia|]. split; [|by split; [|apply leads_refl]].
    apply arrived_head. apply (Hh (p + 1)); lia. }
  assert (p mod 4 = 1 \/ p mod 4 = 2) as [E|E] by lia; rewrite E; do 2 step; cbn [Z.lxor Pos.lxor Z.eqb].
  - destruct (arrive_L0 M p q (p + 1 + 1) c 3 b sp bp si di (result_flags false 3) tr Hs)
      as (k & m & Hk & Hm & Hl); try done; try lia.
    exists k. do 3 eexists. split; [lia|]. split; [exact Hm|]. split; [|exact Hl]. reflexivity.
  - destruct (arrive_L1 M p q (p + 1 + 1) c b sp bp si di (result_flags false 0) tr Hs)
      as (k & m & Hk & Hm & Hl); try lia.
    exists k. do 3 eexists. split; [lia|]. split; [exact Hm|]. split; [|exact Hl]. reflexivity.
Qed.

(** From the first test of the address on. *)
Lemma arrive_begin M p q c d b sp bp si di f tr : string_at M p q ->
  exists k m, (k <= Z.to_nat ((q - p) / 16) + 4)%nat /\ arrived M p q b sp bp si di tr m /\
    leads k strlen_begin_impl (MkMachine (MkRegs p c d b sp bp si di) f M tr) L2 m.
Proof.
  intros Hs. pose proof (str_order _ _ _ Hs). pose proof (str_end _ _ _ Hs).
  assert (exists k l m m', (k <= Z.to_nat ((q - p) / 16) + 3)%nat /\ arrived M p q b sp bp si di tr m /\
    block strlen_begin_impl (MkMachine (MkRegs p c d b sp bp si di) f M tr) = Goto l m' /\ leads k l m' L2 m)
    as (k & l & m & m' & Hk & Hm & E & Hl).
  2:{ exists (S k), m. split; [lia|]. split; [done|]. eapply leads_block; [exact E|exact Hl]. }
  unfold Strlen.block. cbn [code follows]. do 3 step.
  assert (Z.land 3 p = p mod 4) as -> by (rewrite Z.land_comm; apply (Z.land_ones p 2); lia).
  destruct (Z.eqb_spec (p mod 4) 0) as [E|E].
  { rewrite E. destruct (arrive_L1 M p q p c b sp bp si di (result_flags false 0) tr Hs)
      as (k & m & Hk & Hm & Hl); try lia.
    exists k. do 3 eexists. split; [lia|]. split; [exact Hm|]. split; [|exact Hl]. reflexivity. }
  step. destruct (Z.eq_dec (p mod 4) 3) as [E3|E3].
  { rewrite E3. cbn [parity]. 
    destruct (arrive_L0 M p q p c 3 b sp bp si di (result_flags false 3) tr Hs)
      as (k & m & Hk & Hm & Hl); try done; try lia.
    exists k. do 3 eexists. split; [lia|]. split; [exact Hm|]. split; [|exact Hl]. reflexivity. }
  assert (parity (p mod 4) = false) as ->.
  { assert (p mod 4 = 1 \/ p mod 4 = 2) as [->| ->] by lia; done. }
  apply two_tests; [done|lia|done].
Qed.

(** *** The whole function *)

Lemma string_at_store M p q a v : string_at M p q -> 4 * (q / 4) + 4 <= a \/ a + 4 <= p ->
  string_at (store32 a v M) p q.
Proof.
  intros Hs Ha. pose proof (str_order _ _ _ Hs).
  assert (forall i, p <= i < 4 * (q / 4) + 4 -> store32 a v M !! i = M !! i) as E
    by (intros i Hi; apply store32_other; lia).
  split; [apply Hs| | | |apply Hs].
  - intros i Hi. rewrite E by done. by apply (str_byte _ _ _ Hs).
  - intros i Hi. rewrite E by lia. by apply (str_nonzero _ _ _ Hs).
  - rewrite E by lia. apply Hs.
Qed.

(** The stack after a push. *)
Lemma stack_at_push l a a' v M : a' = a + 4 -> 0 <= v < 2 ^ 32 ->
  stack_at a' l M -> stack_at a (v :: l) (store32 a v M).
Proof.
  intros -> Hv Hl. split; [by apply load_store_eq|]. assert (forall b, a + 4 <= b -> stack_at b l M ->
    stack_at b l (store32 a v M)) as H; [|by apply H].
  clear Hl. induction l as [|x l IH]; intros b Hb; cbn [stack_at]; [done|]. intros [E Hl].
  split; [|apply IH; [lia|done]]. by rewrite load_store_ne by lia.
Qed.

(** The five words a plain call pushes. *)
Definition saved (sp b bp si di : Z) (M : gmap Z Z) : gmap Z Z :=
  store32 (sp - 20) 0 (store32 (sp - 16) bp (store32 (sp - 12) di (store32 (sp - 8) si (store32 (sp - 4) b M)))).

Lemma block_strlen_plain p ret a c d b sp bp si di f M tr :
  24 <= sp -> sp + 8 < 2 ^ 32 -> stack_at sp [ret; p] M -> 0 <= di < 2 ^ 32 -> di <> 0xdeadd00d -> exists f',
  block strlen (MkMachine (MkRegs a c d b sp bp si di) f M tr) =
  Goto strlen_begin_impl (MkMachine (MkRegs p c d b (sp - 20) bp si di) f' (saved sp b bp si di M) tr).
Proof.
  intros H0 H1 (_ & Hp & _) Hd Hne. unfold Strlen.block. cbn [code]. 
  step. rewrite (with_word_load _ p) by (done || unfold STR; lia). do 2 step.
  rewrite (proj2 (Z.eqb_neq (u32 (di - 0xdeadd00d)) 0)) by (unfold u32, wrapU; lia). simpl_machine.
  do 5 (step; rewrite ?(u32_id (_ - 4)) by lia). step.
  replace (sp - 4 - 4) with (sp - 8) by lia. replace (sp - 8 - 4) with (sp - 12) by lia.
  replace (sp - 12 - 4) with (sp - 16) by lia. replace (sp - 16 - 4) with (sp - 20) by lia.
  by eexists.
Qed.

Lemma block_strlen_instr p ret a c d b sp bp si f M tr :
  24 <= sp -> sp + 8 < 2 ^ 32 -> stack_at sp [ret; p] M -> exists f',
  leads 2 strlen (MkMachine (MkRegs a c d b sp bp si 0xdeadd00d) f M tr)
    strlen_begin_impl (MkMachine (MkRegs p c d 0 (sp - 4) 0 0 0) f' (store32 (sp - 4) 1 M) tr).
Proof.
  intros H0 H1 (_ & Hp & _). eexists. eapply leads_block.
  { unfold Strlen.block. cbn [code]. 
    step. rewrite (with_word_load _ p) by (done || unfold STR; lia). do 2 step.
    change (u32 (0xdeadd00d - 0xdeadd00d) =? 0) with true. simpl_machine. reflexivity. }
  eapply leads_block; [|apply leads_refl]. unfold Strlen.block. cbn [code follows].
  do 5 step. rewrite !Z.lxor_nilpotent, (u32_id (sp - 4)) by lia. reflexivity.
Qed.

(** The registers a call leaves. *)
Definition left_by (p q c d b sp bp si di : Z) : regs :=
  if di =? 0xdeadd00d
  then MkRegs (q - p) c d (bumped 0 p q 0) (sp + 4) (bumped 3 p q 0) (bumped 1 p q 0) (bumped 2 p q 0)
  else MkRegs (q - p) c d b (sp + 4) bp si di.

Lemma strlen_returns M p q sp ret a c d b bp si di f tr :
  string_at M p q -> 24 <= sp -> sp + 8 < 2 ^ 32 -> 4 * (q / 4) + 4 <= sp - 20 \/ sp <= p ->
  stack_at sp [ret; p] M -> Forall (fun v => 0 <= v < 2 ^ 32) [b; bp; si; di] ->
  exists k c' d' f' M', (k <= Z.to_nat ((q - p) / 16) + 8)%nat /\
    (forall x, x < sp - 20 \/ sp <= x -> M' !! x = M !! x) /\
    forall fuel, run (k + fuel) strlen (MkMachine (MkRegs a c d b sp bp si di) f M tr) =
      returned fuel ret (MkMachine (left_by p q c' d' b sp bp si di) f' M' tr).
Proof.
  intros Hs H0 H1 Hd Hst Hr. pose proof (str_order _ _ _ Hs) as Ho. pose proof (str_end _ _ _ Hs).
  rewrite !Forall_cons in Hr. destruct Hr as (Rb & Rbp & Rsi & Rdi & _).
  unfold left_by. destruct (Z.eqb_spec di 0xdeadd00d) as [->|Hne].
  - destruct (block_strlen_instr p ret a c d b sp bp si f M tr) as (f1 & E1); try done.
    set (M' := store32 (sp - 4) 1 M) in *. assert (string_at M' p q) as Hs' by (apply string_at_store; [done|lia]).
    destruct (arrive_begin M' p q c d 0 (sp - 4) 0 0 0 f1 tr Hs') as (k & m & Hk & (c2 & d2 & f2 & ->) & Hl).
    destruct (run_L2_instr q p ret c2 d2 (bumped 0 p q 0) (sp - 4) (bumped 3 p q 0) (bumped 1 p q 0)
      (bumped 2 p q 0) f2 M' tr) as (c3 & d3 & f3 & E3); try lia.
    { by apply (stack_at_push _ _ sp); [lia|lia|]. }
    exists (2 + (k + 2))%nat, c3, d3, f3, M'. split; [lia|].
    split; [intros x Hx; apply store32_other; lia|]. intros fuel.
    rewrite <- !Nat.add_assoc, E1, Hl, E3. by replace (sp - 4 + 8) with (sp + 4) by lia.
  - destruct (block_strlen_plain p ret a c d b sp bp si di f M tr) as (f1 & E1); try done.
    set (M' := saved sp b bp si di M) in *.
    assert (string_at M' p q) as Hs' by (repeat (apply string_at_store; [|lia]); done).
    destruct (arrive_begin M' p q c d b (sp - 20) bp si di f1 tr Hs') as (k & m & Hk & (c2 & d2 & f2 & ->) & Hl).
    edestruct (run_L2_plain q p ret c2 d2 (bumped 0 p q b) (sp - 20) (bumped 3 p q bp) (bumped 1 p q si)
      (bumped 2 p q di) f2 M' tr b bp si di) as (c3 & d3 & f3 & E3); try lia.
    { apply (stack_at_push _ _ (sp - 16)); [lia..|]. apply (stack_at_push _ _ (sp - 12)); [lia..|].
      apply (stack_at_push _ _ (sp - 8)); [lia..|]. apply (stack_at_push _ _ (sp - 4)); [lia..|].
      by apply (stack_at_push _ _ sp); [lia..|]. }
    exists (S (k + 2))%nat, c3, d3, f3, M'. split; [lia|].
    split. { intros x Hx. unfold M', saved. by rewrite !store32_other by lia. }
    intros fuel. cbn [Nat.add Strlen.run]. rewrite E1, <- Nat.add_assoc, Hl, E3.
    by replace (sp - 20 + 24) with (sp + 4) by lia.
Qed.

Lemma bumped_counters p len : (bumped 0 p (p + len) 0, bumped 1 p (p + len) 0, bumped 2 p (p + len) 0,
  bumped 3 p (p + len) 0) = counters p len.
Proof.
  unfold bumped, counters, in_head, bump. destruct (negb _ && _); [done|].
  rewrite (proj2 (Z.leb_le 0 _)) by lia. by repeat destruct (_ <=? _).
Qed.

(** C35: the assembly computes the length the obvious definition computes, for
    every string at every alignment, within one block of code for every sixteen
    bytes and a constant number more, and reads nothing beyond the last aligned
    word of the string.  It writes to at most twenty bytes below the stack
    pointer.  Called in the ordinary way it keeps ebx, esi, edi and ebp; called
    with the magic number in edi it leaves the counters there, which say at
    which byte of its word the NUL was found. *)
Theorem strlen_equals_reference n M p len ret R f tr :
  strlen_ref n p M = Some len -> readable M p len -> 0 <= p -> p + len + 4 < 2 ^ 32 ->
  24 <= esp R -> esp R + 8 < 2 ^ 32 -> stack_at (esp R) [ret; p] M ->
  4 * ((p + len) / 4) + 4 <= esp R - 20 \/ esp R <= p ->
  Forall (fun v => 0 <= v < 2 ^ 32) [ebx R; ebp R; esi R; edi R] -> ret <> address after_strlen ->
  exists m, run (Z.to_nat (len / 16) + 9) strlen (MkMachine R f M tr) = Returned ret m /\
    eax (rs m) = len /\ esp (rs m) = esp R + 4 /\ seen m = tr /\
    (forall x, x < esp R - 20 \/ esp R <= x -> mem m !! x = M !! x) /\
    (ebx (rs m), esi (rs m), edi (rs m), ebp (rs m)) =
      if edi R =? 0xdeadd00d then counters p len else (ebx R, esi R, edi R, ebp R).
Proof.
  intros Hl Hm Hp He Hs0 Hs1 Hst Hd Hr Hret. destruct R as [a c d b sp bp si di].
  cbn [eax ebx esp ebp esi edi] in *.
  destruct (strlen_returns M p (p + len) sp ret a c d b bp si di f tr)
    as (k & c' & d' & f' & M' & Hk & HM & Hrun); try done.
  { by eapply strlen_ref_string. }
  replace (p + len - p) with len in Hk by lia. eexists. split.
  - replace (Z.to_nat (len / 16) + 9)%nat with (k + (Z.to_nat (len / 16) + 9 - k))%nat by lia.
    rewrite Hrun. unfold returned. rewrite (proj2 (Z.eqb_neq _ _) Hret). reflexivity.
  - cbn [rs mem seen]. unfold left_by. replace (p + len - p) with len by lia.
    destruct (di =? 0xdeadd00d); cbn [eax ebx esp ebp esi edi]; split_and!; try done.
    apply bumped_counters.
Qed.

(** ** The code of fputs *)

Lemma stack_at_agree l a M M' : (forall x, a <= x < a + 4 * Z.of_nat (length l) -> M' !! x = M !! x) ->
  stack_at a l M -> stack_at a l M'.
Proof.
  revert a. induction l as [|v l IH]; intros a H; cbn [stack_at length] in *; [done|]. intros [E Hl]. split.
  - unfold load32. rewrite (read_bytes_agree 4 a M M'); [done|]. intros x Hx. apply H. lia.
  - apply IH; [|done]. intros x Hx. apply H. lia.
Qed.

Lemma stack_at_app l1 l2 a M : stack_at a (l1 ++ l2) M <->
  stack_at a l1 M /\ stack_at (a + 4 * Z.of_nat (length l1)) l2 M.
Proof.
  revert a. induction l1 as [|v l1 IH]; intros a; cbn [app stack_at length].
  - rewrite Z.add_0_r. tauto.
  - rewrite IH. replace (a + 4 * Z.of_nat (S (length l1))) with (a + 4 + 4 * Z.of_nat (length l1)) by lia. tauto.
Qed.

(** The words [IO_fputs] pushes before strlen runs, the return address of the
    call last. *)
Definition fputs_frame (sp b bp si di str : Z) (M : gmap Z Z) : gmap Z Z :=
  store32 (sp - 28) (address after_strlen) (store32 (sp - 24) str (store32 (sp - 20) (sp - 4)
    (store32 (sp - 16) di (store32 (sp - 12) si (store32 (sp - 8) b (store32 (sp - 4) bp M)))))).

Lemma block_fputs sp ret str fp a c d b bp si di f M tr :
  32 <= sp -> sp + 12 < 2 ^ 32 -> stack_at sp [ret; str; fp] M ->
  let R1 := MkRegs SYS_gettid c d b (sp - 4) (sp - 4) si di in
  leads 2 IO_fputs (MkMachine (MkRegs a c d b sp bp si di) f M tr)
    strlen (MkMachine (MkRegs str c d b (sp - 28) (sp - 4) si 0xdeadd00d) f
      (fputs_frame sp b bp si di str M) (tr ++ [R1])).
Proof.
  intros H0 H1 (_ & Hs & _) R1. eapply leads_block.
  - open_block. step. rewrite (u32_id (sp - 4)) by lia. do 4 step.
    rewrite (with_word_load _ str); [|lia|].
    2:{ rewrite load_store_ne by lia. by replace (sp - 4 + 8) with (sp + 4) by lia. }
    do 7 (step; rewrite ?(u32_id (_ - 4)) by lia).
    replace (sp - 4 - 4) with (sp - 8) by lia. replace (sp - 8 - 4) with (sp - 12) by lia.
    replace (sp - 12 - 4) with (sp - 16) by lia. replace (sp - 16 - 4) with (sp - 20) by lia.
    replace (sp - 20 - 4) with (sp - 24) by lia. replace (sp - 24 - 4) with (sp - 28) by lia.
    reflexivity.
  - eapply leads_block; [|apply leads_refl]. open_block. step. reflexivity.
Qed.

(** [_IO_fputs_rest] leaves the frame of its caller alone: the words above its
    two arguments. *)
Context (rest_keeps : forall str fp m x, esp (rs m) + 8 <= x < esp (rs m) + 16 ->
  (rest str fp m).2 !! x = mem m !! x).

(** The call of [_IO_fputs_rest] and what follows it. *)
Lemma exec_call_rest sp ret str fp a c d b bp x si di f M tr :
  0 <= sp -> sp + 16 < 2 ^ 32 -> stack_at sp [str; fp; bp; ret] M ->
  let m := MkMachine (MkRegs a c d b sp x si di) f M tr in
  exists f', exec [CallRest; AddImm 8 ESP; Pop EBP; Ret] m =
    Return ret (MkMachine (MkRegs (rest str fp m).1.1.1 (rest str fp m).1.1.2 (rest str fp m).1.2 b
      (sp + 16) bp si di) f' (rest str fp m).2 tr).
Proof.
  intros H0 H1 (E1 & E2 & E3 & E4 & _) m.
  assert (forall x, sp + 8 <= x < sp + 16 -> (rest str fp m).2 !! x = M !! x) as Hk
    by (intros y Hy; exact (rest_keeps str fp m y Hy)).
  assert (load32 (sp + 8) (rest str fp m).2 = Some bp /\ load32 (sp + 12) (rest str fp m).2 = Some ret) as [K3 K4].
  { unfold load32 in *. rewrite !(read_bytes_agree 4 _ M (rest str fp m).2) by (intros; apply Hk; lia).
    replace (sp + 8) with (sp + 4 + 4) by lia. by replace (sp + 12) with (sp + 4 + 4 + 4) by lia. }
  rewrite exec_cons. cbn [exec1]. unfold call_rest. subst m. cbn [rs esp]. rewrite (with_word_load _ str), (with_word_load _ fp) by (done || lia).
  destruct (rest str fp _) as [[[ra rc] rd] mem']. cbn [fst snd] in *. do 2 step.
  rewrite (u32_id (sp + 8)) by lia. rewrite K3. simpl_machine. rewrite (u32_id (sp + 8 + 4)) by lia.
  step. replace (sp + 8 + 4) with (sp + 12) by lia. rewrite K4. simpl_machine. rewrite (u32_id (sp + 12 + 4)) by lia.
  replace (sp + 12 + 4) with (sp + 16) by lia. by eexists.
Qed.

Lemma block_after_strlen sp ret str fp len c d b bp si di cb cbp csi cdi f M tr :
  32 <= sp -> sp + 12 < 2 ^ 32 -> 0 <= str < 2 ^ 32 -> 0 <= fp < 2 ^ 32 ->
  stack_at (sp - 20) [sp - 4; di; si; b; bp; ret; str; fp] M ->
  let R2 := MkRegs SYS_getpid c d cb (sp - 20) cbp csi cdi in
  exists mid f',
    (forall x, x < sp - 12 \/ sp - 4 <= x -> mem mid !! x = M !! x) /\
    block after_strlen (MkMachine (MkRegs len c d cb (sp - 24) cbp csi cdi) f M tr) =
    Return ret (MkMachine (MkRegs (rest str fp mid).1.1.1 (rest str fp mid).1.1.2 (rest str fp mid).1.2 b
      (sp + 4) bp si di) f' (rest str fp mid).2 (tr ++ [R2])).
Proof.
  intros H0 H1 Hs Hf Hst R2.
  pose proof Hst as Hst'. cbn [stack_at] in Hst. destruct Hst as (E1 & E2 & E3 & E4 & E5 & E6 & E7 & E8 & _).
  open_block. step. replace (sp - 24 + 4) with (sp - 20) by lia. rewrite (u32_id (sp - 20)) by lia.
  do 2 step. 
  step. rewrite E1. simpl_machine. rewrite (u32_id (sp - 20 + 4)) by lia.
  step. rewrite E2. simpl_machine. rewrite (u32_id (sp - 20 + 4 + 4)) by lia.
  step. rewrite E3. simpl_machine. rewrite (u32_id (sp - 20 + 4 + 4 + 4)) by lia.
  step. rewrite E4. simpl_machine. rewrite (u32_id (sp - 20 + 4 + 4 + 4 + 4)) by lia.
  replace (sp - 20 + 4 + 4 + 4 + 4 + 4) with sp in * by lia.
  replace (sp - 20 + 4 + 4 + 4 + 4) with (sp - 4) in * by lia.
  step. rewrite (with_word_load _ fp); [|lia|by replace (sp - 4 + 12) with (sp + 4 + 4) by lia].
  step. rewrite (u32_id (sp - 4 - 4)) by lia. replace (sp - 4 - 4) with (sp - 8) by lia.
  step. rewrite (with_word_load _ str); [|lia|].
  2:{ rewrite load_store_ne by lia. by replace (sp - 4 + 8) with (sp + 4) by lia. }
  step. rewrite (u32_id (sp - 8 - 4)) by lia. replace (sp - 8 - 4) with (sp - 12) by lia.
  edestruct (exec_call_rest (sp - 12) ret str fp str c d b bp (sp - 4) si di) as (f' & E); cycle -1.
  { eexists _, f'. split; [|rewrite E; replace (sp - 12 + 16) with (sp + 4) by lia; reflexivity].
    intros x Hx. cbn [mem]. by rewrite !store32_other by lia. }
  all: try lia. apply (stack_at_push _ _ (sp - 8)); [lia..|]. apply (stack_at_push _ _ (sp - 4)); [lia..|].
  cbn [stack_at]. by replace (sp - 4 + 4) with sp by lia.
Qed.

(** The same from the return of strlen on, with the memory strlen leaves. *)
Lemma frame_at sp ret str fp b bp si di M :
  32 <= sp -> sp + 12 < 2 ^ 32 -> 0 <= str < 2 ^ 32 -> 0 <= address after_strlen < 2 ^ 32 ->
  Forall (fun v => 0 <= v < 2 ^ 32) [b; bp; si; di] -> stack_at sp [ret; str; fp] M ->
  stack_at (sp - 28) [address after_strlen; str; sp - 4; di; si; b; bp; ret; str; fp] (fputs_frame sp b bp si di str M).
Proof.
  intros H0 H1 Hs Ha Hr Hst. rewrite !Forall_cons in Hr. destruct Hr as (Rb & Rbp & Rsi & Rdi & _).
  unfold fputs_frame.
  apply (stack_at_push _ _ (sp - 24)); [lia..|]. apply (stack_at_push _ _ (sp - 20)); [lia..|].
  apply (stack_at_push _ _ (sp - 16)); [lia..|]. apply (stack_at_push _ _ (sp - 12)); [lia..|].
  apply (stack_at_push _ _ (sp - 8)); [lia..|]. apply (stack_at_push _ _ (sp - 4)); [lia..|].
  by apply (stack_at_push _ _ sp); [lia..|].
Qed.

(** Up to the return of strlen: the first system call has been made, and the
    stack holds what the rest of the code takes back. *)
Lemma fputs_to_strlen n M str fp len sp ret a c d b bp si di f tr :
  strlen_ref n str M = Some len -> readable M str len -> 0 <= str -> str + len + 4 < 2 ^ 32 ->
  52 <= sp -> sp + 12 < 2 ^ 32 -> stack_at sp [ret; str; fp] M ->
  4 * ((str + len) / 4) + 4 <= sp - 48 \/ sp <= str ->
  Forall (fun v => 0 <= v < 2 ^ 32) [b; bp; si; di; address after_strlen] ->
  exists k c' d' f' M', (k <= Z.to_nat (len / 16) + 9)%nat /\
    (forall x, x < sp - 48 \/ sp <= x -> M' !! x = M !! x) /\
    stack_at (sp - 24) [str; sp - 4; di; si; b; bp; ret; str; fp] M' /\
    forall fuel, run (S (k + S fuel)) IO_fputs (MkMachine (MkRegs a c d b sp bp si di) f M tr) =
      run (S fuel) after_strlen
        (MkMachine (left_by str (str + len) c' d' b (sp - 28) (sp - 4) si 0xdeadd00d) f' M'
          (tr ++ [MkRegs SYS_gettid c d b (sp - 4) (sp - 4) si di])).
Proof.
  intros Hl Hm Hs0 Hs1 H0 H1 Hst Hd Hr.
  assert (Forall (fun v => 0 <= v < 2 ^ 32) [b; bp; si; di] /\ 0 <= address after_strlen < 2 ^ 32) as [Hr' Ha]
    by (rewrite !Forall_cons in *; tauto).
  pose proof (strlen_ref_string _ _ _ _ Hl Hm Hs0 Hs1) as Hstr. pose proof (str_order _ _ _ Hstr) as Ho.
  pose proof (block_fputs sp ret str fp a c d b bp si di f M tr) as E1. cbv zeta in E1.
  pose proof (frame_at sp ret str fp b bp si di M) as Hfr.
  set (M1 := fputs_frame sp b bp si di str M) in *. set (R1 := MkRegs SYS_gettid c d b (sp - 4) (sp - 4) si di) in *.
  assert (string_at M1 str (str + len)) as Hstr1 by (repeat (apply string_at_store; [|lia]); done).
  specialize (E1 ltac:(lia) H1 Hst). specialize (Hfr ltac:(lia) H1 ltac:(lia) Ha Hr' Hst).
  destruct (strlen_returns M1 str (str + len) (sp - 28) (address after_strlen) str c d b (sp - 4) si 0xdeadd00d f
    (tr ++ [R1])) as (k & c' & d' & f' & M' & Hk & HM & E2); try done; try lia.
  { split; [apply Hfr|]. split; [apply Hfr|done]. }
  { rewrite !Forall_cons in *. split_and!; try tauto; lia. }
  replace (str + len - str) with len in Hk by lia.
  exists (S k), c', d', f', M'. split; [lia|]. split_and!.
  - intros x Hx. rewrite HM by lia. unfold M1, fputs_frame. by rewrite !store32_other by lia.
  - apply (stack_at_agree _ _ M1); [intros x Hx; cbn [length] in Hx; apply HM; lia|].
    replace (sp - 24) with (sp - 28 + 4 * Z.of_nat 1) by lia. apply (stack_at_app [_]) in Hfr. apply Hfr.
  - intros fuel. change (S (S k + S fuel)) with (2 + (k + S fuel))%nat. rewrite E1, E2. unfold returned. by rewrite Z.eqb_refl.
Qed.

(** C22: the instrumented fputs shows the counters of strlen to a tracer and
    hides them from its caller.  On the way it makes two system calls, gettid
    with its caller's registers and getpid with the counters in ebx, esi, edi
    and ebp; then it calls [_IO_fputs_rest] with its own arguments, returns that
    call's result, and its caller's registers and stack pointer are as before,
    although the instrumented strlen overwrites all four that the calling
    convention says it keeps; the memory is what that call makes of the one
    before, outside the 48 bytes of stack the two use. *)
Theorem fputs_shows_the_counters n M str fp len sp ret a c d b bp si di f tr :
  strlen_ref n str M = Some len -> readable M str len -> 0 <= str -> str + len + 4 < 2 ^ 32 ->
  52 <= sp -> sp + 12 < 2 ^ 32 -> stack_at sp [ret; str; fp] M -> 0 <= fp < 2 ^ 32 ->
  4 * ((str + len) / 4) + 4 <= sp - 48 \/ sp <= str ->
  Forall (fun v => 0 <= v < 2 ^ 32) [b; bp; si; di; address after_strlen] -> ret <> address after_strlen ->
  exists m mid R2, run (Z.to_nat (len / 16) + 11) IO_fputs (MkMachine (MkRegs a c d b sp bp si di) f M tr) = Returned ret m /\
    seen m = tr ++ [MkRegs SYS_gettid c d b (sp - 4) (sp - 4) si di; R2] /\
    eax R2 = SYS_getpid /\ (ebx R2, esi R2, edi R2, ebp R2) = counters str len /\
    (forall x, x < sp - 48 \/ sp <= x -> mem mid !! x = M !! x) /\
    eax (rs m) = (rest str fp mid).1.1.1 /\ mem m = (rest str fp mid).2 /\
    (ebx (rs m), ebp (rs m), esi (rs m), edi (rs m), esp (rs m)) = (b, bp, si, di, sp + 4).
Proof.
  intros Hl Hm Hs0 Hs1 H0 H1 Hst Hf Hd Hr Hret. pose proof (strlen_ref_string _ _ _ _ Hl Hm Hs0 Hs1) as Hstr.
  pose proof (str_order _ _ _ Hstr) as Ho.
  destruct (fputs_to_strlen n M str fp len sp ret a c d b bp si di f tr)
    as (k & c' & d' & f' & M' & Hk & HM & Hfr & E2); try done.
  unfold left_by in E2. rewrite Z.eqb_refl in E2. replace (str + len - str) with len in E2 by lia.
  replace (sp - 28 + 4) with (sp - 24) in E2 by lia.
  edestruct (block_after_strlen sp ret str fp len) as (mid & f2 & Hmid & E3);
    [lia|lia|lia|done|replace (sp - 20) with (sp - 24 + 4) by lia; apply Hfr|].
  eexists _, mid, _. split; [|split_and!].
  - replace (Z.to_nat (len / 16) + 11)%nat with (S (k + S (Z.to_nat (len / 16) + 9 - k))) by lia.
    rewrite E2. cbn [Strlen.run]. rewrite E3, (proj2 (Z.eqb_neq _ _) Hret). reflexivity.
  - cbn [seen]. by rewrite <- app_assoc.
  - done.
  - apply bumped_counters.
  - intros x Hx. rewrite Hmid, HM by lia. done.
  - done.
  - done.
  - done.
Qed.

End Strlen.

(** ** [_IO_fputs_rest]

    The rest of fputs, in C; [_IO_fwide], [_IO_sputn] and the lock are the
    library's. *)

Inductive stdio_op : Set := Fwide | AcquireLock | Sputn (len : Z) | ReleaseLock.

Definition EOF : Z := -1.

Section Rest.
(** Whether CHECK_FILE accepts the file; [_IO_vtable_offset], the answers of
    [_IO_fwide] and, for a length, of [_IO_sputn]. *)
Context (check_file : bool) (vtable_offset fwide : Z) (sputn : Z -> Z).

Definition IO_fputs_rest (len : Z) : list stdio_op * Z :=
  if negb check_file then ([], EOF)
  else
    let '(asked, narrow) :=
      if negb (vtable_offset =? 0) then ([], true) else ([Fwide], fwide =? -1) in
    let '(ops, result) :=
      if narrow then ([Sputn len], if sputn len =? len then 1 else EOF) else ([], EOF) in
    (AcquireLock :: asked ++ ops ++ [ReleaseLock], result).

(** The lock is always given back, and success means that everything has been
    written to a file that is not wide. *)
Lemma IO_fputs_rest_spec len :
  (IO_fputs_rest len).2 = 1 <->
    check_file = true /\ (vtable_offset <> 0 \/ fwide = -1) /\ sputn len = len.
Proof.
  unfold IO_fputs_rest, EOF. destruct check_file; [|by split; [|intros [? _]]]. cbn [negb].
  destruct (Z.eqb_spec vtable_offset 0) as [E|E], (Z.eqb_spec fwide (-1)), (Z.eqb_spec (sputn len) len);
    cbn; tauto || (split; [done|]; tauto).
Qed.

Lemma IO_fputs_rest_locks len : (IO_fputs_rest len).1 = [] \/
  exists ops, (IO_fputs_rest len).1 = AcquireLock :: ops ++ [ReleaseLock] /\ AcquireLock ∉ ops /\ ReleaseLock ∉ ops.
Proof.
  unfold IO_fputs_rest. destruct check_file; cbn [negb]; [right|by left].
  destruct (vtable_offset =? 0), (fwide =? -1); cbn [negb fst app].
  - by exists [Fwide; Sputn len]; split_and!; [|set_solver..].
  - by exists [Fwide]; split_and!; [|set_solver..].
  - by exists [Sputn len]; split_and!; [|set_solver..].
  - by exists [Sputn len]; split_and!; [|set_solver..].
Qed.
End Rest.

(** ** A call *)

Module Example_.

(** A string of six bytes, its first at an odd address; a stack with a return
    address, the string and a file. *)
Definition memory : gmap Z Z :=
  store32 8192 0x5000 (store32 8196 4099 (store32 8200 0x6000
    (write_bytes 4099 [104; 101; 108; 108; 111; 33; 0; 255; 255; 255] ∅))).

Definition kernel (_ : list regs) (_ : regs) : Z := 77.
Definition address (_ : label) : Z := 0x9000.
Definition rest (_ _ : Z) (m : machine) : Z * Z * Z * gmap Z Z := (1, 0, 0, mem m).

Definition start (edi : Z) : regs := MkRegs 1 2 3 4 8192 6 7 edi.

Lemma memory_readable : readable memory 4099 6.
Proof.
  split.
  - intros i v Hv. assert (map_Forall (fun _ b => 0 <= b < 256) memory) as Hm
      by (apply (bool_decide_unpack _); by vm_compute). exact (Hm i v Hv).
  - intros i Hi. assert (i = 4106 \/ i = 4107) as [-> | ->] by (cbn in Hi; lia); by eexists.
Qed.

End Example_.

Lemma strlen_equals_reference_witness :
  exists m, run Example_.kernel Example_.address Example_.rest 9 strlen
      (MkMachine (Example_.start 0xdeadd00d) (MkFlags false false false) Example_.memory []) = Returned 0x5000 m /\
    eax (rs m) = 6 /\ (ebx (rs m), esi (rs m), edi (rs m), ebp (rs m)) = (1, 1, 0, 0).
Proof.
  destruct (strlen_equals_reference Example_.kernel Example_.address Example_.rest 10 Example_.memory 4099 6
    0x5000 (Example_.start 0xdeadd00d) (MkFlags false false false) []) as (m & E & H1 & _ & _ & _ & H2).
  - vm_compute. reflexivity.
  - exact Example_.memory_readable.
  - lia.
  - lia.
  - cbn. lia.
  - cbn. lia.
  - repeat split; vm_compute; reflexivity.
  - left. cbn. lia.
  - apply (bool_decide_unpack _). by vm_compute.
  - vm_compute. discriminate.
  - exists m. split; [exact E|]. split; [exact H1|exact H2].
Defined.

Lemma fputs_shows_the_counters_witness :
  exists m R2, run Example_.kernel Example_.address Example_.rest 11 IO_fputs
      (MkMachine (Example_.start 8) (MkFlags false false false) Example_.memory []) = Returned 0x5000 m /\
    seen m = [MkRegs SYS_gettid 2 3 4 8188 8188 7 8; R2] /\
    (ebx R2, esi R2, edi R2, ebp R2) = (1, 1, 0, 0) /\ eax (rs m) = 1.
Proof.
  destruct (fputs_shows_the_counters Example_.kernel Example_.address Example_.rest (fun _ _ _ _ _ => eq_refl)
    10 Example_.memory 4099 0x6000 6 8192 0x5000 1 2 3 4 6 7 8 (MkFlags false false false) [])
    as (m & mid & R2 & E & H1 & _ & H2 & _ & H3 & _).
  - vm_compute. reflexivity.
  - exact Example_.memory_readable.
  - lia.
  - lia.
  - lia.
  - lia.
  - repeat split; vm_compute; reflexivity.
  - lia.
  - left. lia.
  - apply (bool_decide_unpack _). by vm_compute.
  - vm_compute. discriminate.
  - exists m, R2. split; [exact E|]. split; [exact H1|]. split; [exact H2|exact H3].
Defined.
