(* ===== verification/Lcmp.v ===== *)
(** * Comparing files line by line

    src/lcmp.c: its loop over two standard I/O streams, and [main] around it.
    A stream is the bytes left to read, its end-of-file indicator, and whether
    reading past those bytes is an error instead of the end of the file. *)

From stdpp Require Import base numbers list.
From S2P Require Import Prelude.

Local Open Scope Z_scope.

Definition MAX_LINE_LEN : Z := 4096.

(** ** <stdio.h> *)

Record FILE : Set := MkFILE { rest : list Z; feof : bool; bad : bool }.

Definition newline : Z := 10.

(** At most [n] bytes, up to and including a newline; what is left; whether
    the end was reached looking for more. *)
Fixpoint getline (n : nat) (l : list Z) : list Z * list Z * bool :=
  match n with
  | O => ([], l, false)
  | S n =>
      match l with
      | [] => ([], [], true)
      | c :: l =>
          if c =? newline then ([c], l, false)
          else let '(s, r, e) := getline n l in (c :: s, r, e)
      end
  end.

Definition fgets (size : Z) (f : FILE) : option (list Z) * FILE :=
  let '(s, r, e) := getline (Z.to_nat (size - 1)) (rest f) in
  if e then
    if bad f then (None, MkFILE r (feof f) true)
    else (match s with [] => None | _ => Some s end, MkFILE r true false)
  else (Some s, MkFILE r (feof f) (bad f)).

(** A C string ends at its first NUL. *)
Fixpoint c_str (s : list Z) : list Z :=
  match s with [] => [] | c :: s => if c =? 0 then [] else c :: c_str s end.

(** ** The program *)

Inductive out : Set := Minus (s : list Z) | Plus (s : list Z).

(** The body of the loop on the two lines read. *)
Definition compare_lines (s1 s2 : option (list Z)) : list out :=
  match s1, s2 with
  | None, None => []
  | None, Some s2 => [Plus (c_str s2)]
  | Some s1, None => [Minus (c_str s1)]
  | Some s1, Some s2 =>
      if decide (c_str s1 = c_str s2) then [] else [Minus (c_str s1); Plus (c_str s2)]
  end.

(** The loop; [None]: still running after [fuel] iterations. *)
Fixpoint lcmp_loop (fuel : nat) (f1 f2 : FILE) : option (list out) :=
  match fuel with
  | O => None
  | S fuel =>
      if feof f1 && feof f2 then Some []
      else
        let '(s1, f1) := fgets MAX_LINE_LEN f1 in
        let '(s2, f2) := fgets MAX_LINE_LEN f2 in
        o ← lcmp_loop fuel f1 f2;
        Some (compare_lines s1 s2 ++ o)
  end.

(** What [main] prints: the messages on the error stream, without the text of
    [errno], and the lines on the standard output. *)
Inductive message : Set :=
  | Usage (exe : list Z)                 (* usage *)
  | CannotOpen (path : list Z)           (* fatal *)
  | Command (exe path1 path2 : list Z)
  | From (path1 : list Z)                (* --- *)
  | To (path2 : list Z)                  (* +++ *)
  | Line (o : out).

(** [main]: what is printed, and the exit code.  [open] is what [fopen] gives
    for a path, each time it is called. *)
Definition main (fuel : nat) (open : list Z -> option FILE) (argv : list (list Z))
    : option (list message * Z) :=
  match argv with
  | [exe; path1; path2] =>
      match open path1 with
      | None => Some ([CannotOpen path1], 1)
      | Some f1 =>
          match open path2 with
          | None => Some ([CannotOpen path2], 1)
          | Some f2 =>
              o ← lcmp_loop fuel f1 f2;
              Some ([Command exe path1 path2; From path1; To path2] ++ map Line o, 0)
          end
      end
  | _ => Some ([Usage (default [] (argv !! 0%nat))], 1)
  end.

(** A file just opened: its bytes, or its bytes before a read error. *)
Definition fopen (bytes : list Z) : FILE := MkFILE bytes false false.
Definition fopen_bad (bytes : list Z) : FILE := MkFILE bytes false true.

(** ** What it computes *)

(** A file as the lines [fgets] delivers. *)
Fixpoint chunks (fuel : nat) (l : list Z) : list (list Z) :=
  match fuel, l with
  | O, _ | _, [] => []
  | S fuel, _ =>
      let '(s, r, _) := getline (Z.to_nat (MAX_LINE_LEN - 1)) l in s :: chunks fuel r
  end.

Definition lines (l : list Z) : list (list Z) := chunks (length l) l.

(** Lines compared by position: of two that differ as strings the first is
    printed as removed, then the second as added; what one file has beyond the
    other is printed line by line. *)
Fixpoint diff (l1 l2 : list (list Z)) : list out :=
  match l1, l2 with
  | [], _ => map (fun s => Plus (c_str s)) l2
  | _, [] => map (fun s => Minus (c_str s)) l1
  | s1 :: l1, s2 :: l2 =>
      if decide (c_str s1 = c_str s2) then diff l1 l2
      else Minus (c_str s1) :: Plus (c_str s2) :: diff l1 l2
  end.

(** ** Lemmas *)

Lemma getline_spec n l s r e : getline n l = (s, r, e) ->
  l = s ++ r /\ (length s <= n)%nat /\ (e = true -> r = []) /\ (e = false -> (0 < n)%nat -> s <> []).
Proof.
  revert l s r e. induction n as [|n IH]; intros l s r e; cbn [getline].
  { intros [= <- <- <-]. split_and!; [done|done|done|lia]. }
  destruct l as [|c l]; [intros [= <- <- <-]; split_and!; [done|simpl; lia|done|done]|].
  destruct (c =? newline); [intros [= <- <- <-]; split_and!; [done|simpl; lia|done|done]|].
  destruct (getline n l) as [[s' r'] e'] eqn:E. intros [= <- <- <-].
  destruct (IH _ _ _ _ E) as (-> & H1 & H2 & H3). split_and!; [done|simpl; lia|done|done].
Qed.

Local Abbreviation size := (Z.to_nat (MAX_LINE_LEN - 1)).

Lemma buffer_pos : (0 < size)%nat.
Proof. unfold MAX_LINE_LEN. lia. Qed.

Lemma getline_cons c l s r e : getline size (c :: l) = (s, r, e) ->
  s <> [] /\ c :: l = s ++ r /\ (length r < length (c :: l))%nat /\ (e = true -> r = []).
Proof.
  intros E. pose proof (getline_spec _ _ _ _ _ E) as (Hl & _ & He & Hne).
  assert (s <> []) as Hs.
  { destruct e; [|apply Hne; [done|apply buffer_pos]]. intros ->. rewrite (He eq_refl) in Hl. done. }
  split_and!; try done. rewrite Hl, length_app. destruct s; [done|]. simpl. lia.
Qed.

Lemma chunks_enough fuel l : (length l <= fuel)%nat -> chunks fuel l = lines l.
Proof.
  unfold lines. revert l. assert (forall m fuel l, (length l <= m)%nat -> (length l <= fuel)%nat ->
    chunks fuel l = chunks (length l) l) as H; [|intros l Hl; by apply (H (length l))].
  induction m as [|m IH]; intros k l Hm Hk.
  { destruct l; [by destruct k|simpl in Hm; lia]. }
  destruct l as [|c l]; [by destruct k|]. destruct k as [|k]; [simpl in Hk; lia|].
  cbn [chunks length]. destruct (getline size (c :: l)) as [[s r] e] eqn:E.
  destruct (getline_cons _ _ _ _ _ E) as (_ & _ & Hr & _). cbn [length] in Hr, Hm, Hk.
  rewrite (IH k r), (IH (length l) r) by lia. done.
Qed.

Lemma lines_cons c l s r e : getline size (c :: l) = (s, r, e) -> lines (c :: l) = s :: lines r.
Proof.
  intros E. unfold lines at 1. cbn [length chunks]. rewrite E. f_equal. apply chunks_enough.
  destruct (getline_cons _ _ _ _ _ E) as (_ & _ & Hr & _). cbn [length] in Hr. lia.
Qed.

Lemma concat_lines l : concat (lines l) = l.
Proof.
  assert (forall m l, (length l <= m)%nat -> concat (lines l) = l) as H; [|by apply (H (length l))].
  clear l. induction m as [|m IH]; intros l Hm; destruct l as [|c l]; try done; [simpl in Hm; lia|].
  destruct (getline size (c :: l)) as [[s r] e] eqn:E. rewrite (lines_cons _ _ _ _ _ E).
  destruct (getline_cons _ _ _ _ _ E) as (_ & Hl & Hr & _). cbn [concat].
  rewrite IH by (cbn [length] in *; lia). done.
Qed.

(** Reading from a stream that does not fail: a line and what follows it, or
    the end. *)
Lemma fgets_good l b : fgets MAX_LINE_LEN (MkFILE l b false) =
  match lines l with
  | [] => (None, MkFILE [] true false)
  | s :: ls => (Some s, MkFILE (concat ls) (b || (getline size l).2) false)
  end.
Proof.
  unfold fgets. cbn [rest feof bad]. destruct l as [|c l].
  { pose proof buffer_pos. destruct size; [lia|]. done. }
  destruct (getline size (c :: l)) as [[s r] e] eqn:E. rewrite (lines_cons _ _ _ _ _ E), concat_lines.
  destruct (getline_cons _ _ _ _ _ E) as (Hs & _ & _ & _). cbn [snd].
  destruct e; [|by rewrite orb_false_r]. rewrite orb_true_r. by destruct s.
Qed.

Definition pending (f : FILE) : nat := length (rest f) + (if feof f then 0 else 1).

(** A good stream after a read: its indicator is set only at the end, and it
    has less pending unless it was at the end already. *)
Lemma fgets_progress f : bad f = false -> (feof f = true -> rest f = []) ->
  let '(s, f') := fgets MAX_LINE_LEN f in
  bad f' = false /\ (feof f' = true -> rest f' = []) /\ (pending f' <= pending f)%nat /\
  (feof f = false -> (pending f' < pending f)%nat) /\
  lines (rest f) = match s with None => [] | Some s => s :: lines (rest f') end /\
  (s = None -> rest f' = []).
Proof.
  destruct f as [l b x]. cbn [rest feof bad]. intros -> Hb. unfold fgets. cbn [rest feof bad].
  destruct l as [|c l].
  { pose proof buffer_pos. destruct size; [lia|]. cbn. unfold pending. cbn. destruct b; split_and!; auto; lia. }
  destruct (getline size (c :: l)) as [[s r] e] eqn:E. rewrite (lines_cons _ _ _ _ _ E).
  destruct (getline_cons _ _ _ _ _ E) as (Hs & _ & Hr & He).
  destruct b; [specialize (Hb eq_refl); discriminate|]. unfold pending. cbn [length rest feof] in *.
  destruct e; cbn [rest feof bad]; [|split_and!; try done; lia].
  destruct s; [done|]. split_and!; try done; auto; lia.
Qed.

Lemma lcmp_loop_spec fuel : forall f1 f2,
  bad f1 = false -> bad f2 = false -> (feof f1 = true -> rest f1 = []) -> (feof f2 = true -> rest f2 = []) ->
  (pending f1 + pending f2 < fuel)%nat ->
  lcmp_loop fuel f1 f2 = Some (diff (lines (rest f1)) (lines (rest f2))).
Proof.
  induction fuel as [|fuel IH]; intros f1 f2 B1 B2 E1 E2 Hf; [lia|]. cbn [lcmp_loop].
  destruct (feof f1 && feof f2) eqn:E.
  { apply andb_true_iff in E as [Ea Eb]. by rewrite E1, E2. }
  pose proof (fgets_progress f1 B1 E1) as P1. pose proof (fgets_progress f2 B2 E2) as P2.
  destruct (fgets MAX_LINE_LEN f1) as [s1 g1], (fgets MAX_LINE_LEN f2) as [s2 g2].
  destruct P1 as (B1' & E1' & L1 & S1 & D1 & N1), P2 as (B2' & E2' & L2 & S2 & D2 & N2).
  rewrite IH; [|done|done|done|done|].
  2:{ apply andb_false_iff in E as [E|E]; [specialize (S1 E)|specialize (S2 E)]; lia. }
  cbn [mbind option_bind]. rewrite D1, D2. f_equal.
  destruct s1 as [s1|], s2 as [s2|]; cbn [compare_lines diff map app]; try done.
  - by case_decide.
  - rewrite (N2 eq_refl). by destruct (lines (rest g1)).
  - by rewrite (N1 eq_refl).
  - by rewrite (N1 eq_refl), (N2 eq_refl).
Qed.

Lemma c_str_id s : 0 ∉ s -> c_str s = s.
Proof.
  induction s as [|c s IH]; [done|]. intros [Hc Hs]%not_elem_of_cons. cbn [c_str].
  rewrite (proj2 (Z.eqb_neq c 0)) by done. by rewrite IH.
Qed.

Lemma diff_nil l1 l2 : Forall (fun s => 0 ∉ s) l1 -> Forall (fun s => 0 ∉ s) l2 ->
  diff l1 l2 = [] <-> l1 = l2.
Proof.
  intros H1. revert l2. induction H1 as [|s1 l1 Hs1 H1 IH]; intros l2 H2; destruct H2 as [|s2 l2 Hs2 H2];
    cbn [diff map]; try done.
  rewrite !c_str_id by done. case_decide as E.
  - rewrite IH by done. split; [by intros ->; subst|by intros [= _ ->]].
  - split; [done|]. by intros [= ? _].
Qed.

Lemma lines_nul_free l : 0 ∉ l -> Forall (fun s => 0 ∉ s) (lines l).
Proof.
  intros H. apply Forall_forall. intros s Hs H0. apply H. rewrite <- (concat_lines l).
  apply list_elem_of_In, in_concat. exists s. by rewrite <- !list_elem_of_In.
Qed.

Lemma lcmp_result l1 l2 :
  lcmp_loop (length l1 + length l2 + 3) (fopen l1) (fopen l2) = Some (diff (lines l1) (lines l2)).
Proof. apply (lcmp_loop_spec _ (fopen l1) (fopen l2)); try done. unfold pending. cbn. lia. Qed.

(** The program as a whole: nothing is compared unless both files could be
    opened, and then the lines follow the header; comparing a file with itself
    prints the header only. *)
Lemma main_spec open exe path1 path2 :
  (open path1 = None -> forall fuel, main fuel open [exe; path1; path2] = Some ([CannotOpen path1], 1)) /\
  (forall f1, open path1 = Some f1 -> open path2 = None -> forall fuel,
     main fuel open [exe; path1; path2] = Some ([CannotOpen path2], 1)) /\
  (forall l1 l2, open path1 = Some (fopen l1) -> open path2 = Some (fopen l2) ->
     main (length l1 + length l2 + 3) open [exe; path1; path2] =
     Some ([Command exe path1 path2; From path1; To path2] ++ map Line (diff (lines l1) (lines l2)), 0)).
Proof.
  unfold main. split_and!.
  - by intros -> fuel.
  - by intros f1 -> -> fuel.
  - intros l1 l2 -> ->. by rewrite lcmp_result.
Qed.

(** C33: on files that can be read the program ends, after at most one round
    for each byte and one more for each file; it prints the difference by
    position of the lines: for each position at which both files have a line
    and the two differ, the first file's with a minus and the second's with a
    plus, and then the rest of the longer file; lines longer than the buffer
    are compared in pieces; and for text (no NUL byte) it prints nothing
    exactly when the files are equal. *)
Theorem lcmp_compares l1 l2 :
  lcmp_loop (length l1 + length l2 + 3) (fopen l1) (fopen l2) = Some (diff (lines l1) (lines l2)) /\
  concat (lines l1) = l1 /\
  (0 ∉ l1 -> 0 ∉ l2 ->
   lcmp_loop (length l1 + length l2 + 3) (fopen l1) (fopen l2) = Some [] <-> l1 = l2).
Proof.
  pose proof (lcmp_result l1 l2) as E. split; [done|]. split; [apply concat_lines|]. intros H1 H2. rewrite E.
  assert (Some (diff (lines l1) (lines l2)) = Some [] <-> diff (lines l1) (lines l2) = []) as ->
    by (split; [congruence|by intros ->]).
  rewrite diff_nil by (by apply lines_nul_free). split; [|by intros ->].
  intros Hl. by rewrite <- (concat_lines l1), Hl, concat_lines.
Qed.

Lemma lcmp_compares_witness :
  lcmp_loop 8 (fopen [97; 10]) (fopen [98; 10; 99]) = Some [Minus [97; 10]; Plus [98; 10]; Plus [99]] /\
  lcmp_loop 8 (fopen [97; 10]) (fopen [98; 10; 99]) <> Some [].
Proof.
  destruct (lcmp_compares [97; 10] [98; 10; 99]) as (HD & _ & HC). split.
  - etransitivity; [exact HD|]. vm_compute. reflexivity.
  - intros H. apply HC in H; [discriminate| |]; apply (bool_decide_unpack _); by vm_compute.
Defined.

(** A read error never ends the loop: [fgets] fails without setting the
    end-of-file indicator the loop waits for, so the program runs forever
    (opening a directory is enough). *)
Theorem lcmp_loops_on_read_error fuel l f : lcmp_loop fuel (fopen_bad l) f = None.
Proof.
  unfold fopen_bad. revert l f. induction fuel as [|fuel IH]; intros l f; cbn [lcmp_loop]; [done|].
  cbn [feof andb]. unfold fgets at 1. cbn [rest feof bad].
  destruct (getline size l) as [[s r] e] eqn:E.
  destruct e; destruct (fgets MAX_LINE_LEN f) as [s2 f2]; by rewrite IH.
Qed.
