(* ===== verification/Desched.v ===== *)
(** * Notification of context switches

    src/notify_desched.c: the child opens a counter of context switches
    ([open_counter]), passes its descriptor to the parent ([send_fd],
    [recv_fd]), and arms the counter around each of its writes ([spam_io]); the
    parent follows it with ptrace, counts the SIGIO stops and
    steps over the interrupted system call ([parent]).  [main] puts the two
    together.  The kernel is the
    sequence of statuses [waitpid] delivers and the answers of [ioctl] and
    [read]. *)

From stdpp Require Import base numbers list sets.
From S2P Require Import Prelude WaitStatus Ptrace.

Local Open Scope Z_scope.

Definition SIGIO : Z := 29.
Definition nr_switches : Z := 1.
Definition cpu_ticks : Z := Z.shiftl 1 25.
Definition io_ticks : Z := 10.

Inductive workload : Set := CPU | IO.
Definition which : workload := IO.

(** ** The child *)

Inductive child_op : Set :=
  | EnableCounter            (* ioctl(counter_fd, PERF_EVENT_IOC_ENABLE) *)
  | DisableCounter           (* ioctl(counter_fd, PERF_EVENT_IOC_DISABLE) *)
  | WriteByte (c : Z)        (* write(STDOUT_FILENO, ., 1) *)
  | GetTimeOfDay.

Section Child.
(** Whether the [n]th operation succeeds; a failing [ioctl] ends the process,
    the result of [write] is not looked at. *)
Context (succeeds : nat -> bool).

(** An [ioctl] checked with [err]. *)
Definition enable_counter (done : list child_op) : list child_op * bool :=
  (done ++ [EnableCounter], succeeds (length done)).

Definition disable_counter (done : list child_op) : list child_op * bool :=
  (done ++ [DisableCounter], succeeds (length done)).

(** On [counter_fd], which is the only counter there is. *)
Definition arm_desched_notification : list child_op -> list child_op * bool := enable_counter.
Definition disarm_desched_notification : list child_op -> list child_op * bool := disable_counter.

(** The loop [for (i = ticks - 1; i >= 0; --i)]; [false]: the process ended;
    [None]: out of fuel. *)
Fixpoint spam_loop (fuel : nat) (i : Z) (done : list child_op) : option (list child_op * bool) :=
  match fuel with
  | O => None
  | S fuel =>
      if i <? 0 then Some (done, true)
      else
        let '(done, ok) := arm_desched_notification done in
        if negb ok then Some (done, false)
        else
          let done := done ++ [WriteByte (if i =? 0 then 10 else 46)] in
          let '(done, ok) := disarm_desched_notification done in
          if negb ok then Some (done, false) else spam_loop fuel (i32 (i - 1)) done
  end.

(** [ticks] is a 32-bit [size_t]; [i] an [ssize_t]. *)
Definition spam_io (fuel : nat) (ticks : Z) : option (list child_op * bool) :=
  spam_loop fuel (i32 (u32 (ticks - 1))) [].

(** The loop of [chew_cpu], [n] rounds of it left; [None]: the remainder is by
    zero.  [i] is a 32-bit [size_t], the value computed is not used. *)
Fixpoint chew_loop (n : nat) (i : Z) (done : list child_op) : option (list child_op) :=
  match n with
  | O => Some done
  | S n =>
      if i mod 10 =? 0 then chew_loop n (u32 (i + 1)) (done ++ [GetTimeOfDay])
      else if u32 (i + 23) =? 0 then None
      else chew_loop n (u32 (i + 1)) done
  end.

Definition chew_cpu (ticks : Z) : option (list child_op * bool) :=
  let '(done, ok) := arm_desched_notification [] in
  if negb ok then Some (done, false)
  else
    done ← chew_loop (Z.to_nat ticks) 0 done;
    Some (disarm_desched_notification done).

End Child.

(** ** The parent *)

Inductive parent_op : Set :=
  | Cont | Syscall           (* ptrace requests *)
  | ReadCounter | Disable    (* of the child's counter *)
  | Dump (status : Z).       (* dump_siginfo_regs *)

Inductive parent_end : Set :=
  | Finished (observed : Z)  (* child finished; observed %d descheds *)
  | StillWaiting             (* no further status came *)
  | CounterError             (* read or ioctl failed: err *)
  | AssertFailed.

Section Parent.
(** Whether reading and disabling the counter succeeds the [n]th time. *)
Context (read_ok ioctl_ok : Z -> bool).

Definition stopped_by_SIGIO (status : Z) : bool := WIFSTOPPED status && (SIGIO =? WSTOPSIG status).

(** [observed] is [nr_observed_descheds]. *)
Fixpoint parent_loop (observed : Z) (statuses : list Z) : list parent_op * parent_end :=
  match statuses with
  | [] => ([Cont], StillWaiting)
  | status :: rest =>
      if (dump_status status).2 =? 0 then ([Cont], Finished observed)
      else if stopped_by_SIGIO status then
        if negb (read_ok observed) then ([Cont; ReadCounter], CounterError)
        else if negb (ioctl_ok observed) then ([Cont; ReadCounter; Disable], CounterError)
        else
          let observed := i32 (observed + 1) in
          let ops := [Cont; ReadCounter; Disable; Dump status; Cont] in
          match rest with
          | [] => (ops, StillWaiting)
          | status1 :: rest =>
              if negb (stopped_by_SIGIO status1) then (ops, AssertFailed)
              else
                match rest with
                | [] => (ops ++ [Dump status1; Syscall], StillWaiting)
                | [status2] => (ops ++ [Dump status1; Syscall; Dump status2; Syscall], StillWaiting)
                | status2 :: status3 :: rest =>
                    let '(more, e) := parent_loop observed rest in
                    (ops ++ [Dump status1; Syscall; Dump status2; Syscall; Dump status3] ++ more, e)
                end
          end
      else
        let '(more, e) := parent_loop observed rest in (Cont :: more, e)
  end.

(** The first stop, the child's SIGSTOP, is waited for without a look at its
    status. *)
Definition parent (statuses : list Z) : list parent_op * parent_end := parent_loop 0 statuses.

End Parent.

(** ** The child's output *)

Definition tick (last : bool) : list child_op :=
  [EnableCounter; WriteByte (if last then 10 else 46); DisableCounter].

(** One round whose operations succeed. *)
Lemma spam_loop_round succeeds fuel i done : (forall k, succeeds k = true) -> 0 <= i ->
  spam_loop succeeds (S fuel) i done =
    spam_loop succeeds fuel (i32 (i - 1)) (done ++ tick (i =? 0)).
Proof.
  intros Hok Hi. cbn [spam_loop]. rewrite (proj2 (Z.ltb_ge i 0)) by done.
  unfold arm_desched_notification, disarm_desched_notification, enable_counter, disable_counter. rewrite !Hok. cbn [negb]. rewrite <- !app_assoc. done.
Qed.

Lemma spam_loop_runs succeeds n : forall i done, (forall k, succeeds k = true) ->
  Z.of_nat n = i + 1 -> i < 2 ^ 31 ->
  spam_loop succeeds (S n) i done =
    Some (done ++ concat (replicate (n - 1) (tick false)) ++ (if decide (n = 0%nat) then [] else tick true), true).
Proof.
  induction n as [|n IH]; intros i done Hok Hn Hi.
  { cbn [spam_loop]. rewrite (proj2 (Z.ltb_lt i 0)) by lia. by rewrite app_nil_r. }
  rewrite spam_loop_round by (done || lia).
  assert (i32 (i - 1) = i - 1) as -> by (unfold i32, wrapS; rewrite Z.mod_small; lia).
  rewrite IH by (done || lia). rewrite <- !app_assoc. do 3 f_equal.
  destruct n as [|n].
  - replace i with 0 by lia. done.
  - rewrite (proj2 (Z.eqb_neq i 0)) by lia. replace (S (S n) - 1)%nat with (S n) by lia.
    replace (S n - 1)%nat with n by lia. done.
Qed.

(** The child's loop ends for every tick count: for [ticks] up to 2^31 it
    writes [ticks - 1] dots and a newline, each write between an enabling and
    a disabling of the counter, and for none at all it does nothing although
    [ticks - 1] wraps around. *)
Theorem spam_io_output succeeds ticks :
  (forall k, succeeds k = true) -> 0 <= ticks <= 2 ^ 31 ->
  spam_io succeeds (S (Z.to_nat ticks)) ticks =
    Some (concat (replicate (Z.to_nat ticks - 1) (tick false)) ++
          (if decide (ticks = 0) then [] else tick true), true).
Proof.
  intros Hok Ht. unfold spam_io.
  assert (i32 (u32 (ticks - 1)) = ticks - 1) as ->.
  { unfold i32, u32, wrapS, wrapU. destruct (decide (ticks = 0)) as [->|]; [done|].
    rewrite (Z.mod_small (ticks - 1)) by lia. rewrite Z.mod_small by lia. lia. }
  rewrite (spam_loop_runs succeeds (Z.to_nat ticks)) by (done || lia). cbn [app].
  do 3 f_equal. repeat case_decide; done || lia.
Qed.

Lemma spam_io_output_witness :
  spam_io (fun _ => true) 3 2 = Some (tick false ++ tick true, true) /\
  spam_io (fun _ => true) 1 0 = Some ([], true).
Proof.
  split; [apply (spam_io_output (fun _ => true) 2)|apply (spam_io_output (fun _ => true) 0)]; done || lia.
Defined.

(** ** The counter and its way to the parent *)

(** The fields of [struct perf_event_attr] that are set; the others are zero. *)
Record perf_event_attr : Set := MkAttr {
  attr_size : Z;
  attr_type : Z;
  attr_config : Z;
  attr_disabled : Z;
  attr_sample_period : Z
}.

Definition PERF_TYPE_SOFTWARE : Z := 1.
Definition PERF_COUNT_SW_CONTEXT_SWITCHES : Z := 3.
Definition O_ASYNC : Z := 8192.
Definition F_OWNER_TID : Z := 0.

(** The system calls of [open_counter]: pid 0 is the caller itself, cpu -1 any. *)
Inductive open_op : Set :=
  | PerfEventOpen (attr : perf_event_attr) (pid cpu group_fd flags : Z)
  | SetFlags (fd flags : Z)              (* fcntl F_SETFL *)
  | GetTid
  | SetOwnEx (fd type pid : Z)           (* fcntl F_SETOWN_EX *)
  | SetSig (fd sig : Z).                 (* fcntl F_SETSIG *)

(** [answer] is what each call returns; [None]: the program ended by [err]. *)
Definition open_counter (sizeof_attr : Z) (answer : open_op -> Z) (nr_switches : Z) : list open_op * option Z :=
  let attr := MkAttr sizeof_attr PERF_TYPE_SOFTWARE PERF_COUNT_SW_CONTEXT_SWITCHES 1 nr_switches in
  let op1 := PerfEventOpen attr 0 (-1) (-1) 0 in
  let fd := answer op1 in
  if fd <? 0 then ([op1], None)
  else
    let op2 := SetFlags fd O_ASYNC in
    if negb (answer op2 =? 0) then ([op1; op2], None)
    else
      let op3 := SetOwnEx fd F_OWNER_TID (answer GetTid) in
      if negb (answer op3 =? 0) then ([op1; op2; GetTid; op3], None)
      else
        let op4 := SetSig fd SIGIO in
        if negb (answer op4 =? 0) then ([op1; op2; GetTid; op3; op4], None)
        else ([op1; op2; GetTid; op3; op4], Some fd).

(** A message on the socket: its bytes are an [int], its control part one
    header with an [int]. *)
Record msghdr : Set := MkMsg {
  msg_data : Z;
  cmsg_level : Z;
  cmsg_type : Z;
  cmsg_data : Z
}.

Definition SOL_SOCKET : Z := 1.
Definition SCM_RIGHTS : Z := 1.

(** The message sent, and whether [sendmsg] succeeded. *)
Definition send_fd (sendmsg : msghdr -> Z) (fd : Z) : msghdr * bool :=
  let msg := MkMsg fd SOL_SOCKET SCM_RIGHTS fd in (msg, negb (sendmsg msg <=? 0)).

Inductive received : Set :=
  | Received (fd fdno : Z)     (* the result, and what [*fdno] is set to *)
  | RecvError
  | RecvAssertFailed.

(** [recvmsg] stores a message, or fails. *)
Definition recv_fd (msg : option msghdr) : received :=
  match msg with
  | None => RecvError
  | Some msg =>
      if (cmsg_level msg =? SOL_SOCKET) && (cmsg_type msg =? SCM_RIGHTS)
      then Received (cmsg_data msg) (msg_data msg) else RecvAssertFailed
  end.

(** What the kernel makes of a control message that passes a descriptor: the
    receiver's is a new one, [dup fd], for the same file. *)
Definition deliver (dup : Z -> Z) (msg : msghdr) : msghdr :=
  if (cmsg_level msg =? SOL_SOCKET) && (cmsg_type msg =? SCM_RIGHTS)
  then MkMsg (msg_data msg) (cmsg_level msg) (cmsg_type msg) (dup (cmsg_data msg)) else msg.

(** The steps of [child], each with what it did; it stops at the first that
    fails. *)
Inductive child_step : Set :=
  | Opened (ops : list open_op)
  | Sent (msg : msghdr)
  | TraceMe
  | RaisedSIGSTOP
  | Worked (ops : list child_op)
  | Exited (code : Z).

Definition child (sizeof_attr : Z) (answer : open_op -> Z) (sendmsg : msghdr -> Z) (succeeds : nat -> bool) (fuel : nat)
    : option (list child_step) :=
  match open_counter sizeof_attr answer nr_switches with
  | (ops, None) => Some [Opened ops; Exited 1]
  | (ops, Some counter_fd) =>
      let '(msg, ok) := send_fd sendmsg counter_fd in
      if negb ok then Some [Opened ops; Sent msg; Exited 1]
      else
        '(done, ok) ← (match which with
                       | CPU => chew_cpu succeeds cpu_ticks
                       | IO => spam_io succeeds fuel io_ticks end);
        Some [Opened ops; Sent msg; TraceMe; RaisedSIGSTOP; Worked done;
              Exited (if (ok : bool) then 0 else 1)]
  end.

(** ** [dump_siginfo_regs] *)

(** The fields printed of [struct siginfo]. *)
Record siginfo : Set := MkSiginfo { si_signo : Z; si_code : Z; si_fd : Z }.

(** The numbers printed after the prefix, in the order of the format; %lx and
    %p print a [long] as unsigned. *)
Definition dump_siginfo_regs (tid status : Z) (si : siginfo) (regs : user_regs) : list Z :=
  [tid; u32 (eip regs); u32 status;
   si_signo si; si_code si; si_fd si;
   u32 (eax regs); u32 (ebx regs); u32 (ecx regs); u32 (edx regs);
   u32 (esi regs); u32 (edi regs);
   orig_eax regs;
   u32 (ebp regs); u32 (esp regs);
   u32 (eip regs)].

(** ** [main] *)

(** [recvmsg] on a stream socket: the first message there is; with none it
    waits, unless every descriptor of the other end has been closed. *)
Inductive receipt : Set := Message (msg : msghdr) | EndOfStream | Waits.

Definition recvmsg (queue : list msghdr) (writers : nat) : receipt :=
  match queue with
  | msg :: _ => Message msg
  | [] => match writers with O => EndOfStream | S _ => Waits end
  end.

(** What the child has sent by the end of its steps. *)
Definition sent (steps : list child_step) : list msghdr :=
  match steps with
  | Opened _ :: Sent msg :: TraceMe :: _ => [msg]
  | _ => []
  end.

Inductive main_end : Set :=
  | ExitsOne                                              (* err(1, ...) *)
  | BlocksInRecvmsg
  | Parent (counter : Z) (ops : list parent_op) (e : parent_end).

(** Descriptors of [child_socket]: the parent keeps its own open, and the
    child's are closed when it has ended. *)
Definition parent_writers : nat := 1.

(** [main] in the parent, the child having made [steps]; [socketpair] and
    [setoptions] are the results of those calls. *)
Definition main (socketpair setoptions : Z) (dup : Z -> Z) (steps : list child_step)
    (read_ok ioctl_ok : Z -> bool) (statuses : list Z) : main_end :=
  if negb (socketpair =? 0) then ExitsOne
  else
    let answer := recvmsg (deliver dup <$> sent steps) parent_writers in
    match answer with
    | Waits => BlocksInRecvmsg
    | EndOfStream => ExitsOne
    | Message msg =>
        match recv_fd (Some msg) with
        | Received child_counter _ =>
            if negb (setoptions =? 0) then ExitsOne
            else let '(ops, e) := parent read_ok ioctl_ok statuses in Parent child_counter ops e
        | RecvError => ExitsOne
        | RecvAssertFailed => Parent 0 [] AssertFailed
        end
    end.

(** *** What they do *)

(** A child that gets as far as being traced has sent its counter: the parent
    watches a descriptor of that counter. *)
Lemma main_watches_the_counter sizeof_attr answer sendmsg fd ops dup statuses read_ok ioctl_ok steps :
  open_counter sizeof_attr answer nr_switches = (ops, Some fd) ->
  0 < sendmsg (MkMsg fd SOL_SOCKET SCM_RIGHTS fd) ->
  child sizeof_attr answer sendmsg (fun _ => true) 11 = Some steps ->
  main 0 0 dup steps read_ok ioctl_ok statuses =
    Parent (dup fd) (parent read_ok ioctl_ok statuses).1 (parent read_ok ioctl_ok statuses).2.
Proof.
  intros E Hs. unfold child. rewrite E. unfold send_fd. rewrite (proj2 (Z.leb_gt _ _) Hs).
  cbn [negb which]. destruct (spam_io _ _ _) as [[past ok]|]; [|done]. intros [= <-].
  unfold main. cbn [Z.eqb negb sent fmap list_fmap recvmsg deliver recv_fd].
  cbn. by destruct (parent read_ok ioctl_ok statuses).
Qed.

(** A child that could not open or send its counter ends, and the parent waits
    for ever: it holds the other end of the socket open itself. *)
Lemma main_blocks sizeof_attr answer sendmsg succeeds fuel dup statuses read_ok ioctl_ok steps :
  child sizeof_attr answer sendmsg succeeds fuel = Some steps -> TraceMe ∉ steps ->
  main 0 0 dup steps read_ok ioctl_ok statuses = BlocksInRecvmsg.
Proof.
  unfold child. destruct (open_counter _ _ _) as [ops [fd|]]; [|by intros [= <-]].
  unfold send_fd. destruct (negb (negb _)); [by intros [= <-]|]. cbn [which].
  destruct (spam_io _ _ _) as [[past ok]|]; [|done]. intros [= <-] Hn. set_solver.
Qed.

(** A counter is opened disabled, for the calling thread on any cpu, and its
    owner gets SIGIO; anything else ends the program. *)
Lemma open_counter_spec sizeof_attr answer n ops fd : open_counter sizeof_attr answer n = (ops, Some fd) ->
  0 <= fd /\
  ops = [PerfEventOpen (MkAttr sizeof_attr PERF_TYPE_SOFTWARE PERF_COUNT_SW_CONTEXT_SWITCHES 1 n) 0 (-1) (-1) 0;
         SetFlags fd O_ASYNC; GetTid; SetOwnEx fd F_OWNER_TID (answer GetTid); SetSig fd SIGIO] /\
  Forall (fun op => match op with
                    | PerfEventOpen _ _ _ _ _ => answer op = fd | GetTid => True | _ => answer op = 0 end) ops.
Proof.
  unfold open_counter. set (op1 := PerfEventOpen _ _ _ _ _).
  destruct (Z.ltb_spec (answer op1) 0); [done|].
  destruct (Z.eqb_spec (answer (SetFlags (answer op1) O_ASYNC)) 0); [|done].
  destruct (Z.eqb_spec (answer (SetOwnEx (answer op1) F_OWNER_TID (answer GetTid))) 0); [|done].
  destruct (Z.eqb_spec (answer (SetSig (answer op1) SIGIO)) 0); [|done].
  cbn [negb]. intros [= <- <-]. split_and!; [done|done|]. by repeat constructor.
Qed.

(** [chew_cpu] never divides by zero: the counter stays below the one value
    that would.  It looks at the clock in every tenth round. *)
Lemma chew_loop_runs n : forall i past, 0 <= i -> i + Z.of_nat n <= 2 ^ 32 - 23 ->
  chew_loop n i past =
    Some (past ++ replicate (Z.to_nat ((i + Z.of_nat n + 9) / 10 - (i + 9) / 10)) GetTimeOfDay).
Proof.
  induction n as [|n IH]; intros i past Hi Hb; cbn [chew_loop].
  { by rewrite Z.add_0_r, Z.sub_diag, app_nil_r. }
  assert (u32 (i + 1) = i + 1 /\ u32 (i + 23) = i + 23) as [-> ->]
    by (unfold u32, wrapU; rewrite !Z.mod_small; lia).
  rewrite (proj2 (Z.eqb_neq (i + 23) 0)) by lia. rewrite !IH by lia.
  replace (i + 1 + Z.of_nat n) with (i + Z.of_nat (S n)) by lia.
  pose proof (Z.div_mod i 10 ltac:(lia)). pose proof (Z.mod_pos_bound i 10 ltac:(lia)).
  destruct (Z.eqb_spec (i mod 10) 0) as [E|E].
  - assert ((i + 9) / 10 = i / 10 /\ (i + 1 + 9) / 10 = i / 10 + 1) as [-> ->].
    { split; symmetry; [apply (Z.div_unique _ _ _ 9)|apply (Z.div_unique _ _ _ 0)]; lia. }
    assert (i / 10 + 1 <= (i + Z.of_nat (S n) + 9) / 10).
    { apply Z.div_le_lower_bound; lia. }
    rewrite <- app_assoc. do 2 f_equal.
    replace (Z.to_nat ((i + Z.of_nat (S n) + 9) / 10 - i / 10))
      with (S (Z.to_nat ((i + Z.of_nat (S n) + 9) / 10 - (i / 10 + 1)))) by lia. done.
  - assert ((i + 9) / 10 = i / 10 + 1 /\ (i + 1 + 9) / 10 = i / 10 + 1) as [-> ->]; [|done].
    split; symmetry; [apply (Z.div_unique _ _ _ (i mod 10 - 1))|apply (Z.div_unique _ _ _ (i mod 10))]; lia.
Qed.

Lemma chew_cpu_runs ticks : 0 <= ticks <= 2 ^ 32 - 23 ->
  chew_cpu (fun _ => true) ticks =
    Some (EnableCounter :: replicate (Z.to_nat ((ticks + 9) / 10)) GetTimeOfDay ++ [DisableCounter], true).
Proof.
  intros Ht. unfold chew_cpu, arm_desched_notification, disarm_desched_notification, enable_counter, disable_counter. cbn [app length negb].
  rewrite chew_loop_runs by lia. cbn [mbind option_bind].
  replace (0 + Z.of_nat (Z.to_nat ticks) + 9) with (ticks + 9) by lia. by rewrite Z.sub_0_r.
Qed.

(** The parent gets a descriptor of the child's counter, and its number. *)
Lemma fd_arrives dup sendmsg fd :
  recv_fd (Some (deliver dup (send_fd sendmsg fd).1)) = Received (dup fd) fd.
Proof. done. Qed.

(** A child whose calls succeed writes nine dots and a newline, each counted,
    after it has stopped for the parent. *)
Lemma child_runs sizeof_attr answer sendmsg fd ops :
  open_counter sizeof_attr answer nr_switches = (ops, Some fd) ->
  0 < sendmsg (MkMsg fd SOL_SOCKET SCM_RIGHTS fd) ->
  child sizeof_attr answer sendmsg (fun _ => true) 11 =
    Some [Opened ops; Sent (MkMsg fd SOL_SOCKET SCM_RIGHTS fd); TraceMe; RaisedSIGSTOP;
          Worked (concat (replicate 9 (tick false)) ++ tick true); Exited 0].
Proof.
  intros E Hs. unfold child. rewrite E. unfold send_fd.
  rewrite (proj2 (Z.leb_gt _ _) Hs). reflexivity.
Qed.

(** ** What the parent reports *)










