(* ===== verification/RrMon.v ===== *)
(** * The process monitor

    src/rrmon.c, a library that prints a line of statistics when the process
    ends or receives SIGABRT or SIGSEGV.  [fatal] ends in [abort], whose signal
    the library itself handles: the model follows the control flow through the
    handler.  What the kernel answers to the [n]th attempt to collect the
    statistics is a parameter. *)

From stdpp Require Import base numbers list.
From S2P Require Import Prelude.

Local Open Scope Z_scope.

(** ** The name of the process *)

(** The answers to one attempt: whether [getrusage] and [open] succeed, and
    the bytes [read] stores, at most [sizeof(stats->name) - 1] of them. *)
Record attempt : Set := MkAttempt {
  rusage_ok : bool;
  opened : bool;
  comm : option (list Z)
}.

(** [sizeof(stats->name)]. *)
Definition NAME_SIZE : nat := 32.

(** [get_process_name] on the buffer [name]; [None]: [fatal]. *)
Definition get_process_name (a : attempt) (name : list Z) : option (list Z) :=
  if negb (opened a) then None
  else
    let len := match comm a with Some l => Z.of_nat (length l) | None => -1 end in
    let name := default [] (comm a) ++ drop (length (default [] (comm a))) name in
    if len <=? 1 then None
    else Some (<[Z.to_nat (len - 1) := 0]> name).

Definition get_process_stats (a : attempt) (name : list Z) : option (list Z) :=
  if rusage_ok a then get_process_name a name else None.

(** ** Printing them *)

Inductive line : Set :=
  | RRMON (name : list Z)      (* the line on standard output *)
  | Perror.                    (* the message of [fatal] *)

(** How a call ends: it returns, or the process has been ended by [abort]. *)
Inductive ending : Set := Returned | Aborted.

Section Monitor.
Context (attempts : nat -> attempt).

(** [dump_process_stats], at the [n]th attempt.  [fatal] prints and calls
    [abort]; that raises SIGABRT, whose handler is [sighandler], another
    [dump_process_stats]; when the handler returns [abort] ends the process. *)
Fixpoint dump_process_stats (fuel n : nat) : option (list line * ending) :=
  match fuel with
  | O => None
  | S fuel =>
      match get_process_stats (attempts n) (replicate NAME_SIZE 0) with
      | Some name => Some ([RRMON name], Returned)
      | None => '(lines, _) ← dump_process_stats fuel (S n); Some (Perror :: lines, Aborted)
      end
  end.

Definition sighandler (fuel n : nat) : option (list line * ending) := dump_process_stats fuel n.

(** At the end of the process. *)
Definition deinit (fuel n : nat) : option (list line * ending) := dump_process_stats fuel n.

(** An invalid access: the handler runs, and when it returns the access is
    made again. *)
Fixpoint segv (fuel n : nat) : option (list line * ending) :=
  match fuel with
  | O => None
  | S fuel =>
      '(lines, e) ← sighandler (S fuel) n;
      match e with
      | Aborted => Some (lines, Aborted)
      | Returned => '(more, e) ← segv fuel (S n); Some (lines ++ more, e)
      end
  end.

(** ** What they do *)

(** The buffer always ends up holding the name without its newline, inside
    its bounds and terminated; a file of one byte or less is refused. *)
Lemma get_process_name_spec a l : opened a = true -> comm a = Some l -> (length l < NAME_SIZE)%nat ->
  get_process_name a (replicate NAME_SIZE 0) =
    if decide (2 <= length l)%nat
    then Some (take (length l - 1) l ++ replicate (NAME_SIZE - (length l - 1)) 0) else None.
Proof.
  intros Ho Hc Hl. unfold get_process_name. rewrite Ho, Hc. cbn [negb default from_option id].
  destruct (Z.leb_spec (Z.of_nat (length l)) 1); case_decide; try lia; [done|]. f_equal.
  destruct (exists_last (l := l)) as (k & x & ->); [by intros ->|].
  rewrite length_app in *. cbn [length] in *.
  replace (Z.to_nat (Z.of_nat (length k + 1) - 1)) with (length k + 0)%nat by lia.
  rewrite <- app_assoc, insert_app_r. replace (length k + 1 - 1)%nat with (length k) by lia.
  rewrite take_app_length. f_equal. rewrite drop_replicate. simpl.
  replace (NAME_SIZE - length k)%nat with (S (NAME_SIZE - (length k + 1))) by lia. done.
Qed.

(** One attempt that succeeds is enough, also in the handler of [fatal]'s own
    signal, but then the process ends. *)
Lemma dump_process_stats_ends k n name :
  (forall i, (n <= i < n + k)%nat -> get_process_stats (attempts i) (replicate NAME_SIZE 0) = None) ->
  get_process_stats (attempts (n + k)) (replicate NAME_SIZE 0) = Some name ->
  dump_process_stats (S k) n =
    Some (replicate k Perror ++ [RRMON name], if decide (k = 0)%nat then Returned else Aborted).
Proof.
  revert n. induction k as [|k IH]; intros n Hf Hs; cbn [dump_process_stats].
  - rewrite Nat.add_0_r in Hs. by rewrite Hs.
  - rewrite (Hf n) by lia. fold (dump_process_stats (S k) (S n)).
    change (('(lines, _) ← dump_process_stats (S k) (S n); Some (Perror :: lines, Aborted)) =
      Some (replicate (S k) Perror ++ [RRMON name], Aborted)).
    rewrite IH; [done| |by rewrite Nat.add_succ_comm]. intros i Hi. apply Hf. lia.
Qed.

(** While the statistics cannot be collected, [fatal], [abort] and the handler
    call each other without end. *)
Lemma dump_process_stats_never_ends fuel n :
  (forall i, get_process_stats (attempts i) (replicate NAME_SIZE 0) = None) ->
  dump_process_stats fuel n = None.
Proof.
  intros Hf. revert n. induction fuel as [|fuel IH]; intros n; cbn [dump_process_stats]; [done|].
  by rewrite Hf, IH.
Qed.

(** While they can, an invalid access is repeated without end: the handler is
    written as if the signal were fatal, but returns. *)
Lemma segv_never_ends fuel n :
  (forall i, is_Some (get_process_stats (attempts i) (replicate NAME_SIZE 0))) -> segv fuel n = None.
Proof.
  intros Hs. revert n. induction fuel as [|fuel IH]; intros n; cbn [segv]; [done|].
  unfold sighandler. cbn [dump_process_stats]. destruct (Hs n) as [name ->].
  cbn [mbind option_bind]. by rewrite IH.
Qed.

End Monitor.

(** "xpcshell" and a newline. *)
Example name_of_xpcshell :
  get_process_name (MkAttempt true true (Some [120; 112; 99; 115; 104; 101; 108; 108; 10]))
    (replicate NAME_SIZE 0) =
  Some ([120; 112; 99; 115; 104; 101; 108; 108] ++ replicate 24 0).
Proof. reflexivity. Qed.
