(* ===== verification/TestPrograms.v ===== *)
(** * The small programs

    The programs the tools are tried on: src/pwrite64_testcase.c,
    src/launch.c, src/paths.c, src/bad_syscall.c, src/mod.cc and src/ctor.cc,
    one module each.  They make a few library calls; what those do is the
    library's and the kernel's. *)

From stdpp Require Import base numbers list strings.
From S2P Require Import Prelude WaitStatus.

Local Open Scope string_scope.
Local Open Scope list_scope.
Local Open Scope Z_scope.

(** ** src/pwrite64_testcase.c *)

Module Pwrite64.

(** The calls on the file; [K] is the state of the kernel, a negative result an
    error. *)
Class Files (K : Type) : Type := {
  open_ : K -> K * Z;
  write : Z -> list Z -> K -> K * Z;
  pwrite64 : Z -> list Z -> Z -> K -> K * Z;
  pread : Z -> nat -> Z -> K -> K * Z * list Z;       (* the bytes stored *)
  close_unlink : Z -> K -> K
}.

(** [l] put at offset [off] of a file that has at least [off] bytes. *)
Definition overwrite (off : nat) (l file : list Z) : list Z :=
  take off file ++ l ++ drop (off + length l) file.

(** What POSIX says of a regular file with room on its device: its bytes and
    the offset of its one descriptor. *)
Class FilesDocumented (K : Type) `{Files K} : Type := {
  contents : K -> list Z;
  offset : K -> nat;
  descriptor : K -> option Z;
  open_spec k : let '(k', fd) := open_ k in
    0 <= fd /\ descriptor k' = Some fd /\ offset k' = 0%nat;
  write_spec k fd l : descriptor k = Some fd -> (offset k <= length (contents k))%nat ->
    let '(k', n) := write fd l k in
    n = Z.of_nat (length l) /\ descriptor k' = Some fd /\ offset k' = (offset k + length l)%nat /\
    contents k' = overwrite (offset k) l (contents k);
  pwrite64_spec k fd l off : descriptor k = Some fd -> 0 <= off <= Z.of_nat (length (contents k)) ->
    let '(k', n) := pwrite64 fd l off k in
    n = Z.of_nat (length l) /\ descriptor k' = Some fd /\ offset k' = offset k /\
    contents k' = overwrite (Z.to_nat off) l (contents k);
  pread_spec k fd n off : descriptor k = Some fd -> 0 <= off ->
    let '(k', r, l) := pread fd n off k in
    l = take n (drop (Z.to_nat off) (contents k)) /\ r = Z.of_nat (length l) /\ contents k' = contents k
}.

(** The array, its final NUL included. *)
Definition content : list Z :=
  [48; 49; 50; 51; 52; 53; 54; 55; 56; 57; 48; 10; 104; 101; 108; 108; 111; 32; 116; 104; 101; 114; 101; 10; 0].

Definition sizeof_content : Z := 25.

(** What is printed, and the assertion that fails, counted from the first. *)
Inductive line : Set :=
  | Wrote (s : list Z)
  | Read (s : list Z)
  | EXIT_SUCCESS.

Inductive ending : Set := ReturnsZero | AssertFails (n : nat).

Section Main.
Context {K : Type} `{Files K}.

(** [nr == sizeof(...)]: an [ssize_t] and a [size_t], of 32 bits both. *)
Definition same_size (nr size : Z) : bool := u32 nr =? u32 size.

(** [buf] as [memset] leaves it. *)
Definition question_marks : list Z := replicate 25 63.

(** What the array holds after a read of [l] into it. *)
Definition store (l buf : list Z) : list Z := l ++ drop (length l) buf.

(** The result of [open] is not looked at. *)
Definition main (k : K) : K * list line * ending :=
  let '(k, fd) := open_ k in
  let buf := question_marks in
  let '(k, nr) := write fd buf k in
  if negb (same_size nr sizeof_content) then (k, [], AssertFails 1)
  else
    let '(k, nr) := write fd (take 10 buf) k in
    if negb (nr =? 10) then (k, [], AssertFails 2)
    else
      let '(k, nr) := pwrite64 fd content 10 k in
      if negb (same_size nr sizeof_content) then (k, [], AssertFails 3)
      else
        let '(k, nr, l) := pread fd 25 10 k in
        let buf := store l buf in
        if negb (same_size nr sizeof_content) then (k, [Wrote content], AssertFails 4)
        else (close_unlink fd k, [Wrote content; Read buf; EXIT_SUCCESS], ReturnsZero).

End Main.

Lemma length_overwrite off l file : (off <= length file)%nat ->
  length (overwrite off l file) = Nat.max (length file) (off + length l).
Proof. intros H. unfold overwrite. rewrite !length_app, length_take, length_drop. lia. Qed.

Lemma read_overwrite off l file : (off <= length file)%nat ->
  take (length l) (drop off (overwrite off l file)) = l.
Proof.
  intros H. unfold overwrite. rewrite drop_app_length' by (rewrite length_take; lia).
  by rewrite take_app_length.
Qed.

(** On a file that behaves as documented the test passes, whatever the file
    held before: what has been written at offset 10 is read there, although the
    two writes before have moved the descriptor's own offset to 35. *)
Lemma test_passes {K} `{FilesDocumented K} (k : K) :
  exists k', main k = (k', [Wrote content; Read content; EXIT_SUCCESS], ReturnsZero).
Proof.
  unfold main. pose proof (open_spec k) as Ho. destruct (open_ k) as [k0 fd]. destruct Ho as (_ & Hd0 & Ho0).
  pose proof (write_spec k0 fd question_marks Hd0 ltac:(lia)) as H1.
  destruct (write fd question_marks k0) as [k1 n1]. destruct H1 as (-> & Hd1 & Ho1 & Hc1).
  rewrite (eq_refl : same_size (Z.of_nat (length question_marks)) sizeof_content = true). cbn [negb].
  assert (length (contents k1) = Nat.max (length (contents k0)) 25) as L1
    by (rewrite Hc1, length_overwrite; rewrite Ho0; [done|lia]).
  pose proof (write_spec k1 fd (take 10 question_marks) Hd1) as H2. rewrite Ho1, Ho0 in H2.
  specialize (H2 ltac:(cbn; lia)).
  destruct (write fd (take 10 question_marks) k1) as [k2 n2]. destruct H2 as (-> & Hd2 & Ho2 & Hc2).
  rewrite (eq_refl : (Z.of_nat (length (take 10 question_marks)) =? 10) = true). cbn [negb].
  assert (length (contents k2) = Nat.max (length (contents k1)) 35) as L2
    by (rewrite Hc2, length_overwrite; cbn; lia).
  pose proof (pwrite64_spec k2 fd content 10 Hd2 ltac:(lia)) as H3.
  destruct (pwrite64 fd content 10 k2) as [k3 n3]. destruct H3 as (-> & Hd3 & _ & Hc3).
  rewrite (eq_refl : same_size (Z.of_nat (length content)) sizeof_content = true). cbn [negb].
  pose proof (pread_spec k3 fd 25 10 Hd3 ltac:(lia)) as H4.
  destruct (pread fd 25 10 k3) as [[k4 n4] l]. destruct H4 as (Hl & -> & _).
  assert (l = content) as ->.
  { rewrite Hl, Hc3. apply (read_overwrite 10 content). lia. }
  by eexists.
Qed.

(** A file that starts out empty. *)
Definition Plain : Type := list Z * nat.

#[export] Instance plain_files : Files Plain := {
  open_ k := ((k.1, 0%nat), 3);
  write _ l k := ((overwrite k.2 l k.1, (k.2 + length l)%nat), Z.of_nat (length l));
  pwrite64 _ l off k := ((overwrite (Z.to_nat off) l k.1, k.2), Z.of_nat (length l));
  pread _ n off k :=
    let l := take n (drop (Z.to_nat off) k.1) in (k, Z.of_nat (length l), l);
  close_unlink _ k := k
}.

#[export] Program Instance plain_documented : FilesDocumented Plain := {
  contents := fst; offset := snd; descriptor _ := Some 3
}.
Next Obligation. intros k. cbn. by split_and!. Qed.
Solve Obligations with (cbn; intros; naive_solver).

Example test_passes_example : (main (([], 0%nat) : Plain)).2 = ReturnsZero.
Proof. destruct (test_passes (([], 0%nat) : Plain)) as (k' & ->). done. Qed.

End Pwrite64.

(** ** src/launch.c *)

Module Launch.

Inductive line : Set :=
  | Tod (sec : Z)
  | ChildExited (status : Z)
  | FatalUsage (exe : string)
  | FatalExec.

(** A process's output: what can be seen of it, and what its standard output
    still buffers, which it does when that is not a terminal. *)
Record output : Set := MkOutput { visible : list line; buffered : list line }.

Definition printf (tty : bool) (l : line) (o : output) : output :=
  if tty then MkOutput (visible o ++ [l]) (buffered o) else MkOutput (visible o) (buffered o ++ [l]).

(** The error stream is not buffered; [_exit] and a successful [exec] drop the
    buffer. *)
Definition fatal (l : line) (o : output) : list line := visible o ++ [l].

(** Returning from [main] writes the buffer out. *)
Definition flush (o : output) : list line := visible o ++ buffered o.

(** What the parent and the child of [fork] show.  [execs] says whether
    [execv] replaces the child; [status] is what [waitpid] stores. *)
Definition main (tty : bool) (sec : Z) (argv : list string) (execs : bool) (status : Z)
    : list line * list line * Z :=
  let o := printf tty (Tod sec) (MkOutput [] []) in
  if decide (length argv < 2)%nat then (fatal (FatalUsage (default "" (argv !! 0%nat))) o, [], 1)
  else
    let child := if execs then [] else fatal FatalExec (MkOutput [] (buffered o)) in
    (flush (printf tty (ChildExited status) o), child, 0).

(** The time is printed once, by the parent alone, although the child inherits
    the buffer it may still be in; without arguments it is lost when the output
    is not a terminal. *)
Lemma main_output tty sec argv execs status :
  ((length argv < 2)%nat -> main tty sec argv execs status =
     ((if tty then [Tod sec] else []) ++ [FatalUsage (default "" (argv !! 0%nat))], [], 1)) /\
  ((2 <= length argv)%nat -> main tty sec argv execs status =
     ([Tod sec; ChildExited status], if execs then [] else [FatalExec], 0)).
Proof. unfold main. split; intros H; [rewrite decide_True|rewrite decide_False]; try lia; by destruct tty, execs. Qed.

End Launch.

(** ** src/paths.c *)

Module Paths.

Definition NUM_ITS : nat := Z.to_nat (Z.shiftl 1 20).
Definition NUM_THREADS : nat := 8.

(** The line [paths] writes, by its branch. *)
Definition paths (nonce : Z) : string :=
  if nonce <? 2 then "path: nonce < 2" else "path: nonce >= 2".

Definition thread (argc : Z) : list string := replicate NUM_ITS (paths argc).

(** The lines of each thread of control, the main one last; the threads end
    before [main] does. *)
Definition main (argc : Z) : list (list string) := replicate NUM_THREADS (thread argc) ++ [thread argc].

(** The nine threads of control call [paths] 2^20 times each, and every call
    takes the same branch. *)
Lemma one_path argc : length (main argc) = 9%nat /\
  Forall (fun l => length l = Z.to_nat (2 ^ 20) /\ Forall (fun s => s = paths argc) l) (main argc).
Proof.
  assert (length (thread argc) = Z.to_nat (2 ^ 20) /\ Forall (fun s => s = paths argc) (thread argc)) as Ht.
  { unfold thread. rewrite length_replicate. split; [unfold NUM_ITS; by rewrite Z.shiftl_1_l|].
    by apply Forall_replicate. }
  unfold main. rewrite length_app, length_replicate. split; [reflexivity|].
  apply Forall_app. split; [by apply Forall_replicate|]. by apply Forall_singleton.
Qed.

End Paths.

(** ** src/bad_syscall.c *)

Module BadSyscall.

Inductive step : Set := Puts (s : string) | Syscall (nr : Z) (args : list Z).

Definition bad_syscall : Z := 500.

Definition main : list step :=
  [Puts "entering bad syscall ..."; Syscall bad_syscall [1; 2; 3; 4; 5; 6]; Puts "done"].

End BadSyscall.

(** ** src/mod.cc *)

Module Mod.

Inductive message : Set :=
  | Opening (lib : string)                     (* dlopen('%s') ... *)
  | Opened (handle : Z) (error : string).      (* -> %p (error? %s) *)

Section Loader.
(** The answers of [dlopen] and, for a library, of [dlerror]. *)
Context (dlopen : string -> Z) (dlerror : string -> string).

Definition open_lib (lib : string) : list message := [Opening lib; Opened (dlopen lib) (dlerror lib)].

Definition libraries : list string :=
  ["/home/cjones/rr/ff-prof/memory/mozalloc/libmozalloc.so";
   "/home/cjones/rr/ff-prof/db/sqlite3/src/libmozsqlite3.so";
   "/home/cjones/rr/ff-prof/security/nss/lib/nss/libnss3.so";
   "/home/cjones/rr/ff-prof/security/nss/lib/ssl/libssl3.so";
   "/home/cjones/rr/ff-prof/toolkit/library/libxul.so";
   "/home/cjones/rr/ff-prof/toolkit/system/dbus/libdbusservice.so"].

Definition main (argc : Z) : list message :=
  if 1 <? argc then open_lib "/home/cjones/rr/workbench/libctor.so"
  else concat (map open_lib libraries).

End Loader.

End Mod.
